(** * xine-lib: plugin catalog and network buffer controller

    A shallow embedding of the parts of [src/xine-engine/net_buf_ctrl.c]
    and [src/xine-engine/load_plugins.c] that the specification talks
    about, with the properties proved over it.

    Conventions.  C integers are [Z] with the wrap-around written out
    ([CInt.int32], [CInt.uint32], [CInt.int64]).  Fixed-size C arrays are
    lists of that size, read with [aget] and written with [aset].
    Pointers to plugin nodes are addresses ([nat]) into a node store, so
    that a priority changed through one alias is seen through all. *)

From Stdlib Require Import ZArith Lia Bool List String Ascii Floats Uint63.
From stdpp Require Import base list sorting.

Local Open Scope Z_scope.

(** ** C integer arithmetic *)

Module CInt.

Definition uint32 (z : Z) : Z := z mod 2 ^ 32.
Definition int32 (z : Z) : Z := (z + 2 ^ 31) mod 2 ^ 32 - 2 ^ 31.
Definition int64 (z : Z) : Z := (z + 2 ^ 63) mod 2 ^ 64 - 2 ^ 63.

Definition INT_MAX : Z := 2 ^ 31 - 1.
Definition INT_MIN : Z := - 2 ^ 31.

End CInt.

(** ** Arrays indexed by C integers *)

Definition aget (a : list Z) (i : Z) : Z := nth (Z.to_nat i) a 0.
Definition aset (a : list Z) (i : Z) (v : Z) : list Z := <[Z.to_nat i := v]> a.

(** ** net_buf_ctrl.c: the fill history *)

Definition NBC_HSIZE_LD : Z := 10.
Definition NBC_HSIZE_NUM : Z := Z.shiftl 1 NBC_HSIZE_LD.
Definition NBC_HSIZE_MASK : Z := NBC_HSIZE_NUM - 1.

(** [struct { uint32_t min, hpos; uint8_t hist[NBC_HSIZE_NUM];
    uint32_t num[256]; } stats]. *)
Record nbc_stats : Type := {
  stats_min : Z;
  stats_hpos : Z;
  stats_hist : list Z;
  stats_num : list Z
}.

(** [level = pts; level /= (90000u / 16u); if (level > 255) level = 255;] *)
Definition fill_level (pts : Z) : Z :=
  let level := CInt.uint32 pts / (90000 / 16) in
  if level >? 255 then 255 else level.

(** The value handed back: [min * (90000 / 16u)] is computed in
    [unsigned] and converted to the [int] result. *)
Definition level_pts (level : Z) : Z :=
  CInt.int32 (CInt.uint32 (level * (90000 / 16))).

Definition nbc_stats_reset (_ : nbc_stats) : nbc_stats :=
  {| stats_min := 0;
     stats_hpos := 0;
     stats_hist := replicate (Z.to_nat NBC_HSIZE_NUM) 0;
     stats_num := aset (replicate 256 0) 0 NBC_HSIZE_NUM |}.

Definition nbc_stats_flat (s : nbc_stats) (pts : Z) : nbc_stats :=
  let pts := if pts <? 0 then 0 else pts in
  let level := fill_level pts in
  {| stats_min := level;
     stats_hpos := stats_hpos s;
     stats_hist := replicate (Z.to_nat NBC_HSIZE_NUM) level;
     stats_num := aset (replicate 256 0) level NBC_HSIZE_NUM |}.

(** [for (min = this->stats.min; this->stats.num[min] <= 0; min++) ;]
    The loop has no bound of its own; [fuel] is the number of buckets
    left in [num], and [None] stands for a read past [num[255]]. *)
Fixpoint scan_min (fuel : nat) (num : list Z) (m : Z) : option Z :=
  match fuel with
  | O => None
  | S fuel' =>
      if aget num m <=? 0 then scan_min fuel' num (m + 1) else Some m
  end.

Definition nbc_stats_add (s : nbc_stats) (pts : Z) : option (nbc_stats * Z) :=
  if pts <? 0 then Some (s, level_pts (stats_min s))
  else
    let level := fill_level pts in
    let hpos := Z.land (stats_hpos s + 1) NBC_HSIZE_MASK in
    let old := aget (stats_hist s) hpos in
    let num1 := aset (stats_num s) old (CInt.uint32 (aget (stats_num s) old - 1)) in
    let hist := aset (stats_hist s) hpos level in
    let num2 := aset num1 level (CInt.uint32 (aget num1 level + 1)) in
    let found :=
      if level <? stats_min s then Some level
      else scan_min (Z.to_nat (256 - stats_min s)) num2 (stats_min s) in
    match found with
    | None => None
    | Some m =>
        Some ({| stats_min := m; stats_hpos := hpos;
                 stats_hist := hist; stats_num := num2 |},
              level_pts m)
    end.

(** Feeding a whole sequence of samples, collecting the returned minima. *)
Fixpoint nbc_stats_run (s : nbc_stats) (samples : list Z) : option (list Z) :=
  match samples with
  | [] => Some []
  | pts :: rest =>
      match nbc_stats_add s pts with
      | None => None
      | Some (s', r) =>
          match nbc_stats_run s' rest with
          | None => None
          | Some rs => Some (r :: rs)
          end
      end
  end.

(** *** The reference the specification compares with

    A plain ring of 1024 quantized samples whose minimum is recomputed
    by a full pass on every sample. *)
Module Naive.

Record ring : Type := { cells : list Z; cursor : nat }.

Definition quantize (pts : Z) : Z := Z.min 255 (pts / 5625).

Definition start : ring := {| cells := replicate 1024 0; cursor := 0 |}.

Definition minimum (l : list Z) : Z :=
  match l with
  | [] => 0
  | x :: t => foldr Z.min x t
  end.

Definition feed (h : ring) (pts : Z) : ring * Z :=
  let p := ((cursor h + 1) mod 1024)%nat in
  let c := <[p := quantize pts]> (cells h) in
  ({| cells := c; cursor := p |}, 5625 * minimum c).

Fixpoint run (h : ring) (samples : list Z) : list Z :=
  match samples with
  | [] => []
  | pts :: rest => let '(h', r) := feed h pts in r :: run h' rest
  end.

End Naive.

(** The controller's statistics [s] represent the ring [h]. *)
Record stats_repr (s : nbc_stats) (h : Naive.ring) : Prop := {
  repr_hist : stats_hist s = Naive.cells h;
  repr_hpos : stats_hpos s = Z.of_nat (Naive.cursor h);
  repr_cursor : (Naive.cursor h < 1024)%nat;
  repr_len : length (Naive.cells h) = 1024%nat;
  repr_range : forall x, In x (Naive.cells h) -> 0 <= x <= 255;
  repr_num_len : length (stats_num s) = 256%nat;
  repr_num : forall v, 0 <= v <= 255 ->
      aget (stats_num s) v = Z.of_nat (count_occ Z.eq_dec (Naive.cells h) v);
  repr_min : stats_min s = Naive.minimum (Naive.cells h)
}.

(** ** net_buf_ctrl.c: the controller state *)

(** [fifo_info->type]: each of the two infos is registered on one fifo,
    [BUF_VIDEO_BASE] for [this->video], [BUF_AUDIO_BASE] for
    [this->audio]. *)
Inductive fifo_type : Type := BUF_VIDEO_BASE | BUF_AUDIO_BASE.

(** [xine_nbc_fifo_info_t], with the one field of [fifo_buffer_t] the
    speed controller reads ([fifo->buffer_pool_capacity]). *)
Record xine_nbc_fifo_info_t : Type := {
  last_in_pts : Z;
  last_out_pts : Z;
  fifo_pos_pts : Z;
  fill_pts : Z;
  out_pts : Z;
  fifo_fill : Z;
  fifo_free : Z;
  fifo_size : Z;
  buffer_pool_capacity : Z
}.

(** [this->delay.state] *)
Inductive nbc_delay_state : Type :=
  NBC_DELAY_OFF | NBC_DELAY_READY | NBC_DELAY_RUN | NBC_DELAY_STOP | NBC_DELAY_JOIN.

Record xine_nbc_t : Type := {
  buffering : Z;
  enabled : Z;
  progress : Z;
  audio : xine_nbc_fifo_info_t;
  video : xine_nbc_fifo_info_t;
  high_water_mark : Z;
  pos_pts : Z;
  dvbspeed : Z;
  dvbs_center : Z;
  dvbs_width : Z;
  stats : nbc_stats
}.

Definition fifo_info (this : xine_nbc_t) (ty : fifo_type) : xine_nbc_fifo_info_t :=
  match ty with
  | BUF_VIDEO_BASE => video this
  | BUF_AUDIO_BASE => audio this
  end.

Definition set_dvbspeed (v : Z) (this : xine_nbc_t) : xine_nbc_t :=
  {| buffering := buffering this; enabled := enabled this;
     progress := progress this; audio := audio this; video := video this;
     high_water_mark := high_water_mark this; pos_pts := pos_pts this;
     dvbspeed := v;
     dvbs_center := dvbs_center this; dvbs_width := dvbs_width this;
     stats := stats this |}.

Definition set_dvbs_center (v : Z) (this : xine_nbc_t) : xine_nbc_t :=
  {| buffering := buffering this; enabled := enabled this;
     progress := progress this; audio := audio this; video := video this;
     high_water_mark := high_water_mark this; pos_pts := pos_pts this;
     dvbspeed := dvbspeed this;
     dvbs_center := v; dvbs_width := dvbs_width this;
     stats := stats this |}.

Definition set_dvbs_width (v : Z) (this : xine_nbc_t) : xine_nbc_t :=
  {| buffering := buffering this; enabled := enabled this;
     progress := progress this; audio := audio this; video := video this;
     high_water_mark := high_water_mark this; pos_pts := pos_pts this;
     dvbspeed := dvbspeed this;
     dvbs_center := dvbs_center this; dvbs_width := v;
     stats := stats this |}.

Definition set_stats (v : nbc_stats) (this : xine_nbc_t) : xine_nbc_t :=
  {| buffering := buffering this; enabled := enabled this;
     progress := progress this; audio := audio this; video := video this;
     high_water_mark := high_water_mark this; pos_pts := pos_pts this;
     dvbspeed := dvbspeed this;
     dvbs_center := dvbs_center this; dvbs_width := dvbs_width this;
     stats := v |}.

(** What the controller asks of its collaborators while a callback
    runs: the delay agent (threads and wall-clock time, outside this
    model) is driven through these calls only. *)
Inductive nbc_call : Type :=
  | Call_delay_base
  | Call_delay_set (pts : Z)
  | Call_delay_clean.

(** ** net_buf_ctrl.c: the live speed controller *)

Section Dvbspeed.

(** [XINE_FINE_SPEED_NORMAL] comes from [xine.h], which is not among
    the sources. *)
Variable XINE_FINE_SPEED_NORMAL : Z.

(** [(mask >> this->dvbspeed) & 1] *)
Definition speed_bit (mask : Z) (speed : Z) : bool :=
  negb (Z.land (Z.shiftr mask speed) 1 =? 0).

(** The early [return -1] at the head of [dvbspeed_put] and
    [dvbspeed_get]. *)
Definition dvbspeed_gate (ty : fifo_type) (this : xine_nbc_t) : bool :=
  match ty with
  | BUF_VIDEO_BASE => speed_bit 0x71 (dvbspeed this)
  | BUF_AUDIO_BASE => speed_bit 0x0f (dvbspeed this)
  end.

(** [this->dvbspeed = (fifo_info->type == BUF_VIDEO_BASE) ? 1 : 4;
    if (used < 30) this->dvbs_width = 135000;] *)
Definition enter_normal (ty : fifo_type) (used : Z) (this : xine_nbc_t) : xine_nbc_t :=
  let this := set_dvbspeed (match ty with BUF_VIDEO_BASE => 1 | BUF_AUDIO_BASE => 4 end) this in
  if used <? 30 then set_dvbs_width 135000 this else this.

(** The result is [None] only where [nbc_stats_add] reads past its
    bucket array; otherwise the new state, the returned speed ([-1]:
    no change) and the calls made, in order.  [fine_speed] is what
    [_x_get_fine_speed] answers. *)
Definition dvbspeed_put (ty : fifo_type) (fine_speed : Z) (this : xine_nbc_t)
  : option (xine_nbc_t * Z * list nbc_call) :=
  if dvbspeed_gate ty this then Some (this, -1, [])
  else
    let info := fifo_info this ty in
    let all_fill := CInt.int32 (fill_pts info + out_pts info) in
    let used := fifo_fill info in
    let cap := buffer_pool_capacity info in
    if (dvbspeed this =? 1) || (dvbspeed this =? 4) then
      match nbc_stats_add (stats this) all_fill with
      | None => None
      | Some (st, all_fill) =>
          let this := set_stats st this in
          if (all_fill >? CInt.int32 (dvbs_center this + dvbs_width this))
             || (CInt.int32 (100 * used) >? CInt.int32 (98 * cap))
          then Some (set_dvbspeed (CInt.int32 (dvbspeed this + 2)) this,
                     Z.quot (CInt.int32 (XINE_FINE_SPEED_NORMAL * 1005)) 1000,
                     [])
          else Some (this, -1, [])
      end
    else if dvbspeed this =? 7 then
      let '(speed, calls) :=
        if negb (fine_speed =? 0) then (0, [Call_delay_base]) else (-1, []) in
      if (all_fill >? dvbs_center this)
         || (CInt.int32 (100 * used) >? CInt.int32 (73 * cap))
      then
        let this := set_dvbs_center (2 * 90000) this in
        let this :=
          if negb (last_in_pts (audio this) =? 0)
             && negb (last_in_pts (video this) =? 0)
             && match ty with BUF_VIDEO_BASE => true | BUF_AUDIO_BASE => false end
          then
            let d := CInt.int64 (CInt.int64 (last_in_pts (video this)
                                             - last_in_pts (audio this)) + 110000) in
            if (d <? 3 * 90000) && (d >? dvbs_center this)
            then set_dvbs_center (CInt.int32 d) this
            else this
          else this in
        let this := set_stats (nbc_stats_flat (stats this) all_fill) this in
        let calls := calls ++ [Call_delay_set (CInt.uint32 (dvbs_center this))] in
        Some (enter_normal ty used this, speed, calls)
      else Some (this, speed, calls)
    else if (dvbspeed this =? 2) || (dvbspeed this =? 5) then
      match nbc_stats_add (stats this) all_fill with
      | None => None
      | Some (st, all_fill) =>
          let this := set_stats st this in
          if (all_fill >? dvbs_center this)
             || (CInt.int32 (100 * used) >? CInt.int32 (73 * cap))
          then Some (enter_normal ty used this, -1,
                     [Call_delay_set (CInt.uint32 (dvbs_center this))])
          else Some (this, -1, [])
      end
    else Some (this, -1, []).

Definition dvbspeed_get (ty : fifo_type) (this : xine_nbc_t)
  : option (xine_nbc_t * Z * list nbc_call) :=
  if dvbspeed_gate ty this then Some (this, -1, [Call_delay_clean])
  else
    let info := fifo_info this ty in
    let all_fill := CInt.int32 (fill_pts info + out_pts info) in
    let used := fifo_fill info in
    let cap := buffer_pool_capacity info in
    if (dvbspeed this =? 4) || (dvbspeed this =? 1) then
      match nbc_stats_add (stats this) all_fill with
      | None => None
      | Some (st, all_fill) =>
          let this := set_stats st this in
          if negb (all_fill =? 0)
             && (all_fill <? CInt.int32 (dvbs_center this - dvbs_width this))
             && (CInt.int32 (100 * used) <? CInt.int32 (38 * cap))
          then Some (set_dvbspeed (CInt.int32 (dvbspeed this + 1)) this,
                     Z.quot (CInt.int32 (XINE_FINE_SPEED_NORMAL * 995)) 1000,
                     [Call_delay_clean])
          else Some (this, -1, [Call_delay_clean])
      end
    else if (dvbspeed this =? 2) || (dvbspeed this =? 5) then
      if used <=? 1
      then Some (set_stats (nbc_stats_reset (stats this)) (set_dvbspeed 7 this),
                 0, [Call_delay_clean])
      else Some (this, -1, [Call_delay_clean])
    else if (dvbspeed this =? 6) || (dvbspeed this =? 3) then
      match nbc_stats_add (stats this) all_fill with
      | None => None
      | Some (st, all_fill) =>
          let this := set_stats st this in
          if negb (all_fill =? 0)
             && (all_fill <? dvbs_center this)
             && (CInt.int32 (100 * used) <? CInt.int32 (73 * cap))
          then Some (set_dvbspeed (CInt.int32 (dvbspeed this - 2)) this,
                     XINE_FINE_SPEED_NORMAL,
                     [Call_delay_clean])
          else Some (this, -1, [Call_delay_clean])
      end
    else Some (this, -1, [Call_delay_clean]).

End Dvbspeed.

(** ** net_buf_ctrl.c: fill time from consecutive timestamps *)

(** The body of the [do { ... } while (0)] in [nbc_put_cb] and
    [nbc_get_cb] up to the point where the difference is used: [Some]
    of the (possibly wrap-corrected) difference, [None] for [break]. *)
Definition pts_diff_check (diff : Z) : option Z :=
  if diff <? -220000 then
    (* try mpeg pts wrap *)
    let diff := CInt.int64 (diff + Z.shiftl 1 33) in
    if (diff <? -220000) || (diff >? 220000) then None else Some diff
  else if diff >? 220000 then
    let diff := CInt.int64 (diff - Z.shiftl 1 33) in
    if (diff <? -220000) || (diff >? 220000) then None else Some diff
  else Some diff.

Definition set_in_pts (last pos fill : Z) (info : xine_nbc_fifo_info_t)
  : xine_nbc_fifo_info_t :=
  {| last_in_pts := last; last_out_pts := last_out_pts info;
     fifo_pos_pts := pos; fill_pts := fill; out_pts := out_pts info;
     fifo_fill := fifo_fill info; fifo_free := fifo_free info;
     fifo_size := fifo_size info;
     buffer_pool_capacity := buffer_pool_capacity info |}.

Definition set_out_pts (last fill : Z) (info : xine_nbc_fifo_info_t)
  : xine_nbc_fifo_info_t :=
  {| last_in_pts := last_in_pts info; last_out_pts := last;
     fifo_pos_pts := fifo_pos_pts info; fill_pts := fill; out_pts := out_pts info;
     fifo_fill := fifo_fill info; fifo_free := fifo_free info;
     fifo_size := fifo_size info;
     buffer_pool_capacity := buffer_pool_capacity info |}.

(** [nbc_put_cb], "update fifo fill time": the [if (buf->pts) { ... }]
    block, for a buffer whose major type is the fifo's. *)
Definition nbc_put_cb_fill (buf_pts : Z) (info : xine_nbc_fifo_info_t)
  : xine_nbc_fifo_info_t :=
  if buf_pts =? 0 then info
  else if last_in_pts info =? 0 then
    set_in_pts buf_pts (fifo_pos_pts info) (fill_pts info) info
  else
    match pts_diff_check (CInt.int64 (buf_pts - last_in_pts info)) with
    | None => set_in_pts buf_pts (fifo_pos_pts info) (fill_pts info) info
    | Some diff =>
        set_in_pts buf_pts
          (CInt.int64 (fifo_pos_pts info + diff))
          (CInt.int32 (fill_pts info + CInt.int32 diff))
          info
    end.

(** The same block of [nbc_get_cb]. *)
Definition nbc_get_cb_fill (buf_pts : Z) (info : xine_nbc_fifo_info_t)
  : xine_nbc_fifo_info_t :=
  if buf_pts =? 0 then info
  else if last_out_pts info =? 0 then
    set_out_pts buf_pts (fill_pts info) info
  else
    match pts_diff_check (CInt.int64 (buf_pts - last_out_pts info)) with
    | None => set_out_pts buf_pts (fill_pts info) info
    | Some diff =>
        set_out_pts buf_pts (CInt.int32 (fill_pts info - CInt.int32 diff)) info
    end.

(** The wrap correction tried on an implausible difference. *)
Definition wrap_corrected (diff : Z) : Z :=
  if diff <? 0 then diff + 2 ^ 33 else diff - 2 ^ 33.

(** The fill after a timestamp difference [diff] went through the
    sanity check: taken as it is when plausible, after one wrap
    correction when that makes it plausible, dropped otherwise. *)
Definition fill_after (fill : Z) (sign : Z) (diff : Z) : Z :=
  if Z.abs diff <=? 220000 then CInt.int32 (fill + sign * diff)
  else if Z.abs (wrap_corrected diff) <=? 220000
       then CInt.int32 (fill + sign * wrap_corrected diff)
       else fill.

(** ** net_buf_ctrl.c: the high water mark

    [xine_nbc_init] computes the mark in [double]; the model uses the
    binary64 numbers of the kernel. *)

Definition DEFAULT_HIGH_WATER_MARK : Z := 5000.

(** [(double)i] for an [int] *)
Definition double_of_int (i : Z) : float :=
  if i <? 0 then PrimFloat.opp (PrimFloat.of_uint63 (Uint63.of_Z (- i)))
  else PrimFloat.of_uint63 (Uint63.of_Z i).

(** The integer part of a finite [double], towards zero. *)
Definition double_trunc (f : float) : option Z :=
  match Prim2SF f with
  | S754_zero _ => Some 0
  | S754_finite sign m e =>
      let a := match e with
               | Z0 => Zpos m
               | Zpos p => Z.shiftl (Zpos m) (Zpos p)
               | Zneg p => Z.shiftr (Zpos m) (Zpos p)
               end in
      Some (if sign then - a else a)
  | S754_infinity _ | S754_nan => None
  end.

(** Assigning a [double] to a [uint32_t]: defined only when the integer
    part fits. *)
Definition uint32_of_double (f : float) : option Z :=
  match double_trunc f with
  | Some z => if (0 <=? z) && (z <? 2 ^ 32) then Some z else None
  | None => None
  end.

(** [entry ? (double)capacity / (double)entry->num_default : 1.0];
    [entry] is the configuration entry of the queue's buffer count,
    absent when the stream has no such output. *)
Definition fifo_factor (num_default : option Z) (capacity : Z) : float :=
  match num_default with
  | Some d => PrimFloat.div (double_of_int capacity) (double_of_int d)
  | None => 1%float
  end.

(** The value [xine_nbc_init] stores in [this->high_water_mark]. *)
Definition xine_nbc_init_high_water_mark
    (video_num_default audio_num_default : option Z)
    (video_capacity audio_capacity : Z) : option Z :=
  let video_fifo_factor := fifo_factor video_num_default video_capacity in
  let audio_fifo_factor := fifo_factor audio_num_default audio_capacity in
  (* use the smaller factor *)
  if PrimFloat.ltb video_fifo_factor audio_fifo_factor
  then uint32_of_double
         (PrimFloat.mul (double_of_int DEFAULT_HIGH_WATER_MARK) video_fifo_factor)
  else uint32_of_double
         (PrimFloat.mul (double_of_int DEFAULT_HIGH_WATER_MARK) audio_fifo_factor).

(** *** Whole multiples of the default capacity

    The integers [1 .. n], and the two facts about the arithmetic in
    [double] that are settled by evaluation over them: a queue of [k]
    times its default [d] gets the factor [k], and factors [kv] and
    [ka] give the mark [DEFAULT_HIGH_WATER_MARK * min kv ka]. *)
Definition zrange (n : nat) : list Z := map Z.of_nat (seq 1 n).

Definition factor_is (k d : Z) : bool :=
  PrimFloat.Leibniz.eqb (fifo_factor (Some d) (k * d)) (double_of_int k).

Definition factors_exact (D K : nat) : bool :=
  forallb (fun d => forallb (fun k => factor_is k d) (zrange K)) (zrange D).

Definition mark_of_factors (vf af : float) : option Z :=
  if PrimFloat.ltb vf af
  then uint32_of_double (PrimFloat.mul (double_of_int DEFAULT_HIGH_WATER_MARK) vf)
  else uint32_of_double (PrimFloat.mul (double_of_int DEFAULT_HIGH_WATER_MARK) af).

Definition mark_is (kv ka : Z) : bool :=
  match mark_of_factors (double_of_int kv) (double_of_int ka) with
  | Some m => m =? DEFAULT_HIGH_WATER_MARK * Z.min kv ka
  | None => false
  end.

Definition marks_exact (K : nat) : bool :=
  forallb (fun kv => forallb (fun ka => mark_is kv ka) (zrange K)) (zrange K).

(** ** Vocabulary of the statements about the speed controller *)

(** [fifo_info->fill_pts + fifo_info->out_pts], as [dvbspeed_put] and
    [dvbspeed_get] compute it. *)
Definition all_fill_of (info : xine_nbc_fifo_info_t) : Z :=
  CInt.int32 (fill_pts info + out_pts info).

(** More than [percent] of the buffer pool in use:
    [100 * used > percent * fifo->buffer_pool_capacity]. *)
Definition occupancy_above (percent : Z) (info : xine_nbc_fifo_info_t) : bool :=
  CInt.int32 (100 * fifo_fill info)
  >? CInt.int32 (percent * buffer_pool_capacity info).

(** The fifo a state watches: video in 1..3, audio in 4..6. *)
Definition normal_state (ty : fifo_type) : Z :=
  match ty with BUF_VIDEO_BASE => 1 | BUF_AUDIO_BASE => 4 end.

(** The state that plays 0.5% faster to empty the watched fifo. *)
Definition fast_state (ty : fifo_type) : Z :=
  match ty with BUF_VIDEO_BASE => 3 | BUF_AUDIO_BASE => 6 end.

(** The state the specification calls SLOW_FILL: 0.5% slower to fill
    the watched fifo. *)
Definition slow_state (ty : fifo_type) : Z :=
  match ty with BUF_VIDEO_BASE => 2 | BUF_AUDIO_BASE => 5 end.

(** *** Sample controller states *)

Definition sample_info (fill used : Z) : xine_nbc_fifo_info_t :=
  {| last_in_pts := 0; last_out_pts := 0; fifo_pos_pts := 0;
     fill_pts := fill; out_pts := 0;
     fifo_fill := used; fifo_free := 500 - used; fifo_size := 0;
     buffer_pool_capacity := 500 |}.

(** A live controller in state [speed] whose history is flat at the
    level of [fill], the video fifo holding [fill] pts in [used]
    buffers, with the centre and width [dvbspeed_init] sets. *)
Definition sample_nbc (speed fill used : Z) : xine_nbc_t :=
  {| buffering := 1; enabled := 1; progress := 0;
     audio := sample_info 0 0;
     video := sample_info fill used;
     high_water_mark := DEFAULT_HIGH_WATER_MARK;
     pos_pts := 0;
     dvbspeed := speed;
     dvbs_center := 2 * 90000; dvbs_width := 90000;
     stats := nbc_stats_flat
                (nbc_stats_reset {| stats_min := 0; stats_hpos := 0;
                                    stats_hist := []; stats_num := [] |})
                fill |}.

(** ** load_plugins.c: plugin nodes and the catalog *)

(** [info->type & PLUGIN_TYPE_MASK], for the values that name a plugin
    type.  The enumerators are declared in [xine_plugin.h], which is
    not among the sources; the code uses them as tags and as the index
    of [plugin_lists] only. *)
Inductive plugin_type : Type :=
  | PLUGIN_INPUT
  | PLUGIN_DEMUX
  | PLUGIN_AUDIO_DECODER
  | PLUGIN_VIDEO_DECODER
  | PLUGIN_SPU_DECODER
  | PLUGIN_AUDIO_OUT
  | PLUGIN_VIDEO_OUT
  | PLUGIN_POST
  | PLUGIN_XINE_MODULE.

#[global] Instance plugin_type_eq_dec : EqDecision plugin_type.
Proof. solve_decision. Defined.

Definition is_decoder (ty : plugin_type) : bool :=
  match ty with
  | PLUGIN_AUDIO_DECODER | PLUGIN_VIDEO_DECODER | PLUGIN_SPU_DECODER => true
  | _ => false
  end.

(** The members of [all_info_t] the catalog reads.  In C they overlap
    in a union and every plugin type reads its own. *)
Record all_info_t : Type := {
  ai_priority : Z;
  ai_supported_types : option (list Z);
  ai_visual_type : Z;
  ai_post_type : Z
}.

(** [plugin_info_t] as a plugin hands it to [_insert_node]: a missing
    pointer is [None] ([id], [special_info]) or [false] ([init]);
    [info_type] is [None] when the masked type names no plugin type. *)
Record plugin_info_t : Type := {
  info_type : option plugin_type;
  info_no_unload : bool;
  info_API : Z;
  info_id : option string;
  info_version : Z;
  info_special : option all_info_t;
  info_init : bool
}.

(** [fat_node_t]: the node with the copies it owns. *)
Record fat_node_t : Type := {
  node_type : plugin_type;
  node_id : string;
  node_priority : Z;
  node_ref : Z;
  node_plugin_class : bool;
  ainfo_priority : Z;
  ainfo_supported_types : list Z;
  ainfo_visual_type : Z;
  ainfo_post_type : Z
}.

Definition set_node_priority (p : Z) (n : fat_node_t) : fat_node_t :=
  {| node_type := node_type n; node_id := node_id n; node_priority := p;
     node_ref := node_ref n; node_plugin_class := node_plugin_class n;
     ainfo_priority := ainfo_priority n;
     ainfo_supported_types := ainfo_supported_types n;
     ainfo_visual_type := ainfo_visual_type n;
     ainfo_post_type := ainfo_post_type n |}.

Definition set_node_ref (r : Z) (n : fat_node_t) : fat_node_t :=
  {| node_type := node_type n; node_id := node_id n;
     node_priority := node_priority n;
     node_ref := r; node_plugin_class := node_plugin_class n;
     ainfo_priority := ainfo_priority n;
     ainfo_supported_types := ainfo_supported_types n;
     ainfo_visual_type := ainfo_visual_type n;
     ainfo_post_type := ainfo_post_type n |}.

Definition set_node_plugin_class (b : bool) (n : fat_node_t) : fat_node_t :=
  {| node_type := node_type n; node_id := node_id n;
     node_priority := node_priority n;
     node_ref := node_ref n; node_plugin_class := b;
     ainfo_priority := ainfo_priority n;
     ainfo_supported_types := ainfo_supported_types n;
     ainfo_visual_type := ainfo_visual_type n;
     ainfo_post_type := ainfo_post_type n |}.

(** A decoder map: [DECODER_MAX] rows of [PLUGINS_PER_TYPE] node
    pointers, [None] for [NULL]. *)
Abbreviation decoder_map_t := (list (list (option nat))).

(** [plugin_catalog_t].  Nodes live in a store indexed by address;
    the lists and maps hold addresses.  [plugin_lists ty] is
    [plugin_lists[ty - 1]], and [modules_list] for [PLUGIN_XINE_MODULE]. *)
Record plugin_catalog_t : Type := {
  nodes : nat -> fat_node_t;
  nodes_end : nat;
  plugin_lists : plugin_type -> list nat;
  audio_decoder_map : decoder_map_t;
  video_decoder_map : decoder_map_t;
  spu_decoder_map : decoder_map_t;
  plugin_count : Z;
  decoder_count : Z
}.

Definition set_nodes (f : nat -> fat_node_t) (c : plugin_catalog_t) : plugin_catalog_t :=
  {| nodes := f; nodes_end := nodes_end c; plugin_lists := plugin_lists c;
     audio_decoder_map := audio_decoder_map c;
     video_decoder_map := video_decoder_map c;
     spu_decoder_map := spu_decoder_map c;
     plugin_count := plugin_count c; decoder_count := decoder_count c |}.

Definition update_node (a : nat) (f : fat_node_t -> fat_node_t)
    (c : plugin_catalog_t) : plugin_catalog_t :=
  set_nodes (fun b => if Nat.eqb b a then f (nodes c a) else nodes c b) c.

Definition set_plugin_list (ty : plugin_type) (l : list nat)
    (c : plugin_catalog_t) : plugin_catalog_t :=
  {| nodes := nodes c; nodes_end := nodes_end c;
     plugin_lists := fun ty' => if decide (ty' = ty) then l else plugin_lists c ty';
     audio_decoder_map := audio_decoder_map c;
     video_decoder_map := video_decoder_map c;
     spu_decoder_map := spu_decoder_map c;
     plugin_count := plugin_count c; decoder_count := decoder_count c |}.

(** The map a decoder type is dispatched through:
    [type == PLUGIN_AUDIO_DECODER ? audio_decoder_map :
     type == PLUGIN_VIDEO_DECODER ? video_decoder_map : spu_decoder_map]. *)
Definition decoder_map (ty : plugin_type) (c : plugin_catalog_t) : decoder_map_t :=
  match ty with
  | PLUGIN_AUDIO_DECODER => audio_decoder_map c
  | PLUGIN_VIDEO_DECODER => video_decoder_map c
  | _ => spu_decoder_map c
  end.

Definition set_decoder_map (ty : plugin_type) (m : decoder_map_t)
    (c : plugin_catalog_t) : plugin_catalog_t :=
  {| nodes := nodes c; nodes_end := nodes_end c; plugin_lists := plugin_lists c;
     audio_decoder_map :=
       match ty with PLUGIN_AUDIO_DECODER => m | _ => audio_decoder_map c end;
     video_decoder_map :=
       match ty with PLUGIN_VIDEO_DECODER => m | _ => video_decoder_map c end;
     spu_decoder_map :=
       match ty with
       | PLUGIN_AUDIO_DECODER | PLUGIN_VIDEO_DECODER => spu_decoder_map c
       | _ => m
       end;
     plugin_count := plugin_count c; decoder_count := decoder_count c |}.

Definition set_counts (pc dc : Z) (c : plugin_catalog_t) : plugin_catalog_t :=
  {| nodes := nodes c; nodes_end := nodes_end c; plugin_lists := plugin_lists c;
     audio_decoder_map := audio_decoder_map c;
     video_decoder_map := video_decoder_map c;
     spu_decoder_map := spu_decoder_map c;
     plugin_count := pc; decoder_count := dc |}.

Definition set_nodes_end (e : nat) (c : plugin_catalog_t) : plugin_catalog_t :=
  {| nodes := nodes c; nodes_end := e; plugin_lists := plugin_lists c;
     audio_decoder_map := audio_decoder_map c;
     video_decoder_map := video_decoder_map c;
     spu_decoder_map := spu_decoder_map c;
     plugin_count := plugin_count c; decoder_count := decoder_count c |}.

(** ** load_plugins.c: the sorted lists *)

(** [_plugin_node_comparator]: positive when [a] has the lower
    priority, so that a list sorted by it has falling priorities. *)
Definition _plugin_node_comparator (nd : nat -> fat_node_t) (a b : nat) : Z :=
  Z.b2z (node_priority (nd a) <? node_priority (nd b))
  - Z.b2z (node_priority (nd a) >? node_priority (nd b)).

(** [strcmp], by its sign. *)
Definition strcmp (a b : string) : Z :=
  match String.compare a b with
  | Eq => 0
  | Lt => -1
  | Gt => 1
  end.

Definition _post_plugin_node_comparator (nd : nat -> fat_node_t) (a b : nat) : Z :=
  if negb (node_priority (nd a) =? node_priority (nd b))
  then (if node_priority (nd a) <? node_priority (nd b) then 1 else -1)
  else strcmp (node_id (nd a)) (node_id (nd b)).

(** The comparator [_new_catalog] gives each list. *)
Definition list_comparator (ty : plugin_type) : (nat -> fat_node_t) -> nat -> nat -> Z :=
  match ty with
  | PLUGIN_POST => _post_plugin_node_comparator
  | _ => _plugin_node_comparator
  end.

(** Modelled from the spec: the sorted array [xine_sarray_t]
    ([xine_sarray_add], [xine_sarray_remove_ptr]) is not among the
    sources.  The specification has the catalog own "one
    priority-ordered collection per plugin type (ordered by descending
    priority)": [xine_sarray_add] puts the new element where the
    comparator keeps the array ordered, here behind the elements that do
    not compare greater. *)
Fixpoint xine_sarray_add (cmp : nat -> nat -> Z) (l : list nat) (x : nat) : list nat :=
  match l with
  | [] => [x]
  | e :: t => if cmp x e <? 0 then x :: e :: t else e :: xine_sarray_add cmp t x
  end.

(** Modelled from the spec: [xine_sarray_remove_ptr] takes the first
    element equal to the pointer out; [None] stands for its [~0]
    ("callback was triggered before the entry was added to plugin
    list"). *)
Fixpoint xine_sarray_remove_ptr (l : list nat) (x : nat) : option (list nat) :=
  match l with
  | [] => None
  | e :: t =>
      if Nat.eqb e x then Some t
      else match xine_sarray_remove_ptr t x with
           | Some t' => Some (e :: t')
           | None => None
           end
  end.

(** ** load_plugins.c: catalog operations *)

Definition row_of (m : decoder_map_t) (stream_type : nat) : list (option nat) :=
  default [] (m !! stream_type).

(** [(type[0] >> 16) & 0xFF] *)
Definition stream_type_of (type : Z) : nat :=
  Z.to_nat (Z.land (Z.shiftr type 16) 0xFF).

(** [user_prio ? user_prio * 100 : decoder_info.priority], in [int]. *)
Definition decoder_priority (user_prio default_priority : Z) : Z :=
  if user_prio =? 0 then default_priority else CInt.int32 (user_prio * 100).

(** What [_load_plugin_class] does on a node without class: it fails
    and returns 0; or it sets [node->plugin_class] and returns 1; or,
    for a statically linked plugin whose [init] returns [NULL], it
    returns 1 and the class stays [NULL]. *)
Inductive load_result : Type :=
  | LOAD_FAILED
  | LOAD_CLASS
  | LOAD_NO_CLASS.

(** What [open_plugin] of a decoder class hands back: [NULL], the
    pointer [1] ("resources temporarily unavailable"), or an instance. *)
Inductive open_result : Type :=
  | OPEN_NULL
  | OPEN_UNAVAILABLE
  | OPEN_INSTANCE.

(** The pointer a decoder getter returns. *)
Inductive decoder_ptr : Type :=
  | DECODER_NULL
  | DECODER_ONE
  | DECODER_INSTANCE (node : nat).

Section Catalog.

(** [PLUGINS_PER_TYPE], [DECODER_MAX] and [PLUGIN_MAX] are defined in
    [plugin_catalog.h], and the interface versions behind
    [plugin_iface_versions] in the plugin headers; none of them is among
    the sources. *)
Variable PLUGINS_PER_TYPE : nat.
Variable DECODER_MAX : nat.
Variable PLUGIN_MAX : Z.
Variable plugin_iface_versions : plugin_type -> Z.

(** [for (pos = 0; pos < PLUGINS_PER_TYPE; pos++)
       if (!decoder_map[streamtype][pos]) break;] *)
Fixpoint find_free (fuel pos : nat) (row : list (option nat)) : nat :=
  match fuel with
  | O => pos
  | S fuel' =>
      match row !! pos with
      | Some (Some _) => find_free fuel' (S pos) row
      | _ => pos
      end
  end.

(** One pass of the [while (type && type[0])] body of
    [map_decoder_list].  A stream type outside the map is outside the
    C array; the model drops the write. *)
Definition map_decoder (node : nat) (streamtype : nat) (m : decoder_map_t)
  : decoder_map_t :=
  let row := row_of m streamtype in
  let pos := find_free PLUGINS_PER_TYPE 0 row in
  if Nat.eqb pos PLUGINS_PER_TYPE then m
  else
    let row := if (pos <? PLUGINS_PER_TYPE - 1)%nat
               then <[S pos := None]> row else row in
    <[streamtype := <[pos := Some node]> row]> m.

Fixpoint map_supported_types (node : nat) (types : list Z) (m : decoder_map_t)
  : decoder_map_t :=
  match types with
  | [] => m
  | type :: rest =>
      if type =? 0 then m
      else map_supported_types node rest (map_decoder node (stream_type_of type) m)
  end.

(** [for (i = 0; i < DECODER_MAX; i++) decoder_map[i][0] = NULL;] *)
Definition clear_heads (m : decoder_map_t) : decoder_map_t :=
  foldl (fun m i => <[i := <[0%nat := None]> (row_of m i)]> m) m (seq 0 DECODER_MAX).

Definition map_decoder_list (nd : nat -> fat_node_t) (decoder_list : list nat)
    (m : decoder_map_t) : decoder_map_t :=
  foldl (fun m node => map_supported_types node (ainfo_supported_types (nd node)) m)
        (clear_heads m) decoder_list.

Definition map_decoder_type (ty : plugin_type) (c : plugin_catalog_t)
  : plugin_catalog_t :=
  set_decoder_map ty
    (map_decoder_list (nodes c) (plugin_lists c ty) (decoder_map ty c)) c.

Definition map_decoders (c : plugin_catalog_t) : plugin_catalog_t :=
  map_decoder_type PLUGIN_SPU_DECODER
    (map_decoder_type PLUGIN_VIDEO_DECODER
       (map_decoder_type PLUGIN_AUDIO_DECODER c)).

(** [_decoder_priority_cb (data, cfg)], with [num_value] for
    [cfg->num_value]. *)
Definition _decoder_priority_cb (data : option nat) (num_value : Z)
    (c : plugin_catalog_t) : plugin_catalog_t :=
  match data with
  | None => c
  | Some node =>
      let type := node_type (nodes c node) in
      match xine_sarray_remove_ptr (plugin_lists c type) node with
      | None => c
      | Some l =>
          let c := update_node node
                     (fun n => set_node_priority
                                 (decoder_priority num_value (ainfo_priority n)) n)
                     c in
          let l := xine_sarray_add (list_comparator type (nodes c)) l node in
          let c := set_plugin_list type l c in
          set_decoder_map type
            (map_decoder_list (nodes c) l (decoder_map type c)) c
      end
  end.

(** *** [_insert_node] *)

Definition needs_special_info (ty : plugin_type) : bool :=
  match ty with
  | PLUGIN_VIDEO_OUT | PLUGIN_AUDIO_OUT | PLUGIN_POST
  | PLUGIN_AUDIO_DECODER | PLUGIN_VIDEO_DECODER | PLUGIN_SPU_DECODER
  | PLUGIN_XINE_MODULE => true
  | _ => false
  end.

(** The "sanity test": [None] where the code returns 1, else [left]. *)
Definition insert_node_sanity (c : plugin_catalog_t) (node_cache : option nat)
    (info : plugin_info_t) (plugin_type : plugin_type) : option Z :=
  let room := PLUGIN_MAX - plugin_count c in
  match info_id info with
  | None => None
  | Some _ =>
      if negb (info_API info =? plugin_iface_versions plugin_type) then None
      else if negb (bool_decide (is_Some node_cache)) && negb (info_init info) then None
      else
        match info_special info with
        | None => if needs_special_info plugin_type then None else Some room
        | Some ainfo =>
            if is_decoder plugin_type then
              match ai_supported_types ainfo with
              | None => None
              | Some _ =>
                  Some (if room >? Z.of_nat DECODER_MAX - decoder_count c
                        then Z.of_nat DECODER_MAX - decoder_count c
                        else room)
              end
            else Some room
        end
  end.

(** The supported types up to the terminating 0. *)
Fixpoint types_until_zero (types : list Z) : list Z :=
  match types with
  | [] => []
  | t :: rest => if t =? 0 then [] else t :: types_until_zero rest
  end.

(** [_fat_node_init] followed by the copy of [*info]. *)
Definition fresh_node (ty : plugin_type) (id : string) : fat_node_t :=
  {| node_type := ty; node_id := id; node_priority := 0; node_ref := 0;
     node_plugin_class := false; ainfo_priority := 0;
     ainfo_supported_types := []; ainfo_visual_type := 0;
     ainfo_post_type := 0 |}.

(** The "type specific stuff" of [_insert_node] on the entry.
    [user_prio] is what [config->register_num] answers for the key
    [engine.decoder_priorities.<id>], [config_version] is
    [config->current_version]. *)
Definition insert_node_fill (ty : plugin_type) (cached : bool)
    (ainfo : option all_info_t) (user_prio config_version : Z)
    (entry : fat_node_t) : fat_node_t :=
  let prio := match ainfo with Some a => ai_priority a | None => 0 end in
  let with_ainfo (p : Z) (n : fat_node_t) : fat_node_t :=
    {| node_type := node_type n; node_id := node_id n; node_priority := p;
       node_ref := node_ref n; node_plugin_class := node_plugin_class n;
       ainfo_priority := prio;
       ainfo_supported_types := ainfo_supported_types n;
       ainfo_visual_type := ainfo_visual_type n;
       ainfo_post_type := ainfo_post_type n |} in
  match ty with
  | PLUGIN_VIDEO_OUT =>
      let n := with_ainfo prio entry in
      {| node_type := node_type n; node_id := node_id n;
         node_priority := node_priority n;
         node_ref := node_ref n; node_plugin_class := node_plugin_class n;
         ainfo_priority := ainfo_priority n;
         ainfo_supported_types := ainfo_supported_types n;
         ainfo_visual_type :=
           match ainfo with Some a => ai_visual_type a | None => 0 end;
         ainfo_post_type := ainfo_post_type n |}
  | PLUGIN_AUDIO_OUT | PLUGIN_DEMUX | PLUGIN_INPUT | PLUGIN_XINE_MODULE =>
      with_ainfo prio entry
  | PLUGIN_AUDIO_DECODER | PLUGIN_VIDEO_DECODER | PLUGIN_SPU_DECODER =>
      let types :=
        match ainfo with
        | Some a => types_until_zero (default [] (ai_supported_types a))
        | None => []
        end in
      (* reset priority on old config files *)
      let user_prio := if config_version <? 1 then 0 else user_prio in
      let n := with_ainfo (decoder_priority user_prio prio) entry in
      {| node_type := node_type n; node_id := node_id n;
         node_priority := node_priority n;
         node_ref := node_ref n; node_plugin_class := node_plugin_class n;
         ainfo_priority := ainfo_priority n;
         ainfo_supported_types :=
           if cached || bool_decide (types = [])
           then ainfo_supported_types n else types;
         ainfo_visual_type := ainfo_visual_type n;
         ainfo_post_type := ainfo_post_type n |}
  | PLUGIN_POST =>
      {| node_type := node_type entry; node_id := node_id entry;
         node_priority := node_priority entry;
         node_ref := node_ref entry;
         node_plugin_class := node_plugin_class entry;
         ainfo_priority := ainfo_priority entry;
         ainfo_supported_types := ainfo_supported_types entry;
         ainfo_visual_type := ainfo_visual_type entry;
         ainfo_post_type :=
           match ainfo with Some a => ai_post_type a | None => 0 end |}
  end.

(** [_insert_node]: the catalog afterwards, the address of the entry
    when one was registered, and the returned code (0 registered,
    1 skipped, 2 catalog full).  A new entry is allocated at
    [nodes_end]; [malloc] is taken to succeed. *)
Definition _insert_node (c : plugin_catalog_t) (node_cache : option nat)
    (info : plugin_info_t) (user_prio config_version : Z)
  : plugin_catalog_t * option nat * Z :=
  match info_type info with
  | None => (c, None, 1)
  | Some plugin_type =>
      match insert_node_sanity c node_cache info plugin_type with
      | None => (c, None, 1)
      | Some room =>
          if room <=? 0 then (c, None, 2)
          else
            let '(c, entry) :=
              match node_cache with
              | Some a => (c, a)
              | None =>
                  let a := nodes_end c in
                  (set_nodes_end (S a)
                     (update_node a
                        (fun _ => fresh_node plugin_type
                                    (default EmptyString (info_id info))) c),
                   a)
              end in
            let c := update_node entry
                       (insert_node_fill plugin_type
                          (bool_decide (is_Some node_cache))
                          (info_special info) user_prio config_version) c in
            let c := if is_decoder plugin_type
                     then set_counts (plugin_count c) (decoder_count c + 1) c
                     else c in
            let c := set_plugin_list plugin_type
                       (xine_sarray_add (list_comparator plugin_type (nodes c))
                          (plugin_lists c plugin_type) entry) c in
            (set_counts (plugin_count c + 1) (decoder_count c) c, Some entry, 0)
      end
  end.

(** *** The decoder getters *)

(** [for (j = i + 1; j < PLUGINS_PER_TYPE; j++) map[j - 1] = map[j];
    map[PLUGINS_PER_TYPE - 1] = NULL;] *)
Definition shift_row (i : nat) (row : list (option nat)) : list (option nat) :=
  let row := foldl (fun r j => <[(j - 1)%nat := default None (r !! j)]> r)
                   row (seq (S i) (PLUGINS_PER_TYPE - S i)) in
  <[(PLUGINS_PER_TYPE - 1)%nat := None]> row.

Definition remove_entry (ty : plugin_type) (stream_type i : nat)
    (c : plugin_catalog_t) : plugin_catalog_t :=
  set_decoder_map ty
    (<[stream_type := shift_row i (row_of (decoder_map ty c) stream_type)]>
       (decoder_map ty c)) c.

Section Getters.

(** The two calls that leave the catalog: what [_load_plugin_class]
    does on a node, and what the class's [open_plugin] returns. *)
Variable _load_plugin_class : nat -> load_result.
Variable open_plugin : nat -> open_result.

(** The [for (i = 0; i < PLUGINS_PER_TYPE; i++)] loop shared, up to the
    map it walks, by the three getters; [ty] tells them apart.  [d] is
    the getter's local [vd] / [ad] / [sd].  The result is [None] where
    the C function has no defined behaviour:
    - [_load_plugin_class] returned 1 and left the class [NULL]; the
      getter then calls [open_plugin] through the [NULL] class;
    - [open_plugin] returned the pointer 1 to [_x_get_spu_decoder].
      The branch on [(decoder_t * ) 1] exists in [_x_get_video_decoder]
      and [_x_get_audio_decoder] only; [_x_get_spu_decoder] tests
      [if (sd)] and goes on to [sd->node = node], a store through the
      pointer 1.
    It is also [None] when the fuel runs out, which it does not for
    the getters below: a walk over a row of [PLUGINS_PER_TYPE] slots
    takes at most one step for each slot and one more. *)
Fixpoint decoder_walk (ty : plugin_type) (fuel : nat) (i : nat)
    (stream_type : nat) (c : plugin_catalog_t) (d : decoder_ptr)
  : option (plugin_catalog_t * decoder_ptr) :=
  match fuel with
  | O => None
  | S fuel' =>
      if (PLUGINS_PER_TYPE <=? i)%nat then Some (c, d)
      else
        match row_of (decoder_map ty c) stream_type !! i with
        | Some (Some node) =>
            match (if node_plugin_class (nodes c node) then LOAD_CLASS
                   else _load_plugin_class node) with
            | LOAD_FAILED =>
                (* remove non working plugin from catalog *)
                decoder_walk ty fuel' i stream_type
                  (remove_entry ty stream_type i c) d
            | LOAD_NO_CLASS => None
            | LOAD_CLASS =>
                let c := update_node node (set_node_plugin_class true) c in
                match open_plugin node, ty with
                | OPEN_NULL, _ =>
                    decoder_walk ty fuel' i stream_type
                      (remove_entry ty stream_type i c) DECODER_NULL
                | OPEN_UNAVAILABLE, (PLUGIN_VIDEO_DECODER | PLUGIN_AUDIO_DECODER) =>
                    decoder_walk ty fuel' (S i) stream_type c DECODER_ONE
                | OPEN_UNAVAILABLE, _ => None
                | OPEN_INSTANCE, _ =>
                    Some (update_node node
                            (fun n => set_node_ref (CInt.int32 (node_ref n + 1)) n) c,
                          DECODER_INSTANCE node)
                end
            end
        | _ => Some (c, d)
        end
  end.

Definition _x_get_video_decoder (stream_type : nat) (c : plugin_catalog_t)
  : option (plugin_catalog_t * decoder_ptr) :=
  decoder_walk PLUGIN_VIDEO_DECODER (S (2 * PLUGINS_PER_TYPE)) 0 stream_type c
    DECODER_NULL.

Definition _x_get_audio_decoder (stream_type : nat) (c : plugin_catalog_t)
  : option (plugin_catalog_t * decoder_ptr) :=
  decoder_walk PLUGIN_AUDIO_DECODER (S (2 * PLUGINS_PER_TYPE)) 0 stream_type c
    DECODER_NULL.

Definition _x_get_spu_decoder (stream_type : nat) (c : plugin_catalog_t)
  : option (plugin_catalog_t * decoder_ptr) :=
  decoder_walk PLUGIN_SPU_DECODER (S (2 * PLUGINS_PER_TYPE)) 0 stream_type c
    DECODER_NULL.

End Getters.

End Catalog.

(** ** load_plugins.c: the plugin cache *)

Definition CACHE_CATALOG_VERSION : Z := 5.

Inductive _k_t : Type :=
  | _K_NONE
  | _K_cache_catalog_version
  | _K_flush
  | _K_filename
  | _K_size
  | _K_mtime
  | _K_type
  | _K_api
  | _K_id
  | _K_version
  | _K_visual_type
  | _K_supported_types
  | _K_vo_priority
  | _K_ao_priority
  | _K_decoder_priority
  | _K_demuxer_priority
  | _K_input_priority
  | _K_post_type
  | _K_config_key
  | _K_module_priority
  | _K_module_sub_type
  | _K_module_type.

(** [_key_2_index (key, klen)]: the switch on the length followed by
    [memcmp] picks the key word that the [klen] bytes spell. *)
Definition _key_2_index (key : string) : _k_t :=
  if String.eqb key "" then _K_flush
  else if String.eqb key "id" then _K_id
  else if String.eqb key "api" then _K_api
  else if String.eqb key "size" then _K_size
  else if String.eqb key "type" then _K_type
  else if String.eqb key "mtime" then _K_mtime
  else if String.eqb key "version" then _K_version
  else if String.eqb key "post_type" then _K_post_type
  else if String.eqb key "config_key" then _K_config_key
  else if String.eqb key "module_type" then _K_module_type
  else if String.eqb key "ao_priority" then _K_ao_priority
  else if String.eqb key "visual_type" then _K_visual_type
  else if String.eqb key "vo_priority" then _K_vo_priority
  else if String.eqb key "input_priority" then _K_input_priority
  else if String.eqb key "module_sub_type" then _K_module_sub_type
  else if String.eqb key "module_priority" then _K_module_priority
  else if String.eqb key "supported_types" then _K_supported_types
  else if String.eqb key "decoder_priority" then _K_decoder_priority
  else if String.eqb key "demuxer_priority" then _K_demuxer_priority
  else if String.eqb key "cache_catalog_version" then _K_cache_catalog_version
  else _K_NONE.

(** [node.file] *)
Record cache_file_t : Type := {
  cf_filename : string;
  cf_filesize : Z;
  cf_filemtime : Z
}.

(** [node.info[0]]; [ci_id] is [None] for the [NULL] id. *)
Record cache_info_t : Type := {
  ci_type : Z;
  ci_API : Z;
  ci_id : option string;
  ci_version : Z
}.

(** [node.ainfo].  In C the members overlap in a union; a cache block
    written by [save_plugin_list] sets those of one plugin type. *)
Record cache_ainfo_t : Type := {
  ca_visual_type : Z;
  ca_vo_priority : Z;
  ca_ao_priority : Z;
  ca_decoder_priority : Z;
  ca_demuxer_priority : Z;
  ca_input_priority : Z;
  ca_post_type : Z;
  ca_module_priority : Z;
  ca_module_sub_type : Z;
  ca_module_type : string
}.

(** A node read from the cache, with its supported types and the
    serialized configuration entries that follow it. *)
Record cache_node_t : Type := {
  cn_file : cache_file_t;
  cn_info : cache_info_t;
  cn_ainfo : cache_ainfo_t;
  cn_supported_types : list Z;
  cn_config_keys : list string
}.

Definition cache_ainfo_zero : cache_ainfo_t :=
  {| ca_visual_type := 0; ca_vo_priority := 0; ca_ao_priority := 0;
     ca_decoder_priority := 0; ca_demuxer_priority := 0;
     ca_input_priority := 0; ca_post_type := 0; ca_module_priority := 0;
     ca_module_sub_type := 0; ca_module_type := "" |}.

(** [_fat_node_init (&node)] *)
Definition cache_node_init : cache_node_t :=
  {| cn_file := {| cf_filename := ""; cf_filesize := 0; cf_filemtime := 0 |};
     cn_info := {| ci_type := 0; ci_API := 0; ci_id := None; ci_version := 0 |};
     cn_ainfo := cache_ainfo_zero;
     cn_supported_types := [];
     cn_config_keys := [] |}.

(** The locals of [load_plugin_list] that live across lines, and the
    nodes handed to the [plugins] array so far.  Every flushed node
    ends there, as an element of its own or chained to the first node
    of its file; the model keeps them in the order they are flushed. *)
Record load_state : Type := {
  ls_version_ok : bool;
  ls_skip : bool;
  ls_node : cache_node_t;
  ls_plugins : list cache_node_t
}.

Definition load_state_init : load_state :=
  {| ls_version_ok := false; ls_skip := false;
     ls_node := cache_node_init; ls_plugins := [] |}.

(** The key in front of the first ['='] and the value behind it (the
    whole line is the key when there is none). *)
Fixpoint split_key_value (line : string) : string * string :=
  match line with
  | EmptyString => (EmptyString, EmptyString)
  | String ch rest =>
      if Ascii.eqb ch "="%char then (EmptyString, rest)
      else let '(k, v) := split_key_value rest in (String ch k, v)
  end.

(** The line without its last character, when that is [ch]. *)
Fixpoint strip_last (ch : ascii) (line : string) : option string :=
  match line with
  | EmptyString => None
  | String c EmptyString => if Ascii.eqb c ch then Some EmptyString else None
  | String c rest =>
      match strip_last ch rest with
      | Some r => Some (String c r)
      | None => None
      end
  end.

Definition set_node (n : cache_node_t) (st : load_state) : load_state :=
  {| ls_version_ok := ls_version_ok st; ls_skip := ls_skip st;
     ls_node := n; ls_plugins := ls_plugins st |}.

Definition with_file (f : cache_file_t) (n : cache_node_t) : cache_node_t :=
  {| cn_file := f; cn_info := cn_info n; cn_ainfo := cn_ainfo n;
     cn_supported_types := cn_supported_types n;
     cn_config_keys := cn_config_keys n |}.

Definition with_info (i : cache_info_t) (n : cache_node_t) : cache_node_t :=
  {| cn_file := cn_file n; cn_info := i; cn_ainfo := cn_ainfo n;
     cn_supported_types := cn_supported_types n;
     cn_config_keys := cn_config_keys n |}.

Definition with_ainfo (a : cache_ainfo_t) (n : cache_node_t) : cache_node_t :=
  {| cn_file := cn_file n; cn_info := cn_info n; cn_ainfo := a;
     cn_supported_types := cn_supported_types n;
     cn_config_keys := cn_config_keys n |}.

Section LoadPluginList.

(** The number parsers of [xineutils] are not among the sources: each
    reads a number at the head of the text and hands back the rest. *)
Variable xine_str2int32 : string -> Z * string.
Variable xine_str2uint32 : string -> Z * string.
Variable xine_str2uint64 : string -> Z * string.

(** [for (i = 0; i < 255; i++)
       if ((supported_types[i] = xine_str2uint32 (&val)) == 0) break;] *)
Fixpoint read_supported_types (fuel : nat) (val : string) : list Z :=
  match fuel with
  | O => []
  | S fuel' =>
      let '(v, rest) := xine_str2uint32 val in
      if v =? 0 then [] else v :: read_supported_types fuel' rest
  end.

(** The [switch (index)] of [load_plugin_list], reached with
    [version_ok] set. *)
Definition load_key (index : _k_t) (line : string) (st : load_state) : load_state :=
  let node := ls_node st in
  let file := cn_file node in
  let info := cn_info node in
  let a := cn_ainfo node in
  let int32 := fst (xine_str2int32 line) in
  let uint32 := fst (xine_str2uint32 line) in
  let uint64 := fst (xine_str2uint64 line) in
  let set_ainfo (a' : cache_ainfo_t) := set_node (with_ainfo a' node) st in
  match index with
  | _K_flush =>
      match ci_id info with
      | Some (String _ _) =>
          (* flush this entry, then reset *)
          {| ls_version_ok := ls_version_ok st; ls_skip := ls_skip st;
             ls_node :=
               {| cn_file := file;
                  cn_info := {| ci_type := ci_type info; ci_API := ci_API info;
                                ci_id := None; ci_version := ci_version info |};
                  cn_ainfo := cache_ainfo_zero;
                  cn_supported_types := [];
                  cn_config_keys := [] |};
             ls_plugins := ls_plugins st ++ [node] |}
      | _ => st
      end
  | _K_filename =>
      {| ls_version_ok := ls_version_ok st;
         ls_skip := String.eqb line "libxine/builtins";
         ls_node := with_file {| cf_filename := line;
                                 cf_filesize := cf_filesize file;
                                 cf_filemtime := cf_filemtime file |} node;
         ls_plugins := ls_plugins st |}
  | _K_size =>
      set_node (with_file {| cf_filename := cf_filename file;
                             cf_filesize := uint64;
                             cf_filemtime := cf_filemtime file |} node) st
  | _K_mtime =>
      set_node (with_file {| cf_filename := cf_filename file;
                             cf_filesize := cf_filesize file;
                             cf_filemtime := uint64 |} node) st
  | _K_type =>
      set_node (with_info {| ci_type := int32; ci_API := ci_API info;
                             ci_id := ci_id info;
                             ci_version := ci_version info |} node) st
  | _K_api =>
      set_node (with_info {| ci_type := ci_type info; ci_API := int32;
                             ci_id := ci_id info;
                             ci_version := ci_version info |} node) st
  | _K_id =>
      set_node (with_info {| ci_type := ci_type info; ci_API := ci_API info;
                             ci_id := Some line;
                             ci_version := ci_version info |} node) st
  | _K_version =>
      set_node (with_info {| ci_type := ci_type info; ci_API := ci_API info;
                             ci_id := ci_id info;
                             ci_version := uint32 |} node) st
  | _K_supported_types =>
      set_node {| cn_file := file; cn_info := info; cn_ainfo := a;
                  cn_supported_types := read_supported_types 255 line;
                  cn_config_keys := cn_config_keys node |} st
  | _K_config_key =>
      if (length (cn_config_keys node) <? 255)%nat
      then set_node {| cn_file := file; cn_info := info; cn_ainfo := a;
                       cn_supported_types := cn_supported_types node;
                       cn_config_keys := cn_config_keys node ++ [line] |} st
      else st
  | _K_visual_type =>
      set_ainfo {| ca_visual_type := int32; ca_vo_priority := ca_vo_priority a;
                   ca_ao_priority := ca_ao_priority a;
                   ca_decoder_priority := ca_decoder_priority a;
                   ca_demuxer_priority := ca_demuxer_priority a;
                   ca_input_priority := ca_input_priority a;
                   ca_post_type := ca_post_type a;
                   ca_module_priority := ca_module_priority a;
                   ca_module_sub_type := ca_module_sub_type a;
                   ca_module_type := ca_module_type a |}
  | _K_vo_priority =>
      set_ainfo {| ca_visual_type := ca_visual_type a; ca_vo_priority := int32;
                   ca_ao_priority := ca_ao_priority a;
                   ca_decoder_priority := ca_decoder_priority a;
                   ca_demuxer_priority := ca_demuxer_priority a;
                   ca_input_priority := ca_input_priority a;
                   ca_post_type := ca_post_type a;
                   ca_module_priority := ca_module_priority a;
                   ca_module_sub_type := ca_module_sub_type a;
                   ca_module_type := ca_module_type a |}
  | _K_ao_priority =>
      set_ainfo {| ca_visual_type := ca_visual_type a;
                   ca_vo_priority := ca_vo_priority a;
                   ca_ao_priority := int32;
                   ca_decoder_priority := ca_decoder_priority a;
                   ca_demuxer_priority := ca_demuxer_priority a;
                   ca_input_priority := ca_input_priority a;
                   ca_post_type := ca_post_type a;
                   ca_module_priority := ca_module_priority a;
                   ca_module_sub_type := ca_module_sub_type a;
                   ca_module_type := ca_module_type a |}
  | _K_decoder_priority =>
      set_ainfo {| ca_visual_type := ca_visual_type a;
                   ca_vo_priority := ca_vo_priority a;
                   ca_ao_priority := ca_ao_priority a;
                   ca_decoder_priority := int32;
                   ca_demuxer_priority := ca_demuxer_priority a;
                   ca_input_priority := ca_input_priority a;
                   ca_post_type := ca_post_type a;
                   ca_module_priority := ca_module_priority a;
                   ca_module_sub_type := ca_module_sub_type a;
                   ca_module_type := ca_module_type a |}
  | _K_demuxer_priority =>
      set_ainfo {| ca_visual_type := ca_visual_type a;
                   ca_vo_priority := ca_vo_priority a;
                   ca_ao_priority := ca_ao_priority a;
                   ca_decoder_priority := ca_decoder_priority a;
                   ca_demuxer_priority := int32;
                   ca_input_priority := ca_input_priority a;
                   ca_post_type := ca_post_type a;
                   ca_module_priority := ca_module_priority a;
                   ca_module_sub_type := ca_module_sub_type a;
                   ca_module_type := ca_module_type a |}
  | _K_input_priority =>
      set_ainfo {| ca_visual_type := ca_visual_type a;
                   ca_vo_priority := ca_vo_priority a;
                   ca_ao_priority := ca_ao_priority a;
                   ca_decoder_priority := ca_decoder_priority a;
                   ca_demuxer_priority := ca_demuxer_priority a;
                   ca_input_priority := int32;
                   ca_post_type := ca_post_type a;
                   ca_module_priority := ca_module_priority a;
                   ca_module_sub_type := ca_module_sub_type a;
                   ca_module_type := ca_module_type a |}
  | _K_post_type =>
      set_ainfo {| ca_visual_type := ca_visual_type a;
                   ca_vo_priority := ca_vo_priority a;
                   ca_ao_priority := ca_ao_priority a;
                   ca_decoder_priority := ca_decoder_priority a;
                   ca_demuxer_priority := ca_demuxer_priority a;
                   ca_input_priority := ca_input_priority a;
                   ca_post_type := uint32;
                   ca_module_priority := ca_module_priority a;
                   ca_module_sub_type := ca_module_sub_type a;
                   ca_module_type := ca_module_type a |}
  | _K_module_priority =>
      set_ainfo {| ca_visual_type := ca_visual_type a;
                   ca_vo_priority := ca_vo_priority a;
                   ca_ao_priority := ca_ao_priority a;
                   ca_decoder_priority := ca_decoder_priority a;
                   ca_demuxer_priority := ca_demuxer_priority a;
                   ca_input_priority := ca_input_priority a;
                   ca_post_type := ca_post_type a;
                   ca_module_priority := int32;
                   ca_module_sub_type := ca_module_sub_type a;
                   ca_module_type := ca_module_type a |}
  | _K_module_sub_type =>
      set_ainfo {| ca_visual_type := ca_visual_type a;
                   ca_vo_priority := ca_vo_priority a;
                   ca_ao_priority := ca_ao_priority a;
                   ca_decoder_priority := ca_decoder_priority a;
                   ca_demuxer_priority := ca_demuxer_priority a;
                   ca_input_priority := ca_input_priority a;
                   ca_post_type := ca_post_type a;
                   ca_module_priority := ca_module_priority a;
                   ca_module_sub_type := uint32;
                   ca_module_type := ca_module_type a |}
  | _K_module_type =>
      set_ainfo {| ca_visual_type := ca_visual_type a;
                   ca_vo_priority := ca_vo_priority a;
                   ca_ao_priority := ca_ao_priority a;
                   ca_decoder_priority := ca_decoder_priority a;
                   ca_demuxer_priority := ca_demuxer_priority a;
                   ca_input_priority := ca_input_priority a;
                   ca_post_type := ca_post_type a;
                   ca_module_priority := ca_module_priority a;
                   ca_module_sub_type := ca_module_sub_type a;
                   ca_module_type := line |}
  | _K_NONE | _K_cache_catalog_version => st
  end.

(** The two ways a line is taken apart: [[filename]] once the version
    is accepted, [key=value] otherwise.  [None] is the [continue] on a
    bracket that is not closed. *)
Definition parse_line (version_ok : bool) (line : string) : option (_k_t * string) :=
  match line with
  | String "[" rest =>
      if version_ok then
        match strip_last "]" rest with
        | Some name => Some (_K_filename, name)
        | None => None
        end
      else let '(k, v) := split_key_value line in Some (_key_2_index k, v)
  | _ => let '(k, v) := split_key_value line in Some (_key_2_index k, v)
  end.

(** Whether a cache of version [vers] is read:
    "we are slightly backward compatible". *)
Definition version_accepted (vers : Z) : bool :=
  (vers =? CACHE_CATALOG_VERSION) || (vers =? CACHE_CATALOG_VERSION - 1).

(** One turn of the [while (again)] loop on a line of the file, or on
    the empty line that flushes the last entry ([from_file = false]).
    The boolean tells whether the function returns here. *)
Definition load_line (from_file : bool) (line : string) (st : load_state)
  : load_state * bool :=
  if from_file && match line with String "#" _ => true | _ => false end
  then (st, false)
  else
    match parse_line (ls_version_ok st) line with
    | None => (st, false)
    | Some (index, value) =>
        if ls_skip st && negb match index with _K_filename => true | _ => false end
        then (st, false)
        else if negb (ls_version_ok st) then
          match index with
          | _K_cache_catalog_version =>
              if version_accepted (fst (xine_str2uint32 value))
              then ({| ls_version_ok := true; ls_skip := ls_skip st;
                       ls_node := ls_node st; ls_plugins := ls_plugins st |},
                    false)
              else (st, true)
          | _ => (st, false)
          end
        else (load_key index value st, false)
    end.

Fixpoint load_lines (lines : list string) (st : load_state) : load_state :=
  match lines with
  | [] => fst (load_line false EmptyString st)
  | line :: rest =>
      let '(st', stop) := load_line true line st in
      if stop then st' else load_lines rest st'
  end.

(** [load_plugin_list] on the lines of the cache file: the nodes it
    adds to the cache list. *)
Definition load_plugin_list (lines : list string) : list cache_node_t :=
  ls_plugins (load_lines lines load_state_init).

End LoadPluginList.

(** The first line that carries the version marker: the value behind
    [cache_catalog_version=] and the lines that follow.  Comment lines
    do not count. *)
Fixpoint find_version_marker (lines : list string) : option (string * list string) :=
  match lines with
  | [] => None
  | line :: rest =>
      match line with
      | String "#" _ => find_version_marker rest
      | _ =>
          let '(k, v) := split_key_value line in
          match _key_2_index k with
          | _K_cache_catalog_version => Some (v, rest)
          | _ => find_version_marker rest
          end
      end
  end.

(** A reader of unsigned decimal numbers, to run the loader on sample
    files. *)
Fixpoint read_decimal (acc : Z) (s : string) : Z * string :=
  match s with
  | String ch rest =>
      let d := Z.of_nat (nat_of_ascii ch) - 48 in
      if (0 <=? d) && (d <=? 9) then read_decimal (10 * acc + d) rest
      else (acc, s)
  | EmptyString => (acc, s)
  end.

Definition sample_str2num (s : string) : Z * string :=
  match s with
  | String " " rest => read_decimal 0 rest
  | _ => read_decimal 0 s
  end.

(** ** Vocabulary of the statements about decoder dispatch *)

(** The candidates of a row: the nodes in front of the first [NULL]. *)
Fixpoint live (row : list (option nat)) : list nat :=
  match row with
  | Some n :: t => n :: live t
  | _ => []
  end.

(** How one candidate fares in a lookup. *)
Inductive attempt : Type :=
  | ATTEMPT_FAILED
  | ATTEMPT_UNAVAILABLE
  | ATTEMPT_OPENED
  | ATTEMPT_LOST.

(** The fate of node [a] in catalog [c].  It fails when its class is
    neither loaded nor loadable or when [open_plugin] returns [NULL].
    The pointer [1] counts as "unavailable, retry later" for a getter
    that knows it ([retry = true]).  The getter is lost (its behaviour
    is undefined) when the class is still [NULL] after a load that
    reported success, and when [open_plugin] returns the pointer [1]
    to a getter that does not know it. *)
Definition attempt_of (retry : bool) (load : nat -> load_result)
    (open : nat -> open_result) (c : plugin_catalog_t) (a : nat) : attempt :=
  match (if node_plugin_class (nodes c a) then LOAD_CLASS else load a) with
  | LOAD_FAILED => ATTEMPT_FAILED
  | LOAD_NO_CLASS => ATTEMPT_LOST
  | LOAD_CLASS =>
      match open a with
      | OPEN_NULL => ATTEMPT_FAILED
      | OPEN_UNAVAILABLE => if retry then ATTEMPT_UNAVAILABLE else ATTEMPT_LOST
      | OPEN_INSTANCE => ATTEMPT_OPENED
      end
  end.

(** The lookup as the specification describes it, on the list of
    candidates in priority order: a failed candidate is dropped, an
    unavailable one is kept and passed over, the first that opens is
    taken and ends the walk.  The result is the candidates that stay,
    in order, and the node taken; there is none when the walk comes
    to a candidate on which the getter is lost. *)
Fixpoint dispatch (try : nat -> attempt) (cands : list nat)
  : option (list nat * option nat) :=
  match cands with
  | [] => Some ([], None)
  | a :: rest =>
      match try a with
      | ATTEMPT_FAILED => dispatch try rest
      | ATTEMPT_UNAVAILABLE =>
          match dispatch try rest with
          | Some (keep, taken) => Some (a :: keep, taken)
          | None => None
          end
      | ATTEMPT_OPENED => Some (a :: rest, Some a)
      | ATTEMPT_LOST => None
      end
  end.

(** Whether the getter of a decoder type has the branch for the
    pointer [1]. *)
Definition knows_unavailable (ty : plugin_type) : bool :=
  match ty with
  | PLUGIN_VIDEO_DECODER | PLUGIN_AUDIO_DECODER => true
  | _ => false
  end.

(** The row a lookup leaves behind when the candidates [keep] stay:
    they move up, what followed the candidates follows them, and the
    freed slots at the end are [NULL]. *)
Definition row_after (row : list (option nat)) (keep : list nat) : list (option nat) :=
  (Some <$> keep) ++ drop (length (live row)) row
  ++ replicate (length (live row) - length keep) None.

(** What a lookup for [stream_type] through the map of [ty] leaves
    alone: the lists, what the nodes say of priority and types, the
    other rows and the other maps. *)
Record lookup_frame (ty : plugin_type) (stream_type : nat)
    (c c' : plugin_catalog_t) : Prop := {
  frame_lists : forall ty', plugin_lists c' ty' = plugin_lists c ty';
  frame_priority : forall a, node_priority (nodes c' a) = node_priority (nodes c a);
  frame_type : forall a, node_type (nodes c' a) = node_type (nodes c a);
  frame_supported : forall a,
      ainfo_supported_types (nodes c' a) = ainfo_supported_types (nodes c a);
  frame_rows : forall st, st <> stream_type ->
      row_of (decoder_map ty c') st = row_of (decoder_map ty c) st;
  frame_maps : forall ty', is_decoder ty' = true -> ty' <> ty ->
      decoder_map ty' c' = decoder_map ty' c;
  frame_map_length : length (decoder_map ty c') = length (decoder_map ty c)
}.

(** The pointer a getter holds in its local [vd] / [ad] / [sd] after
    it tried candidate [a] and went on: the answer of [open_plugin] if
    the call was made, and the pointer [d] from before if the class
    did not load. *)
Definition pointer_after (load : nat -> load_result) (open : nat -> open_result)
    (c : plugin_catalog_t) (a : nat) (d : decoder_ptr) : decoder_ptr :=
  match (if node_plugin_class (nodes c a) then LOAD_CLASS else load a) with
  | LOAD_CLASS =>
      match open a with
      | OPEN_NULL => DECODER_NULL
      | OPEN_UNAVAILABLE => DECODER_ONE
      | OPEN_INSTANCE => DECODER_INSTANCE a
      end
  | _ => d
  end.

(** The pointer a getter returns after the candidates [cands] when the
    walk took [taken]: the instance of that node, or, when no candidate
    opened, the pointer it holds after the last of them, from [d0] at
    the start ([ptr a d] is the pointer after candidate [a]). *)
Definition returned_for (ptr : nat -> decoder_ptr -> decoder_ptr) (cands : list nat)
    (taken : option nat) (d0 d : decoder_ptr) : Prop :=
  match taken with
  | Some a => d = DECODER_INSTANCE a
  | None => d = foldl (fun d a => ptr a d) d0 cands
  end.

(** The getter of a decoder type. *)
Definition getter_of (PLUGINS_PER_TYPE : nat) (load : nat -> load_result)
    (open : nat -> open_result) (ty : plugin_type)
  : nat -> plugin_catalog_t -> option (plugin_catalog_t * decoder_ptr) :=
  match ty with
  | PLUGIN_VIDEO_DECODER => _x_get_video_decoder PLUGINS_PER_TYPE load open
  | PLUGIN_AUDIO_DECODER => _x_get_audio_decoder PLUGINS_PER_TYPE load open
  | _ => _x_get_spu_decoder PLUGINS_PER_TYPE load open
  end.

(** *** Sample catalogs *)

Definition sample_node (ty : plugin_type) (priority : Z) (types : list Z)
  : fat_node_t :=
  {| node_type := ty; node_id := "sample"; node_priority := priority;
     node_ref := 0; node_plugin_class := false;
     ainfo_priority := priority; ainfo_supported_types := types;
     ainfo_visual_type := 0; ainfo_post_type := 0 |}.

(** Three decoders of type [ty] at the addresses 0, 1, 2 with the
    priorities 30, 20, 10, all for stream type 1, mapped in that order
    into a map of 2 rows of 3 slots. *)
Definition sample_catalog (ty : plugin_type) : plugin_catalog_t :=
  let m := [[None; None; None]; [Some 0; Some 1; Some 2]%nat] in
  {| nodes := fun a => sample_node ty (30 - 10 * Z.of_nat a) [0x10000];
     nodes_end := 3;
     plugin_lists := fun ty' => if decide (ty' = ty) then [0; 1; 2]%nat else [];
     audio_decoder_map :=
       match ty with PLUGIN_AUDIO_DECODER => m | _ => [[None; None; None]; [None; None; None]] end;
     video_decoder_map :=
       match ty with PLUGIN_VIDEO_DECODER => m | _ => [[None; None; None]; [None; None; None]] end;
     spu_decoder_map :=
       match ty with PLUGIN_SPU_DECODER => m | _ => [[None; None; None]; [None; None; None]] end;
     plugin_count := 3;
     decoder_count := 3 |}.

(** Node 0 is out of resources, node 1 is broken, node 2 works. *)
Definition sample_open (a : nat) : open_result :=
  match a with
  | O => OPEN_UNAVAILABLE
  | S O => OPEN_NULL
  | _ => OPEN_INSTANCE
  end.

(** ** Vocabulary of the statements about the decoder maps *)

(** What one pass of [map_decoder_list]'s inner loop does to the row
    of its stream type. *)
Definition row_insert (PLUGINS_PER_TYPE : nat) (a : nat)
    (row : list (option nat)) : list (option nat) :=
  let pos := find_free PLUGINS_PER_TYPE 0 row in
  if Nat.eqb pos PLUGINS_PER_TYPE then row
  else <[pos := Some a]>
         (if (pos <? PLUGINS_PER_TYPE - 1)%nat then <[S pos := None]> row else row).

(** Node [a], once for each of its supported types of stream type
    [st]. *)
Definition node_slots (nd : nat -> fat_node_t) (st : nat) (a : nat) : list nat :=
  (fun _ => a)
    <$> filter (fun t => stream_type_of t = st)
          (types_until_zero (ainfo_supported_types (nd a))).

(** The nodes that [map_decoder_list] offers to row [st], in the order
    of the list. *)
Definition candidates (nd : nat -> fat_node_t) (l : list nat) (st : nat) : list nat :=
  l ≫= node_slots nd st.

(** Priorities fall (weakly) along a list of nodes. *)
Definition falling (nd : nat -> fat_node_t) (l : list nat) : Prop :=
  StronglySorted (fun a b => node_priority (nd a) >= node_priority (nd b)) l.

(** The catalog is well-formed at the decoder type [ty]: the list is
    in falling priority without repetition and holds nodes of that type;
    the map has its [DECODER_MAX] rows of [PLUGINS_PER_TYPE] slots, each
    some of the list's candidates, in the order of the list, then
    [NULL]s. *)
Record map_ok (PLUGINS_PER_TYPE DECODER_MAX : nat) (c : plugin_catalog_t)
    (ty : plugin_type) : Prop := {
  ok_falling : falling (nodes c) (plugin_lists c ty);
  ok_nodup : NoDup (plugin_lists c ty);
  ok_typed : forall a, a ∈ plugin_lists c ty -> node_type (nodes c a) = ty;
  ok_map_length : length (decoder_map ty c) = DECODER_MAX;
  ok_row_length : forall st, (st < DECODER_MAX)%nat ->
      length (row_of (decoder_map ty c) st) = PLUGINS_PER_TYPE;
  ok_row_closed : forall st, (st < DECODER_MAX)%nat ->
      row_of (decoder_map ty c) st
      = (Some <$> live (row_of (decoder_map ty c) st))
        ++ replicate (PLUGINS_PER_TYPE - length (live (row_of (decoder_map ty c) st))) None;
  ok_row_sub : forall st, (st < DECODER_MAX)%nat ->
      sublist (live (row_of (decoder_map ty c) st))
              (candidates (nodes c) (plugin_lists c ty) st)
}.

(** The catalog as the scan leaves it before [map_decoders]: the
    decoder lists filled by [_insert_node], the maps still zeroed by
    [calloc]. *)
Record scanned (PLUGINS_PER_TYPE DECODER_MAX : nat) (c : plugin_catalog_t)
  : Prop := {
  scan_falling : forall ty, is_decoder ty = true ->
      falling (nodes c) (plugin_lists c ty);
  scan_nodup : forall ty, is_decoder ty = true -> NoDup (plugin_lists c ty);
  scan_typed : forall ty a, is_decoder ty = true ->
      a ∈ plugin_lists c ty -> node_type (nodes c a) = ty;
  scan_maps : forall ty, is_decoder ty = true ->
      decoder_map ty c = replicate DECODER_MAX (replicate PLUGINS_PER_TYPE None)
}.

(** The catalogs the engine can be in: after the initial mapping pass,
    and from there after any priority callback of a decoder node and
    any decoder lookup. *)
Inductive reachable (PLUGINS_PER_TYPE DECODER_MAX : nat)
  : plugin_catalog_t -> Prop :=
  | reach_map_decoders c :
      scanned PLUGINS_PER_TYPE DECODER_MAX c ->
      reachable PLUGINS_PER_TYPE DECODER_MAX
        (map_decoders PLUGINS_PER_TYPE DECODER_MAX c)
  | reach_priority_cb c a num_value :
      reachable PLUGINS_PER_TYPE DECODER_MAX c ->
      is_decoder (node_type (nodes c a)) = true ->
      reachable PLUGINS_PER_TYPE DECODER_MAX
        (_decoder_priority_cb PLUGINS_PER_TYPE DECODER_MAX (Some a) num_value c)
  | reach_lookup c ty stream_type load open c' d :
      reachable PLUGINS_PER_TYPE DECODER_MAX c ->
      is_decoder ty = true ->
      (stream_type < DECODER_MAX)%nat ->
      getter_of PLUGINS_PER_TYPE load open ty stream_type c = Some (c', d) ->
      reachable PLUGINS_PER_TYPE DECODER_MAX c'.

(** [decoder_map[t][i].priority >= decoder_map[t][i+1].priority]
    wherever both entries are there, in the three maps. *)
Definition priority_ordered (DECODER_MAX : nat) (c : plugin_catalog_t) : Prop :=
  forall ty st i a b,
    is_decoder ty = true ->
    (st < DECODER_MAX)%nat ->
    row_of (decoder_map ty c) st !! i = Some (Some a) ->
    row_of (decoder_map ty c) st !! S i = Some (Some b) ->
    node_priority (nodes c a) >= node_priority (nodes c b).

(** A scan that found three decoders of type [ty] (the nodes of
    [sample_catalog]), before [map_decoders]. *)
Definition sample_scan (ty : plugin_type) : plugin_catalog_t :=
  let zero := replicate 2 (replicate 3 None) in
  {| nodes := fun a => sample_node ty (30 - 10 * Z.of_nat a) [0x10000];
     nodes_end := 3;
     plugin_lists := fun ty' => if decide (ty' = ty) then [0; 1; 2]%nat else [];
     audio_decoder_map := zero;
     video_decoder_map := zero;
     spu_decoder_map := zero;
     plugin_count := 3;
     decoder_count := 3 |}.

(** A decoder as a plugin file describes it. *)
Definition sample_plugin_info (priority : Z) : plugin_info_t :=
  {| info_type := Some PLUGIN_VIDEO_DECODER; info_no_unload := false;
     info_API := 19; info_id := Some "sample"%string; info_version := 1;
     info_special := Some {| ai_priority := priority;
                             ai_supported_types := Some [0x10000; 0];
                             ai_visual_type := 0; ai_post_type := 0 |};
     info_init := true |}.

(** [_new_catalog]: empty lists, zeroed maps and counters. *)
Definition _new_catalog (PLUGINS_PER_TYPE DECODER_MAX : nat) : plugin_catalog_t :=
  let zero := replicate DECODER_MAX (replicate PLUGINS_PER_TYPE None) in
  {| nodes := fun _ => fresh_node PLUGIN_INPUT EmptyString;
     nodes_end := 0;
     plugin_lists := fun _ => [];
     audio_decoder_map := zero;
     video_decoder_map := zero;
     spu_decoder_map := zero;
     plugin_count := 0;
     decoder_count := 0 |}.

(** A cache file of the current version with one decoder entry. *)
Definition sample_cache : list string :=
  [ "# this file is automatically created by xine, do not edit.";
    "";
    "cache_catalog_version=5";
    "";
    "[/usr/lib/xine/plugins/xineplug_decode_a52.so]";
    "size=34816";
    "mtime=1700000000";
    "type=131";
    "api=16";
    "id=a/52";
    "version=10300";
    "supported_types=50331648 50397184";
    "decoder_priority=8";
    "" ]%string.

(** ** Vocabulary of the statements about the fill history *)

(** The levels of the samples the history still holds: the last 1024,
    quantized. *)
Definition recent_levels (samples : list Z) : list Z :=
  fill_level <$> drop (length samples - 1024) samples.

(** The ring after a sequence of samples, and the cell the sample
    number [i] of the sequence goes to. *)
Definition ring_after (h : Naive.ring) (samples : list Z) : Naive.ring :=
  foldl (fun h pts => fst (Naive.feed h pts)) h samples.

Definition ring_pos (h : Naive.ring) (i : nat) : nat :=
  ((Naive.cursor h + 1 + i) mod 1024)%nat.

(** Linear arithmetic with division and remainder. *)
Ltac mod_lia := zify; Z.to_euclidean_division_equations; lia.

(** ** Vocabulary of the statements about the fill time *)

(** The timestamped buffers of one fifo as its callbacks see them, in
    the order they go in and come out. *)
Inductive fifo_event : Type :=
  | Put_pts (pts : Z)
  | Get_pts (pts : Z).

Definition fifo_step (info : xine_nbc_fifo_info_t) (e : fifo_event)
  : xine_nbc_fifo_info_t :=
  match e with
  | Put_pts pts => nbc_put_cb_fill pts info
  | Get_pts pts => nbc_get_cb_fill pts info
  end.

Definition fifo_run (evs : list fifo_event) (info : xine_nbc_fifo_info_t)
  : xine_nbc_fifo_info_t :=
  foldl fifo_step info evs.

Definition put_pts_of (evs : list fifo_event) : list Z :=
  evs ≫= fun e => match e with Put_pts p => [p] | Get_pts _ => [] end.

Definition get_pts_of (evs : list fifo_event) : list Z :=
  evs ≫= fun e => match e with Get_pts p => [p] | Put_pts _ => [] end.

(** Timestamps that follow each other without a jump: none is 0 and
    each difference passes the check, as it is or after the wrap
    correction. *)
Fixpoint steady (l : list Z) : Prop :=
  match l with
  | [] => True
  | p :: t =>
      p <> 0
      /\ match t with
         | [] => True
         | q :: _ => is_Some (pts_diff_check (CInt.int64 (q - p)))
         end
      /\ steady t
  end.

(** From the first to the last timestamp of a sequence. *)
Definition pts_span (l : list Z) : Z :=
  match l with
  | [] => 0
  | p :: _ => default p (last l) - p
  end.

(** A timestamp seen before the sequence, if any (0: none), in front
    of it. *)
Definition pts_chain (seen : Z) (l : list Z) : list Z :=
  if seen =? 0 then l else seen :: l.

(** A fifo whose callbacks have seen no timestamp yet. *)
Definition sample_fresh_info : xine_nbc_fifo_info_t :=
  {| last_in_pts := 0; last_out_pts := 0; fifo_pos_pts := 0;
     fill_pts := 0; out_pts := 0;
     fifo_fill := 0; fifo_free := 500; fifo_size := 0;
     buffer_pool_capacity := 500 |}.

(** ** net_buf_ctrl.c: the callbacks on the fifos *)

Definition XINE_LIVE_PAUSE_ON : Z := 0x7ffffffd.

Definition FULL_FIFO_MARK : Z := 5.

Inductive fifo_action : Type := FIFO_PUT | FIFO_GET.

#[global] Instance fifo_type_eq_dec : EqDecision fifo_type.
Proof. solve_decision. Defined.

(** The members of the C [xine_nbc_fifo_info_t] beside those of
    [xine_nbc_fifo_info_t] above: the ones only the buffering of
    seekable streams works with. *)
Record nbc_rate_t : Type := {
  fifo_length : Z;
  fifo_length_int : Z;
  last_pts : Z;
  first_pts : Z;
  br : Z;
  stream_br : Z;
  in_disc : Z
}.

(** The whole of [struct xine_nbc_st] that the callbacks work on:
    [xine_nbc_t] above with the rest of the two fifo infos and the two
    stream flags.  [speed_change] and [speed_val] hand a speed over
    between threads and are left to [nbc_set_speed]. *)
Record nbc_state : Type := {
  core : xine_nbc_t;
  video_rate : nbc_rate_t;
  audio_rate : nbc_rate_t;
  has_audio : Z;
  has_video : Z
}.

(** What a callback reads of the [fifo_buffer_t] it is called on. *)
Record fifo_buffer_t : Type := {
  fb_fifo_size : Z;
  fb_fifo_data_size : Z;
  fb_buffer_pool_num_free : Z
}.

(** [buf->type] by what the callbacks ask of it: a control buffer with
    its kind, a buffer of major type [BUF_VIDEO_BASE] or
    [BUF_AUDIO_BASE], or one of another major type.  The numbers are in
    [buffer.h], which is not among the sources. *)
Inductive buf_control_t : Type :=
  | BUF_CONTROL_START
  | BUF_CONTROL_END
  | BUF_CONTROL_QUIT
  | BUF_CONTROL_NOP
  | BUF_CONTROL_NEWPTS
  | BUF_CONTROL_other.

Inductive buf_type_t : Type :=
  | Buf_control (kind : buf_control_t)
  | Buf_data (major : fifo_type)
  | Buf_other.

(** [buf_end_flags] is
    [buf->decoder_flags & (BUF_FLAG_END_USER | BUF_FLAG_END_STREAM)]. *)
Record buf_element_t : Type := {
  buf_type : buf_type_t;
  buf_pts : Z;
  buf_end_flags : bool
}.

(** What a callback asks of the rest of the engine while it runs:
    the fine speed of the stream, the pts waiting in the audio output
    when the port could be locked, the stream infos, the verbosity, the
    input plugin (whether it has [INPUT_CAP_LIVE], and its mrl) and the
    two configuration entries [dvbspeed_init] looks up. *)
Record nbc_env : Type := {
  env_fine_speed : Z;
  env_audio_pts_in_fifo : option Z;
  env_has_video : Z;
  env_has_audio : Z;
  env_video_bitrate : Z;
  env_audio_bitrate : Z;
  env_verbose : bool;
  env_input : option (bool * option string);
  env_slow_fast_audio : option Z;
  env_video_num_buffers : option Z
}.

(** What a callback does to the rest of the engine, in order. *)
Inductive nbc_effect : Type :=
  | Set_fine_speed (speed : Z)
  | Report_progress (percent : Z)
  | Report_stats (type : Z)
  | Display_stats
  | Delay_init
  | Delay_stop
  | Delay (call : nbc_call)
  | Config_update_num (key : string) (value : Z).

Definition set_core (c : xine_nbc_t) (st : nbc_state) : nbc_state :=
  {| core := c; video_rate := video_rate st; audio_rate := audio_rate st;
     has_audio := has_audio st; has_video := has_video st |}.

Definition rate_of (st : nbc_state) (ty : fifo_type) : nbc_rate_t :=
  match ty with
  | BUF_VIDEO_BASE => video_rate st
  | BUF_AUDIO_BASE => audio_rate st
  end.

Definition set_rate (ty : fifo_type) (r : nbc_rate_t) (st : nbc_state) : nbc_state :=
  {| core := core st;
     video_rate := match ty with BUF_VIDEO_BASE => r | _ => video_rate st end;
     audio_rate := match ty with BUF_AUDIO_BASE => r | _ => audio_rate st end;
     has_audio := has_audio st; has_video := has_video st |}.

Definition set_info (ty : fifo_type) (info : xine_nbc_fifo_info_t)
    (this : xine_nbc_t) : xine_nbc_t :=
  {| buffering := buffering this; enabled := enabled this;
     progress := progress this;
     audio := match ty with BUF_AUDIO_BASE => info | _ => audio this end;
     video := match ty with BUF_VIDEO_BASE => info | _ => video this end;
     high_water_mark := high_water_mark this; pos_pts := pos_pts this;
     dvbspeed := dvbspeed this;
     dvbs_center := dvbs_center this; dvbs_width := dvbs_width this;
     stats := stats this |}.

Definition set_buffering (b p : Z) (this : xine_nbc_t) : xine_nbc_t :=
  {| buffering := b; enabled := enabled this; progress := p;
     audio := audio this; video := video this;
     high_water_mark := high_water_mark this; pos_pts := pos_pts this;
     dvbspeed := dvbspeed this;
     dvbs_center := dvbs_center this; dvbs_width := dvbs_width this;
     stats := stats this |}.

Definition set_enabled (e : Z) (this : xine_nbc_t) : xine_nbc_t :=
  {| buffering := buffering this; enabled := e; progress := progress this;
     audio := audio this; video := video this;
     high_water_mark := high_water_mark this; pos_pts := pos_pts this;
     dvbspeed := dvbspeed this;
     dvbs_center := dvbs_center this; dvbs_width := dvbs_width this;
     stats := stats this |}.

Definition set_pos_pts (p : Z) (this : xine_nbc_t) : xine_nbc_t :=
  {| buffering := buffering this; enabled := enabled this;
     progress := progress this;
     audio := audio this; video := video this;
     high_water_mark := high_water_mark this; pos_pts := p;
     dvbspeed := dvbspeed this;
     dvbs_center := dvbs_center this; dvbs_width := dvbs_width this;
     stats := stats this |}.

(** [fifo_info->fifo_size = fifo->fifo_data_size;
     fifo_info->fifo_fill = ...; fifo_info->fifo_free = ...;] *)
Definition set_fifo_counts (size fill free : Z) (info : xine_nbc_fifo_info_t)
  : xine_nbc_fifo_info_t :=
  {| last_in_pts := last_in_pts info; last_out_pts := last_out_pts info;
     fifo_pos_pts := fifo_pos_pts info; fill_pts := fill_pts info;
     out_pts := out_pts info;
     fifo_fill := fill; fifo_free := free; fifo_size := size;
     buffer_pool_capacity := buffer_pool_capacity info |}.

Definition set_out_pts_in_fifo (v : Z) (info : xine_nbc_fifo_info_t)
  : xine_nbc_fifo_info_t :=
  {| last_in_pts := last_in_pts info; last_out_pts := last_out_pts info;
     fifo_pos_pts := fifo_pos_pts info; fill_pts := fill_pts info;
     out_pts := v;
     fifo_fill := fifo_fill info; fifo_free := fifo_free info;
     fifo_size := fifo_size info;
     buffer_pool_capacity := buffer_pool_capacity info |}.

(** [prg.percent = (p>100)?100:p;] and the event *)
Definition report_progress (p : Z) : nbc_effect :=
  Report_progress (if p >? 100 then 100 else p).

(** *** The mrl test of [dvbspeed_init]

    [strcasestr] and [strncasecmp] are C library functions; the model
    compares the characters after [tolower] in the C locale. *)
Definition ascii_tolower (c : ascii) : ascii :=
  let n := nat_of_ascii c in
  if (65 <=? n)%nat && (n <=? 90)%nat then ascii_of_nat (n + 32) else c.

Fixpoint prefix_nocase (p s : string) : bool :=
  match p, s with
  | EmptyString, _ => true
  | String a p', String b s' =>
      Ascii.eqb (ascii_tolower a) (ascii_tolower b) && prefix_nocase p' s'
  | String _ _, EmptyString => false
  end.

Fixpoint contains_nocase (p s : string) : bool :=
  prefix_nocase p s
  || match s with
     | EmptyString => false
     | String _ s' => contains_nocase p s'
     end.

(** [(strcasestr (mrl, "/dvbpipe.")) ||
     ((!strncasecmp (mrl, "dvb", 3)) &&
      ((mrl[3] == ':') || (mrl[3] && (mrl[4] == ':'))))] *)
Definition mrl_is_dvb (mrl : string) : bool :=
  contains_nocase "/dvbpipe." mrl
  || prefix_nocase "dvb" mrl
     && (match String.get 3 mrl with
         | Some ":"%char => true
         | Some _ =>
             match String.get 4 mrl with
             | Some ":"%char => true
             | _ => false
             end
         | None => false
         end).

Section Callbacks.

Variable XINE_FINE_SPEED_NORMAL : Z.

(** [nbc_set_speed], as one thread runs it: the speed is applied once;
    a pause is followed by [XINE_LIVE_PAUSE_ON], which lets the decoders
    go on.  The loop of the C function applies again what another
    thread asked for in between. *)
Definition nbc_set_speed (speed_val : Z) : list nbc_effect :=
  if negb (speed_val =? 0) then [Set_fine_speed speed_val]
  else [Set_fine_speed 0; Set_fine_speed XINE_LIVE_PAUSE_ON].

(** *** [nbc_compute_fifo_length] *)

(** [(uint64_t)8000 * info->fifo_size / x], stored in a [uint32_t]. *)
Definition length_by_rate (size x : Z) : Z :=
  CInt.uint32 (8000 * size / x).

Definition set_stream_br (v : Z) (r : nbc_rate_t) : nbc_rate_t :=
  {| fifo_length := fifo_length r; fifo_length_int := fifo_length_int r;
     last_pts := last_pts r; first_pts := first_pts r; br := br r;
     stream_br := v; in_disc := in_disc r |}.

Definition set_fifo_length (v : Z) (r : nbc_rate_t) : nbc_rate_t :=
  {| fifo_length := v; fifo_length_int := fifo_length_int r;
     last_pts := last_pts r; first_pts := first_pts r; br := br r;
     stream_br := stream_br r; in_disc := in_disc r |}.

Definition set_in_disc (v : Z) (r : nbc_rate_t) : nbc_rate_t :=
  {| fifo_length := fifo_length r; fifo_length_int := fifo_length_int r;
     last_pts := last_pts r; first_pts := first_pts r; br := br r;
     stream_br := stream_br r; in_disc := v |}.

Definition nbc_compute_fifo_length (env : nbc_env) (ty : fifo_type)
    (fifo : fifo_buffer_t) (buf_pts : Z) (action : fifo_action)
    (st : nbc_state) : nbc_state :=
  (* faster than 4x _x_stream_info_get () *)
  let st := {| core := core st;
               video_rate := set_stream_br (env_video_bitrate env) (video_rate st);
               audio_rate := set_stream_br (env_audio_bitrate env) (audio_rate st);
               has_audio := env_has_audio env;
               has_video := env_has_video env |} in
  let info := fifo_info (core st) ty in
  let r := rate_of st ty in
  let fifo_div :=
    CInt.int32 (fb_buffer_pool_num_free fifo + fb_fifo_size fifo - 1) in
  (* avoid a possible divide-by-zero *)
  let fifo_div := if fifo_div =? 0 then 1 else fifo_div in
  let info :=
    set_fifo_counts (fb_fifo_data_size fifo)
      (Z.quot (CInt.int32 (100 * fb_fifo_size fifo)) fifo_div)
      (fb_buffer_pool_num_free fifo) info in
  let have_pts := negb (buf_pts =? 0) && (in_disc r =? 0) in
  let last_pts' :=
    if have_pts then match action with
                     | FIFO_PUT => buf_pts
                     | FIFO_GET => last_pts r
                     end
    else last_pts r in
  let first_pts' :=
    if have_pts then match action with
                     | FIFO_PUT => if first_pts r =? 0 then buf_pts else first_pts r
                     | FIFO_GET => buf_pts
                     end
    else first_pts r in
  let '(br', length_int') :=
    if negb (stream_br r =? 0)
    then (stream_br r, length_by_rate (fifo_size info) (stream_br r))
    else if have_pts
    then (if negb (fifo_length r =? 0)
          then length_by_rate (fifo_size info) (fifo_length r) else 0,
          CInt.uint32 (Z.quot (CInt.int64 (last_pts' - first_pts')) 90))
    else (br r,
          if negb (br r =? 0) then length_by_rate (fifo_size info) (br r)
          else fifo_length_int r) in
  let r := {| fifo_length := fifo_length r; fifo_length_int := length_int';
              last_pts := last_pts'; first_pts := first_pts';
              br := br'; stream_br := stream_br r; in_disc := in_disc r |} in
  let st := set_rate ty r (set_core (set_info ty info (core st)) st) in
  (* decoder buffer compensation *)
  let diff :=
    if negb (has_audio st =? 0) && negb (has_video st =? 0)
    then CInt.int64 (first_pts (video_rate st) - first_pts (audio_rate st))
    else 0 in
  let v := video_rate st in
  let a := audio_rate st in
  if diff >? 0
  then set_rate BUF_AUDIO_BASE (set_fifo_length (fifo_length_int a) a)
         (set_rate BUF_VIDEO_BASE
            (set_fifo_length (CInt.uint32 (fifo_length_int v + Z.quot diff 90)) v)
            st)
  else set_rate BUF_AUDIO_BASE
         (set_fifo_length (CInt.uint32 (fifo_length_int a - Z.quot diff 90)) a)
         (set_rate BUF_VIDEO_BASE (set_fifo_length (fifo_length_int v) v) st).

(** *** [dvbspeed_init] and [dvbspeed_close] *)

(** [info->pos_pts = 0; info->last_in_pts = info->last_out_pts = 0;
     info->fill_pts = info->out_pts = 0;] *)
Definition clear_pts (info : xine_nbc_fifo_info_t) : xine_nbc_fifo_info_t :=
  {| last_in_pts := 0; last_out_pts := 0; fifo_pos_pts := 0;
     fill_pts := 0; out_pts := 0;
     fifo_fill := fifo_fill info; fifo_free := fifo_free info;
     fifo_size := fifo_size info;
     buffer_pool_capacity := buffer_pool_capacity info |}.

Definition use_dvbs (env : nbc_env) : bool :=
  match env_input env with
  | None => false
  | Some (live, mrl) =>
      if live then true
      else match mrl with
           | Some mrl => mrl_is_dvb mrl
           | None => false
           end
  end.

Definition dvbspeed_init (env : nbc_env) (this : xine_nbc_t)
  : xine_nbc_t * list nbc_effect :=
  if use_dvbs env then
    let this :=
      {| buffering := buffering this; enabled := enabled this;
         progress := progress this;
         audio := clear_pts (audio this); video := clear_pts (video this);
         high_water_mark := high_water_mark this; pos_pts := pos_pts this;
         dvbspeed := 7;
         dvbs_center := 2 * 90000; dvbs_width := 90000;
         stats := stats this |} in
    (this,
     [Delay_init]
     ++ match env_slow_fast_audio env with
        | Some v => if v =? 0
                    then [Config_update_num "audio.synchronization.slow_fast_audio" 1]
                    else []
        | None => []
        end
     ++ match env_video_num_buffers env with
        | Some v => if v <? 800
                    then [Config_update_num "engine.buffers.video_num_buffers" 800]
                    else []
        | None => []
        end)
  else (this, []).

Definition dvbspeed_close (this : xine_nbc_t) : xine_nbc_t * list nbc_effect :=
  (set_dvbspeed 0 this,
   [Delay_stop]
   ++ (if speed_bit 0xec (dvbspeed this)
       then nbc_set_speed XINE_FINE_SPEED_NORMAL else [])).

(** *** [nbc_alloc_cb] *)

Definition nbc_alloc_cb (fifo : fifo_buffer_t) (st : nbc_state)
  : nbc_state * list nbc_effect :=
  let this := core st in
  (* restart playing if one fifo is full (to avoid deadlock) *)
  if fb_buffer_pool_num_free fifo <=? FULL_FIFO_MARK then
    if negb (enabled this =? 0) then
      if negb (dvbspeed this =? 0) then
        if negb (speed_bit 0x48 (dvbspeed this)) then
          (set_core (set_dvbspeed (if speed_bit 0x06 (dvbspeed this) then 3 else 6)
                       this) st,
           nbc_set_speed (Z.quot (CInt.int32 (1005 * XINE_FINE_SPEED_NORMAL)) 1000))
        else (st, [])
      else if negb (buffering this =? 0) then
        (set_core (set_buffering 0 100 this) st,
         nbc_set_speed XINE_FINE_SPEED_NORMAL ++ [report_progress 100])
      else (st, [])
    else (st, [])
  else (st, []).

(** *** [xine_nbc_event] *)

(** The body of [xine_nbc_event] for [XINE_NBC_EVENT_AUDIO_DRY] on a
    stream that has a controller. *)
Definition xine_nbc_event_audio_dry (st : nbc_state)
  : nbc_state * list nbc_effect :=
  let this := core st in
  if fill_pts (audio this) <? 1000 then
    if (dvbspeed this =? 4) || (dvbspeed this =? 5) || (dvbspeed this =? 6)
    then (set_core (set_stats (nbc_stats_reset (stats this)) (set_dvbspeed 7 this)) st,
          nbc_set_speed 0)
    else (st, [])
  else (st, []).

(** *** [nbc_put_cb] *)

(** [x / this->high_water_mark] in [uint32_t], stored in the [int]
    [progress]; [None] where the mark is 0 and the C division is
    undefined. *)
Definition progress_by_mark (x hwm : Z) : option (Z * bool) :=
  if hwm =? 0 then None else Some (CInt.int32 (x / hwm), true).

(** The progress a put works out while buffering, and whether the
    buffering goes on: the [if (this->has_video)] tree. *)
Definition buffering_progress (st : nbc_state) : option (Z * bool) :=
  let hwm := high_water_mark (core st) in
  let vlen := fifo_length (video_rate st) in
  let alen := fifo_length (audio_rate st) in
  if negb (has_video st =? 0) then
    if negb (has_audio st =? 0) then
      if (vlen >? hwm) && (alen >? hwm) then Some (100, false)
      else
        (*  compute the buffering progress, 50%: video, 50%: audio *)
        progress_by_mark (CInt.uint32 (CInt.uint32 (vlen + alen) * 50)) hwm
    else
      if vlen >? hwm then Some (100, false)
      else progress_by_mark (CInt.uint32 (vlen * 100)) hwm
  else
    if negb (has_audio st =? 0) then
      if alen >? hwm then Some (100, false)
      else progress_by_mark (CInt.uint32 (alen * 100)) hwm
    else Some (0, true).

(** The data branch of [nbc_put_cb] and [nbc_get_cb] up to the lock:
    the counts, the fill time and the pts in the audio output. *)
Definition update_fifo_info (env : nbc_env) (ty : fifo_type)
    (fifo : fifo_buffer_t)
    (fill : Z -> xine_nbc_fifo_info_t -> xine_nbc_fifo_info_t)
    (pts : Z) (info : xine_nbc_fifo_info_t) : xine_nbc_fifo_info_t :=
  let info := set_fifo_counts (fb_fifo_data_size fifo) (fb_fifo_size fifo)
                (fb_buffer_pool_num_free fifo) info in
  let info := fill pts info in
  match ty with
  | BUF_AUDIO_BASE =>
      match env_audio_pts_in_fifo env with
      | Some v => set_out_pts_in_fifo v info
      | None => info
      end
  | BUF_VIDEO_BASE => set_out_pts_in_fifo 0 info
  end.

(** The end of both callbacks: [if (speed >= 0) nbc_set_speed (this, speed);] *)
Definition apply_speed (speed : Z) : list nbc_effect :=
  if speed >=? 0 then nbc_set_speed speed else [].

(** The counts of the fifo a control buffer came through. *)
Definition control_counts (ty : fifo_type) (fifo : fifo_buffer_t)
    (this : xine_nbc_t) : xine_nbc_t :=
  let info := fifo_info this ty in
  set_info ty (set_fifo_counts (fb_fifo_data_size fifo) (fifo_fill info)
                 (fb_buffer_pool_num_free fifo) info) this.

(** [case BUF_CONTROL_START:] the state, what is done, and [speed]. *)
Definition put_control_start (env : nbc_env) (ty : fifo_type) (st : nbc_state)
  : nbc_state * list nbc_effect * Z :=
  let this := core st in
  if enabled this =? 0 then
    (* a new stream starts *)
    let info := fifo_info this ty in
    let info := set_in_pts 0 0 (fill_pts info)
                  (set_out_pts 0 (fill_pts info) info) in
    let this := set_info ty info this in
    let this := set_pos_pts 0 this in
    let this := set_enabled 1 this in
    let this := set_buffering 1 (progress this) this in
    let clear (r : nbc_rate_t) :=
      {| fifo_length := 0; fifo_length_int := fifo_length_int r;
         last_pts := 0; first_pts := 0; br := br r;
         stream_br := stream_br r; in_disc := in_disc r |} in
    let '(this, effects) := dvbspeed_init env this in
    let speed := if dvbspeed this =? 0 then 0 else -1 in
    let this := set_buffering (buffering this) 0 this in
    ({| core := this;
        video_rate := clear (video_rate st);
        audio_rate := clear (audio_rate st);
        has_audio := has_audio st; has_video := has_video st |},
     effects ++ [report_progress 0], speed)
  else (st, [], -1).

(** [case BUF_CONTROL_END: case BUF_CONTROL_QUIT:], and
    [BUF_CONTROL_NOP] with an end flag. *)
Definition put_control_end (st : nbc_state) : nbc_state * list nbc_effect * Z :=
  let '(this, effects) := dvbspeed_close (core st) in
  if negb (enabled this =? 0) then
    (* end of stream: disable the nbc, unpause the engine if buffering *)
    let this := set_enabled 0 this in
    if negb (buffering this =? 0)
    then (set_core (set_buffering 0 100 this) st,
          effects ++ [report_progress 100], XINE_FINE_SPEED_NORMAL)
    else (set_core this st, effects, -1)
  else (set_core this st, effects, -1).

Definition put_control (env : nbc_env) (ty : fifo_type) (buf : buf_element_t)
    (kind : buf_control_t) (st : nbc_state) : nbc_state * list nbc_effect * Z :=
  match kind with
  | BUF_CONTROL_START => put_control_start env ty st
  | BUF_CONTROL_NOP =>
      if buf_end_flags buf then put_control_end st else (st, [], -1)
  | BUF_CONTROL_END | BUF_CONTROL_QUIT => put_control_end st
  | BUF_CONTROL_NEWPTS =>
      (* discontinuity management *)
      let r := rate_of st ty in
      (set_rate ty (set_in_disc (CInt.int32 (in_disc r + 1)) r) st, [], -1)
  | BUF_CONTROL_other => (st, [], -1)
  end.

(** The [if (this->buffering)] block of a put on a seekable stream,
    after [nbc_compute_fifo_length]. *)
Definition put_buffering_with (env : nbc_env) (st : nbc_state)
    (progress' : Z) (still : bool) : nbc_state * list nbc_effect :=
  let this := core st in
  let stats_effects :=
    [Report_stats 0] ++ (if env_verbose env then [Display_stats] else []) in
  if negb still then
    (set_core (set_buffering 0 100 this) st,
     [report_progress 100] ++ stats_effects
     ++ apply_speed XINE_FINE_SPEED_NORMAL)
  else
    (* if the progress can't be computed using the fifo length,
       use the number of buffers *)
    let progress' :=
      if progress' =? 0
      then (if fifo_fill (video this) >? fifo_fill (audio this)
            then fifo_fill (video this) else fifo_fill (audio this))
      else progress' in
    if progress' >? progress this
    then (set_core (set_buffering (buffering this) progress' this) st,
          [report_progress progress'] ++ stats_effects)
    else (st, stats_effects).

Definition put_buffering (env : nbc_env) (st : nbc_state)
  : option (nbc_state * list nbc_effect) :=
  match buffering_progress st with
  | None => None
  | Some (progress', still) => Some (put_buffering_with env st progress' still)
  end.

Definition nbc_put_cb (env : nbc_env) (ty : fifo_type) (fifo : fifo_buffer_t)
    (buf : buf_element_t) (st : nbc_state)
  : option (nbc_state * list nbc_effect) :=
  match buf_type buf with
  | Buf_data major =>
      if negb (bool_decide (major = ty)) then Some (st, [])
      else
        let info := update_fifo_info env ty fifo nbc_put_cb_fill (buf_pts buf)
                      (fifo_info (core st) ty) in
        let this := set_info ty info (core st) in
        let this := if fifo_pos_pts info >? pos_pts this
                    then set_pos_pts (fifo_pos_pts info) this else this in
        if negb (dvbspeed this =? 0) then
          match dvbspeed_put XINE_FINE_SPEED_NORMAL ty (env_fine_speed env) this with
          | None => None
          | Some (this, speed, calls) =>
              Some (set_core this st, (Delay <$> calls) ++ apply_speed speed)
          end
        else if negb (enabled this =? 0) then
          let st := nbc_compute_fifo_length env ty fifo (buf_pts buf) FIFO_PUT
                      (set_core this st) in
          if negb (buffering (core st) =? 0) then put_buffering env st
          else Some (st, [])
        else Some (set_core this st, [])
  | Buf_control kind =>
      let '(st, effects, speed) := put_control env ty buf kind st in
      Some (set_core (control_counts ty fifo (core st)) st,
            effects ++ apply_speed speed)
  | Buf_other => Some (st, [])
  end.

(** *** [nbc_get_cb] *)

Definition nbc_get_cb (env : nbc_env) (ty : fifo_type) (fifo : fifo_buffer_t)
    (buf : buf_element_t) (st : nbc_state)
  : option (nbc_state * list nbc_effect) :=
  match buf_type buf with
  | Buf_data major =>
      if negb (bool_decide (major = ty)) then Some (st, [])
      else
        let info := update_fifo_info env ty fifo nbc_get_cb_fill (buf_pts buf)
                      (fifo_info (core st) ty) in
        let this := set_info ty info (core st) in
        if negb (dvbspeed this =? 0) then
          match dvbspeed_get XINE_FINE_SPEED_NORMAL ty this with
          | None => None
          | Some (this, speed, calls) =>
              Some (set_core this st, (Delay <$> calls) ++ apply_speed speed)
          end
        else if negb (enabled this =? 0) then
          let st := nbc_compute_fifo_length env ty fifo (buf_pts buf) FIFO_GET
                      (set_core this st) in
          let this := core st in
          if buffering this =? 0 then
            let stats_effects :=
              [Report_stats 1] ++ (if env_verbose env then [Display_stats] else []) in
            (* start buffering if one fifo is empty *)
            if ((fifo_length (video_rate st) =? 0) && negb (has_video st =? 0)
                || (fifo_length (audio_rate st) =? 0) && negb (has_audio st =? 0))
               (* do not pause if a fifo is full to avoid yoyo *)
               && ((fifo_free (video this) >? FULL_FIFO_MARK)
                   && (fifo_free (audio this) >? FULL_FIFO_MARK))
            then Some (set_core (set_buffering 1 0 this) st,
                       [report_progress 0] ++ stats_effects ++ apply_speed 0)
            else Some (st, stats_effects)
          else Some (st, apply_speed 0)
        else Some (set_core this st, [])
  | Buf_control kind =>
      let st :=
        match kind with
        | BUF_CONTROL_NEWPTS =>
            let r := rate_of st ty in
            set_rate ty (set_in_disc (CInt.int32 (in_disc r - 1)) r) st
        | _ => st
        end in
      Some (set_core (control_counts ty fifo (core st)) st, [])
  | Buf_other => Some (st, [])
  end.

End Callbacks.

(** *** [xine_nbc_init] *)

Definition zero_info (capacity : Z) : xine_nbc_fifo_info_t :=
  {| last_in_pts := 0; last_out_pts := 0; fifo_pos_pts := 0;
     fill_pts := 0; out_pts := 0;
     fifo_fill := 0; fifo_free := 0; fifo_size := 0;
     buffer_pool_capacity := capacity |}.

Definition zero_rate : nbc_rate_t :=
  {| fifo_length := 0; fifo_length_int := 0; last_pts := 0; first_pts := 0;
     br := 0; stream_br := 0; in_disc := 0 |}.

(** The controller [xine_nbc_init] makes for a stream that has none:
    zeroed by [calloc], the history reset, the mark scaled.  [None]
    where the mark does not fit its [uint32_t]. *)
Definition xine_nbc_init (video_num_default audio_num_default : option Z)
    (video_capacity audio_capacity : Z) : option nbc_state :=
  match xine_nbc_init_high_water_mark video_num_default audio_num_default
          video_capacity audio_capacity with
  | None => None
  | Some mark =>
      Some {| core :=
                {| buffering := 0; enabled := 0; progress := 0;
                   audio := zero_info audio_capacity;
                   video := zero_info video_capacity;
                   high_water_mark := mark; pos_pts := 0;
                   dvbspeed := 0; dvbs_center := 0; dvbs_width := 0;
                   stats := nbc_stats_reset
                              {| stats_min := 0; stats_hpos := 0;
                                 stats_hist := replicate 1024 0;
                                 stats_num := replicate 256 0 |} |};
              video_rate := zero_rate; audio_rate := zero_rate;
              has_audio := 0; has_video := 0 |}
  end.

(** ** Vocabulary of the statements about the callbacks *)

(** The state of the live controller is one of its eight, and the
    history is in order: the bucket counts are those of the cells and
    the stored minimum is the minimum of the cells. *)
Definition live_ok (this : xine_nbc_t) : Prop :=
  0 <= dvbspeed this <= 7 /\ exists h, stats_repr (stats this) h.

(** What the callbacks do beside the live controller leaves its state
    and the history alone. *)
Definition same_live (c c' : xine_nbc_t) : Prop :=
  dvbspeed c' = dvbspeed c /\ stats c' = stats c
  /\ high_water_mark c' = high_water_mark c.

(** A callback kept the live controller in order and the mark as it
    was. *)
Definition keeps_live (c c' : xine_nbc_t) : Prop :=
  live_ok c' /\ high_water_mark c' = high_water_mark c.

(** Whether a callback asked for a speed, and for which. *)
Definition sets_speed (v : Z) (effects : list nbc_effect) : Prop :=
  In (Set_fine_speed v) effects.

Definition keeps_speed (effects : list nbc_effect) : Prop :=
  forall v, ~ In (Set_fine_speed v) effects.

(** A fifo holds more than the high water mark. *)
Definition above_mark (st : nbc_state) (ty : fifo_type) : Prop :=
  fifo_length (rate_of st ty) > high_water_mark (core st).

(** The stream has video (audio), by its stream infos. *)
Definition stream_has (st : nbc_state) (ty : fifo_type) : Prop :=
  match ty with
  | BUF_VIDEO_BASE => has_video st <> 0
  | BUF_AUDIO_BASE => has_audio st <> 0
  end.

(** The speed that goes with a state of the live controller. *)
Definition speed_of_state (XINE_FINE_SPEED_NORMAL : Z) (state : Z) : Z :=
  if (state =? 1) || (state =? 4) then XINE_FINE_SPEED_NORMAL
  else if (state =? 2) || (state =? 5)
  then Z.quot (CInt.int32 (XINE_FINE_SPEED_NORMAL * 995)) 1000
  else if (state =? 3) || (state =? 6)
  then Z.quot (CInt.int32 (XINE_FINE_SPEED_NORMAL * 1005)) 1000
  else 0.

(** A buffer that ends the stream for [nbc_put_cb]. *)
Definition ends_stream (buf : buf_element_t) : Prop :=
  buf_type buf = Buf_control BUF_CONTROL_END
  \/ buf_type buf = Buf_control BUF_CONTROL_QUIT
  \/ (buf_type buf = Buf_control BUF_CONTROL_NOP /\ buf_end_flags buf = true).

(** The states the callbacks can bring a controller to from [st0]. *)
Inductive nbc_reachable (XINE_FINE_SPEED_NORMAL : Z) (st0 : nbc_state)
  : nbc_state -> Prop :=
  | nbc_reach_start : nbc_reachable XINE_FINE_SPEED_NORMAL st0 st0
  | nbc_reach_put env ty fifo buf st st' effects :
      nbc_reachable XINE_FINE_SPEED_NORMAL st0 st ->
      nbc_put_cb XINE_FINE_SPEED_NORMAL env ty fifo buf st = Some (st', effects) ->
      nbc_reachable XINE_FINE_SPEED_NORMAL st0 st'
  | nbc_reach_get env ty fifo buf st st' effects :
      nbc_reachable XINE_FINE_SPEED_NORMAL st0 st ->
      nbc_get_cb XINE_FINE_SPEED_NORMAL env ty fifo buf st = Some (st', effects) ->
      nbc_reachable XINE_FINE_SPEED_NORMAL st0 st'
  | nbc_reach_alloc fifo st :
      nbc_reachable XINE_FINE_SPEED_NORMAL st0 st ->
      nbc_reachable XINE_FINE_SPEED_NORMAL st0
        (fst (nbc_alloc_cb XINE_FINE_SPEED_NORMAL fifo st))
  | nbc_reach_audio_dry st :
      nbc_reachable XINE_FINE_SPEED_NORMAL st0 st ->
      nbc_reachable XINE_FINE_SPEED_NORMAL st0 (fst (xine_nbc_event_audio_dry st)).

Ltac eval_speed_bits :=
  repeat match goal with
         | |- context [speed_bit ?m ?v] =>
             let b := eval vm_compute in (speed_bit m v) in
             change (speed_bit m v) with b
         end.

Ltac split_ifs :=
  repeat match goal with
         | |- context [if ?c then _ else _] => destruct c
         | |- context [match ?x with Some _ => _ | None => _ end] => destruct x
         end.

Ltac finish_cases :=
  repeat match goal with
         | |- _ /\ _ => split
         | |- _ -> _ => intro
         | |- ~ _ => intro
         end;
  try reflexivity; try assumption; try congruence; try lia;
  cbn in *; intuition (try discriminate; try congruence; try lia);
  repeat match goal with
         | H : Set_fine_speed _ = Set_fine_speed _ |- _ => injection H as H
         end; try lia.

(** A put that starts a stream, and a video buffer. *)
Definition sample_env : nbc_env :=
  {| env_fine_speed := 1000000; env_audio_pts_in_fifo := Some 0;
     env_has_video := 1; env_has_audio := 1;
     env_video_bitrate := 0; env_audio_bitrate := 0;
     env_verbose := false;
     env_input := Some (false, Some "http://example.org/clip.mkv"%string);
     env_slow_fast_audio := Some 0; env_video_num_buffers := Some 500 |}.

Definition sample_fifo (size free : Z) : fifo_buffer_t :=
  {| fb_fifo_size := size; fb_fifo_data_size := 4096 * size;
     fb_buffer_pool_num_free := free |}.

Definition sample_start : buf_element_t :=
  {| buf_type := Buf_control BUF_CONTROL_START; buf_pts := 0;
     buf_end_flags := false |}.

Definition sample_buf (ty : fifo_type) (pts : Z) : buf_element_t :=
  {| buf_type := Buf_data ty; buf_pts := pts; buf_end_flags := false |}.

Definition sample_control (kind : buf_control_t) : buf_element_t :=
  {| buf_type := Buf_control kind; buf_pts := 0; buf_end_flags := false |}.

(** A controller with the default mark, by its three flags. *)
Definition sample_state (buffering enabled dvbspeed : Z) : nbc_state :=
  {| core :=
       {| buffering := buffering; enabled := enabled; progress := 0;
          audio := sample_fresh_info; video := sample_fresh_info;
          high_water_mark := DEFAULT_HIGH_WATER_MARK; pos_pts := 0;
          dvbspeed := dvbspeed; dvbs_center := 2 * 90000; dvbs_width := 90000;
          stats := nbc_stats_reset
                     {| stats_min := 0; stats_hpos := 0;
                        stats_hist := replicate 1024 0;
                        stats_num := replicate 256 0 |} |};
     video_rate := zero_rate; audio_rate := zero_rate;
     has_audio := 1; has_video := 1 |}.

(** ** load_plugins.c: registering statically linked plugins *)

(** The plugin types in the order of their lists, [modules_list] last. *)
Definition plugin_types : list plugin_type :=
  [PLUGIN_INPUT; PLUGIN_DEMUX; PLUGIN_AUDIO_DECODER; PLUGIN_VIDEO_DECODER;
   PLUGIN_SPU_DECODER; PLUGIN_AUDIO_OUT; PLUGIN_VIDEO_OUT; PLUGIN_POST;
   PLUGIN_XINE_MODULE].

(** The key of the priority override in [_insert_node]:
    [memcpy (key, "engine.decoder_priorities.", 26);
     strlcpy (key + 26, info->id, sizeof (key) - 26);] with [char key[128]]. *)
Definition decoder_priority_key (id : string) : string :=
  "engine.decoder_priorities." ++ String.substring 0 101 id.

Section Register.

Variable DECODER_MAX : nat.
Variable PLUGIN_MAX : Z.
Variable plugin_iface_versions : plugin_type -> Z.

(** What the configuration answers [register_num] for a key, and its
    [current_version]. *)
Variable register_num : string -> Z.
Variable config_version : Z.

(** [_register_plugins_internal (self, NULL, NULL, info, 0)]: the
    [while (info && info->type != PLUGIN_NONE)] loop over the entries in
    front of the [PLUGIN_NONE] terminator, with [info++].  The statuses
    of [_insert_node] are kept for the statements; the C loop drops
    them. *)
Fixpoint _register_plugins_internal (infos : list plugin_info_t)
    (c : plugin_catalog_t) : plugin_catalog_t * list Z :=
  match infos with
  | [] => (c, [])
  | info :: rest =>
      let '(c, _, status) :=
        _insert_node DECODER_MAX PLUGIN_MAX plugin_iface_versions c None info
          (register_num (decoder_priority_key (default EmptyString (info_id info))))
          config_version in
      let '(c, statuses) := _register_plugins_internal rest c in
      (c, status :: statuses)
  end.

(** [xine_register_plugins (self, info)] for a [self] that is there. *)
Definition xine_register_plugins (infos : list plugin_info_t)
    (c : plugin_catalog_t) : plugin_catalog_t :=
  fst (_register_plugins_internal infos c).

End Register.

(** ** Vocabulary of the statements about registration *)

(** The nodes in the lists, and in the three decoder lists. *)
Definition listed (c : plugin_catalog_t) : nat :=
  sum_list ((fun ty => length (plugin_lists c ty)) <$> plugin_types).

Definition decoders_listed (c : plugin_catalog_t) : nat :=
  (length (plugin_lists c PLUGIN_AUDIO_DECODER)
   + length (plugin_lists c PLUGIN_VIDEO_DECODER)
   + length (plugin_lists c PLUGIN_SPU_DECODER))%nat.

(** The order [_post_plugin_node_comparator] stands for: higher
    priority first, and by name within one priority. *)
Definition post_before (nd : nat -> fat_node_t) (a b : nat) : Prop :=
  node_priority (nd a) > node_priority (nd b)
  \/ (node_priority (nd a) = node_priority (nd b)
      /\ strcmp (node_id (nd a)) (node_id (nd b)) <= 0).

(** A catalog in order: the counters count the nodes in the lists,
    every list has falling priorities and no node twice, its nodes are
    of its type and allocated, and the post plugins of one priority
    are sorted by name. *)
Record catalog_ok (c : plugin_catalog_t) : Prop := {
  cok_plugin_count : plugin_count c = Z.of_nat (listed c);
  cok_decoder_count : decoder_count c = Z.of_nat (decoders_listed c);
  cok_falling : forall ty, falling (nodes c) (plugin_lists c ty);
  cok_post : StronglySorted (post_before (nodes c)) (plugin_lists c PLUGIN_POST);
  cok_nodup : forall ty, NoDup (plugin_lists c ty);
  cok_typed : forall ty a, a ∈ plugin_lists c ty -> node_type (nodes c a) = ty;
  cok_alloc : forall ty a, a ∈ plugin_lists c ty -> (a < nodes_end c)%nat
}.

(** What registration leaves of a catalog: the lists grow around
    their nodes, the nodes there are stay as they are, and the decoder
    maps are not touched. *)
Record catalog_extends (c c' : plugin_catalog_t) : Prop := {
  ext_lists : forall ty, sublist (plugin_lists c ty) (plugin_lists c' ty);
  ext_nodes : forall a, (a < nodes_end c)%nat -> nodes c' a = nodes c a;
  ext_end : (nodes_end c <= nodes_end c')%nat;
  ext_audio : audio_decoder_map c' = audio_decoder_map c;
  ext_video : video_decoder_map c' = video_decoder_map c;
  ext_spu : spu_decoder_map c' = spu_decoder_map c
}.

(** A post plugin as a plugin file describes it. *)
Definition sample_post_info (id : string) : plugin_info_t :=
  {| info_type := Some PLUGIN_POST; info_no_unload := false;
     info_API := 10; info_id := Some id; info_version := 1;
     info_special := Some {| ai_priority := 0; ai_supported_types := None;
                             ai_visual_type := 0; ai_post_type := 1 |};
     info_init := true |}.

(** Two post plugins and a video decoder, as
    [xine_register_plugins] gets them. *)
Definition sample_infos : list plugin_info_t :=
  [sample_post_info "tvtime"; sample_post_info "expand"; sample_plugin_info 5].

(** Three video decoders for stream type 1, registered against the
    order of their priorities 3, 7 and 5. *)
Definition sample_decoder_infos : list plugin_info_t :=
  [sample_plugin_info 3; sample_plugin_info 7; sample_plugin_info 5].

(** A configuration without priority overrides. *)
Definition sample_register_num (key : string) : Z := 0.

Definition sample_iface_versions (ty : plugin_type) : Z :=
  match ty with
  | PLUGIN_VIDEO_DECODER => 19
  | PLUGIN_POST => 10
  | _ => 1
  end.

(** ** load_plugins.c: decoders in use *)

(** [_x_decoder_available (xine, buftype)] for a [buftype] whose major
    type is that of the decoder type [ty] and whose stream type is
    [stream_type]: [if (catalog->..._decoder_map[stream_type][0]) return 1;
    return 0;]. *)
Definition _x_decoder_available (ty : plugin_type) (stream_type : nat)
    (c : plugin_catalog_t) : Z :=
  match row_of (decoder_map ty c) stream_type !! 0%nat with
  | Some (Some _) => 1
  | _ => 0
  end.

(** [inc_node_ref] and [dec_node_ref] on the [int] [node->ref];
    [dec_node_ref] asserts [node->ref > 0] first. *)
Definition inc_node_ref (node : nat) (c : plugin_catalog_t) : plugin_catalog_t :=
  update_node node (fun n => set_node_ref (CInt.int32 (node_ref n + 1)) n) c.

Definition dec_node_ref (node : nat) (c : plugin_catalog_t) : plugin_catalog_t :=
  update_node node (fun n => set_node_ref (CInt.int32 (node_ref n - 1)) n) c.

(** [_x_free_video_decoder], [_x_free_audio_decoder] and
    [_x_free_spu_decoder] on the catalog, for an instance whose
    [vd->node] is [node] (the getters set it to the node they took the
    instance from): after [dispose] of the instance,
    [if (node) dec_node_ref (node)].  The second component tells
    whether the assertion of [dec_node_ref] held. *)
Definition _x_free_decoder (node : option nat) (c : plugin_catalog_t)
  : plugin_catalog_t * bool :=
  match node with
  | Some node => (dec_node_ref node c, node_ref (nodes c node) >? 0)
  | None => (c, true)
  end.

(** [_unload_unref_plugin] on the node: [if (node->ref == 0)
    _dispose_plugin_class (node)], which sets [node->plugin_class] to
    [NULL].  The catalog model has no plugin files: their reference
    counts and the [dlclose] of a library no class refers to are left
    out. *)
Definition _unload_unref_plugin (node : nat) (c : plugin_catalog_t)
  : plugin_catalog_t :=
  if node_ref (nodes c node) =? 0
  then update_node node (set_node_plugin_class false) c
  else c.

(** [_unload_unref_plugins (xine, list)] *)
Definition _unload_unref_plugins (l : list nat) (c : plugin_catalog_t)
  : plugin_catalog_t :=
  foldl (fun c node => _unload_unref_plugin node c) c l.

(** [xine_plugins_garbage_collector]: the lists [plugin_lists[0]] to
    [plugin_lists[PLUGIN_TYPE_MAX - 1]], in order. *)
Definition xine_plugins_garbage_collector (c : plugin_catalog_t) : plugin_catalog_t :=
  foldl (fun c ty => _unload_unref_plugins (plugin_lists c ty) c) c
    [PLUGIN_INPUT; PLUGIN_DEMUX; PLUGIN_AUDIO_DECODER; PLUGIN_VIDEO_DECODER;
     PLUGIN_SPU_DECODER; PLUGIN_AUDIO_OUT; PLUGIN_VIDEO_OUT; PLUGIN_POST].

(** A catalog after [map_decoders], and plugins that all load. *)
Definition sample_mapped : plugin_catalog_t :=
  map_decoders 3 2 (sample_scan PLUGIN_VIDEO_DECODER).

Definition sample_load (a : nat) : load_result := LOAD_CLASS.

(** Every decoder is broken. *)
Definition sample_open_null (a : nat) : open_result := OPEN_NULL.

(** ** Vocabulary of the statements about the plugin cache *)

(** What every node that [load_plugin_list] hands on has: an id that
    is not empty, a file other than the built-in pseudo file, at most
    255 supported types, none of them 0, and at most 255 configuration
    entries. *)
Record cache_node_ok (n : cache_node_t) : Prop := {
  cno_id : exists ch id, ci_id (cn_info n) = Some (String ch id);
  cno_file : cf_filename (cn_file n) <> "libxine/builtins"%string;
  cno_types : (length (cn_supported_types n) <= 255)%nat;
  cno_types_nonzero : Forall (fun t => t <> 0) (cn_supported_types n);
  cno_keys : (length (cn_config_keys n) <= 255)%nat
}.

(** What holds of the loader between two lines. *)
Record load_state_ok (st : load_state) : Prop := {
  lso_skip : ls_skip st
             = String.eqb (cf_filename (cn_file (ls_node st))) "libxine/builtins";
  lso_types : (length (cn_supported_types (ls_node st)) <= 255)%nat;
  lso_types_nonzero : Forall (fun t => t <> 0) (cn_supported_types (ls_node st));
  lso_keys : (length (cn_config_keys (ls_node st)) <= 255)%nat;
  lso_plugins : Forall cache_node_ok (ls_plugins st)
}.

(** A cache file with an entry without id, the built-in plugins and a
    decoder. *)
Definition sample_cache_mixed : list string :=
  [ "cache_catalog_version=5";
    "";
    "[/usr/lib/xine/plugins/xineplug_nothing.so]";
    "size=1";
    "type=131";
    "";
    "[libxine/builtins]";
    "type=2";
    "id=rawvideo";
    "";
    "[/usr/lib/xine/plugins/xineplug_decode_a52.so]";
    "size=34816";
    "# not a key";
    "type=131";
    "id=a/52";
    "supported_types=50331648 50397184";
    "" ]%string.

(** ** load_plugins.c: writing the plugin cache *)

(** What [save_plugin_list] reads of a node: [node->file] (the address
    of its [plugin_file_t], [None] for a statically linked plugin),
    [node->info] with the member of [special_info] that belongs to the
    plugin type, and the texts its loop over [node->config_entry_list]
    writes behind [config_key=] (a serialized entry, or the index of an
    entry that was written before, in brackets; serializing and the
    table of duplicates are the configuration's business).  The
    supported types are those in front of the terminating 0. *)
Record save_node_t : Type := {
  sv_file : option nat;
  sv_type : Z;
  sv_API : Z;
  sv_version : Z;
  sv_id : string;
  sv_visual_type : Z;
  sv_priority : Z;
  sv_supported_types : list Z;
  sv_post_type : Z;
  sv_module_type : string;
  sv_module_sub_type : Z;
  sv_config : list string
}.

(** The locals [last_file], [last_type], [last_api] and [last_vers];
    [last_file] is [None] for the pointer [1] it starts with. *)
Record save_state : Type := {
  last_file : option (option nat);
  last_type : Z;
  last_api : Z;
  last_vers : Z
}.

(** [~0u] *)
Definition SAVE_NONE : Z := 0xFFFFFFFF.

Definition save_state_init : save_state :=
  {| last_file := None; last_type := SAVE_NONE; last_api := SAVE_NONE;
     last_vers := SAVE_NONE |}.

(** The bytes of lines in the buffer, each with its line feed. *)
Definition text_size (lines : list string) : nat :=
  sum_list ((fun line => S (String.length line)) <$> lines).

(** [xine_uint32_2str (&q, *t++); *q++ = ' ';] for every type, then
    [q[-1] = '\n']: with no type at all this overwrites the ['='] of
    the key. *)
Fixpoint join_types (texts : list string) : string :=
  match texts with
  | [] => EmptyString
  | [t] => t
  | t :: rest => t ++ " " ++ join_types rest
  end.

(** Whether a text holds no line feed. *)
Fixpoint one_line (text : string) : bool :=
  match text with
  | EmptyString => true
  | String ch rest => negb (Ascii.eqb ch "010") && one_line rest
  end.

Section SavePluginList.

(** The number printers of [xineutils] are not among the sources. *)
Variable xine_uint2str : Z -> string.
Variable xine_uint32_2str : Z -> string.
Variable xine_int32_2str : Z -> string.

(** [e - b]: [SAVE_PLUGIN_BUF_SIZE - 78 - 2 * XINE_MAX_INT64_STR
    - 5 * XINE_MAX_INT32_STR], with the two lengths from [xineutils.h]. *)
Variable SAVE_PLUGIN_ROOM : nat.

(** [info->type & PLUGIN_TYPE_MASK] as a plugin type, [None] where it
    names none; the numbers are in [xine_plugin.h]. *)
Variable plugin_type_of : Z -> option plugin_type.

(** The [plugin_file_t] at an address. *)
Variable files : nat -> cache_file_t.

(** [if (file != last_file) { ... }]: the lines of the file.  [None]
    where the name does not fit in front of [e] and [q] is set back to
    [e - 1]; the model does not follow the truncated text. *)
Definition save_file_lines (file : option nat) : option (list string) :=
  match file with
  | Some a =>
      let f := files a in
      if (1 + String.length (cf_filename f) <? SAVE_PLUGIN_ROOM)%nat
      then Some [ "[" ++ cf_filename f ++ "]";
                  "size=" ++ xine_uint2str (cf_filesize f);
                  "mtime=" ++ xine_uint2str (cf_filemtime f) ]%string
      else None
  | None =>
      (* dump builtins for debugging *)
      Some [ "[libxine/builtins]"%string ]
  end.

(** [switch (node->info->type & PLUGIN_TYPE_MASK)] *)
Definition save_special_lines (n : save_node_t) : list string :=
  let pri := xine_int32_2str (sv_priority n) in
  match plugin_type_of (sv_type n) with
  | Some PLUGIN_VIDEO_OUT =>
      [ "visual_type=" ++ xine_int32_2str (sv_visual_type n);
        "vo_priority=" ++ pri ]%string
  | Some PLUGIN_AUDIO_OUT => [ "ao_priority=" ++ pri ]%string
  | Some (PLUGIN_AUDIO_DECODER | PLUGIN_VIDEO_DECODER | PLUGIN_SPU_DECODER) =>
      [ match sv_supported_types n with
        | [] => "supported_types"
        | types => "supported_types=" ++ join_types (xine_uint32_2str <$> types)
        end;
        "decoder_priority=" ++ pri ]%string
  | Some PLUGIN_DEMUX => [ "demuxer_priority=" ++ pri ]%string
  | Some PLUGIN_INPUT => [ "input_priority=" ++ pri ]%string
  | Some PLUGIN_POST =>
      [ "post_type=" ++ xine_uint32_2str (sv_post_type n) ]%string
  | Some PLUGIN_XINE_MODULE =>
      [ "module_type=" ++ sv_module_type n;
        "module_sub_type=" ++ xine_int32_2str (sv_module_sub_type n);
        "module_priority=" ++ pri ]%string
  | None => []
  end.

(** One turn of the [while (list_id < list_size)] loop: the lines
    written for the node and the locals afterwards.  [None] where the
    id does not fit in front of [e]. *)
Definition save_node (st : save_state) (n : save_node_t)
  : option (list string * save_state) :=
  let file_changed := negb (bool_decide (last_file st = Some (sv_file n))) in
  match (if file_changed then save_file_lines (sv_file n) else Some []) with
  | None => None
  | Some file_lines =>
      let st := if file_changed
                then {| last_file := Some (sv_file n); last_type := SAVE_NONE;
                        last_api := SAVE_NONE; last_vers := SAVE_NONE |}
                else st in
      let type_changed := negb (sv_type n =? last_type st) in
      let type_lines :=
        if type_changed then [ "type=" ++ xine_uint32_2str (sv_type n) ]%string
        else [] in
      let st := if type_changed
                then {| last_file := last_file st; last_type := sv_type n;
                        last_api := SAVE_NONE; last_vers := SAVE_NONE |}
                else st in
      let api_changed := negb (sv_API n =? last_api st) in
      let api_lines :=
        if api_changed then [ "api=" ++ xine_uint32_2str (sv_API n) ]%string
        else [] in
      let st := if api_changed
                then {| last_file := last_file st; last_type := last_type st;
                        last_api := sv_API n; last_vers := last_vers st |}
                else st in
      let vers_changed := negb (sv_version n =? last_vers st) in
      let vers_lines :=
        if vers_changed
        then [ "version=" ++ xine_uint32_2str (sv_version n) ]%string
        else [] in
      let st := if vers_changed
                then {| last_file := last_file st; last_type := last_type st;
                        last_api := last_api st; last_vers := sv_version n |}
                else st in
      let head := file_lines ++ type_lines ++ api_lines ++ vers_lines in
      if (text_size head + 3 + String.length (sv_id n) <? SAVE_PLUGIN_ROOM)%nat
      then Some (head ++ [ "id=" ++ sv_id n ]%string
                 ++ save_special_lines n
                 ++ ((fun text => "config_key=" ++ text)%string <$> sv_config n)
                 ++ [ EmptyString ],
                 st)
      else None
  end.

(** [save_plugin_list] on a list: the lines it writes. *)
Fixpoint save_nodes (st : save_state) (l : list save_node_t)
  : option (list string) :=
  match l with
  | [] => Some []
  | n :: rest =>
      match save_node st n with
      | None => None
      | Some (lines, st) =>
          match save_nodes st rest with
          | None => None
          | Some more => Some (lines ++ more)
          end
      end
  end.

Definition save_plugin_list (l : list save_node_t) : option (list string) :=
  save_nodes save_state_init l.

(** What [save_catalog] writes: the 85 bytes of the head, then
    [save_plugin_list] for each of the lists. *)
Fixpoint save_lists (lists : list (list save_node_t)) : option (list string) :=
  match lists with
  | [] => Some []
  | l :: rest =>
      match save_plugin_list l, save_lists rest with
      | Some lines, Some more => Some (lines ++ more)
      | _, _ => None
      end
  end.

Definition save_catalog (lists : list (list save_node_t)) : option (list string) :=
  match save_lists lists with
  | Some lines =>
      Some ([ "# this file is automatically created by xine, do not edit.";
              "";
              "cache_catalog_version=5";
              "" ]%string ++ lines)
  | None => None
  end.

(** ** Vocabulary of the statements about the cache round trip *)

(** The members of [node.ainfo] that the lines of a plugin type set. *)
Definition saved_ainfo (n : save_node_t) : cache_ainfo_t :=
  let z := cache_ainfo_zero in
  match plugin_type_of (sv_type n) with
  | Some PLUGIN_VIDEO_OUT =>
      {| ca_visual_type := sv_visual_type n; ca_vo_priority := sv_priority n;
         ca_ao_priority := 0; ca_decoder_priority := 0; ca_demuxer_priority := 0;
         ca_input_priority := 0; ca_post_type := 0; ca_module_priority := 0;
         ca_module_sub_type := 0; ca_module_type := "" |}
  | Some PLUGIN_AUDIO_OUT =>
      {| ca_visual_type := 0; ca_vo_priority := 0;
         ca_ao_priority := sv_priority n; ca_decoder_priority := 0;
         ca_demuxer_priority := 0;
         ca_input_priority := 0; ca_post_type := 0; ca_module_priority := 0;
         ca_module_sub_type := 0; ca_module_type := "" |}
  | Some (PLUGIN_AUDIO_DECODER | PLUGIN_VIDEO_DECODER | PLUGIN_SPU_DECODER) =>
      {| ca_visual_type := 0; ca_vo_priority := 0;
         ca_ao_priority := 0; ca_decoder_priority := sv_priority n;
         ca_demuxer_priority := 0;
         ca_input_priority := 0; ca_post_type := 0; ca_module_priority := 0;
         ca_module_sub_type := 0; ca_module_type := "" |}
  | Some PLUGIN_DEMUX =>
      {| ca_visual_type := 0; ca_vo_priority := 0;
         ca_ao_priority := 0; ca_decoder_priority := 0;
         ca_demuxer_priority := sv_priority n;
         ca_input_priority := 0; ca_post_type := 0; ca_module_priority := 0;
         ca_module_sub_type := 0; ca_module_type := "" |}
  | Some PLUGIN_INPUT =>
      {| ca_visual_type := 0; ca_vo_priority := 0;
         ca_ao_priority := 0; ca_decoder_priority := 0;
         ca_demuxer_priority := 0;
         ca_input_priority := sv_priority n; ca_post_type := 0;
         ca_module_priority := 0;
         ca_module_sub_type := 0; ca_module_type := "" |}
  | Some PLUGIN_POST =>
      {| ca_visual_type := 0; ca_vo_priority := 0;
         ca_ao_priority := 0; ca_decoder_priority := 0;
         ca_demuxer_priority := 0;
         ca_input_priority := 0; ca_post_type := sv_post_type n;
         ca_module_priority := 0;
         ca_module_sub_type := 0; ca_module_type := "" |}
  | Some PLUGIN_XINE_MODULE =>
      {| ca_visual_type := 0; ca_vo_priority := 0;
         ca_ao_priority := 0; ca_decoder_priority := 0;
         ca_demuxer_priority := 0;
         ca_input_priority := 0; ca_post_type := 0;
         ca_module_priority := sv_priority n;
         ca_module_sub_type := sv_module_sub_type n;
         ca_module_type := sv_module_type n |}
  | None => z
  end.

(** The node [load_plugin_list] is to make of a saved node that has a
    file. *)
Definition saved_cache_node (n : save_node_t) (file : nat) : cache_node_t :=
  {| cn_file := files file;
     cn_info := {| ci_type := sv_type n; ci_API := sv_API n;
                   ci_id := Some (sv_id n); ci_version := sv_version n |};
     cn_ainfo := saved_ainfo n;
     cn_supported_types :=
       match plugin_type_of (sv_type n) with
       | Some (PLUGIN_AUDIO_DECODER | PLUGIN_VIDEO_DECODER | PLUGIN_SPU_DECODER) =>
           sv_supported_types n
       | _ => []
       end;
     cn_config_keys := sv_config n |}.

Definition saved_cache_nodes (l : list save_node_t) : list cache_node_t :=
  l ≫= fun n => match sv_file n with
                | Some file => [saved_cache_node n file]
                | None => []
                end.

(** The texts of a node are single lines: what [save_plugin_list]
    writes for it are then the lines [load_plugin_list] gets from the
    file. *)
Definition single_lines (n : save_node_t) : bool :=
  one_line (sv_id n) && one_line (sv_module_type n)
  && forallb one_line (sv_config n)
  && match sv_file n with
     | Some a => one_line (cf_filename (files a))
     | None => true
     end.

End SavePluginList.

Section SaveLoad.

Variable xine_str2int32 : string -> Z * string.
Variable xine_str2uint32 : string -> Z * string.
Variable xine_str2uint64 : string -> Z * string.
Variable xine_uint2str : Z -> string.
Variable xine_uint32_2str : Z -> string.
Variable xine_int32_2str : Z -> string.
Variable plugin_type_of : Z -> option plugin_type.
Variable files : nat -> cache_file_t.

(** The loader over lines of the file that do not end it. *)
Definition run_lines (lines : list string) (st : load_state) : load_state :=
  foldl (fun st line =>
           fst (load_line xine_str2int32 xine_str2uint32 xine_str2uint64 true line st))
        st lines.

(** The numbers of the special info of a node are read back as they
    are written. *)
Definition special_reads_back (n : save_node_t) : Prop :=
  let pri := fst (xine_str2int32 (xine_int32_2str (sv_priority n))) = sv_priority n in
  match plugin_type_of (sv_type n) with
  | Some PLUGIN_VIDEO_OUT =>
      fst (xine_str2int32 (xine_int32_2str (sv_visual_type n))) = sv_visual_type n
      /\ pri
  | Some (PLUGIN_AUDIO_DECODER | PLUGIN_VIDEO_DECODER | PLUGIN_SPU_DECODER) =>
      read_supported_types xine_str2uint32 255
        (join_types (xine_uint32_2str <$> sv_supported_types n))
      = sv_supported_types n
      /\ pri
  | Some PLUGIN_POST =>
      fst (xine_str2uint32 (xine_uint32_2str (sv_post_type n))) = sv_post_type n
  | Some PLUGIN_XINE_MODULE =>
      fst (xine_str2uint32 (xine_int32_2str (sv_module_sub_type n)))
      = sv_module_sub_type n
      /\ pri
  | Some _ => pri
  | None => True
  end.

(** A node with a file that the cache can hold: the id is not empty,
    the file is not called like the built-in pseudo file, there are at
    most 255 configuration texts, no number is [~0u], and every number
    is read back as it is written. *)
Record reads_back (n : save_node_t) (file : nat) : Prop := {
  rb_id : sv_id n <> EmptyString;
  rb_filename : cf_filename (files file) <> "libxine/builtins"%string;
  rb_config : (length (sv_config n) <= 255)%nat;
  rb_type_some : sv_type n <> SAVE_NONE;
  rb_api_some : sv_API n <> SAVE_NONE;
  rb_version_some : sv_version n <> SAVE_NONE;
  rb_size : fst (xine_str2uint64 (xine_uint2str (cf_filesize (files file))))
            = cf_filesize (files file);
  rb_mtime : fst (xine_str2uint64 (xine_uint2str (cf_filemtime (files file))))
             = cf_filemtime (files file);
  rb_type : fst (xine_str2int32 (xine_uint32_2str (sv_type n))) = sv_type n;
  rb_api : fst (xine_str2int32 (xine_uint32_2str (sv_API n))) = sv_API n;
  rb_version : fst (xine_str2uint32 (xine_uint32_2str (sv_version n)))
               = sv_version n;
  rb_special : special_reads_back n
}.

(** The loader between two nodes of the file, next to the locals of
    the writer: no entry is pending, and what the writer takes as
    written (the file, and the type, api and version in it) is what
    the loader holds. *)
Record in_step (sv : save_state) (st : load_state) : Prop := {
  is_version : ls_version_ok st = true;
  is_id : ci_id (cn_info (ls_node st)) = None;
  is_ainfo : cn_ainfo (ls_node st) = cache_ainfo_zero;
  is_types : cn_supported_types (ls_node st) = [];
  is_keys : cn_config_keys (ls_node st) = [];
  is_file :
    match last_file sv with
    | None => True
    | Some None => ls_skip st = true
    | Some (Some a) =>
        ls_skip st = false
        /\ cn_file (ls_node st) = files a
        /\ (last_type sv = SAVE_NONE
            \/ ci_type (cn_info (ls_node st)) = last_type sv)
        /\ (last_api sv = SAVE_NONE
            \/ ci_API (cn_info (ls_node st)) = last_api sv)
        /\ (last_vers sv = SAVE_NONE
            \/ ci_version (cn_info (ls_node st)) = last_vers sv)
    end
}.

End SaveLoad.

(** The loader past the version line, outside the built-in block, by
    the members of its node. *)
Definition reading (fn : string) (fs fm ty api : Z) (id : option string) (vers : Z)
    (ainfo : cache_ainfo_t) (types : list Z) (keys : list string)
    (plugins : list cache_node_t) : load_state :=
  {| ls_version_ok := true; ls_skip := false;
     ls_node := {| cn_file := {| cf_filename := fn; cf_filesize := fs;
                                 cf_filemtime := fm |};
                   cn_info := {| ci_type := ty; ci_API := api; ci_id := id;
                                 ci_version := vers |};
                   cn_ainfo := ainfo;
                   cn_supported_types := types;
                   cn_config_keys := keys |};
     ls_plugins := plugins |}.

(** A line that is neither a comment nor a file name. *)
Definition plain_line (line : string) : bool :=
  match line with
  | String ch _ => negb (Ascii.eqb ch "#") && negb (Ascii.eqb ch "[")
  | EmptyString => true
  end.

(** Decimal digits, to run the writer on sample nodes. *)
Fixpoint print_decimal (fuel : nat) (n : Z) (acc : string) : string :=
  match fuel with
  | O => acc
  | S fuel' =>
      let acc := String (ascii_of_nat (48 + Z.to_nat (n mod 10))) acc in
      if n <? 10 then acc else print_decimal fuel' (n / 10) acc
  end.

Definition sample_num2str (n : Z) : string := print_decimal 20 n EmptyString.

Definition sample_plugin_type_of (type : Z) : option plugin_type :=
  match Z.land type 0x3f with
  | 1 => Some PLUGIN_INPUT
  | 2 => Some PLUGIN_DEMUX
  | 3 => Some PLUGIN_AUDIO_DECODER
  | 4 => Some PLUGIN_VIDEO_DECODER
  | 5 => Some PLUGIN_SPU_DECODER
  | 6 => Some PLUGIN_AUDIO_OUT
  | 7 => Some PLUGIN_VIDEO_OUT
  | 8 => Some PLUGIN_POST
  | _ => None
  end.

Definition sample_files (a : nat) : cache_file_t :=
  {| cf_filename := "/usr/lib/xine/plugins/xineplug_decode_a52.so";
     cf_filesize := 34816; cf_filemtime := 1700000000 |}.

(** An audio decoder of a plugin file, a second decoder of the same
    file, and a built-in demuxer. *)
Definition sample_saved : list (list save_node_t) :=
  [ [ {| sv_file := None; sv_type := 2; sv_API := 27; sv_version := 10300;
         sv_id := "rawvideo"; sv_visual_type := 0; sv_priority := 1;
         sv_supported_types := []; sv_post_type := 0; sv_module_type := "";
         sv_module_sub_type := 0; sv_config := [] |} ];
    [ {| sv_file := Some 0%nat; sv_type := 131; sv_API := 16; sv_version := 10300;
         sv_id := "a/52"; sv_visual_type := 0; sv_priority := 8;
         sv_supported_types := [50331648; 50397184]; sv_post_type := 0;
         sv_module_type := ""; sv_module_sub_type := 0;
         sv_config := ["audio.a52.dynrng:0"%string] |};
      {| sv_file := Some 0%nat; sv_type := 131; sv_API := 16; sv_version := 10300;
         sv_id := "dts"; sv_visual_type := 0; sv_priority := 6;
         sv_supported_types := []; sv_post_type := 0;
         sv_module_type := ""; sv_module_sub_type := 0;
         sv_config := [] |} ] ].

(** ** load_plugins.c: finding a mime type in the list of a demuxer *)

(** [tab_tolower]: the letters [A] .. [Z] go to [a] .. [z], every other
    byte to itself. *)
Definition tab_tolower (c : ascii) : ascii :=
  let n := nat_of_ascii c in
  if (65 <=? n)%nat && (n <=? 90)%nat then ascii_of_nat (n + 32) else c.

(** [tab_mime]: 1 for the end of the text, 2 for a blank, 4 for a colon,
    8 for a semicolon. *)
Definition tab_mime (c : ascii) : Z :=
  match c with
  | "000"%char => 1
  | "013"%char | "010"%char | "009"%char | " "%char => 2
  | ":"%char => 4
  | ";"%char => 8
  | _ => 0
  end.

(** The byte at a [const uint8_t *] into a text: the text is followed
    by its terminating 0. *)
Definition byte_at (h : string) : ascii :=
  match h with
  | String c _ => c
  | EmptyString => Ascii.zero
  end.

(** [while (tab_mime[*h] & 2) h++;] with the offset of [h]. *)
Fixpoint skip_blanks (h : string) (pos : nat) : string * nat :=
  match h with
  | String c rest =>
      if Z.land (tab_mime c) 2 =? 0 then (h, pos) else skip_blanks rest (S pos)
  | EmptyString => (h, pos)
  end.

(** [while ((q < e) && !(tab_mime[*n] & (1 | 2 | 4 | 8)))
      *q++ = tab_tolower[*n++];] with [room] bytes in front of [e]. *)
Fixpoint copy_lowercase (room : nat) (n : string) : list ascii :=
  match room, n with
  | S room', String c rest =>
      if Z.land (tab_mime c) (Z.lor 1 (Z.lor 2 (Z.lor 4 8))) =? 0
      then tab_tolower c :: copy_lowercase room' rest
      else []
  | _, _ => []
  end.

(** [_mime_set]: the bytes it writes at the head of [buf], the rest of
    [buf] is left as it was.  [needle] is [None] for [NULL]; [None] is
    returned for [bsize = 0], where the function writes in front of
    [buf]. *)
Definition _mime_set (bsize : nat) (needle : option string) : option (list ascii) :=
  match bsize with
  | O => None
  | S room =>
      match needle with
      | None => Some [Ascii.zero]
      | Some n =>
          (* skip leading needle space; pattern = lowercase needle; safe brake *)
          Some (copy_lowercase room (fst (skip_blanks n 0)) ++ ["A"%char])
      end
  end.

(** [while ( *n == tab_tolower[*h]) n++, h++;] over the written bytes
    [n] of [buf].  [None] for a read behind the written bytes, or
    behind the end of the text. *)
Fixpoint match_pattern (n : list ascii) (h : string) (pos : nat)
  : option (list ascii * string * nat) :=
  match n with
  | [] => None
  | c :: n' =>
      match h with
      | String ch rest =>
          if Ascii.eqb c (tab_tolower ch) then match_pattern n' rest (S pos)
          else Some (n, h, pos)
      | EmptyString =>
          if Ascii.eqb c (tab_tolower Ascii.zero) then None else Some (n, h, pos)
      end
  end.

(** [while (!(tab_mime[*h] & (1 | 8))) h++;] *)
Fixpoint skip_entry (h : string) (pos : nat) : string * nat :=
  match h with
  | String c rest =>
      if Z.land (tab_mime c) (Z.lor 1 8) =? 0 then skip_entry rest (S pos)
      else (h, pos)
  | EmptyString => (h, pos)
  end.

(** The [while (1)] loop of [_mime_find], [h] at offset [pos] of the
    haystack; every turn but the last moves [h] forward, [fuel] bounds
    the turns. *)
Fixpoint _mime_find_loop (fuel : nat) (buf : list ascii) (h : string) (pos : nat)
  : option Z :=
  match fuel with
  | O => None
  | S fuel' =>
      let '(h, o) := skip_blanks h pos in
      match match_pattern buf h o with
      | Some (c :: _, h, pos) =>
          if Ascii.eqb c "A"
             && negb (Z.land (tab_mime (byte_at h)) (Z.lor 1 (Z.lor 2 (Z.lor 4 8))) =? 0)
          then Some (CInt.int32 (Z.of_nat o))
          else
            let '(h, pos) := skip_entry h pos in
            match h with
            | String c rest =>
                if Ascii.eqb c Ascii.zero then Some (-1)
                else _mime_find_loop fuel' buf rest (S pos)
            | EmptyString => Some (-1)
            end
      | _ => None
      end
  end.

(** [_mime_find] on the written bytes of [buf]; [haystack] is [None]
    for [NULL].  [None] for a read behind the written bytes or behind
    the end of the haystack. *)
Definition _mime_find (buf : list ascii) (haystack : option string) : option Z :=
  match buf with
  | [] => None
  | b0 :: _ =>
      if Ascii.eqb b0 Ascii.zero then Some (-1)
      else
        match haystack with
        | Some h => _mime_find_loop (S (String.length h)) buf h 0
        | None => Some (-1)
        end
  end.

(** ** Vocabulary of the statements about mime types *)

(** The text behind a pattern at the head of a text, the case of
    letters ignored. *)
Fixpoint strip_pattern (p : list ascii) (h : string) : option string :=
  match p with
  | [] => Some h
  | c :: p' =>
      match h with
      | String ch rest =>
          if Ascii.eqb c (tab_tolower ch) then strip_pattern p' rest else None
      | EmptyString => None
      end
  end.

(** An entry of a mime type list names the pattern: behind its leading
    blanks stands the pattern, followed by a blank, a colon, a
    semicolon or the end of the text. *)
Definition entry_matches (p : list ascii) (h : string) : bool :=
  match strip_pattern p (fst (skip_blanks h 0)) with
  | Some rest => negb (Z.land (tab_mime (byte_at rest)) 15 =? 0)
  | None => false
  end.

(** The offset of the first entry that names the pattern, behind its
    leading blanks.  Entries start at the head of the text ([start])
    and behind every semicolon; the text ends at its first 0 byte. *)
Fixpoint first_entry (p : list ascii) (start : bool) (h : string) (pos : nat)
  : option nat :=
  if start && entry_matches p h then Some (snd (skip_blanks h pos))
  else
    match h with
    | String c rest =>
        if Ascii.eqb c Ascii.zero then None
        else first_entry p (Ascii.eqb c ";") rest (S pos)
    | EmptyString => None
    end.

(** A byte of a pattern made by [_mime_set]. *)
Definition pattern_byte (c : ascii) : Prop :=
  Z.land (tab_mime c) 15 = 0 /\ c <> "A"%char.

(** ** net_buf_ctrl.c: the wakeup agent of the live delay *)

(** [struct timespec] *)
Record timespec : Type := {
  tv_sec : Z;
  tv_nsec : Z
}.

(** [struct { ... struct timespec base, until; enum { ... } state; } delay];
    the condition variable and the thread are seen through the state. *)
Record nbc_delay : Type := {
  delay_base : timespec;
  delay_until : timespec;
  delay_state : nbc_delay_state
}.

(** What [nbc_delay_set] does besides changing [this->delay]. *)
Inductive agent_effect : Type :=
  | Agent_unpause          (* nbc_delay_unpause (this, 0) *)
  | Agent_cond_signal
  | Agent_cond_init
  | Agent_join             (* pthread_join, with the mutex released *)
  | Agent_create
  | Agent_cond_destroy.

(** The head of [nbc_delay_set]: [until] is [base] plus [pts]
    (a [uint32_t], in units of 1/90000 s). *)
Definition nbc_delay_until (base : timespec) (pts : Z) : timespec :=
  let sec := tv_sec base + pts / 90000 in
  let nsec := tv_nsec base + pts mod 90000 / 9 * 100000 in
  if nsec >=? 1000000000
  then {| tv_sec := sec + 1; tv_nsec := nsec - 1000000000 |}
  else {| tv_sec := sec; tv_nsec := nsec |}.

(** [(ts.tv_sec > until.tv_sec)
     || ((ts.tv_sec == until.tv_sec) && (ts.tv_nsec >= until.tv_nsec))] *)
Definition nbc_delay_due (until ts : timespec) : bool :=
  (tv_sec ts >? tv_sec until)
  || ((tv_sec ts =? tv_sec until) && (tv_nsec ts >=? tv_nsec until)).

(** [nbc_delay_set], with the time [xine_gettime] reads ([ts]) and
    whether [pthread_create] succeeds ([created]). *)
Definition nbc_delay_set (ts : timespec) (created : bool) (d : nbc_delay) (pts : Z)
  : nbc_delay * list agent_effect :=
  let until := nbc_delay_until (delay_base d) pts in
  let d := {| delay_base := delay_base d; delay_until := until;
              delay_state := delay_state d |} in
  let set_state s := {| delay_base := delay_base d; delay_until := until;
                        delay_state := s |} in
  if nbc_delay_due until ts then (d, [Agent_unpause])
  else
    match delay_state d with
    | NBC_DELAY_RUN => (d, [Agent_cond_signal])
    | s =>
        let before :=
          match s with
          | NBC_DELAY_OFF => [Agent_cond_init]
          | NBC_DELAY_STOP => [Agent_join]
          | _ => []
          end in
        if created then (set_state NBC_DELAY_RUN, before ++ [Agent_create])
        else (set_state NBC_DELAY_OFF,
              before ++ [Agent_create; Agent_cond_destroy; Agent_unpause])
    end.

(** ** Vocabulary of the statements about the wakeup agent *)

(** A time in nanoseconds. *)
Definition timespec_ns (t : timespec) : Z := tv_sec t * 1000000000 + tv_nsec t.

(** ** load_plugins.c: opening the output drivers *)

Section OutputDrivers.

(** [strcasecmp] of the C library. *)
Variable strcasecmp : string -> string -> Z.

(** The two calls that leave the catalog: [_load_plugin_class] on a
    node, and whether [open_plugin] of its class returns a driver. *)
Variable load : nat -> load_result.
Variable open : nat -> bool.

(** [_load_video_driver] and [_load_audio_driver]: the catalog
    afterwards and whether a driver is returned.  [None] where
    [open_plugin] is called through a [NULL] class. *)
Definition _load_driver (node : nat) (c : plugin_catalog_t)
  : option (plugin_catalog_t * bool) :=
  let opened c := if open node then (inc_node_ref node c, true) else (c, false) in
  if node_plugin_class (nodes c node) then Some (opened c)
  else
    match load node with
    | LOAD_FAILED => Some (c, false)
    | LOAD_CLASS => Some (opened (update_node node (set_node_plugin_class true) c))
    | LOAD_NO_CLASS => None
    end.

(** The [for] loop of [xine_open_audio_driver] over the nodes of the
    list that are left; [id] is [None] when auto-probing.  The result
    is the node of the driver, [None] for no driver. *)
Fixpoint audio_driver_walk (id : option string) (l : list nat) (c : plugin_catalog_t)
  : option (plugin_catalog_t * option nat) :=
  match l with
  | [] => Some (c, None)
  | node :: rest =>
      match id with
      | Some id' =>
          if strcasecmp (node_id (nodes c node)) id' =? 0 then
            match _load_driver node c with
            | Some (c, driver) => Some (c, if driver then Some node else None)
            | None => None
            end
          else audio_driver_walk id rest c
      | None =>
          if ainfo_priority (nodes c node) >=? 0 then
            match _load_driver node c with
            | Some (c, true) => Some (c, Some node)
            | Some (c, false) => audio_driver_walk id rest c
            | None => None
            end
          else audio_driver_walk id rest c
      end
  end.

(** [xine_open_audio_driver] up to the port it makes of the driver:
    the catalog afterwards and the node of the driver. *)
Definition xine_open_audio_driver (id : option string) (c : plugin_catalog_t)
  : option (plugin_catalog_t * option nat) :=
  let id := match id with
            | Some s => if strcasecmp s "auto" =? 0 then None else Some s
            | None => None
            end in
  audio_driver_walk id (plugin_lists c PLUGIN_AUDIO_OUT) c.

(** The [for] loop of [_x_load_video_output_plugin]. *)
Fixpoint video_driver_walk (id : option string) (visual_type : Z) (l : list nat)
    (c : plugin_catalog_t) : option (plugin_catalog_t * option nat) :=
  match l with
  | [] => Some (c, None)
  | node :: rest =>
      if ainfo_visual_type (nodes c node) =? visual_type then
        match id with
        | Some id' =>
            if strcasecmp (node_id (nodes c node)) id' =? 0 then
              match _load_driver node c with
              | Some (c, driver) => Some (c, if driver then Some node else None)
              | None => None
              end
            else video_driver_walk id visual_type rest c
        | None =>
            match _load_driver node c with
            | Some (c, true) => Some (c, Some node)
            | Some (c, false) => video_driver_walk id visual_type rest c
            | None => None
            end
        end
      else video_driver_walk id visual_type rest c
  end.

(** [_x_load_video_output_plugin], on which [xine_open_video_driver]
    makes its port. *)
Definition _x_load_video_output_plugin (id : option string) (visual_type : Z)
    (c : plugin_catalog_t) : option (plugin_catalog_t * option nat) :=
  let id := match id with
            | Some s => if strcasecmp s "auto" =? 0 then None else Some s
            | None => None
            end in
  video_driver_walk id visual_type (plugin_lists c PLUGIN_VIDEO_OUT) c.

(** ** Vocabulary of the statements about the output drivers *)

(** The driver of a node can be had: its class is loaded or loads, and
    [open_plugin] returns a driver. *)
Definition driver_works (c : plugin_catalog_t) (a : nat) : Prop :=
  (node_plugin_class (nodes c a) = true \/ load a = LOAD_CLASS) /\ open a = true.

(** What opening a driver leaves of the catalog: the lists and the
    decoder maps, and of every node all but the class and the
    reference count; classes are loaded, none is disposed of, and the
    only reference counted is that of the driver returned. *)
Record driver_frame (c c' : plugin_catalog_t) (d : option nat) : Prop := {
  df_lists : forall ty, plugin_lists c' ty = plugin_lists c ty;
  df_maps : forall ty, decoder_map ty c' = decoder_map ty c;
  df_nodes : forall a,
      nodes c' a
      = set_node_plugin_class (node_plugin_class (nodes c' a))
          (set_node_ref (node_ref (nodes c' a)) (nodes c a));
  df_ref : forall a,
      node_ref (nodes c' a)
      = (if bool_decide (d = Some a) then CInt.int32 (node_ref (nodes c a) + 1)
         else node_ref (nodes c a));
  df_class : forall a,
      node_plugin_class (nodes c a) = true -> node_plugin_class (nodes c' a) = true;
  df_loaded : forall a,
      node_plugin_class (nodes c' a) = true ->
      node_plugin_class (nodes c a) = true \/ load a = LOAD_CLASS;
  df_taken : forall a, d = Some a -> node_plugin_class (nodes c' a) = true
}.

(** The walk of both loops: the nodes that are [eligible] are tried in
    the order of the list; when auto-probing ([auto]) up to the first
    that gives a driver, otherwise the first only. *)
Fixpoint pick_driver (auto : bool) (eligible : nat -> bool) (l : list nat)
    (c : plugin_catalog_t) : option (plugin_catalog_t * option nat) :=
  match l with
  | [] => Some (c, None)
  | a :: rest =>
      if eligible a then
        match _load_driver a c with
        | Some (c, true) => Some (c, Some a)
        | Some (c, false) => if auto then pick_driver auto eligible rest c
                             else Some (c, None)
        | None => None
        end
      else pick_driver auto eligible rest c
  end.

(** The driver taken of a list: the first node in the order of the
    list that is wanted and works, and so one of the highest priority
    among these. *)
Definition first_working (c : plugin_catalog_t) (wanted : nat -> Prop) (l : list nat)
    (d : option nat) : Prop :=
  match d with
  | Some a =>
      wanted a /\ driver_works c a
      /\ (exists l1 l2, l = l1 ++ a :: l2
                        /\ forall b, b ∈ l1 -> ~ (wanted b /\ driver_works c b))
      /\ forall b, b ∈ l -> wanted b -> driver_works c b ->
           node_priority (nodes c b) <= node_priority (nodes c a)
  | None => forall b, b ∈ l -> ~ (wanted b /\ driver_works c b)
  end.

(** A node on which the functions are lost: [_load_plugin_class]
    reports success and leaves its class [NULL], and [open_plugin] is
    called through the class. *)
Definition driver_lost (c : plugin_catalog_t) (a : nat) : Prop :=
  node_plugin_class (nodes c a) = false /\ load a = LOAD_NO_CLASS.

(** The outcome [r] of asking for a driver by name.  With no wanted
    node in the list it is [NULL], and the catalog is as it was.
    Otherwise only the first wanted node counts: there is no result if
    the function is lost on it; if not, its driver is returned when it
    works and [NULL] when it does not. *)
Definition named_driver_outcome (c : plugin_catalog_t) (wanted : nat -> Prop)
    (l : list nat) (r : option (plugin_catalog_t * option nat)) : Prop :=
  ((forall b, b ∈ l -> ~ wanted b) -> r = Some (c, None))
  /\ forall l1 a l2,
       l = l1 ++ a :: l2 -> (forall b, b ∈ l1 -> ~ wanted b) -> wanted a ->
       (driver_lost c a -> r = None)
       /\ (~ driver_lost c a ->
           exists c' d,
             r = Some (c', d) /\ driver_frame c c' d
             /\ ((d = Some a /\ driver_works c a)
                 \/ (d = None /\ ~ driver_works c a))).

End OutputDrivers.

(** Two audio drivers and a video driver: the first audio driver has
    the higher priority and does not open. *)
Definition sample_driver_nodes (a : nat) : fat_node_t :=
  match a with
  | 0%nat => {| node_type := PLUGIN_AUDIO_OUT; node_id := "pulseaudio";
                node_priority := 12; node_ref := 0; node_plugin_class := false;
                ainfo_priority := 12; ainfo_supported_types := [];
                ainfo_visual_type := 0; ainfo_post_type := 0 |}
  | 1%nat => {| node_type := PLUGIN_AUDIO_OUT; node_id := "alsa";
                node_priority := 10; node_ref := 0; node_plugin_class := false;
                ainfo_priority := 10; ainfo_supported_types := [];
                ainfo_visual_type := 0; ainfo_post_type := 0 |}
  | _ => {| node_type := PLUGIN_VIDEO_OUT; node_id := "xv";
            node_priority := 7; node_ref := 0; node_plugin_class := false;
            ainfo_priority := 7; ainfo_supported_types := [];
            ainfo_visual_type := 1; ainfo_post_type := 0 |}
  end.

Definition sample_driver_catalog : plugin_catalog_t :=
  {| nodes := sample_driver_nodes; nodes_end := 3;
     plugin_lists := fun ty => match ty with
                               | PLUGIN_AUDIO_OUT => [0; 1]%nat
                               | PLUGIN_VIDEO_OUT => [2]%nat
                               | _ => []
                               end;
     audio_decoder_map := []; video_decoder_map := []; spu_decoder_map := [];
     plugin_count := 3; decoder_count := 0 |}.

Definition sample_strcasecmp (a b : string) : Z := if String.eqb a b then 0 else 1.

Definition sample_driver_load (a : nat) : load_result := LOAD_CLASS.

Definition sample_driver_open (a : nat) : bool := negb (Nat.eqb a 0).

(** Statically linked plugins whose [init] returns [NULL]. *)
Definition sample_driver_no_class (a : nat) : load_result := LOAD_NO_CLASS.

(** ** load_plugins.c: preloading plugins *)

Section Preload.

(** [node->node.info->type & PLUGIN_MUST_PRELOAD], the flag
    [FAT_NODE_FLAG_PROBE_CLASS] of a fat node, and
    [node->node.file && !node->node.file->lib_handle]: the catalog
    model holds neither the flag bits of a type nor the plugin files. *)
Variable must_preload : nat -> bool.
Variable probe_class : nat -> bool.
Variable lib_unavailable : nat -> bool.

(** [_load_plugin_class (this, &node->node, NULL)] *)
Variable load : nat -> load_result.

(** The [do { ... } while (0)] of [_load_required_plugins] for the node
    at [list_id]: the list, the catalog and [list_id] afterwards.
    [xine_sarray_remove (list, list_id)] takes the element at the index
    out of the array. *)
Definition preload_node (node : nat) (list_id : Z) (l : list nat)
    (c : plugin_catalog_t) : list nat * plugin_catalog_t * Z :=
  if negb (must_preload node || probe_class node) then (l, c, list_id)
  else if node_plugin_class (nodes c node) then (l, c, list_id)
  else if lib_unavailable node then (l, c, list_id)
  else
    match load node with
    | LOAD_FAILED =>
        (* in case of failure remove from list *)
        (delete (Z.to_nat list_id) l, c, list_id - 1)
    | loaded =>
        let c := match loaded with
                 | LOAD_CLASS => update_node node (set_node_plugin_class true) c
                 | _ => c
                 end in
        if must_preload node then (l, c, list_id)
        else
          (* _dispose_plugin_class *)
          (l, update_node node (set_node_plugin_class false) c, list_id)
    end.

(** The [while (list_id < list_size)] loop; [list_size] is the size of
    the list throughout.  [fuel] bounds the turns. *)
Fixpoint preload_walk (fuel : nat) (list_id : Z) (l : list nat)
    (c : plugin_catalog_t) : option (list nat * plugin_catalog_t) :=
  match fuel with
  | O => None
  | S fuel' =>
      if list_id <? Z.of_nat (length l) then
        match l !! Z.to_nat list_id with
        | Some node =>
            let '(l, c, list_id) := preload_node node list_id l c in
            preload_walk fuel' (list_id + 1) l c
        | None => None
        end
      else Some (l, c)
  end.

(** [_load_required_plugins] on a list of the catalog. *)
Definition _load_required_plugins (ty : plugin_type) (c : plugin_catalog_t)
  : option plugin_catalog_t :=
  let l := plugin_lists c ty in
  match preload_walk (S (length l)) 0 l c with
  | Some (l, c) => Some (set_plugin_list ty l c)
  | None => None
  end.

(** [load_required_plugins]: the lists [plugin_lists[0]] to
    [plugin_lists[PLUGIN_TYPE_MAX - 1]], in order. *)
Definition load_required_plugins (c : plugin_catalog_t) : option plugin_catalog_t :=
  foldl (fun oc ty => oc ≫= _load_required_plugins ty) (Some c)
    [PLUGIN_INPUT; PLUGIN_DEMUX; PLUGIN_AUDIO_DECODER; PLUGIN_VIDEO_DECODER;
     PLUGIN_SPU_DECODER; PLUGIN_AUDIO_OUT; PLUGIN_VIDEO_OUT; PLUGIN_POST].

(** ** Vocabulary of the statements about preloading *)

(** The class of the node is loaded for a try. *)
Definition preload_tried (c : plugin_catalog_t) (a : nat) : bool :=
  (must_preload a || probe_class a)
  && negb (node_plugin_class (nodes c a))
  && negb (lib_unavailable a).

(** The node stays in its list: no try of it fails. *)
Definition preload_keeps (c : plugin_catalog_t) (a : nat) : bool :=
  negb (preload_tried c a
        && match load a with LOAD_FAILED => true | _ => false end).

(** Whether the node has a class afterwards: a class loaded for a try
    stays where the plugin must be preloaded. *)
Definition preload_class (c : plugin_catalog_t) (a : nat) : bool :=
  if preload_tried c a
  then must_preload a && match load a with LOAD_CLASS => true | _ => false end
  else node_plugin_class (nodes c a).

(** The catalog [c'] is [c] with the nodes of [visited] preloaded:
    nothing but the class of a node changes, the class of a node
    visited is as [preload_class] tells, and the decoder maps stay. *)
Record preloaded (c c' : plugin_catalog_t) (visited : nat -> Prop) : Prop := {
  pre_info : forall a,
      nodes c' a = set_node_plugin_class (node_plugin_class (nodes c' a)) (nodes c a);
  pre_visited : forall a, visited a ->
      nodes c' a = set_node_plugin_class (preload_class c a) (nodes c a);
  pre_others : forall a, ~ visited a -> nodes c' a = nodes c a;
  pre_maps : forall ty, decoder_map ty c' = decoder_map ty c
}.

End Preload.

(** The second of three video decoders has to be probed and fails. *)
Definition sample_probe (a : nat) : bool := Nat.eqb a 1.

Definition sample_probe_load (a : nat) : load_result :=
  if Nat.eqb a 1 then LOAD_FAILED else LOAD_CLASS.

(** * Properties *)

(** ** C integers and arrays *)

Module CIntFacts.
Import CInt.

Lemma uint32_small z : 0 <= z < 2 ^ 32 -> uint32 z = z.
Proof. intros H. unfold uint32. now apply Z.mod_small. Qed.

Lemma int32_small z : INT_MIN <= z <= INT_MAX -> int32 z = z.
Proof.
  unfold int32, INT_MIN, INT_MAX. intros H.
  rewrite Z.mod_small by lia. lia.
Qed.

Lemma int64_small z : - 2 ^ 63 <= z < 2 ^ 63 -> int64 z = z.
Proof.
  unfold int64. intros H. rewrite Z.mod_small by lia. lia.
Qed.

Lemma int32_range z : INT_MIN <= int32 z <= INT_MAX.
Proof.
  unfold int32, INT_MIN, INT_MAX.
  pose proof (Z.mod_pos_bound (z + 2 ^ 31) (2 ^ 32)). lia.
Qed.

End CIntFacts.

Lemma aset_length a i v : length (aset a i v) = length a.
Proof. apply length_insert. Qed.

Lemma aget_aset_eq a i v :
  0 <= i < Z.of_nat (length a) -> aget (aset a i v) i = v.
Proof.
  intros H. unfold aget, aset. rewrite nth_lookup.
  rewrite list_lookup_insert_eq by lia. reflexivity.
Qed.

Lemma aget_aset_ne a i j v :
  0 <= i -> 0 <= j -> i <> j -> aget (aset a i v) j = aget a j.
Proof.
  intros Hi Hj Hne. unfold aget, aset. rewrite !nth_lookup.
  rewrite list_lookup_insert_ne by lia. reflexivity.
Qed.


(** ** The fill history: bucket counts agree with the ring *)

Section StatsFacts.

Import CInt CIntFacts.

Lemma minimum_cons_le x t : Naive.minimum (x :: t) <= x.
Proof.
  simpl. revert x. induction t as [|y t IH]; intros x; simpl; [lia|].
  specialize (IH x). lia.
Qed.

Lemma foldr_min_cases (x : Z) t :
  foldr Z.min x t = x \/ In (foldr Z.min x t) t.
Proof.
  induction t as [|y t IH]; simpl; [now left|].
  destruct (Z.min_spec y (foldr Z.min x t)) as [[_ ->]|[_ ->]].
  - right. now left.
  - destruct IH as [->|IH]; [now left|right; now right].
Qed.

Lemma foldr_min_le (x : Z) t y : In y t -> foldr Z.min x t <= y.
Proof.
  induction t as [|z t IH]; simpl; [tauto|].
  intros [->|Hin]; [lia|]. specialize (IH Hin). lia.
Qed.

Lemma minimum_in l : l <> [] -> In (Naive.minimum l) l.
Proof.
  destruct l as [|x t]; [congruence|]. intros _. simpl.
  destruct (foldr_min_cases x t) as [->|H]; [now left|now right].
Qed.

Lemma minimum_le l y : In y l -> Naive.minimum l <= y.
Proof.
  destruct l as [|x t]; simpl; [tauto|].
  intros [<-|Hin].
  - apply (minimum_cons_le x t).
  - now apply foldr_min_le.
Qed.

Lemma minimum_unique l m :
  In m l -> (forall y, In y l -> m <= y) -> Naive.minimum l = m.
Proof.
  intros Hin Hle.
  assert (Hne : l <> []) by (destruct l; [destruct Hin|congruence]).
  pose proof (minimum_in l Hne) as H1.
  pose proof (minimum_le l m Hin) as H2.
  specialize (Hle _ H1). lia.
Qed.

(** Occurrence counts after one cell of the ring is overwritten. *)
Lemma count_occ_insert (l : list Z) (i : nat) (x v : Z) :
  (i < length l)%nat ->
  Z.of_nat (count_occ Z.eq_dec (<[i := x]> l) v)
  = Z.of_nat (count_occ Z.eq_dec l v)
    - (if Z.eq_dec (nth i l 0) v then 1 else 0)
    + (if Z.eq_dec x v then 1 else 0).
Proof.
  revert i. induction l as [|a l IH]; intros i Hi; simpl in Hi; [lia|].
  destruct i as [|i]; simpl.
  - destruct (Z.eq_dec a v), (Z.eq_dec x v); lia.
  - specialize (IH i ltac:(lia)).
    destruct (Z.eq_dec a v); lia.
Qed.

Lemma count_occ_replicate (n : nat) (x v : Z) :
  count_occ Z.eq_dec (replicate n x) v = if Z.eq_dec x v then n else O.
Proof.
  induction n as [|n IH]; simpl.
  - now destruct (Z.eq_dec x v).
  - rewrite IH. now destruct (Z.eq_dec x v).
Qed.

Lemma scan_min_finds num m0 m1 fuel :
  m0 <= m1 ->
  (Z.to_nat (m1 - m0) < fuel)%nat ->
  (forall v, m0 <= v < m1 -> aget num v = 0) ->
  0 < aget num m1 ->
  scan_min fuel num m0 = Some m1.
Proof.
  revert m0. induction fuel as [|fuel IH]; intros m0 Hle Hfuel Hz Hpos; [lia|].
  simpl. destruct (Z.eq_dec m0 m1) as [->|Hne].
  - destruct (Z.leb_spec (aget num m1) 0); [lia|reflexivity].
  - rewrite Hz by lia. simpl. apply IH; try lia.
    intros v Hv. apply Hz. lia.
Qed.

Lemma fill_level_quantize pts :
  0 <= pts <= INT_MAX -> fill_level pts = Naive.quantize pts.
Proof.
  unfold INT_MAX. intros H. unfold fill_level, Naive.quantize.
  rewrite uint32_small by lia.
  change (90000 / 16) with 5625.
  destruct (Z.gtb_spec (pts / 5625) 255); lia.
Qed.

Lemma quantize_range pts : 0 <= pts -> 0 <= Naive.quantize pts <= 255.
Proof.
  intros H. unfold Naive.quantize.
  pose proof (Z.div_pos pts 5625 H ltac:(lia)). lia.
Qed.

Lemma level_pts_small m : 0 <= m <= 255 -> level_pts m = 5625 * m.
Proof.
  intros H. unfold level_pts. change (90000 / 16) with 5625.
  rewrite uint32_small by lia.
  rewrite int32_small by (unfold INT_MIN, INT_MAX; lia). lia.
Qed.

Lemma minimum_replicate (n : nat) (x : Z) :
  (0 < n)%nat -> Naive.minimum (replicate n x) = x.
Proof.
  intros Hn. apply minimum_unique.
  - apply list_elem_of_In, elem_of_replicate. split; [reflexivity|lia].
  - intros y Hy. apply list_elem_of_In, elem_of_replicate in Hy. lia.
Qed.

Lemma aget_replicate (n : nat) (x v : Z) :
  0 <= v < Z.of_nat n -> aget (replicate n x) v = x.
Proof.
  intros Hv. unfold aget. rewrite nth_lookup.
  rewrite (proj2 (lookup_replicate n x x (Z.to_nat v))); [reflexivity|].
  split; [reflexivity|lia].
Qed.

(** A flat ring: every cell holds [level], one bucket holds them all. *)
Lemma stats_repr_flat (s : nbc_stats) (pos : nat) (level : Z) :
  0 <= level <= 255 ->
  (pos < 1024)%nat ->
  stats_min s = level ->
  stats_hpos s = Z.of_nat pos ->
  stats_hist s = replicate 1024 level ->
  stats_num s = aset (replicate 256 0) level 1024 ->
  stats_repr s {| Naive.cells := replicate 1024 level; Naive.cursor := pos |}.
Proof.
  intros Hl Hp Hmin Hpos Hhist Hnum.
  split; cbn [Naive.cells Naive.cursor]; try assumption.
  - apply length_replicate.
  - intros x Hx. apply list_elem_of_In, elem_of_replicate in Hx. lia.
  - rewrite Hnum, aset_length. apply length_replicate.
  - intros v Hv. rewrite Hnum, count_occ_replicate.
    destruct (Z.eq_dec level v) as [<-|Hne].
    + rewrite aget_aset_eq; [reflexivity|]. rewrite length_replicate. lia.
    + rewrite aget_aset_ne by lia. rewrite aget_replicate; [reflexivity|lia].
  - rewrite Hmin. symmetry. apply minimum_replicate. lia.
Qed.

Lemma stats_repr_reset s0 : stats_repr (nbc_stats_reset s0) Naive.start.
Proof.
  apply (stats_repr_flat (nbc_stats_reset s0) 0 0); try reflexivity; lia.
Qed.

Lemma in_insert (l : list Z) (i : nat) (x y : Z) :
  In y (<[i := x]> l) -> y = x \/ In y l.
Proof.
  revert i. induction l as [|a l IH]; intros i; simpl; [tauto|].
  destruct i as [|i]; simpl.
  - intros [<-|H]; [now left|right; now right].
  - intros [<-|H]; [right; now left|].
    destruct (IH _ H) as [->|H']; [now left|right; now right].
Qed.

Lemma insert_in (l : list Z) (i : nat) (x : Z) :
  (i < length l)%nat -> In x (<[i := x]> l).
Proof.
  intros Hi. apply list_elem_of_In, list_elem_of_lookup.
  exists i. now apply list_lookup_insert_eq.
Qed.

Lemma count_occ_le_length (l : list Z) v :
  (count_occ Z.eq_dec l v <= length l)%nat.
Proof.
  induction l as [|a l IH]; simpl; [lia|].
  destruct (Z.eq_dec a v); lia.
Qed.

Lemma hpos_advance (cur : nat) :
  Z.land (Z.of_nat cur + 1) NBC_HSIZE_MASK = Z.of_nat ((cur + 1) mod 1024).
Proof.
  change NBC_HSIZE_MASK with (Z.ones 10).
  rewrite Z.land_ones by lia.
  rewrite Nat2Z.inj_mod. f_equal. lia.
Qed.

(** One sample: the bucket counts follow the ring, and the forward scan
    lands on the ring's minimum. *)
Lemma nbc_stats_add_step s h pts :
  stats_repr s h ->
  0 <= pts <= INT_MAX ->
  exists s',
    nbc_stats_add s pts = Some (s', snd (Naive.feed h pts))
    /\ stats_repr s' (fst (Naive.feed h pts)).
Proof.
  intros [Hhist Hhpos Hcur Hlen Hrange Hnlen Hnum Hmin] Hpts.
  unfold nbc_stats_add, Naive.feed. cbn [fst snd].
  destruct (Z.ltb_spec pts 0) as [?|_]; [lia|].
  rewrite (fill_level_quantize pts Hpts).
  pose proof (quantize_range pts (proj1 Hpts)) as Hq.
  set (q := Naive.quantize pts) in *.
  rewrite Hhpos, hpos_advance, Hhist.
  set (p := ((Naive.cursor h + 1) mod 1024)%nat).
  assert (Hp : (p < 1024)%nat) by (apply Nat.mod_upper_bound; lia).
  set (cells := Naive.cells h) in *.
  set (old := aget cells (Z.of_nat p)).
  assert (Hold_nth : old = nth p cells 0)
    by (unfold old, aget; now rewrite Nat2Z.id).
  assert (Hold_in : In old cells)
    by (rewrite Hold_nth; apply nth_In; lia).
  pose proof (Hrange _ Hold_in) as Hold.
  assert (Hcnt_old : 1 <= aget (stats_num s) old <= 1024).
  { rewrite Hnum by lia. pose proof (count_occ_le_length cells old).
    pose proof (proj1 (count_occ_In Z.eq_dec cells old) Hold_in). lia. }
  rewrite (uint32_small (aget (stats_num s) old - 1)) by lia.
  set (num1 := aset (stats_num s) old (aget (stats_num s) old - 1)).
  assert (Hn1len : length num1 = 256%nat) by (unfold num1; now rewrite aset_length).
  assert (Hn1 : forall v, 0 <= v <= 255 ->
            aget num1 v = Z.of_nat (count_occ Z.eq_dec cells v)
                          - (if Z.eq_dec old v then 1 else 0)).
  { intros v Hv. unfold num1. destruct (Z.eq_dec old v) as [<-|Hne].
    - rewrite aget_aset_eq by lia. rewrite Hnum by lia. lia.
    - rewrite aget_aset_ne by lia. rewrite Hnum by lia. lia. }
  assert (Hn1q : 0 <= aget num1 q <= 1024).
  { rewrite Hn1 by lia. pose proof (count_occ_le_length cells q).
    destruct (Z.eq_dec old q) as [<-|]; [rewrite <- Hnum by lia|]; lia. }
  rewrite (uint32_small (aget num1 q + 1)) by lia.
  set (num2 := aset num1 q (aget num1 q + 1)).
  assert (Hcells' : aset cells (Z.of_nat p) q = <[p := q]> cells)
    by (unfold aset; now rewrite Nat2Z.id).
  rewrite Hcells'. set (cells' := <[p := q]> cells).
  assert (Hn2 : forall v, 0 <= v <= 255 ->
            aget num2 v = Z.of_nat (count_occ Z.eq_dec cells' v)).
  { intros v Hv. unfold cells'. rewrite count_occ_insert by lia.
    rewrite <- Hold_nth. unfold num2.
    destruct (Z.eq_dec q v) as [<-|Hne].
    - rewrite aget_aset_eq by lia. rewrite Hn1 by lia. lia.
    - rewrite aget_aset_ne by lia. rewrite Hn1 by lia. lia. }
  assert (Hq_in : In q cells') by (apply insert_in; lia).
  assert (Hrange' : forall x, In x cells' -> 0 <= x <= 255).
  { intros x Hx. destruct (in_insert _ _ _ _ Hx) as [->|Hx']; [lia|auto]. }
  assert (Hlow : forall x, In x cells' -> Z.min q (stats_min s) <= x).
  { intros x Hx. destruct (in_insert _ _ _ _ Hx) as [->|Hx']; [lia|].
    rewrite Hmin. pose proof (minimum_le cells x Hx'). fold cells. lia. }
  assert (Hne' : cells' <> []) by (intros E; rewrite E in Hq_in; destruct Hq_in).
  pose proof (minimum_in cells' Hne') as Hm_in.
  pose proof (Hrange' _ Hm_in) as Hm_range.
  assert (Hfound :
    (if q <? stats_min s then Some q
     else scan_min (Z.to_nat (256 - stats_min s)) num2 (stats_min s))
    = Some (Naive.minimum cells')).
  { destruct (Z.ltb_spec q (stats_min s)) as [Hlt|Hge].
    - f_equal. symmetry. apply minimum_unique; [assumption|].
      intros y Hy. specialize (Hlow y Hy). lia.
    - pose proof (Hlow _ Hm_in) as Hm_low.
      assert (Hmin_range : 0 <= stats_min s <= 255).
      { rewrite Hmin. apply Hrange, minimum_in.
        intros E. fold cells in E. rewrite E in Hold_in. destruct Hold_in. }
      apply scan_min_finds; try lia.
      + intros v Hv. rewrite Hn2 by lia.
        rewrite (proj1 (count_occ_not_In Z.eq_dec cells' v)); [reflexivity|].
        intros Hin. pose proof (minimum_le cells' v Hin). lia.
      + rewrite Hn2 by lia.
        pose proof (proj1 (count_occ_In Z.eq_dec cells' _) Hm_in). lia. }
  rewrite Hfound.
  eexists. split.
  - rewrite level_pts_small by lia. reflexivity.
  - split; cbn [stats_hist stats_hpos stats_num stats_min Naive.cells Naive.cursor];
      try reflexivity; try assumption.
    + unfold cells'. now rewrite length_insert.
    + unfold num2. now rewrite aset_length.
Qed.

(** Any run of non-negative samples goes through, and returns what the
    reference returns. *)
Lemma nbc_stats_run_repr samples : forall s h,
  stats_repr s h ->
  Forall (fun pts => 0 <= pts <= INT_MAX) samples ->
  nbc_stats_run s samples = Some (Naive.run h samples).
Proof.
  induction samples as [|pts rest IH]; intros s h Hrepr Hall; [reflexivity|].
  inversion Hall as [|? ? Hpts Hrest]; subst.
  destruct (nbc_stats_add_step s h pts Hrepr Hpts) as (s' & Hadd & Hrepr').
  cbn [nbc_stats_run Naive.run]. rewrite Hadd.
  destruct (Naive.feed h pts) as [h' r] eqn:Hfeed. cbn [fst snd] in *.
  now rewrite (IH s' h' Hrepr' Hrest).
Qed.

End StatsFacts.

(** ** Timestamps *)

Section PtsFacts.

Import CInt CIntFacts.

Lemma int64_range z : - 2 ^ 63 <= int64 z < 2 ^ 63.
Proof.
  unfold int64. pose proof (Z.mod_pos_bound (z + 2 ^ 63) (2 ^ 64)). lia.
Qed.

Lemma pts_diff_check_plausible diff :
  Z.abs diff <= 220000 -> pts_diff_check diff = Some diff.
Proof.
  intros H. unfold pts_diff_check.
  destruct (Z.ltb_spec diff (-220000)); [lia|].
  destruct (Z.gtb_spec diff 220000); [lia|reflexivity].
Qed.

Lemma pts_diff_check_wrapped diff :
  - 2 ^ 63 <= diff < 2 ^ 63 ->
  Z.abs diff > 220000 ->
  pts_diff_check diff
  = if Z.abs (wrap_corrected diff) <=? 220000
    then Some (wrap_corrected diff) else None.
Proof.
  intros Hr H. unfold pts_diff_check, wrap_corrected.
  change (Z.shiftl 1 33) with (2 ^ 33).
  destruct (Z.ltb_spec diff (-220000)).
  - destruct (Z.ltb_spec diff 0); [|lia].
    rewrite int64_small by lia.
    destruct (Z.ltb_spec (diff + 2 ^ 33) (-220000));
      destruct (Z.gtb_spec (diff + 2 ^ 33) 220000);
      destruct (Z.leb_spec (Z.abs (diff + 2 ^ 33)) 220000);
      simpl; try reflexivity; lia.
  - destruct (Z.gtb_spec diff 220000); [|lia].
    destruct (Z.ltb_spec diff 0); [lia|].
    rewrite int64_small by lia.
    destruct (Z.ltb_spec (diff - 2 ^ 33) (-220000));
      destruct (Z.gtb_spec (diff - 2 ^ 33) 220000);
      destruct (Z.leb_spec (Z.abs (diff - 2 ^ 33)) 220000);
      simpl; try reflexivity; lia.
Qed.

Lemma int32_plausible diff : Z.abs diff <= 220000 -> int32 diff = diff.
Proof. intros H. apply int32_small. unfold INT_MIN, INT_MAX. lia. Qed.

End PtsFacts.

(** C3.  After [nbc_stats_reset], for every sequence of non-negative
    fill samples, each call of [nbc_stats_add] returns (the scan never
    leaves the bucket array) and what it returns is the minimum over the
    1024 cells of the history ring, in pts: the samples are quantized to
    1/16 s ([pts / 5625], at most 255) and the minimum is scaled back by
    5625.  [Naive.run] recomputes that minimum by a full pass at every
    sample. *)
Theorem nbc_stats_add_is_ring_minimum (s0 : nbc_stats) (samples : list Z) :
  Forall (fun pts => 0 <= pts <= CInt.INT_MAX) samples ->
  nbc_stats_run (nbc_stats_reset s0) samples
  = Some (Naive.run Naive.start samples).
Proof.
  intros Hall. apply nbc_stats_run_repr; [apply stats_repr_reset|exact Hall].
Qed.

Lemma nbc_stats_add_is_ring_minimum_witness :
  Forall (fun pts => 0 <= pts <= CInt.INT_MAX) [90000; 180000; 45000]
  /\ nbc_stats_run
       (nbc_stats_reset {| stats_min := 0; stats_hpos := 0;
                           stats_hist := []; stats_num := [] |})
       [90000; 180000; 45000]
     = Some (Naive.run Naive.start [90000; 180000; 45000]).
Proof.
  assert (H : Forall (fun pts => 0 <= pts <= CInt.INT_MAX) [90000; 180000; 45000])
    by (repeat constructor; unfold CInt.INT_MAX; lia).
  split; [exact H|].
  exact (nbc_stats_add_is_ring_minimum _ _ H).
Defined.

Section PtsClaims.

Import CInt CIntFacts.


End PtsClaims.


(** ** The live speed controller *)

Section DvbspeedFacts.

Import CInt CIntFacts.

Variable XINE_FINE_SPEED_NORMAL : Z.

Lemma dvbspeed_gate_spec ty this :
  0 <= dvbspeed this <= 7 ->
  dvbspeed_gate ty this
  = match ty with
    | BUF_VIDEO_BASE =>
        (dvbspeed this =? 0) || (4 <=? dvbspeed this) && (dvbspeed this <=? 6)
    | BUF_AUDIO_BASE => dvbspeed this <=? 3
    end.
Proof.
  intros H. unfold dvbspeed_gate.
  assert (Hd : dvbspeed this = 0 \/ dvbspeed this = 1 \/ dvbspeed this = 2
               \/ dvbspeed this = 3 \/ dvbspeed this = 4 \/ dvbspeed this = 5
               \/ dvbspeed this = 6 \/ dvbspeed this = 7) by lia.
  destruct Hd as [-> | [-> | [-> | [-> | [-> | [-> | [-> | ->]]]]]]];
    destruct ty; reflexivity.
Qed.

Lemma dvbspeed_put_gated ty fine this :
  dvbspeed_gate ty this = true ->
  dvbspeed_put XINE_FINE_SPEED_NORMAL ty fine this = Some (this, -1, []).
Proof. intros H. unfold dvbspeed_put. now rewrite H. Qed.

Lemma dvbspeed_get_gated ty this :
  dvbspeed_gate ty this = true ->
  dvbspeed_get XINE_FINE_SPEED_NORMAL ty this = Some (this, -1, [Call_delay_clean]).
Proof. intros H. unfold dvbspeed_get. now rewrite H. Qed.

Lemma dvbspeed_enter_normal ty used this :
  dvbspeed (enter_normal ty used this) = normal_state ty.
Proof.
  unfold enter_normal. destruct (used <? 30); destruct ty; reflexivity.
Qed.

Lemma stats_enter_normal ty used this :
  stats (enter_normal ty used this) = stats this.
Proof.
  unfold enter_normal. destruct (used <? 30); reflexivity.
Qed.

(** In state 7 a put passes the gate, and leaves the state exactly when
    the start threshold is crossed. *)
Lemma dvbspeed_put_prebuffer ty fine this :
  dvbspeed this = 7 ->
  exists this' speed calls,
    dvbspeed_put XINE_FINE_SPEED_NORMAL ty fine this = Some (this', speed, calls)
    /\ dvbspeed this'
       = (if (all_fill_of (fifo_info this ty) >? dvbs_center this)
             || occupancy_above 73 (fifo_info this ty)
          then normal_state ty else 7)
    /\ ((all_fill_of (fifo_info this ty) >? dvbs_center this)
          || occupancy_above 73 (fifo_info this ty) = true ->
        stats this'
        = nbc_stats_flat (stats this) (all_fill_of (fifo_info this ty))).
Proof.
  intros H7. unfold dvbspeed_put.
  assert (Hg : dvbspeed_gate ty this = false)
    by (unfold dvbspeed_gate; rewrite H7; destruct ty; reflexivity).
  rewrite Hg, H7. cbn [Z.eqb orb Pos.eqb].
  fold (all_fill_of (fifo_info this ty)).
  fold (occupancy_above 73 (fifo_info this ty)).
  destruct (negb (fine =? 0));
    destruct ((all_fill_of (fifo_info this ty) >? dvbs_center this)
              || occupancy_above 73 (fifo_info this ty)) eqn:Hc;
    do 3 eexists; (split; [reflexivity|]); split;
    try (rewrite dvbspeed_enter_normal; reflexivity);
    try exact H7; try discriminate;
    intros _; rewrite stats_enter_normal; cbn [stats set_stats];
    repeat match goal with
           | |- context [if ?c then _ else _] => destruct c
           end; reflexivity.
Qed.

(** C9.  Cross-fifo gating.  With the controller in one of its states
    0..7: an audio event is dropped at the gate exactly in the states
    0, 1, 2, 3 and a video event exactly in 0, 4, 5, 6; a dropped put or
    get returns at once, leaves the whole controller state (so
    [dvbspeed]) as it is and asks for no speed (-1).  Hence in state 0
    nothing is done for either fifo, and only in state 7 events of both
    fifos get past the gate; there a put of either fifo that crosses
    the start threshold moves the controller into the family of the
    fifo it came from (1 for video, 4 for audio), and otherwise leaves
    it in 7. *)
Theorem cross_fifo_gating (fine_speed : Z) (this : xine_nbc_t) :
  0 <= dvbspeed this <= 7 ->
  dvbspeed_gate BUF_AUDIO_BASE this = (dvbspeed this <=? 3)
  /\ dvbspeed_gate BUF_VIDEO_BASE this
     = (dvbspeed this =? 0) || (4 <=? dvbspeed this) && (dvbspeed this <=? 6)
  /\ (forall ty, dvbspeed_gate ty this = true ->
        dvbspeed_put XINE_FINE_SPEED_NORMAL ty fine_speed this
        = Some (this, -1, [])
        /\ dvbspeed_get XINE_FINE_SPEED_NORMAL ty this
           = Some (this, -1, [Call_delay_clean]))
  /\ (dvbspeed this = 7 -> forall ty,
        exists this' speed calls,
          dvbspeed_put XINE_FINE_SPEED_NORMAL ty fine_speed this
          = Some (this', speed, calls)
          /\ dvbspeed this'
             = if (all_fill_of (fifo_info this ty) >? dvbs_center this)
                  || occupancy_above 73 (fifo_info this ty)
               then normal_state ty else 7).
Proof.
  intros Hd. repeat split.
  - apply (dvbspeed_gate_spec BUF_AUDIO_BASE this Hd).
  - apply (dvbspeed_gate_spec BUF_VIDEO_BASE this Hd).
  - now apply dvbspeed_put_gated.
  - now apply dvbspeed_get_gated.
  - intros H7 ty.
    destruct (dvbspeed_put_prebuffer ty fine_speed this H7)
      as (this' & speed & calls & Hput & Hstate & _).
    now exists this', speed, calls.
Qed.

(** C10.  Leaving the prebuffer state.  A put in state 7 that crosses
    the start threshold enters the normal state of its fifo with the
    history flattened by [nbc_stats_flat]: each of the 1024 history
    cells holds the quantized current fill [level], the 256 bucket
    counts are rewritten to match (1024 in bucket [level], 0 in the
    others), the stored minimum is [level], and the recent minimum that
    the next [nbc_stats_add] of the same fill reports is [level] in pts,
    not the zero left by [nbc_stats_reset]. *)
Theorem prebuffer_exit_flattens_history
    (fine_speed : Z) (ty : fifo_type) (this : xine_nbc_t) :
  dvbspeed this = 7 ->
  0 <= stats_hpos (stats this) < NBC_HSIZE_NUM ->
  (all_fill_of (fifo_info this ty) >? dvbs_center this)
    || occupancy_above 73 (fifo_info this ty) = true ->
  let fill := all_fill_of (fifo_info this ty) in
  let level := fill_level (Z.max 0 fill) in
  exists this' speed calls,
    dvbspeed_put XINE_FINE_SPEED_NORMAL ty fine_speed this
    = Some (this', speed, calls)
    /\ dvbspeed this' = normal_state ty
    /\ stats_hist (stats this') = replicate (Z.to_nat NBC_HSIZE_NUM) level
    /\ length (stats_num (stats this')) = 256%nat
    /\ (forall u, 0 <= u <= 255 ->
          aget (stats_num (stats this')) u = if u =? level then NBC_HSIZE_NUM else 0)
    /\ stats_min (stats this') = level
    /\ exists st, nbc_stats_add (stats this') fill = Some (st, 5625 * level).
Proof.
  intros H7 Hpos Hc fill level.
  destruct (dvbspeed_put_prebuffer ty fine_speed this H7)
    as (this' & speed & calls & Hput & Hstate & Hstats).
  rewrite Hc in Hstate. specialize (Hstats Hc). fold fill in Hstats.
  assert (Hfill : INT_MIN <= fill <= INT_MAX) by apply int32_range.
  assert (Hflat : nbc_stats_flat (stats this) fill
                  = {| stats_min := level; stats_hpos := stats_hpos (stats this);
                       stats_hist := replicate (Z.to_nat NBC_HSIZE_NUM) level;
                       stats_num := aset (replicate 256 0) level NBC_HSIZE_NUM |}).
  { unfold nbc_stats_flat, level.
    destruct (Z.ltb_spec fill 0);
      [rewrite Z.max_l by lia|rewrite Z.max_r by lia]; reflexivity. }
  assert (Hlevel : 0 <= level <= 255).
  { unfold level. rewrite fill_level_quantize by (unfold INT_MAX, INT_MIN in *; lia).
    apply quantize_range. lia. }
  assert (Hrepr : stats_repr (stats this')
                    {| Naive.cells := replicate 1024 level;
                       Naive.cursor := Z.to_nat (stats_hpos (stats this)) |}).
  { change NBC_HSIZE_NUM with 1024 in Hpos.
    apply stats_repr_flat; rewrite ?Hstats, ?Hflat; try reflexivity; try lia.
    cbn [stats_hpos]. lia. }
  exists this', speed, calls.
  split; [exact Hput|]. split; [exact Hstate|].
  rewrite Hstats, Hflat. cbn [stats_hist stats_num stats_min].
  split; [reflexivity|]. split; [now rewrite aset_length, length_replicate|].
  split.
  { intros u Hu. destruct (Z.eqb_spec u level) as [->|Hne].
    - rewrite aget_aset_eq; [reflexivity|]. rewrite length_replicate. lia.
    - rewrite aget_aset_ne by lia. apply aget_replicate. lia. }
  split; [reflexivity|].
  rewrite <- Hflat, <- Hstats.
  destruct (Z.ltb_spec fill 0) as [Hneg|Hnn].
  - exists (stats this'). unfold nbc_stats_add.
    destruct (Z.ltb_spec fill 0); [|lia].
    rewrite (repr_min _ _ Hrepr). cbn [Naive.cells].
    rewrite minimum_replicate by lia.
    now rewrite level_pts_small by lia.
  - destruct (nbc_stats_add_step _ _ fill Hrepr ltac:(unfold INT_MAX, INT_MIN in *; lia)) as (st & Hadd & _).
    exists st. rewrite Hadd. do 2 f_equal.
    unfold Naive.feed. cbn [snd Naive.cells Naive.cursor]. f_equal.
    assert (Hq : Naive.quantize fill = level).
    { unfold level. rewrite Z.max_r by lia.
      symmetry. apply fill_level_quantize. unfold INT_MAX, INT_MIN in *. lia. }
    rewrite Hq. apply minimum_unique.
    + apply insert_in. rewrite length_replicate.
      apply Nat.mod_upper_bound. lia.
    + intros y Hy. destruct (in_insert _ _ _ _ Hy) as [->|Hy']; [lia|].
      apply list_elem_of_In, elem_of_replicate in Hy'. lia.
Qed.

(** C4 (amended).  A put on the watched fifo in a normal state (video
    in 1, audio in 4) feeds the fill into the history and reads the
    recent minimum.  If that minimum exceeds [dvbs_center + dvbs_width],
    or more than 98% of the buffer pool is in use, the put asks for
    [XINE_FINE_SPEED_NORMAL * 1005 / 1000] and the state becomes 3 for
    video, 6 for audio (the states that play faster to empty the fifo,
    not 2 and 5); otherwise the state stays and no speed is asked
    for (-1). *)
Theorem dvbspeed_put_normal_speeds_up
    (fine_speed : Z) (ty : fifo_type) (this : xine_nbc_t) (h : Naive.ring) :
  dvbspeed this = normal_state ty ->
  stats_repr (stats this) h ->
  exists st recent_min,
    nbc_stats_add (stats this) (all_fill_of (fifo_info this ty))
    = Some (st, recent_min)
    /\ dvbspeed_put XINE_FINE_SPEED_NORMAL ty fine_speed this
       = if (recent_min >? int32 (dvbs_center this + dvbs_width this))
            || occupancy_above 98 (fifo_info this ty)
         then Some (set_dvbspeed (fast_state ty) (set_stats st this),
                    Z.quot (int32 (XINE_FINE_SPEED_NORMAL * 1005)) 1000,
                    [])
         else Some (set_stats st this, -1, []).
Proof.
  intros Hstate Hrepr.
  set (fill := all_fill_of (fifo_info this ty)).
  assert (Hfill : INT_MIN <= fill <= INT_MAX) by apply int32_range.
  assert (Hadd : exists st m, nbc_stats_add (stats this) fill = Some (st, m)).
  { destruct (Z.ltb_spec fill 0) as [Hneg|Hnn].
    - unfold nbc_stats_add. destruct (Z.ltb_spec fill 0); [|lia]. eauto.
    - destruct (nbc_stats_add_step _ _ fill Hrepr ltac:(unfold INT_MAX, INT_MIN in *; lia)) as (st & E & _).
      eauto. }
  destruct Hadd as (st & m & Hadd). exists st, m. split; [exact Hadd|].
  unfold dvbspeed_put.
  assert (Hg : dvbspeed_gate ty this = false)
    by (unfold dvbspeed_gate; rewrite Hstate; destruct ty; reflexivity).
  rewrite Hg. fold (all_fill_of (fifo_info this ty)). fold fill.
  assert (Hsel : (dvbspeed this =? 1) || (dvbspeed this =? 4) = true)
    by (rewrite Hstate; destruct ty; reflexivity).
  rewrite Hsel, Hadd. cbn [dvbs_center dvbs_width set_stats dvbspeed].
  fold (occupancy_above 98 (fifo_info this ty)).
  destruct ((m >? int32 (dvbs_center this + dvbs_width this))
            || occupancy_above 98 (fifo_info this ty)); [|reflexivity].
  rewrite Hstate. destruct ty; reflexivity.
Qed.

End DvbspeedFacts.

Lemma cross_fifo_gating_witness :
  0 <= dvbspeed (sample_nbc 7 200000 100) <= 7
  /\ dvbspeed_gate BUF_AUDIO_BASE (sample_nbc 7 200000 100) = false
  /\ dvbspeed_gate BUF_VIDEO_BASE (sample_nbc 7 200000 100) = false
  /\ dvbspeed_gate BUF_AUDIO_BASE (sample_nbc 2 200000 100) = true
  /\ dvbspeed_gate BUF_VIDEO_BASE (sample_nbc 5 200000 100) = true.
Proof.
  assert (H7 : 0 <= dvbspeed (sample_nbc 7 200000 100) <= 7)
    by (cbn [dvbspeed sample_nbc]; lia).
  assert (H2 : 0 <= dvbspeed (sample_nbc 2 200000 100) <= 7)
    by (cbn [dvbspeed sample_nbc]; lia).
  assert (H5 : 0 <= dvbspeed (sample_nbc 5 200000 100) <= 7)
    by (cbn [dvbspeed sample_nbc]; lia).
  destruct (cross_fifo_gating 1000000 0 _ H7) as (Ha7 & Hv7 & _).
  destruct (cross_fifo_gating 1000000 0 _ H2) as (Ha2 & _).
  destruct (cross_fifo_gating 1000000 0 _ H5) as (_ & Hv5 & _).
  split; [exact H7|].
  rewrite Ha7, Hv7, Ha2, Hv5. repeat split; reflexivity.
Defined.

Lemma prebuffer_exit_flattens_history_witness :
  exists this' speed calls,
    dvbspeed_put 1000000 BUF_VIDEO_BASE 1000000 (sample_nbc 7 200000 100)
    = Some (this', speed, calls)
    /\ dvbspeed this' = 1
    /\ stats_min (stats this') = 35.
Proof.
  destruct (prebuffer_exit_flattens_history 1000000 1000000 BUF_VIDEO_BASE
              (sample_nbc 7 200000 100))
    as (this' & speed & calls & Hput & Hstate & _ & _ & _ & Hmin & _).
  - reflexivity.
  - change (0 <= 0 < 1024). lia.
  - vm_compute. reflexivity.
  - exists this', speed, calls. repeat split; assumption.
Defined.

Lemma dvbspeed_put_normal_speeds_up_witness :
  exists this',
    dvbspeed_put 1000000 BUF_VIDEO_BASE 1000000 (sample_nbc 1 400000 100)
    = Some (this', 1005000, [])
    /\ dvbspeed this' = 3.
Proof.
  destruct (dvbspeed_put_normal_speeds_up 1000000 1000000 BUF_VIDEO_BASE
              (sample_nbc 1 400000 100)
              {| Naive.cells := replicate 1024 71; Naive.cursor := 0 |})
    as (st & m & Hadd & Hput).
  - reflexivity.
  - apply stats_repr_flat; try reflexivity; lia.
  - assert (Hm : m = 399375).
    { vm_compute in Hadd. now inversion Hadd. }
    subst m. rewrite Hput. eexists. split; reflexivity.
Defined.

(** C4, as the specification words it, fails: from the normal video
    state 1 with a recent minimum above [dvbs_center + dvbs_width] the
    put asks for 100.5% speed and enters state 3, not the slow-fill
    state 2. *)
Lemma dvbspeed_put_normal_not_slow_fill :
  dvbspeed (sample_nbc 1 400000 100) = normal_state BUF_VIDEO_BASE
  /\ exists this',
       dvbspeed_put 1000000 BUF_VIDEO_BASE 1000000 (sample_nbc 1 400000 100)
       = Some (this', 1005000, [])
       /\ dvbspeed this' = fast_state BUF_VIDEO_BASE
       /\ dvbspeed this' <> slow_state BUF_VIDEO_BASE.
Proof.
  split; [reflexivity|].
  eexists. split; [vm_compute; reflexivity|].
  split; [reflexivity|discriminate].
Qed.

(** ** The high water mark *)

Lemma zrange_in (n : nat) (z : Z) : 1 <= z <= Z.of_nat n -> In z (zrange n).
Proof.
  intros H. unfold zrange. rewrite <- (Z2Nat.id z) by lia.
  apply in_map, in_seq. lia.
Qed.

Lemma factors_exact_2048_8 : factors_exact 2048 8 = true.
Proof. vm_compute. reflexivity. Qed.

Lemma marks_exact_8 : marks_exact 8 = true.
Proof. vm_compute. reflexivity. Qed.

Lemma factors_exact_spec (D K : nat) (d k : Z) :
  factors_exact D K = true ->
  1 <= d <= Z.of_nat D -> 1 <= k <= Z.of_nat K ->
  factor_is k d = true.
Proof.
  unfold factors_exact. intros H Hd Hk.
  rewrite forallb_forall in H. specialize (H d (zrange_in D d Hd)).
  rewrite forallb_forall in H. exact (H k (zrange_in K k Hk)).
Qed.

Lemma marks_exact_spec (K : nat) (kv ka : Z) :
  marks_exact K = true ->
  1 <= kv <= Z.of_nat K -> 1 <= ka <= Z.of_nat K ->
  mark_is kv ka = true.
Proof.
  unfold marks_exact. intros H Hv Ha.
  rewrite forallb_forall in H. specialize (H kv (zrange_in K kv Hv)).
  rewrite forallb_forall in H. exact (H ka (zrange_in K ka Ha)).
Qed.

(** A queue of [k] times its default capacity has the factor [k]. *)
Lemma fifo_factor_multiple (d k : Z) :
  1 <= d <= 2048 -> 1 <= k <= 8 ->
  fifo_factor (Some d) (k * d) = double_of_int k.
Proof.
  intros Hd Hk. apply FloatAxioms.Leibniz.eqb_spec.
  apply (factors_exact_spec 2048 8 d k factors_exact_2048_8); lia.
Qed.

(** The mark for whole factors: the default times the smaller one. *)
Lemma mark_of_whole_factors (kv ka : Z) :
  1 <= kv <= 8 -> 1 <= ka <= 8 ->
  mark_of_factors (double_of_int kv) (double_of_int ka)
  = Some (DEFAULT_HIGH_WATER_MARK * Z.min kv ka).
Proof.
  intros Hv Ha.
  assert (H : mark_is kv ka = true)
    by (apply (marks_exact_spec 8 kv ka marks_exact_8); lia).
  unfold mark_is in H.
  destruct (mark_of_factors (double_of_int kv) (double_of_int ka)) as [m|];
    [|discriminate].
  apply Z.eqb_eq in H. now subst m.
Qed.

(** The product is computed in [double] and cut to an integer: a ratio
    that is not a whole number can lose one.  1001 buffers of a default
    of 500 give 10009, not 10010. *)
Lemma high_water_mark_cut :
  xine_nbc_init_high_water_mark (Some 500) (Some 230) 1001 690 = Some 10009.
Proof. vm_compute. reflexivity. Qed.




(** ** Decoder dispatch *)

Section DispatchFacts.

Variable PLUGINS_PER_TYPE : nat.


Lemma shift_fold_length (row : list (option nat)) (s n : nat) :
  length (foldl (fun r k => <[(k - 1)%nat := default None (r !! k)]> r) row (seq s n))
  = length row.
Proof.
  revert row s. induction n as [|n IH]; intros row s; simpl; [reflexivity|].
  rewrite IH. apply length_insert.
Qed.

Lemma shift_fold_lookup (row : list (option nat)) (i n : nat) :
  (S i + n <= length row)%nat ->
  forall j,
    foldl (fun r k => <[(k - 1)%nat := default None (r !! k)]> r) row (seq (S i) n) !! j
    = if bool_decide (i <= j < i + n)%nat then row !! S j else row !! j.
Proof.
  induction n as [|n IH]; intros Hlen j.
  - simpl. case_bool_decide; [lia|reflexivity].
  - rewrite seq_S, foldl_app. cbn [foldl].
    specialize (IH ltac:(lia)).
    pose proof (shift_fold_length row (S i) n) as Hrlen.
    set (r := foldl _ row (seq (S i) n)) in *.
    assert (Hr : r !! S (i + n) = row !! S (i + n)).
    { rewrite IH. case_bool_decide; [lia|reflexivity]. }
    replace (S i + n - 1)%nat with (i + n)%nat by lia.
    change (S i + n)%nat with (S (i + n)).
    destruct (decide (j = i + n)%nat) as [->|Hne].
    + rewrite list_lookup_insert_eq by lia.
      case_bool_decide; [|lia].
      rewrite Hr. destruct (row !! S (i + n)) eqn:E; [reflexivity|].
      apply lookup_ge_None in E. lia.
    + rewrite list_lookup_insert_ne by lia. rewrite IH.
      repeat case_bool_decide; try reflexivity; lia.
Qed.

(** Taking entry [i] out of a row moves the entries behind it up by one
    and puts [NULL] in the last slot. *)
Lemma shift_row_closed (row : list (option nat)) (i : nat) :
  length row = PLUGINS_PER_TYPE ->
  (i < PLUGINS_PER_TYPE)%nat ->
  shift_row PLUGINS_PER_TYPE i row = take i row ++ drop (S i) row ++ [None].
Proof.
  intros Hlen Hi. unfold shift_row.
  apply list_eq. intros j.
  destruct (decide (j = PLUGINS_PER_TYPE - 1)%nat) as [->|Hj].
  - rewrite list_lookup_insert_eq by (rewrite shift_fold_length; lia).
    rewrite lookup_app_r by (rewrite length_take; lia).
    rewrite length_take, Hlen.
    rewrite lookup_app_r by (rewrite length_drop; lia).
    rewrite length_drop, Hlen.
    replace (PLUGINS_PER_TYPE - 1 - i `min` PLUGINS_PER_TYPE
             - (PLUGINS_PER_TYPE - S i))%nat with 0%nat by lia.
    reflexivity.
  - rewrite list_lookup_insert_ne by lia.
    rewrite shift_fold_lookup by lia.
    destruct (decide (j < i)%nat) as [Hlt|Hge].
    + case_bool_decide; [lia|].
      rewrite lookup_app_l by (rewrite length_take; lia).
      now rewrite lookup_take_lt by lia.
    + rewrite lookup_app_r by (rewrite length_take; lia).
      rewrite length_take, Hlen. replace (i `min` PLUGINS_PER_TYPE)%nat with i by lia.
      destruct (decide (j < PLUGINS_PER_TYPE - 1)%nat) as [Hin|Hout].
      * case_bool_decide; [|lia].
        rewrite lookup_app_l by (rewrite length_drop; lia).
        rewrite lookup_drop. f_equal. lia.
      * case_bool_decide; [lia|].
        rewrite lookup_ge_None_2 by lia.
        symmetry. apply lookup_ge_None_2.
        rewrite length_app, length_drop. simpl. lia.
Qed.

Lemma decoder_map_set ty m c : decoder_map ty (set_decoder_map ty m c) = m.
Proof. destruct ty; reflexivity. Qed.

Lemma decoder_map_set_other ty ty' m c :
  is_decoder ty = true -> is_decoder ty' = true -> ty' <> ty ->
  decoder_map ty' (set_decoder_map ty m c) = decoder_map ty' c.
Proof. destruct ty, ty'; try discriminate; try congruence; reflexivity. Qed.

Lemma decoder_map_update_node ty a f c :
  decoder_map ty (update_node a f c) = decoder_map ty c.
Proof. destruct ty; reflexivity. Qed.

Lemma row_of_insert_eq (m : decoder_map_t) st r :
  (st < length m)%nat -> row_of (<[st := r]> m) st = r.
Proof.
  intros H. unfold row_of. now rewrite list_lookup_insert_eq.
Qed.

Lemma row_of_insert_ne (m : decoder_map_t) st st' r :
  st <> st' -> row_of (<[st := r]> m) st' = row_of m st'.
Proof.
  intros H. unfold row_of. now rewrite list_lookup_insert_ne.
Qed.

Lemma lookup_frame_refl ty st c : lookup_frame ty st c c.
Proof. split; reflexivity. Qed.

Lemma lookup_frame_trans ty st c1 c2 c3 :
  lookup_frame ty st c1 c2 -> lookup_frame ty st c2 c3 -> lookup_frame ty st c1 c3.
Proof.
  intros [A1 A2 A3 A4 A5 A6 A7] [B1 B2 B3 B4 B5 B6 B7]. split; intros.
  - now rewrite B1, A1.
  - now rewrite B2, A2.
  - now rewrite B3, A3.
  - now rewrite B4, A4.
  - now rewrite B5, A5.
  - now rewrite B6, A6.
  - now rewrite B7, A7.
Qed.

Lemma lookup_frame_update_node ty st a f c :
  (forall n, node_priority (f n) = node_priority n) ->
  (forall n, node_type (f n) = node_type n) ->
  (forall n, ainfo_supported_types (f n) = ainfo_supported_types n) ->
  lookup_frame ty st c (update_node a f c).
Proof.
  intros Hp Ht Hs.
  split; try reflexivity; try (intros; now rewrite decoder_map_update_node);
    intros b; cbn; destruct (Nat.eqb_spec b a) as [->|]; auto.
Qed.

Lemma lookup_frame_remove_entry ty st i c :
  is_decoder ty = true ->
  lookup_frame ty st c (remove_entry PLUGINS_PER_TYPE ty st i c).
Proof.
  intros Hty. unfold remove_entry. split; try reflexivity.
  - intros st' Hne. rewrite decoder_map_set. now apply row_of_insert_ne.
  - intros ty' Hty' Hne. now apply decoder_map_set_other.
  - rewrite decoder_map_set. apply length_insert.
Qed.

Lemma attempt_of_nodes retry load open c c' :
  (forall a, node_plugin_class (nodes c' a) = node_plugin_class (nodes c a)) ->
  forall a, attempt_of retry load open c' a = attempt_of retry load open c a.
Proof. intros H a. unfold attempt_of. now rewrite H. Qed.

Lemma attempt_of_loaded retry load open c b :
  (if node_plugin_class (nodes c b) then LOAD_CLASS else load b) = LOAD_CLASS ->
  forall a,
    attempt_of retry load open (update_node b (set_node_plugin_class true) c) a
    = attempt_of retry load open c a.
Proof.
  intros Hb a. unfold attempt_of. cbn.
  destruct (Nat.eqb_spec a b) as [->|]; [|reflexivity].
  cbn. now rewrite Hb.
Qed.

Lemma pointer_after_nodes load open c c' :
  (forall a, node_plugin_class (nodes c' a) = node_plugin_class (nodes c a)) ->
  forall a d, pointer_after load open c' a d = pointer_after load open c a d.
Proof. intros H a d. unfold pointer_after. now rewrite H. Qed.

Lemma pointer_after_loaded load open c b :
  (if node_plugin_class (nodes c b) then LOAD_CLASS else load b) = LOAD_CLASS ->
  forall a d,
    pointer_after load open (update_node b (set_node_plugin_class true) c) a d
    = pointer_after load open c a d.
Proof.
  intros Hb a d. unfold pointer_after. cbn.
  destruct (Nat.eqb_spec a b) as [->|]; [|reflexivity].
  cbn. now rewrite Hb.
Qed.

Lemma dispatch_keep_length try cands keep taken :
  dispatch try cands = Some (keep, taken) -> (length keep <= length cands)%nat.
Proof.
  revert keep taken. induction cands as [|a cs IH]; intros keep taken; simpl.
  - intros [= <- _]. simpl. lia.
  - destruct (try a).
    + intros H. specialize (IH _ _ H). lia.
    + destruct (dispatch try cs) as [[k t]|]; [|discriminate].
      intros [= <- _]. specialize (IH _ _ eq_refl). simpl. lia.
    + intros [= <- _]. simpl. lia.
    + discriminate.
Qed.

Lemma dispatch_keep_sublist try cands keep taken :
  dispatch try cands = Some (keep, taken) -> sublist keep cands.
Proof.
  revert keep taken. induction cands as [|a cs IH]; intros keep taken; simpl.
  - intros [= <- _]. constructor.
  - destruct (try a).
    + intros H. constructor. exact (IH _ _ H).
    + destruct (dispatch try cs) as [[k t]|]; [|discriminate].
      intros [= <- _]. constructor. exact (IH _ _ eq_refl).
    + intros [= <- _]. reflexivity.
    + discriminate.
Qed.

Section Walk.

Variable load : nat -> load_result.
Variable open : nat -> open_result.
Variable stream_type : nat.

Lemma row_after_removal ty (c : plugin_catalog_t) pre (a : nat) cs rest :
  row_of (decoder_map ty c) stream_type = pre ++ (Some <$> a :: cs) ++ rest ->
  length (pre ++ (Some <$> a :: cs) ++ rest) = PLUGINS_PER_TYPE ->
  (stream_type < length (decoder_map ty c))%nat ->
  row_of (decoder_map ty (remove_entry PLUGINS_PER_TYPE ty stream_type (length pre) c))
    stream_type
  = pre ++ (Some <$> cs) ++ (rest ++ [None]).
Proof.
  intros Hrow Hlen Hst. unfold remove_entry.
  rewrite decoder_map_set, row_of_insert_eq by exact Hst.
  rewrite Hrow.
  rewrite shift_row_closed;
    [|exact Hlen|rewrite !length_app in Hlen; simpl in Hlen; lia].
  rewrite take_app_length.
  replace (S (length pre)) with (length pre + 1)%nat by lia.
  rewrite drop_app_add. cbn. rewrite drop_0. now rewrite <- app_assoc.
Qed.

Lemma live_app_none rest : live rest = [] -> live (rest ++ [None]) = [].
Proof. destruct rest as [|[x|] r]; simpl; [reflexivity|discriminate|reflexivity]. Qed.

Lemma live_fmap_app cands rest : live ((Some <$> cands) ++ rest) = cands ++ live rest.
Proof.
  induction cands as [|a cs IH]; [reflexivity|].
  cbn. f_equal. exact IH.
Qed.

(** The walk from slot [length pre] on, over the candidates [cands]
    that stand there: it comes back exactly when [dispatch] has a
    result, and then with what [dispatch] says. *)
Lemma decoder_walk_spec ty (try : nat -> attempt)
    (ptr : nat -> decoder_ptr -> decoder_ptr) :
  is_decoder ty = true ->
  forall cands pre rest c d fuel,
    row_of (decoder_map ty c) stream_type = pre ++ (Some <$> cands) ++ rest ->
    length (pre ++ (Some <$> cands) ++ rest) = PLUGINS_PER_TYPE ->
    (stream_type < length (decoder_map ty c))%nat ->
    live rest = [] ->
    (forall a, attempt_of (knows_unavailable ty) load open c a = try a) ->
    (forall a d0, pointer_after load open c a d0 = ptr a d0) ->
    (length cands < fuel)%nat ->
    match dispatch try cands with
    | Some (keep, taken) =>
        exists c' d',
          decoder_walk PLUGINS_PER_TYPE load open ty fuel (length pre) stream_type c d
          = Some (c', d')
          /\ row_of (decoder_map ty c') stream_type
             = pre ++ (Some <$> keep) ++ rest
               ++ replicate (length cands - length keep) None
          /\ lookup_frame ty stream_type c c'
          /\ returned_for ptr cands taken d d'
          /\ (forall b, node_ref (nodes c' b)
                        = if bool_decide (taken = Some b)
                          then CInt.int32 (node_ref (nodes c b) + 1)
                          else node_ref (nodes c b))
    | None =>
        decoder_walk PLUGINS_PER_TYPE load open ty fuel (length pre) stream_type c d
        = None
    end.
Proof.
  intros Hty. induction cands as [|a cs IH];
    intros pre rest c d fuel Hrow Hlen Hst Hrest Htry Hptr Hfuel;
    (destruct fuel as [|fuel]; [simpl in Hfuel; lia|]); cbn [decoder_walk dispatch].
  - (* no candidate left *)
    exists c, d. repeat split.
    + destruct (Nat.leb_spec PLUGINS_PER_TYPE (length pre)); [reflexivity|].
      rewrite Hrow. cbn [fmap list_fmap app].
      rewrite lookup_app_r, Nat.sub_diag by lia.
      destruct rest as [|[x|] r]; [reflexivity|discriminate|reflexivity].
    + rewrite Hrow. cbn. now rewrite app_nil_r.
  - (* candidate [a] *)
    assert (Hpre : (length pre < PLUGINS_PER_TYPE)%nat).
    { rewrite !length_app in Hlen. simpl in Hlen. lia. }
    destruct (Nat.leb_spec PLUGINS_PER_TYPE (length pre)) as [?|_]; [lia|].
    assert (Hat : row_of (decoder_map ty c) stream_type !! length pre = Some (Some a)).
    { rewrite Hrow. now rewrite lookup_app_r, Nat.sub_diag by lia. }
    rewrite Hat.
    assert (Hlen' : forall (p' : list (option nat)) r',
               (length p' + length r' = length pre + S (length rest))%nat ->
               length (p' ++ (Some <$> cs) ++ r') = PLUGINS_PER_TYPE).
    { intros p' r' E. rewrite <- Hlen.
      rewrite !length_app, !length_fmap in *. simpl. lia. }
    (* what happens when [a] is taken out of the row *)
    assert (Hremove : forall c1 d1,
      row_of (decoder_map ty c1) stream_type = row_of (decoder_map ty c) stream_type ->
      length (decoder_map ty c1) = length (decoder_map ty c) ->
      (forall b, attempt_of (knows_unavailable ty) load open c1 b = try b) ->
      (forall b d0, pointer_after load open c1 b d0 = ptr b d0) ->
      lookup_frame ty stream_type c c1 ->
      (forall b, node_ref (nodes c1 b) = node_ref (nodes c b)) ->
      d1 = ptr a d ->
      match dispatch try cs with
      | Some (keep, taken) =>
          exists c' d',
            decoder_walk PLUGINS_PER_TYPE load open ty fuel (length pre) stream_type
              (remove_entry PLUGINS_PER_TYPE ty stream_type (length pre) c1) d1
            = Some (c', d')
            /\ row_of (decoder_map ty c') stream_type
               = pre ++ (Some <$> keep) ++ rest
                 ++ replicate (length (a :: cs) - length keep) None
            /\ lookup_frame ty stream_type c c'
            /\ returned_for ptr (a :: cs) taken d d'
            /\ (forall b, node_ref (nodes c' b)
                          = if bool_decide (taken = Some b)
                            then CInt.int32 (node_ref (nodes c b) + 1)
                            else node_ref (nodes c b))
      | None =>
          decoder_walk PLUGINS_PER_TYPE load open ty fuel (length pre) stream_type
            (remove_entry PLUGINS_PER_TYPE ty stream_type (length pre) c1) d1
          = None
      end).
    { intros c1 d1 Hrow1 Hlen1 Htry1 Hptr1 Hframe1 Href1 Hd1.
      unshelve epose proof
        (IH pre (rest ++ [None])
           (remove_entry PLUGINS_PER_TYPE ty stream_type (length pre) c1)
           d1 fuel _ _ _ _ _ _ _) as HIH.
      - apply (row_after_removal ty c1 pre a cs rest);
          [now rewrite Hrow1|exact Hlen|now rewrite Hlen1].
      - apply Hlen'. rewrite length_app. simpl. lia.
      - unfold remove_entry. rewrite decoder_map_set, length_insert. now rewrite Hlen1.
      - now apply live_app_none.
      - intros b. rewrite <- Htry1. now apply attempt_of_nodes.
      - intros b d0. rewrite <- Hptr1. now apply pointer_after_nodes.
      - simpl in Hfuel. lia.
      - destruct (dispatch try cs) as [[keep taken]|] eqn:Hdisp; [|exact HIH].
        destruct HIH as (c' & d' & Hwalk & Hrow' & Hframe' & Hret' & Href').
        pose proof (dispatch_keep_length _ _ _ _ Hdisp) as Hkeep.
        exists c', d'.
        split; [exact Hwalk|]. split.
        { rewrite Hrow'. simpl length.
          replace (S (length cs) - length keep)%nat
            with (S (length cs - length keep)) by lia.
          cbn [replicate]. rewrite <- !app_assoc. reflexivity. }
        split.
        { eapply lookup_frame_trans; [exact Hframe1|].
          eapply lookup_frame_trans; [|exact Hframe'].
          now apply lookup_frame_remove_entry. }
        split.
        { unfold returned_for in *. destruct taken; [exact Hret'|].
          cbn [foldl]. now rewrite <- Hd1. }
        intros b. rewrite Href'. change (nodes (remove_entry _ _ _ _ c1)) with (nodes c1).
        now rewrite Href1. }
    pose proof (Htry a) as Hta. unfold attempt_of in Hta.
    pose proof (Hptr a d) as Hpa. unfold pointer_after in Hpa.
    destruct (if node_plugin_class (nodes c a) then LOAD_CLASS else load a) eqn:Hload.
    + (* the class does not load *)
      rewrite <- Hta.
      apply Hremove; try reflexivity; try assumption.
      apply lookup_frame_refl.
    + (* the class is there *)
      set (c1 := update_node a (set_node_plugin_class true) c).
      assert (Htry1 : forall b, attempt_of (knows_unavailable ty) load open c1 b = try b).
      { intros b. rewrite <- Htry. now apply attempt_of_loaded. }
      assert (Hptr1 : forall b d0, pointer_after load open c1 b d0 = ptr b d0).
      { intros b d0. rewrite <- Hptr. now apply pointer_after_loaded. }
      assert (Hframe1 : lookup_frame ty stream_type c c1)
        by (apply lookup_frame_update_node; reflexivity).
      assert (Href1 : forall b, node_ref (nodes c1 b) = node_ref (nodes c b)).
      { intros b. unfold c1. cbn. destruct (Nat.eqb_spec b a) as [->|]; reflexivity. }
      assert (Hrow1 : row_of (decoder_map ty c1) stream_type
                      = row_of (decoder_map ty c) stream_type)
        by (unfold c1; now rewrite decoder_map_update_node).
      assert (Hlen1 : length (decoder_map ty c1) = length (decoder_map ty c))
        by (unfold c1; now rewrite decoder_map_update_node).
      destruct (open a) eqn:Hopen.
      * (* NULL *)
        replace (match ty with
                 | PLUGIN_INPUT | _ =>
                     decoder_walk PLUGINS_PER_TYPE load open ty fuel (length pre) stream_type
                       (remove_entry PLUGINS_PER_TYPE ty stream_type (length pre) c1)
                       DECODER_NULL
                 end)
          with (decoder_walk PLUGINS_PER_TYPE load open ty fuel (length pre) stream_type
                  (remove_entry PLUGINS_PER_TYPE ty stream_type (length pre) c1)
                  DECODER_NULL) by (now destruct ty).
        rewrite <- Hta.
        apply Hremove; assumption.
      * (* the pointer 1 *)
        assert (Hnext : knows_unavailable ty = true ->
          match dispatch try cs with
          | Some (keep, taken) =>
              exists c' d',
                decoder_walk PLUGINS_PER_TYPE load open ty fuel (S (length pre))
                  stream_type c1 DECODER_ONE
                = Some (c', d')
                /\ row_of (decoder_map ty c') stream_type
                   = pre ++ (Some <$> a :: keep) ++ rest
                     ++ replicate (length (a :: cs) - length (a :: keep)) None
                /\ lookup_frame ty stream_type c c'
                /\ returned_for ptr (a :: cs) taken d d'
                /\ (forall b, node_ref (nodes c' b)
                              = if bool_decide (taken = Some b)
                                then CInt.int32 (node_ref (nodes c b) + 1)
                                else node_ref (nodes c b))
          | None =>
              decoder_walk PLUGINS_PER_TYPE load open ty fuel (S (length pre))
                stream_type c1 DECODER_ONE
              = None
          end).
        { intros _.
          unshelve epose proof
            (IH (pre ++ [Some a]) rest c1 DECODER_ONE fuel _ _ _ _ _ _ _) as HIH.
          - rewrite Hrow1, Hrow. cbn. now rewrite <- app_assoc.
          - apply Hlen'. rewrite length_app. simpl. lia.
          - now rewrite Hlen1.
          - exact Hrest.
          - exact Htry1.
          - exact Hptr1.
          - simpl in Hfuel. lia.
          - rewrite length_app in HIH. cbn [length] in HIH.
            rewrite Nat.add_1_r in HIH.
            destruct (dispatch try cs) as [[keep taken]|]; [|exact HIH].
            destruct HIH as (c' & d' & Hwalk & Hrow' & Hframe' & Hret' & Href').
            exists c', d'.
            split; [exact Hwalk|]. split.
            { rewrite Hrow'. rewrite <- app_assoc. reflexivity. }
            split; [eapply lookup_frame_trans; eassumption|].
            split.
            { unfold returned_for in *. destruct taken; [exact Hret'|].
              cbn [foldl]. now rewrite <- Hpa. }
            intros b. rewrite Href'. now rewrite Href1. }
        destruct ty; try discriminate Hty; cbn [knows_unavailable] in *;
          rewrite <- Hta.
        -- (* audio *)
           specialize (Hnext eq_refl).
           destruct (dispatch try cs) as [[keep taken]|]; exact Hnext.
        -- (* video *)
           specialize (Hnext eq_refl).
           destruct (dispatch try cs) as [[keep taken]|]; exact Hnext.
        -- (* spu: the store through the pointer 1 *)
           reflexivity.
      * (* an instance *)
        replace (match ty with
                 | PLUGIN_INPUT | _ =>
                     Some (update_node a
                             (fun n => set_node_ref (CInt.int32 (node_ref n + 1)) n) c1,
                           DECODER_INSTANCE a)
                 end)
          with (Some (update_node a
                        (fun n => set_node_ref (CInt.int32 (node_ref n + 1)) n) c1,
                      DECODER_INSTANCE a)) by (now destruct ty).
        rewrite <- Hta.
        eexists _, _. split; [reflexivity|].
        split.
        { rewrite decoder_map_update_node, Hrow1, Hrow.
          rewrite Nat.sub_diag. cbn [replicate]. now rewrite app_nil_r. }
        split.
        { eapply lookup_frame_trans; [exact Hframe1|].
          apply lookup_frame_update_node; reflexivity. }
        split; [reflexivity|].
        intros b. cbn. destruct (Nat.eqb_spec b a) as [->|Hne].
        -- rewrite bool_decide_eq_true_2 by reflexivity.
           cbn. now rewrite Nat.eqb_refl.
        -- rewrite bool_decide_eq_false_2 by congruence.
           destruct (Nat.eqb_spec b a); [contradiction|reflexivity].
    + (* the class is still NULL after the load: the call through it *)
      rewrite <- Hta. reflexivity.
Qed.

End Walk.

Lemma live_length row : (length (live row) <= length row)%nat.
Proof.
  induction row as [|[a|] r IH]; simpl; lia.
Qed.

Lemma row_split row :
  row = (Some <$> live row) ++ drop (length (live row)) row
  /\ live (drop (length (live row)) row) = [].
Proof.
  induction row as [|[a|] r [IH1 IH2]]; cbn; try (split; reflexivity).
  split; [f_equal; exact IH1|exact IH2].
Qed.

(** The walk of a getter, started on a full row, in terms of
    [dispatch]. *)
Lemma getter_of_spec
    (load : nat -> load_result) (open : nat -> open_result)
    (ty : plugin_type) (stream_type : nat) (c : plugin_catalog_t) :
  is_decoder ty = true ->
  (stream_type < length (decoder_map ty c))%nat ->
  length (row_of (decoder_map ty c) stream_type) = PLUGINS_PER_TYPE ->
  let row := row_of (decoder_map ty c) stream_type in
  match dispatch (attempt_of (knows_unavailable ty) load open c) (live row) with
  | Some (keep, taken) =>
      exists c' d,
        getter_of PLUGINS_PER_TYPE load open ty stream_type c = Some (c', d)
        /\ row_of (decoder_map ty c') stream_type = row_after row keep
        /\ lookup_frame ty stream_type c c'
        /\ returned_for (pointer_after load open c) (live row) taken DECODER_NULL d
        /\ (forall b, node_ref (nodes c' b)
                      = if bool_decide (taken = Some b)
                        then CInt.int32 (node_ref (nodes c b) + 1)
                        else node_ref (nodes c b))
  | None => getter_of PLUGINS_PER_TYPE load open ty stream_type c = None
  end.
Proof.
  intros Hty Hst Hlen row.
  destruct (row_split row) as [Hsplit Hrest].
  pose proof (live_length row) as Hlive.
  unshelve epose proof
    (decoder_walk_spec load open stream_type ty
       (attempt_of (knows_unavailable ty) load open c)
       (pointer_after load open c) Hty
       (live row) [] (drop (length (live row)) row) c DECODER_NULL
       (S (2 * PLUGINS_PER_TYPE)) _ _ _ _ _ _ _) as Hwalk.
  - exact Hsplit.
  - cbn [app]. rewrite <- Hsplit. exact Hlen.
  - exact Hst.
  - exact Hrest.
  - reflexivity.
  - reflexivity.
  - fold row in Hlen. lia.
  - assert (Hget : getter_of PLUGINS_PER_TYPE load open ty stream_type c
                   = decoder_walk PLUGINS_PER_TYPE load open ty
                       (S (2 * PLUGINS_PER_TYPE)) 0 stream_type c DECODER_NULL)
      by (destruct ty; try discriminate Hty; reflexivity).
    rewrite Hget. exact Hwalk.
Qed.

(** A lookup that comes back, by what [dispatch] says of the
    candidates of its row. *)
Lemma getter_of_returns
    (load : nat -> load_result) (open : nat -> open_result)
    (ty : plugin_type) (stream_type : nat) (c c' : plugin_catalog_t)
    (d : decoder_ptr) :
  is_decoder ty = true ->
  (stream_type < length (decoder_map ty c))%nat ->
  length (row_of (decoder_map ty c) stream_type) = PLUGINS_PER_TYPE ->
  getter_of PLUGINS_PER_TYPE load open ty stream_type c = Some (c', d) ->
  let row := row_of (decoder_map ty c) stream_type in
  exists keep taken,
    dispatch (attempt_of (knows_unavailable ty) load open c) (live row)
    = Some (keep, taken)
    /\ row_of (decoder_map ty c') stream_type = row_after row keep
    /\ lookup_frame ty stream_type c c'
    /\ returned_for (pointer_after load open c) (live row) taken DECODER_NULL d
    /\ (forall b, node_ref (nodes c' b)
                  = if bool_decide (taken = Some b)
                    then CInt.int32 (node_ref (nodes c b) + 1)
                    else node_ref (nodes c b)).
Proof.
  intros Hty Hst Hlen Hget row.
  pose proof (getter_of_spec load open ty stream_type c Hty Hst Hlen) as Hspec.
  cbv zeta in Hspec. fold row in Hspec.
  destruct (dispatch _ (live row)) as [[keep taken]|]; [|congruence].
  destruct Hspec as (c'' & d'' & Hget' & Hrow & Hframe & Hret & Href).
  rewrite Hget in Hget'. injection Hget' as <- <-.
  exists keep, taken. auto.
Qed.

(** C1 (amended).  Each of the three getters walks the candidates of
    [decoder_map[stream_type]] in order.  A candidate whose class fails
    to load or whose [open_plugin] returns [NULL] is taken out of the
    row, the entries behind it move up and the freed slot at the end
    becomes [NULL]; the first candidate that opens ends the walk, its
    node counts one more reference and its instance is returned.  In
    [_x_get_video_decoder] and [_x_get_audio_decoder] a candidate whose
    [open_plugin] returns the pointer 1 stays where it is and the walk
    goes on behind it.  [_x_get_spu_decoder] has no such case: it takes
    the pointer 1 for an instance and stores the node through it, so it
    has no defined behaviour there, and no getter has one on a
    candidate whose class is still [NULL] after a load that reported
    success.  In one statement: when [dispatch] has a result, the
    getter comes back, the row afterwards is [row_after] of the
    candidates that [dispatch] keeps, and the pointer returned is the
    instance of the candidate it takes or, when none opens, the last
    answer of [open_plugin] ([NULL], or the pointer 1 of a candidate
    left for a retry); when [dispatch] has none (the walk comes to a
    candidate on which the getter is lost), the getter has no
    result. *)
Theorem decoder_getters_heal_dispatch
    (load : nat -> load_result) (open : nat -> open_result)
    (ty : plugin_type) (stream_type : nat) (c : plugin_catalog_t) :
  is_decoder ty = true ->
  (stream_type < length (decoder_map ty c))%nat ->
  length (row_of (decoder_map ty c) stream_type) = PLUGINS_PER_TYPE ->
  let row := row_of (decoder_map ty c) stream_type in
  match dispatch (attempt_of (knows_unavailable ty) load open c) (live row) with
  | Some (keep, taken) =>
      exists c' d,
        getter_of PLUGINS_PER_TYPE load open ty stream_type c = Some (c', d)
        /\ row_of (decoder_map ty c') stream_type = row_after row keep
        /\ lookup_frame ty stream_type c c'
        /\ returned_for (pointer_after load open c) (live row) taken DECODER_NULL d
        /\ (forall b, node_ref (nodes c' b)
                      = if bool_decide (taken = Some b)
                        then CInt.int32 (node_ref (nodes c b) + 1)
                        else node_ref (nodes c b))
  | None => getter_of PLUGINS_PER_TYPE load open ty stream_type c = None
  end.
Proof.
  exact (getter_of_spec load open ty stream_type c).
Qed.

End DispatchFacts.

Lemma decoder_getters_heal_dispatch_witness :
  (exists c',
     _x_get_video_decoder 3 (fun _ => LOAD_CLASS) sample_open 1
       (sample_catalog PLUGIN_VIDEO_DECODER)
     = Some (c', DECODER_INSTANCE 2)
     /\ row_of (video_decoder_map c') 1 = [Some 0; Some 2; None]%nat
     /\ node_ref (nodes c' 2%nat) = 1)
  /\ (exists c',
        _x_get_audio_decoder 3 (fun _ => LOAD_CLASS) (fun _ => OPEN_UNAVAILABLE) 1
          (sample_catalog PLUGIN_AUDIO_DECODER)
        = Some (c', DECODER_ONE)
        /\ row_of (audio_decoder_map c') 1 = [Some 0; Some 1; Some 2]%nat)
  /\ (exists c',
        _x_get_spu_decoder 3 (fun a => if Nat.eqb a 0 then LOAD_FAILED else LOAD_CLASS)
          sample_open 1 (sample_catalog PLUGIN_SPU_DECODER)
        = Some (c', DECODER_INSTANCE 2)
        /\ row_of (spu_decoder_map c') 1 = [Some 2; None; None]%nat).
Proof.
  split; [|split].
  - pose proof (decoder_getters_heal_dispatch 3 (fun _ => LOAD_CLASS) sample_open
                  PLUGIN_VIDEO_DECODER 1 (sample_catalog PLUGIN_VIDEO_DECODER)
                  eq_refl) as H.
    cbn in H.
    destruct (H ltac:(lia) eq_refl) as (c' & d & Hget & Hrow & _ & Hret & Href).
    exists c'. subst d. split; [exact Hget|]. split; [exact Hrow|].
    exact (Href 2%nat).
  - pose proof (decoder_getters_heal_dispatch 3 (fun _ => LOAD_CLASS)
                  (fun _ => OPEN_UNAVAILABLE)
                  PLUGIN_AUDIO_DECODER 1 (sample_catalog PLUGIN_AUDIO_DECODER)
                  eq_refl) as H.
    cbn in H.
    destruct (H ltac:(lia) eq_refl) as (c' & d & Hget & Hrow & _ & Hret & _).
    exists c'. subst d. split; [exact Hget|exact Hrow].
  - pose proof (decoder_getters_heal_dispatch 3
                  (fun a => if Nat.eqb a 0 then LOAD_FAILED else LOAD_CLASS)
                  sample_open
                  PLUGIN_SPU_DECODER 1 (sample_catalog PLUGIN_SPU_DECODER)
                  eq_refl) as H.
    cbn in H.
    destruct (H ltac:(lia) eq_refl) as (c' & d & Hget & Hrow & _ & Hret & _).
    exists c'. subst d. split; [exact Hget|exact Hrow].
Defined.

(** C1, as the specification words it, fails for the third getter.
    With node 0 answering the pointer 1 and node 1 answering [NULL],
    the rule of the claim (node 0 stays for a retry, the walk goes on,
    node 1 is removed, node 2 is taken) leaves the row [0; 2; NULL];
    this is what [_x_get_video_decoder] does.  [_x_get_spu_decoder]
    has no branch for the pointer 1: at node 0 it goes into
    [if (sd) { inc_node_ref (node); sd->node = node; ... }] with [sd]
    the pointer 1, and has no result. *)
Lemma spu_getter_has_no_retry :
  let c := sample_catalog PLUGIN_SPU_DECODER in
  row_of (spu_decoder_map c) 1 = [Some 0; Some 1; Some 2]%nat
  /\ sample_open 0 = OPEN_UNAVAILABLE
  /\ dispatch (attempt_of true (fun _ => LOAD_CLASS) sample_open c)
       (live (row_of (spu_decoder_map c) 1))
     = Some ([0; 2]%nat, Some 2%nat)
  /\ (exists c',
        _x_get_video_decoder 3 (fun _ => LOAD_CLASS) sample_open 1
          (sample_catalog PLUGIN_VIDEO_DECODER)
        = Some (c', DECODER_INSTANCE 2)
        /\ row_of (video_decoder_map c') 1 = [Some 0; Some 2; None]%nat)
  /\ _x_get_spu_decoder 3 (fun _ => LOAD_CLASS) sample_open 1 c = None.
Proof.
  split; [reflexivity|]. split; [reflexivity|]. split; [reflexivity|].
  split; [|reflexivity].
  eexists. split; reflexivity.
Qed.

(** ** Building the decoder maps *)

Section MapFacts.

Variable PLUGINS_PER_TYPE : nat.
Variable DECODER_MAX : nat.

Lemma live_lookup_lt row i :
  (i < length (live row))%nat -> row !! i = Some (live row !! i).
Proof.
  revert i. induction row as [|[a|] r IH]; intros i Hi; simpl in *; try lia.
  destruct i as [|i]; [reflexivity|]. simpl. apply IH. lia.
Qed.

Lemma live_lookup_end row :
  row !! length (live row) = None \/ row !! length (live row) = Some None.
Proof.
  induction row as [|[a|] r IH]; simpl; auto.
Qed.

Lemma find_free_live row fuel pos :
  (pos <= length (live row))%nat ->
  find_free fuel pos row = Nat.min (pos + fuel) (length (live row)).
Proof.
  revert pos. induction fuel as [|fuel IH]; intros pos Hpos; simpl; [lia|].
  destruct (decide (pos = length (live row))) as [->|Hne].
  - destruct (live_lookup_end row) as [-> | ->]; lia.
  - rewrite live_lookup_lt by lia.
    destruct (live row !! pos) eqn:E.
    + rewrite IH by lia. lia.
    + apply lookup_ge_None in E. lia.
Qed.

Lemma row_insert_length a row :
  length (row_insert PLUGINS_PER_TYPE a row) = length row.
Proof.
  unfold row_insert. destruct (Nat.eqb _ _); [reflexivity|].
  rewrite length_insert. destruct (_ <? _)%nat; [apply length_insert|reflexivity].
Qed.

(** A row of [PLUGINS_PER_TYPE] slots is its candidates, then [NULL]
    and whatever follows, unless it is full. *)
Lemma row_shape row :
  length row = PLUGINS_PER_TYPE ->
  row = (Some <$> live row)
        ++ (if (length (live row) <? PLUGINS_PER_TYPE)%nat
            then None :: drop (S (length (live row))) row else []).
Proof.
  intros Hlen. destruct (row_split row) as [Hsplit Hrest].
  pose proof (live_length row) as Hle.
  destruct (Nat.ltb_spec (length (live row)) PLUGINS_PER_TYPE) as [Hlt|Hge].
  - rewrite Hsplit at 1. f_equal.
    destruct (drop (length (live row)) row) as [|[x|] t] eqn:E.
    + apply (f_equal length) in E. rewrite length_drop in E. simpl in E. lia.
    + discriminate.
    + f_equal. replace (S (length (live row))) with (length (live row) + 1)%nat by lia.
      rewrite <- drop_drop, E. reflexivity.
  - rewrite Hsplit at 1. f_equal. apply nil_length_inv. rewrite length_drop. lia.
Qed.

Lemma live_closed (l : list nat) (t : list (option nat)) :
  live ((Some <$> l) ++ None :: t) = l.
Proof.
  rewrite live_fmap_app. simpl. apply app_nil_r.
Qed.

Lemma live_full (l : list nat) : live (Some <$> l) = l.
Proof.
  rewrite <- (app_nil_r (Some <$> l)), live_fmap_app. apply app_nil_r.
Qed.

(** The row after a run of insertions. *)
Lemma row_insert_fold row cs :
  length row = PLUGINS_PER_TYPE ->
  foldl (fun r a => row_insert PLUGINS_PER_TYPE a r) row cs
  = (Some <$> take PLUGINS_PER_TYPE (live row ++ cs))
    ++ (if (length (live row) + length cs <? PLUGINS_PER_TYPE)%nat
        then None :: drop (S (length (live row) + length cs)) row else []).
Proof.
  intros Hlen. pose proof (live_length row) as Hle.
  induction cs as [|a cs IH] using rev_ind.
  - simpl. rewrite app_nil_r, Nat.add_0_r.
    rewrite take_ge by lia. now apply row_shape.
  - rewrite foldl_app. cbn [foldl]. rewrite IH. clear IH.
    rewrite length_app. simpl.
    set (m := (length (live row) + length cs)%nat).
    replace (length (live row) + (length cs + 1))%nat with (S m) by lia.
    destruct (Nat.ltb_spec m PLUGINS_PER_TYPE) as [Hlt|Hge].
    + rewrite take_ge by (rewrite length_app; lia).
      unfold row_insert.
      rewrite find_free_live by lia.
      rewrite live_closed. rewrite length_app. fold m.
      replace (Nat.min (0 + PLUGINS_PER_TYPE) m) with m by lia.
      destruct (Nat.eqb_spec m PLUGINS_PER_TYPE) as [?|_]; [lia|].
      assert (Hm : length (Some <$> live row ++ cs) = m)
        by (rewrite length_fmap, length_app; reflexivity).
      destruct (Nat.ltb_spec m (PLUGINS_PER_TYPE - 1)) as [Hlt1|Hge1].
      * destruct (Nat.ltb_spec (S m) PLUGINS_PER_TYPE) as [_|?]; [|lia].
        rewrite (insert_app_r_alt _ _ (S m)) by lia.
        rewrite Hm. replace (S m - m)%nat with 1%nat by lia.
        rewrite (insert_app_r_alt _ _ m) by lia.
        rewrite Hm, Nat.sub_diag.
        rewrite take_ge by (rewrite !length_app; simpl; lia).
        destruct (drop (S m) row) as [|x t] eqn:E.
        -- apply (f_equal length) in E. rewrite length_drop in E. simpl in E. lia.
        -- assert (Et : drop (S (S m)) row = t).
           { replace (S (S m)) with (S m + 1)%nat by lia.
             rewrite <- drop_drop, E. reflexivity. }
           rewrite Et. cbn [insert list_insert].
           rewrite (app_assoc (live row)), (fmap_app _ _ [a]), <- app_assoc.
           reflexivity.
      * destruct (Nat.ltb_spec (S m) PLUGINS_PER_TYPE) as [?|_]; [lia|].
        rewrite (insert_app_r_alt _ _ m) by lia.
        rewrite Hm, Nat.sub_diag.
        rewrite take_ge by (rewrite !length_app; simpl; lia).
        assert (Ed : drop (S m) row = []).
        { apply nil_length_inv. rewrite length_drop. lia. }
        rewrite Ed. cbn [insert list_insert].
        rewrite (app_assoc (live row)), (fmap_app _ _ [a]), <- app_assoc.
        reflexivity.
    + destruct (Nat.ltb_spec (S m) PLUGINS_PER_TYPE) as [?|_]; [lia|].
      rewrite !app_nil_r.
      rewrite app_assoc.
      rewrite (take_app_le (live row ++ cs)) by (rewrite length_app; lia).
      unfold row_insert. rewrite find_free_live by lia.
      rewrite live_full, length_take, length_app. fold m.
      replace (Nat.min (0 + PLUGINS_PER_TYPE) (Nat.min PLUGINS_PER_TYPE m))
        with PLUGINS_PER_TYPE by lia.
      now rewrite Nat.eqb_refl.
Qed.

Lemma clear_heads_fold_length (m : decoder_map_t) n :
  length (foldl (fun m i => <[i := <[0%nat := None]> (row_of m i)]> m) m (seq 0 n))
  = length m.
Proof.
  induction n as [|n IH]; [reflexivity|].
  rewrite seq_S, foldl_app. cbn [foldl]. now rewrite length_insert.
Qed.

Lemma clear_heads_fold_row (m : decoder_map_t) n st :
  row_of (foldl (fun m i => <[i := <[0%nat := None]> (row_of m i)]> m) m (seq 0 n)) st
  = if (st <? n)%nat then <[0%nat := None]> (row_of m st) else row_of m st.
Proof.
  induction n as [|n IH]; [reflexivity|].
  rewrite seq_S, foldl_app. cbn [foldl]. cbn [Nat.add].
  set (prev := foldl _ m (seq 0 n)) in *.
  destruct (decide (st = n)) as [->|Hne].
  - destruct (Nat.ltb_spec n (S n)) as [_|?]; [|lia].
    destruct (Nat.ltb_spec n n) as [?|_]; [lia|].
    destruct (decide (n < length prev)%nat) as [Hin|Hout].
    + rewrite row_of_insert_eq by exact Hin. now rewrite IH.
    + unfold row_of at 1. rewrite list_insert_ge by lia.
      fold (row_of prev n). rewrite IH.
      unfold row_of. rewrite lookup_ge_None_2; [reflexivity|].
      unfold prev in Hout. rewrite clear_heads_fold_length in Hout. lia.
  - rewrite row_of_insert_ne by congruence. rewrite IH.
    destruct (Nat.ltb_spec st n), (Nat.ltb_spec st (S n)); try reflexivity; lia.
Qed.

Lemma clear_heads_length (m : decoder_map_t) :
  length (clear_heads DECODER_MAX m) = length m.
Proof. apply clear_heads_fold_length. Qed.

Lemma clear_heads_row (m : decoder_map_t) st :
  (st < DECODER_MAX)%nat ->
  row_of (clear_heads DECODER_MAX m) st = <[0%nat := None]> (row_of m st).
Proof.
  intros Hst. unfold clear_heads. rewrite clear_heads_fold_row.
  destruct (Nat.ltb_spec st DECODER_MAX); [reflexivity|lia].
Qed.

Lemma map_decoder_length a st (m : decoder_map_t) :
  length (map_decoder PLUGINS_PER_TYPE a st m) = length m.
Proof.
  unfold map_decoder. destruct (Nat.eqb _ _); [reflexivity|apply length_insert].
Qed.

Lemma map_decoder_row a st (m : decoder_map_t) st' :
  row_of (map_decoder PLUGINS_PER_TYPE a st m) st'
  = if decide (st' = st) then row_insert PLUGINS_PER_TYPE a (row_of m st)
    else row_of m st'.
Proof.
  unfold map_decoder, row_insert.
  destruct (Nat.eqb (find_free PLUGINS_PER_TYPE 0 (row_of m st)) PLUGINS_PER_TYPE) eqn:E.
  - destruct (decide (st' = st)) as [->|]; reflexivity.
  - destruct (decide (st' = st)) as [->|Hne].
    + destruct (decide (st < length m)%nat) as [Hin|Hout].
      * now rewrite row_of_insert_eq.
      * unfold row_of at 1. rewrite list_insert_ge by lia.
        fold (row_of m st).
        assert (Hnil : row_of m st = []).
        { unfold row_of. now rewrite lookup_ge_None_2 by lia. }
        rewrite Hnil. destruct (_ <? _)%nat; reflexivity.
    + now rewrite row_of_insert_ne by congruence.
Qed.

Lemma map_supported_types_length a types (m : decoder_map_t) :
  length (map_supported_types PLUGINS_PER_TYPE a types m) = length m.
Proof.
  revert m. induction types as [|t rest IH]; intros m; simpl; [reflexivity|].
  destruct (t =? 0); [reflexivity|]. rewrite IH. apply map_decoder_length.
Qed.

Lemma map_supported_types_row a types (m : decoder_map_t) st :
  row_of (map_supported_types PLUGINS_PER_TYPE a types m) st
  = foldl (fun r b => row_insert PLUGINS_PER_TYPE b r) (row_of m st)
      ((fun _ => a) <$> filter (fun t => stream_type_of t = st) (types_until_zero types)).
Proof.
  revert m. induction types as [|t rest IH]; intros m; simpl; [reflexivity|].
  destruct (t =? 0); [reflexivity|].
  rewrite IH, map_decoder_row, filter_cons.
  destruct (decide (st = stream_type_of t)) as [->|Hne].
  - rewrite decide_True by reflexivity. reflexivity.
  - rewrite decide_False by congruence. reflexivity.
Qed.

Lemma map_nodes_fold_length nd l (m : decoder_map_t) :
  length (foldl (fun m node =>
                   map_supported_types PLUGINS_PER_TYPE node
                     (ainfo_supported_types (nd node)) m) m l)
  = length m.
Proof.
  revert m. induction l as [|a l IH]; intros m; simpl; [reflexivity|].
  rewrite IH. apply map_supported_types_length.
Qed.

Lemma map_nodes_fold_row nd l (m : decoder_map_t) st :
  row_of (foldl (fun m node =>
                   map_supported_types PLUGINS_PER_TYPE node
                     (ainfo_supported_types (nd node)) m) m l) st
  = foldl (fun r b => row_insert PLUGINS_PER_TYPE b r) (row_of m st)
      (candidates nd l st).
Proof.
  revert m. induction l as [|a l IH]; intros m; [reflexivity|].
  cbn [foldl]. rewrite IH. unfold candidates. cbn [mbind list_bind].
  rewrite foldl_app. f_equal. apply map_supported_types_row.
Qed.

Lemma map_decoder_list_length nd l (m : decoder_map_t) :
  length (map_decoder_list PLUGINS_PER_TYPE DECODER_MAX nd l m) = length m.
Proof.
  unfold map_decoder_list. rewrite map_nodes_fold_length. apply clear_heads_length.
Qed.

(** A row after [map_decoder_list]: the first [PLUGINS_PER_TYPE]
    candidates of the list, then [NULL], then what the old row held
    behind that. *)
Lemma map_decoder_list_row nd l (m : decoder_map_t) st :
  (st < DECODER_MAX)%nat ->
  length (row_of m st) = PLUGINS_PER_TYPE ->
  row_of (map_decoder_list PLUGINS_PER_TYPE DECODER_MAX nd l m) st
  = (Some <$> take PLUGINS_PER_TYPE (candidates nd l st))
    ++ (if (length (candidates nd l st) <? PLUGINS_PER_TYPE)%nat
        then None :: drop (S (length (candidates nd l st))) (row_of m st) else []).
Proof.
  intros Hst Hlen. unfold map_decoder_list.
  rewrite map_nodes_fold_row, clear_heads_row by exact Hst.
  rewrite row_insert_fold by (now rewrite length_insert).
  assert (Hlive : live (<[0%nat := None]> (row_of m st)) = [])
    by (destruct (row_of m st); reflexivity).
  rewrite Hlive. cbn [app length Nat.add].
  destruct (_ <? _)%nat; [|reflexivity].
  do 2 f_equal. destruct (row_of m st); reflexivity.
Qed.

End MapFacts.

(** ** Sorted lists of nodes *)

Section SortedFacts.

Lemma falling_ext nd nd' l :
  (forall a, a ∈ l -> node_priority (nd' a) = node_priority (nd a)) ->
  falling nd l -> falling nd' l.
Proof.
  unfold falling. induction l as [|x l IH]; intros Hext Hs; [constructor|].
  apply StronglySorted_cons in Hs as [Hall Hs].
  apply StronglySorted_cons. split.
  - rewrite Forall_forall in *. intros y Hy.
    rewrite (Hext x), (Hext y) by (apply elem_of_cons; auto). now apply Hall.
  - apply IH; [|exact Hs]. intros a Ha. apply Hext. apply elem_of_cons. auto.
Qed.

Lemma falling_sublist nd l1 l2 : sublist l1 l2 -> falling nd l2 -> falling nd l1.
Proof.
  unfold falling. induction 1 as [|x l1 l2 Hsub IH|x l1 l2 Hsub IH]; intros Hs.
  - constructor.
  - apply StronglySorted_cons in Hs as [Hall Hs].
    apply StronglySorted_cons. split; [|now apply IH].
    rewrite Forall_forall in *. intros y Hy. apply Hall.
    eapply sublist_subseteq; eassumption.
  - apply StronglySorted_cons in Hs as [_ Hs]. now apply IH.
Qed.

Lemma falling_adjacent nd l i a b :
  falling nd l -> l !! i = Some a -> l !! S i = Some b ->
  node_priority (nd a) >= node_priority (nd b).
Proof.
  unfold falling. revert i. induction l as [|x l IH]; intros i Hs Ha Hb; [discriminate|].
  apply StronglySorted_cons in Hs as [Hall Hs].
  destruct i as [|i].
  - injection Ha as ->. rewrite Forall_forall in Hall. apply Hall.
    apply list_elem_of_lookup. exists 0%nat. exact Hb.
  - eapply IH; eassumption.
Qed.

Lemma node_slots_elem nd st a b : b ∈ node_slots nd st a -> b = a.
Proof.
  unfold node_slots. intros Hb. apply list_elem_of_fmap in Hb as (t & -> & _).
  reflexivity.
Qed.

Lemma candidates_elem nd l st b : b ∈ candidates nd l st -> b ∈ l.
Proof.
  unfold candidates. intros Hb. apply list_elem_of_bind in Hb as (a & Hb & Ha).
  apply node_slots_elem in Hb. now subst.
Qed.

Lemma falling_constant nd (a : nat) (l : list nat) :
  (forall b, b ∈ l -> b = a) -> falling nd l.
Proof.
  unfold falling. induction l as [|y t IH]; intros Hall; [constructor|].
  apply StronglySorted_cons. split.
  - rewrite Forall_forall. intros z Hz.
    rewrite (Hall y), (Hall z) by (apply elem_of_cons; auto). lia.
  - apply IH. intros b Hb. apply Hall. apply elem_of_cons. auto.
Qed.

Lemma falling_candidates nd l st :
  falling nd l -> falling nd (candidates nd l st).
Proof.
  unfold candidates. induction l as [|x l IH]; intros Hs; [constructor|].
  apply StronglySorted_cons in Hs as [Hall Hs].
  rewrite bind_cons. apply StronglySorted_app_2.
  - intros x1 x2 H1 H2. apply node_slots_elem in H1. subst x1.
    rewrite Forall_forall in Hall. apply Hall.
    eapply candidates_elem. exact H2.
  - apply (falling_constant nd x). intros b Hb. eapply node_slots_elem, Hb.
  - now apply IH.
Qed.

Lemma candidates_ext nd nd' l st :
  (forall a, ainfo_supported_types (nd' a) = ainfo_supported_types (nd a)) ->
  candidates nd' l st = candidates nd l st.
Proof.
  intros Hext. unfold candidates. induction l as [|x l IH]; [reflexivity|].
  rewrite !bind_cons, IH. f_equal. unfold node_slots. now rewrite Hext.
Qed.

Lemma candidates_length_perm nd l l' st :
  l ≡ₚ l' -> length (candidates nd l st) = length (candidates nd l' st).
Proof.
  intros Hp. apply Permutation_length. unfold candidates. now rewrite Hp.
Qed.

(** *** The sorted array *)

Lemma sarray_add_perm cmp l x : xine_sarray_add cmp l x ≡ₚ x :: l.
Proof.
  induction l as [|e t IH]; simpl; [reflexivity|].
  destruct (cmp x e <? 0); [reflexivity|].
  rewrite IH. apply Permutation_swap.
Qed.

Lemma comparator_negative nd x e :
  _plugin_node_comparator nd x e < 0
  <-> node_priority (nd x) > node_priority (nd e).
Proof.
  unfold _plugin_node_comparator.
  destruct (Z.ltb_spec (node_priority (nd x)) (node_priority (nd e)));
    destruct (Z.gtb_spec (node_priority (nd x)) (node_priority (nd e)));
    simpl; lia.
Qed.

Lemma sarray_add_falling nd l x :
  falling nd l -> falling nd (xine_sarray_add (_plugin_node_comparator nd) l x).
Proof.
  unfold falling. induction l as [|e t IH]; intros Hs; simpl.
  - repeat constructor.
  - apply StronglySorted_cons in Hs as [Hall Hs].
    destruct (Z.ltb_spec (_plugin_node_comparator nd x e) 0) as [Hlt|Hge].
    + apply comparator_negative in Hlt.
      apply StronglySorted_cons. split.
      * constructor; [lia|].
        rewrite Forall_forall in *. intros y Hy. specialize (Hall y Hy). lia.
      * apply StronglySorted_cons. now split.
    + assert (Hle : node_priority (nd e) >= node_priority (nd x)).
      { destruct (Z.gt_dec (node_priority (nd x)) (node_priority (nd e))) as [Hgt|]; [|lia].
        apply comparator_negative in Hgt. lia. }
      apply StronglySorted_cons. split; [|now apply IH].
      rewrite (sarray_add_perm _ t x). constructor; assumption.
Qed.

Lemma sarray_remove_perm l x l' :
  xine_sarray_remove_ptr l x = Some l' -> l ≡ₚ x :: l'.
Proof.
  revert l'. induction l as [|e t IH]; intros l'; simpl; [discriminate|].
  destruct (Nat.eqb_spec e x) as [->|Hne].
  - now intros [= ->].
  - destruct (xine_sarray_remove_ptr t x) as [t'|]; [|discriminate].
    intros [= <-]. rewrite (IH t' eq_refl). apply Permutation_swap.
Qed.

Lemma sarray_remove_sublist l x l' :
  xine_sarray_remove_ptr l x = Some l' -> sublist l' l.
Proof.
  revert l'. induction l as [|e t IH]; intros l'; simpl; [discriminate|].
  destruct (Nat.eqb_spec e x) as [->|Hne].
  - intros [= ->]. now constructor.
  - destruct (xine_sarray_remove_ptr t x) as [t'|]; [|discriminate].
    intros [= <-]. constructor. now apply IH.
Qed.

End SortedFacts.

(** ** The catalog invariant *)

Section InvariantFacts.

Variable PLUGINS_PER_TYPE : nat.
Variable DECODER_MAX : nat.

Lemma live_of_closed (l : list nat) (k : nat) :
  live ((Some <$> l) ++ replicate k None) = l.
Proof.
  destruct k as [|k]; simpl.
  - rewrite app_nil_r. apply live_full.
  - apply live_closed.
Qed.

(** A rebuilt row, when the old one was closed and no longer than the
    new candidates. *)
Lemma rebuilt_row_closed nd l (m : decoder_map_t) st :
  (st < DECODER_MAX)%nat ->
  length (row_of m st) = PLUGINS_PER_TYPE ->
  row_of m st = (Some <$> live (row_of m st))
                ++ replicate (PLUGINS_PER_TYPE - length (live (row_of m st))) None ->
  (length (live (row_of m st)) <= length (candidates nd l st))%nat ->
  row_of (map_decoder_list PLUGINS_PER_TYPE DECODER_MAX nd l m) st
  = (Some <$> take PLUGINS_PER_TYPE (candidates nd l st))
    ++ replicate (PLUGINS_PER_TYPE
                  - length (take PLUGINS_PER_TYPE (candidates nd l st))) None.
Proof.
  intros Hst Hlen Hclosed Hle.
  rewrite (map_decoder_list_row PLUGINS_PER_TYPE DECODER_MAX nd l m st Hst Hlen).
  set (cands := candidates nd l st) in *.
  set (old := row_of m st) in *.
  f_equal. rewrite length_take.
  destruct (Nat.ltb_spec (length cands) PLUGINS_PER_TYPE) as [Hlt|Hge].
  - replace (PLUGINS_PER_TYPE - PLUGINS_PER_TYPE `min` length cands)%nat
      with (S (PLUGINS_PER_TYPE - S (length cands))) by lia.
    cbn [replicate]. f_equal.
    rewrite Hclosed.
    rewrite drop_app_ge by (rewrite length_fmap; lia).
    rewrite length_fmap, drop_replicate. f_equal. lia.
  - replace (PLUGINS_PER_TYPE - PLUGINS_PER_TYPE `min` length cands)%nat
      with 0%nat by lia.
    reflexivity.
Qed.

(** The rows of a rebuilt map. *)
Lemma rebuilt_rows_ok nd l (m : decoder_map_t) st :
  (st < DECODER_MAX)%nat ->
  length (row_of m st) = PLUGINS_PER_TYPE ->
  row_of m st = (Some <$> live (row_of m st))
                ++ replicate (PLUGINS_PER_TYPE - length (live (row_of m st))) None ->
  (length (live (row_of m st)) <= length (candidates nd l st))%nat ->
  let row := row_of (map_decoder_list PLUGINS_PER_TYPE DECODER_MAX nd l m) st in
  length row = PLUGINS_PER_TYPE
  /\ row = (Some <$> live row) ++ replicate (PLUGINS_PER_TYPE - length (live row)) None
  /\ sublist (live row) (candidates nd l st).
Proof.
  intros Hst Hlen Hclosed Hle row.
  pose proof (rebuilt_row_closed nd l m st Hst Hlen Hclosed Hle) as Hrow.
  fold row in Hrow.
  assert (Hlive : live row = take PLUGINS_PER_TYPE (candidates nd l st))
    by (rewrite Hrow; apply live_of_closed).
  split; [|split].
  - rewrite Hrow, length_app, length_fmap, length_replicate, length_take. lia.
  - rewrite Hlive. exact Hrow.
  - rewrite Hlive. apply sublist_take.
Qed.

Lemma row_of_zeroed st :
  (st < DECODER_MAX)%nat ->
  row_of (replicate DECODER_MAX (replicate PLUGINS_PER_TYPE None)) st
  = replicate PLUGINS_PER_TYPE (None : option nat).
Proof.
  intros Hst. unfold row_of. now rewrite lookup_replicate_2.
Qed.

Lemma live_zeroed k : live (replicate k None) = [].
Proof. destruct k; reflexivity. Qed.

(** Each map after [map_decoders] is its own list mapped over what the
    map was. *)
Lemma decoder_map_map_decoders c ty :
  is_decoder ty = true ->
  decoder_map ty (map_decoders PLUGINS_PER_TYPE DECODER_MAX c)
  = map_decoder_list PLUGINS_PER_TYPE DECODER_MAX (nodes c) (plugin_lists c ty)
      (decoder_map ty c).
Proof. destruct ty; try discriminate; reflexivity. Qed.

Lemma map_decoders_ok c ty :
  scanned PLUGINS_PER_TYPE DECODER_MAX c ->
  is_decoder ty = true ->
  map_ok PLUGINS_PER_TYPE DECODER_MAX
    (map_decoders PLUGINS_PER_TYPE DECODER_MAX c) ty.
Proof.
  intros [Hfall Hnodup Htyped Hmaps] Hty.
  assert (Hrows : forall st, (st < DECODER_MAX)%nat ->
            let row := row_of (decoder_map ty (map_decoders PLUGINS_PER_TYPE DECODER_MAX c)) st in
            length row = PLUGINS_PER_TYPE
            /\ row = (Some <$> live row)
                     ++ replicate (PLUGINS_PER_TYPE - length (live row)) None
            /\ sublist (live row) (candidates (nodes c) (plugin_lists c ty) st)).
  { intros st Hst. rewrite decoder_map_map_decoders by exact Hty.
    rewrite (Hmaps ty Hty).
    apply rebuilt_rows_ok; try exact Hst; rewrite row_of_zeroed by exact Hst.
    - apply length_replicate.
    - rewrite live_zeroed. cbn. now rewrite Nat.sub_0_r.
    - rewrite live_zeroed. simpl. lia. }
  split.
  - exact (Hfall ty Hty).
  - exact (Hnodup ty Hty).
  - intros a Ha. exact (Htyped ty a Hty Ha).
  - rewrite decoder_map_map_decoders, map_decoder_list_length, (Hmaps ty Hty) by exact Hty.
    apply length_replicate.
  - intros st Hst. apply (Hrows st Hst).
  - intros st Hst. apply (Hrows st Hst).
  - intros st Hst. apply (Hrows st Hst).
Qed.

(** The invariant gives the ordering of the claim. *)
Lemma map_ok_ordered c :
  (forall ty, is_decoder ty = true -> map_ok PLUGINS_PER_TYPE DECODER_MAX c ty) ->
  priority_ordered DECODER_MAX c.
Proof.
  intros Hok ty st i a b Hty Hst Ha Hb.
  destruct (Hok ty Hty) as [Hfall _ _ _ _ Hclosed Hsub].
  specialize (Hclosed st Hst). specialize (Hsub st Hst).
  set (row := row_of (decoder_map ty c) st) in *.
  assert (Hin : forall j x, row !! j = Some (Some x) -> live row !! j = Some x).
  { intros j x Hj. rewrite Hclosed in Hj.
    destruct (decide (j < length (live row))%nat) as [Hlt|Hge].
    - rewrite lookup_app_l in Hj by (now rewrite length_fmap).
      rewrite list_lookup_fmap in Hj.
      destruct (live row !! j); simpl in Hj; congruence.
    - rewrite lookup_app_r in Hj by (rewrite length_fmap; lia).
      apply lookup_replicate in Hj as [? _]. discriminate. }
  apply (falling_adjacent (nodes c) (live row) i a b); auto.
  eapply falling_sublist; [exact Hsub|].
  now apply falling_candidates.
Qed.

Lemma decoder_map_set_plugin_list ty ty' l c :
  decoder_map ty (set_plugin_list ty' l c) = decoder_map ty c.
Proof. destruct ty; reflexivity. Qed.

Lemma list_comparator_decoder ty :
  is_decoder ty = true -> list_comparator ty = _plugin_node_comparator.
Proof. destruct ty; try discriminate; reflexivity. Qed.

(** The invariant carries over to a catalog that differs by what a
    lookup may touch, as long as the rows are still fine. *)
Lemma map_ok_frame c c' ty :
  map_ok PLUGINS_PER_TYPE DECODER_MAX c ty ->
  (forall ty', plugin_lists c' ty' = plugin_lists c ty') ->
  (forall a, node_priority (nodes c' a) = node_priority (nodes c a)) ->
  (forall a, node_type (nodes c' a) = node_type (nodes c a)) ->
  (forall a, ainfo_supported_types (nodes c' a) = ainfo_supported_types (nodes c a)) ->
  length (decoder_map ty c') = length (decoder_map ty c) ->
  (forall st, (st < DECODER_MAX)%nat ->
     let row' := row_of (decoder_map ty c') st in
     length row' = PLUGINS_PER_TYPE
     /\ row' = (Some <$> live row') ++ replicate (PLUGINS_PER_TYPE - length (live row')) None
     /\ sublist (live row') (live (row_of (decoder_map ty c) st))) ->
  map_ok PLUGINS_PER_TYPE DECODER_MAX c' ty.
Proof.
  intros [Hfall Hnodup Htyped Hmlen Hrlen Hclosed Hsub] Hl Hp Ht Hs Hlen Hrows.
  split.
  - rewrite Hl. eapply falling_ext; [|exact Hfall]. intros a _. apply Hp.
  - now rewrite Hl.
  - intros a Ha. rewrite Hl in Ha. rewrite Ht. now apply Htyped.
  - now rewrite Hlen.
  - intros st Hst. apply (Hrows st Hst).
  - intros st Hst. apply (Hrows st Hst).
  - intros st Hst. rewrite Hl.
    rewrite (candidates_ext (nodes c) (nodes c')) by exact Hs.
    etransitivity; [apply (Hrows st Hst)|]. now apply Hsub.
Qed.

Lemma lookup_ok c ty stream_type load open c' d :
  (forall ty', is_decoder ty' = true -> map_ok PLUGINS_PER_TYPE DECODER_MAX c ty') ->
  is_decoder ty = true ->
  (stream_type < DECODER_MAX)%nat ->
  getter_of PLUGINS_PER_TYPE load open ty stream_type c = Some (c', d) ->
  forall ty', is_decoder ty' = true -> map_ok PLUGINS_PER_TYPE DECODER_MAX c' ty'.
Proof.
  intros Hok Hty Hst Hget ty' Hty'.
  pose proof (Hok ty Hty) as Hokty.
  destruct (getter_of_returns PLUGINS_PER_TYPE load open ty stream_type c c' d Hty)
    as (keep & taken & Hdisp & Hrow & Hframe & _).
  { rewrite (ok_map_length _ _ _ _ Hokty). exact Hst. }
  { apply (ok_row_length _ _ _ _ Hokty). exact Hst. }
  { exact Hget. }
  destruct Hframe as [Fl Fp Ft Fs Frows Fmaps Flen].
  destruct (decide (ty' = ty)) as [->|Hne].
  - apply (map_ok_frame c c' ty Hokty Fl Fp Ft Fs Flen).
    intros st Hst'.
    destruct (decide (st = stream_type)) as [->|Hne].
    + set (row := row_of (decoder_map ty c) stream_type) in *.
      pose proof (dispatch_keep_length _ _ _ _ Hdisp) as Hkeep. fold row in Hkeep.
      pose proof (ok_row_length _ _ _ _ Hokty stream_type Hst) as Hrlen. fold row in Hrlen.
      pose proof (ok_row_closed _ _ _ _ Hokty stream_type Hst) as Hclosed. fold row in Hclosed.
      pose proof (live_length row) as Hlive.
      assert (Hrow' : row_of (decoder_map ty c') stream_type
                      = (Some <$> keep) ++ replicate (PLUGINS_PER_TYPE - length keep) None).
      { rewrite Hrow. unfold row_after. f_equal.
        rewrite Hclosed at 2.
        rewrite drop_app_length' by (now rewrite length_fmap).
        rewrite <- replicate_add. f_equal. lia. }
      assert (Hlive' : live (row_of (decoder_map ty c') stream_type) = keep)
        by (rewrite Hrow'; apply live_of_closed).
      cbv zeta. rewrite Hlive'. split; [|split].
      * rewrite Hrow', length_app, length_fmap, length_replicate. lia.
      * exact Hrow'.
      * eapply dispatch_keep_sublist. exact Hdisp.
    + cbv zeta. rewrite (Frows st Hne). split; [|split].
      * apply (ok_row_length _ _ _ _ Hokty st Hst').
      * apply (ok_row_closed _ _ _ _ Hokty st Hst').
      * reflexivity.
  - pose proof (Fmaps ty' Hty' Hne) as Hmap.
    apply (map_ok_frame c c' ty' (Hok ty' Hty') Fl Fp Ft Fs).
    + now rewrite Hmap.
    + intros st Hst'. cbv zeta. rewrite Hmap. split; [|split].
      * apply (ok_row_length _ _ _ _ (Hok ty' Hty') st Hst').
      * apply (ok_row_closed _ _ _ _ (Hok ty' Hty') st Hst').
      * reflexivity.
Qed.

Lemma priority_cb_ok c a num_value :
  (forall ty, is_decoder ty = true -> map_ok PLUGINS_PER_TYPE DECODER_MAX c ty) ->
  is_decoder (node_type (nodes c a)) = true ->
  forall ty, is_decoder ty = true ->
    map_ok PLUGINS_PER_TYPE DECODER_MAX
      (_decoder_priority_cb PLUGINS_PER_TYPE DECODER_MAX (Some a) num_value c) ty.
Proof.
  intros Hok Ha ty Hty. unfold _decoder_priority_cb.
  set (T := node_type (nodes c a)) in *.
  destruct (xine_sarray_remove_ptr (plugin_lists c T) a) as [l'|] eqn:Hrem;
    [|now apply Hok].
  pose proof (Hok T Ha) as [HfallT HnodupT HtypedT HmlenT HrlenT HclosedT HsubT].
  pose proof (sarray_remove_perm _ _ _ Hrem) as Hperm.
  pose proof (sarray_remove_sublist _ _ _ Hrem) as Hsubl.
  assert (Hnotin : a ∉ l').
  { rewrite Hperm in HnodupT. now apply NoDup_cons in HnodupT as [? _]. }
  set (c1 := update_node a
               (fun n => set_node_priority
                           (decoder_priority num_value (ainfo_priority n)) n) c).
  assert (Hprio : forall b, b <> a ->
            node_priority (nodes c1 b) = node_priority (nodes c b)).
  { intros b Hb. cbn. destruct (Nat.eqb_spec b a); [contradiction|reflexivity]. }
  assert (Htype : forall b, node_type (nodes c1 b) = node_type (nodes c b)).
  { intros b. cbn. destruct (Nat.eqb_spec b a) as [->|]; reflexivity. }
  assert (Hsupp : forall b, ainfo_supported_types (nodes c1 b)
                            = ainfo_supported_types (nodes c b)).
  { intros b. cbn. destruct (Nat.eqb_spec b a) as [->|]; reflexivity. }
  rewrite (list_comparator_decoder T Ha).
  set (l'' := xine_sarray_add (_plugin_node_comparator (nodes c1)) l' a).
  assert (Hperm'' : l'' ≡ₚ plugin_lists c T).
  { unfold l''. rewrite sarray_add_perm. now symmetry. }
  destruct (decide (ty = T)) as [->|Hne].
  - (* the map of the node's own type is rebuilt *)
    assert (Hrows : forall st, (st < DECODER_MAX)%nat ->
      let row := row_of (map_decoder_list PLUGINS_PER_TYPE DECODER_MAX (nodes c1) l''
                           (decoder_map T c)) st in
      length row = PLUGINS_PER_TYPE
      /\ row = (Some <$> live row) ++ replicate (PLUGINS_PER_TYPE - length (live row)) None
      /\ sublist (live row) (candidates (nodes c1) l'' st)).
    { intros st Hst. apply rebuilt_rows_ok; auto.
      rewrite (candidates_length_perm _ _ _ st Hperm'').
      rewrite (candidates_ext (nodes c) (nodes c1)) by exact Hsupp.
      apply sublist_length, HsubT, Hst. }
    split.
    + cbn. rewrite decide_True by reflexivity.
      apply sarray_add_falling.
      apply (falling_ext (nodes c)).
      * intros b Hb. apply Hprio. intros ->. contradiction.
      * eapply falling_sublist; eassumption.
    + cbn. rewrite decide_True by reflexivity. now rewrite Hperm''.
    + cbn [plugin_lists set_decoder_map set_plugin_list].
      rewrite decide_True by reflexivity. intros b Hb.
      change (node_type (nodes c1 b) = T). rewrite Htype.
      apply HtypedT. now rewrite <- Hperm''.
    + rewrite decoder_map_set, decoder_map_set_plugin_list.
      unfold c1. rewrite decoder_map_update_node.
      now rewrite map_decoder_list_length.
    + intros st Hst. rewrite decoder_map_set, decoder_map_set_plugin_list.
      unfold c1 at 2. rewrite decoder_map_update_node. apply (Hrows st Hst).
    + intros st Hst. rewrite decoder_map_set, decoder_map_set_plugin_list.
      unfold c1 at 2 4 6. rewrite decoder_map_update_node. apply (Hrows st Hst).
    + intros st Hst. rewrite decoder_map_set, decoder_map_set_plugin_list.
      unfold c1 at 2. rewrite decoder_map_update_node.
      cbn [plugin_lists set_decoder_map set_plugin_list nodes].
      rewrite decide_True by reflexivity. apply (Hrows st Hst).
  - (* the other maps and lists stay *)
    pose proof (Hok ty Hty) as Hokty.
    assert (Hother : forall b, b ∈ plugin_lists c ty -> b <> a).
    { intros b Hb ->. apply Hne. symmetry. now apply (ok_typed _ _ _ _ Hokty). }
    assert (Hmap : decoder_map ty
                     (set_decoder_map T
                        (map_decoder_list PLUGINS_PER_TYPE DECODER_MAX
                           (nodes (set_plugin_list T l'' c1)) l''
                           (decoder_map T (set_plugin_list T l'' c1)))
                        (set_plugin_list T l'' c1))
                   = decoder_map ty c).
    { rewrite decoder_map_set_other by assumption.
      rewrite decoder_map_set_plugin_list. unfold c1.
      apply decoder_map_update_node. }
    destruct Hokty as [Hfall Hnodup Htyped Hmlen Hrlen Hclosed Hsub].
    split.
    + cbn. rewrite decide_False by exact Hne.
      apply (falling_ext (nodes c)); [|exact Hfall].
      intros b Hb. apply Hprio. now apply Hother.
    + cbn. now rewrite decide_False by exact Hne.
    + cbn [plugin_lists set_decoder_map set_plugin_list].
      rewrite decide_False by exact Hne. intros b Hb.
      change (node_type (nodes c1 b) = ty). rewrite Htype. now apply Htyped.
    + now rewrite Hmap.
    + intros st Hst. rewrite Hmap. now apply Hrlen.
    + intros st Hst. rewrite Hmap. now apply Hclosed.
    + intros st Hst. rewrite Hmap.
      cbn [plugin_lists set_decoder_map set_plugin_list nodes].
      rewrite decide_False by exact Hne.
      rewrite (candidates_ext (nodes c) _) by exact Hsupp. now apply Hsub.
Qed.

(** Every reachable catalog is well-formed at the three decoder
    types. *)
Lemma reachable_ok c :
  reachable PLUGINS_PER_TYPE DECODER_MAX c ->
  forall ty, is_decoder ty = true -> map_ok PLUGINS_PER_TYPE DECODER_MAX c ty.
Proof.
  induction 1 as [c Hscan|c a v Hreach IH Ha|c ty st load open c' d Hreach IH Hty Hst Hget].
  - intros ty Hty. now apply map_decoders_ok.
  - now apply priority_cb_ok.
  - eapply lookup_ok; eassumption.
Qed.

(** C2.  In every catalog the engine can reach (the scan followed by
    the initial [map_decoders], then any number of priority callbacks
    of decoder nodes and of decoder lookups), for every decoder type,
    every stream type [st] below [DECODER_MAX] and every index [i]:
    when [decoder_map[st][i]] and [decoder_map[st][i+1]] are both
    there, the priority of the first is at least that of the second.
    In particular the ordering holds after the initial mapping pass and
    again after each [_decoder_priority_cb], which takes the node out
    of its list, recomputes its priority, adds it back and rebuilds the
    map of its type. *)
Theorem decoder_map_priority_ordered (c : plugin_catalog_t) :
  reachable PLUGINS_PER_TYPE DECODER_MAX c -> priority_ordered DECODER_MAX c.
Proof.
  intros Hreach. apply map_ok_ordered. now apply reachable_ok.
Qed.

End InvariantFacts.

Lemma sample_scan_scanned : scanned 3 2 (sample_scan PLUGIN_VIDEO_DECODER).
Proof.
  split.
  - intros ty _.
    assert (Hf : falling (nodes (sample_scan PLUGIN_VIDEO_DECODER)) [0; 1; 2]%nat).
    { unfold falling.
      repeat constructor; vm_compute; discriminate. }
    destruct ty; first [exact Hf | apply SSorted_nil].
  - intros ty _.
    assert (Hn : NoDup [0; 1; 2]%nat)
      by exact (bool_decide_unpack (NoDup [0; 1; 2]%nat) I).
    destruct ty; first [exact Hn | apply NoDup_nil_2].
  - intros ty a Hty Ha.
    destruct ty; try discriminate Hty;
      first [reflexivity | exfalso; revert Ha; apply not_elem_of_nil].
  - intros ty Hty. destruct ty; try discriminate Hty; reflexivity.
Defined.

Lemma decoder_map_priority_ordered_witness :
  priority_ordered 2
    (_decoder_priority_cb 3 2 (Some 2%nat) 5
       (map_decoders 3 2 (sample_scan PLUGIN_VIDEO_DECODER)))
  /\ row_of (video_decoder_map
               (_decoder_priority_cb 3 2 (Some 2%nat) 5
                  (map_decoders 3 2 (sample_scan PLUGIN_VIDEO_DECODER)))) 1
     = [Some 2; Some 0; Some 1]%nat.
Proof.
  split; [|reflexivity].
  apply (decoder_map_priority_ordered 3 2).
  apply reach_priority_cb; [|reflexivity].
  apply reach_map_decoders. exact sample_scan_scanned.
Defined.

(** ** Registration and the priority override *)

Section InsertFacts.

Variable PLUGINS_PER_TYPE : nat.
Variable DECODER_MAX : nat.
Variable PLUGIN_MAX : Z.
Variable plugin_iface_versions : plugin_type -> Z.

Import CInt CIntFacts.

Lemma sarray_remove_some l x :
  x ∈ l -> exists l', xine_sarray_remove_ptr l x = Some l'.
Proof.
  induction l as [|e t IH]; intros Hx; [now apply elem_of_nil in Hx|].
  simpl. destruct (Nat.eqb_spec e x) as [->|Hne]; [eauto|].
  apply elem_of_cons in Hx as [->|Hx]; [contradiction|].
  destruct (IH Hx) as [t' ->]. eauto.
Qed.

Lemma decoder_priority_spec user_prio default_priority :
  INT_MIN <= user_prio * 100 <= INT_MAX ->
  decoder_priority user_prio default_priority
  = if user_prio =? 0 then default_priority else user_prio * 100.
Proof.
  intros H. unfold decoder_priority.
  destruct (user_prio =? 0); [reflexivity|]. now apply int32_small.
Qed.

Lemma insert_node_fill_decoder ty cached ainfo user_prio config_version entry :
  is_decoder ty = true ->
  node_priority (insert_node_fill ty cached (Some ainfo) user_prio config_version entry)
  = decoder_priority (if config_version <? 1 then 0 else user_prio) (ai_priority ainfo)
  /\ ainfo_priority (insert_node_fill ty cached (Some ainfo) user_prio config_version entry)
     = ai_priority ainfo.
Proof.
  intros Hty. destruct ty; try discriminate Hty; split; reflexivity.
Qed.

Lemma insert_node_registered c node_cache info user_prio config_version c' entry ty :
  info_type info = Some ty ->
  _insert_node DECODER_MAX PLUGIN_MAX plugin_iface_versions c node_cache info
    user_prio config_version = (c', Some entry, 0) ->
  exists n0,
    nodes c' entry
    = insert_node_fill ty (bool_decide (is_Some node_cache)) (info_special info)
        user_prio config_version n0
    /\ entry ∈ plugin_lists c' ty.
Proof.
  intros Hty. unfold _insert_node. rewrite Hty.
  destruct (insert_node_sanity _ _ _ _ _ _ _) as [room|]; [|discriminate].
  destruct (room <=? 0); [discriminate|].
  destruct node_cache as [a|]; intros [= <- <-].
  - eexists. split.
    + destruct (is_decoder ty); cbn; rewrite Nat.eqb_refl; reflexivity.
    + destruct (is_decoder ty); cbn; rewrite decide_True by reflexivity;
        rewrite sarray_add_perm; apply elem_of_cons; now left.
  - eexists. split.
    + destruct (is_decoder ty); cbn; rewrite Nat.eqb_refl; reflexivity.
    + destruct (is_decoder ty); cbn; rewrite decide_True by reflexivity;
        rewrite sarray_add_perm; apply elem_of_cons; now left.
Qed.


End InsertFacts.



(** ** The version gate of the plugin cache *)

Section CacheFacts.

Variable xine_str2int32 : string -> Z * string.
Variable xine_str2uint32 : string -> Z * string.
Variable xine_str2uint64 : string -> Z * string.

Lemma version_accepted_spec (vers : Z) :
  version_accepted vers = true <-> vers = 5 \/ vers = 4.
Proof.
  unfold version_accepted, CACHE_CATALOG_VERSION.
  rewrite orb_true_iff, !Z.eqb_eq. lia.
Qed.

(** Before the version is accepted every line is read as [key=value]. *)
Lemma parse_line_unversioned (line : string) :
  parse_line false line =
  Some (_key_2_index (fst (split_key_value line)), snd (split_key_value line)).
Proof.
  unfold parse_line.
  destruct line as [|ch rest]; [reflexivity|].
  destruct (split_key_value (String ch rest)) as [k v].
  destruct ch as [[] [] [] [] [] [] [] []]; reflexivity.
Qed.

(** The last, empty line leaves a loader that has not seen the marker
    as it is. *)
Lemma load_dummy_unversioned (st : load_state) :
  ls_version_ok st = false ->
  fst (load_line xine_str2int32 xine_str2uint32 xine_str2uint64
         false EmptyString st) = st.
Proof.
  intros Hv. unfold load_line. rewrite Hv. cbn.
  destruct (ls_skip st); reflexivity.
Qed.

(** What a loader that has not seen the marker does with the lines:
    nothing until the marker, then either it goes on with the version
    accepted or it returns. *)
Lemma load_lines_unversioned (lines : list string) (st : load_state) :
  ls_version_ok st = false -> ls_skip st = false ->
  load_lines xine_str2int32 xine_str2uint32 xine_str2uint64 lines st =
  match find_version_marker lines with
  | Some (value, rest) =>
      if version_accepted (fst (xine_str2uint32 value))
      then load_lines xine_str2int32 xine_str2uint32 xine_str2uint64 rest
             {| ls_version_ok := true; ls_skip := false;
                ls_node := ls_node st; ls_plugins := ls_plugins st |}
      else st
  | None => st
  end.
Proof.
  intros Hv Hs. induction lines as [|line rest IH].
  - cbn [load_lines find_version_marker]. now apply load_dummy_unversioned.
  - cbn [load_lines find_version_marker].
    assert (Hcomment : forall c r, line = String c r -> c = "#"%char ->
              load_line xine_str2int32 xine_str2uint32 xine_str2uint64
                true line st = (st, false)).
    { intros c r -> ->. reflexivity. }
    assert (Hother :
              match line with String "#" _ => false | _ => true end = true ->
              load_line xine_str2int32 xine_str2uint32 xine_str2uint64
                true line st =
              match _key_2_index (fst (split_key_value line)) with
              | _K_cache_catalog_version =>
                  if version_accepted
                       (fst (xine_str2uint32 (snd (split_key_value line))))
                  then ({| ls_version_ok := true; ls_skip := false;
                           ls_node := ls_node st;
                           ls_plugins := ls_plugins st |}, false)
                  else (st, true)
              | _ => (st, false)
              end).
    { intros Hno. unfold load_line.
      replace (true && match line with String "#" _ => true | _ => false end)
        with false.
      2:{ destruct line as [|ch r]; [reflexivity|].
          destruct ch as [[] [] [] [] [] [] [] []]; try reflexivity;
            discriminate Hno. }
      rewrite Hv, Hs, parse_line_unversioned. cbn [andb negb].
      destruct (_key_2_index (fst (split_key_value line))); reflexivity. }
    destruct line as [|ch r].
    + rewrite Hother by reflexivity. cbn. exact IH.
    + destruct (Ascii.eqb_spec ch "#"%char) as [->|Hne].
      * rewrite (Hcomment _ _ eq_refl eq_refl). exact IH.
      * assert (Hno : match String ch r with
                      | String "#" _ => false | _ => true end = true).
        { destruct ch as [[] [] [] [] [] [] [] []]; try reflexivity.
          now contradict Hne. }
        rewrite Hother by exact Hno.
        assert (Hfind : find_version_marker (String ch r :: rest) =
                  match _key_2_index (fst (split_key_value (String ch r))) with
                  | _K_cache_catalog_version =>
                      Some (snd (split_key_value (String ch r)), rest)
                  | _ => find_version_marker rest
                  end).
        { cbn [find_version_marker].
          destruct (split_key_value (String ch r)) as [k v]. cbn [fst snd].
          destruct ch as [[] [] [] [] [] [] [] []]; try reflexivity.
          now contradict Hne. }
        cbn [find_version_marker] in Hfind |- *. rewrite Hfind.
        destruct (_key_2_index (fst (split_key_value (String ch r))));
          try exact IH.
        destruct (version_accepted _); reflexivity.
Qed.

(** C5: [load_plugin_list] adds nodes from the cache file only when the
    first [cache_catalog_version] line carries the current version 5 or
    the one before, 4.  The loader ignores every line in front of that
    marker; with an accepted version it goes on with the lines behind
    it, with any other value it returns at the marker, and with no
    marker it reads to the end: in both of these cases it adds no node,
    exactly as on an empty file, and it reports nothing. *)
Theorem load_plugin_list_version_gate (lines : list string) :
  let load := load_plugin_list xine_str2int32 xine_str2uint32 xine_str2uint64 in
  load lines =
    match find_version_marker lines with
    | Some (value, rest) =>
        if version_accepted (fst (xine_str2uint32 value))
        then ls_plugins
               (load_lines xine_str2int32 xine_str2uint32 xine_str2uint64 rest
                  {| ls_version_ok := true; ls_skip := false;
                     ls_node := cache_node_init; ls_plugins := [] |})
        else load []
    | None => load []
    end
  /\ load [] = []
  /\ (load lines <> [] ->
      exists value rest,
        find_version_marker lines = Some (value, rest) /\
        (fst (xine_str2uint32 value) = CACHE_CATALOG_VERSION \/
         fst (xine_str2uint32 value) = CACHE_CATALOG_VERSION - 1)).
Proof.
  intros load.
  assert (Hempty : load [] = []).
  { unfold load, load_plugin_list. cbn [load_lines].
    now rewrite load_dummy_unversioned. }
  assert (Heq : load lines =
    match find_version_marker lines with
    | Some (value, rest) =>
        if version_accepted (fst (xine_str2uint32 value))
        then ls_plugins
               (load_lines xine_str2int32 xine_str2uint32 xine_str2uint64 rest
                  {| ls_version_ok := true; ls_skip := false;
                     ls_node := cache_node_init; ls_plugins := [] |})
        else load []
    | None => load []
    end).
  { rewrite Hempty. unfold load, load_plugin_list.
    rewrite load_lines_unversioned by reflexivity.
    destruct (find_version_marker lines) as [[value rest]|]; [|reflexivity].
    destruct (version_accepted _); reflexivity. }
  split; [exact Heq|]. split; [exact Hempty|].
  intros Hne. rewrite Heq, Hempty in Hne.
  destruct (find_version_marker lines) as [[value rest]|]; [|now contradict Hne].
  destruct (version_accepted (fst (xine_str2uint32 value))) eqn:Hacc;
    [|now contradict Hne].
  exists value, rest. split; [reflexivity|].
  apply version_accepted_spec in Hacc. unfold CACHE_CATALOG_VERSION. lia.
Qed.

End CacheFacts.

(** The sample cache is read: its marker is accepted and its decoder
    entry comes out. *)
Lemma load_plugin_list_version_gate_witness :
  load_plugin_list sample_str2num sample_str2num sample_str2num sample_cache <> []
  /\ exists value rest,
       find_version_marker sample_cache = Some (value, rest) /\
       (fst (sample_str2num value) = CACHE_CATALOG_VERSION \/
        fst (sample_str2num value) = CACHE_CATALOG_VERSION - 1).
Proof.
  assert (Hne : load_plugin_list sample_str2num sample_str2num sample_str2num
                  sample_cache <> []).
  { vm_compute. discriminate. }
  split; [exact Hne|].
  exact (proj2 (proj2 (load_plugin_list_version_gate
                         sample_str2num sample_str2num sample_str2num
                         sample_cache)) Hne).
Defined.

(** * Further properties of the code *)

From Stdlib Require Import ZifyNat.

(** ** The window of the fill history *)

Section WindowFacts.

Import CInt CIntFacts.

Lemma ring_after_snoc h samples p :
  ring_after h (samples ++ [p]) = fst (Naive.feed (ring_after h samples) p).
Proof. unfold ring_after. now rewrite foldl_app. Qed.

Lemma run_snoc samples : forall h p,
  Naive.run h (samples ++ [p])
  = Naive.run h samples ++ [snd (Naive.feed (ring_after h samples) p)].
Proof.
  induction samples as [|x rest IH]; intros h p.
  - reflexivity.
  - cbn [app Naive.run]. destruct (Naive.feed h x) as [h' r] eqn:E.
    assert (Hr : ring_after h (x :: rest) = ring_after h' rest)
      by (unfold ring_after; cbn [foldl]; now rewrite E).
    now rewrite IH, Hr.
Qed.

Lemma ring_after_shape h samples :
  length (Naive.cells h) = 1024%nat ->
  (Naive.cursor h < 1024)%nat ->
  length (Naive.cells (ring_after h samples)) = 1024%nat
  /\ Naive.cursor (ring_after h samples)
     = ((Naive.cursor h + length samples) mod 1024)%nat.
Proof.
  intros Hlen Hcur. induction samples as [|p samples [IHl IHc]] using rev_ind.
  - unfold ring_after. cbn [foldl length]. split; [exact Hlen|]. mod_lia.
  - rewrite ring_after_snoc, length_app. cbn [length].
    unfold Naive.feed. cbn [fst Naive.cells Naive.cursor].
    rewrite length_insert. split; [exact IHl|]. rewrite IHc. mod_lia.
Qed.

(** A sample is found in its cell as long as fewer than 1024 samples
    followed it. *)
Lemma ring_after_recent h samples i x :
  length (Naive.cells h) = 1024%nat ->
  (Naive.cursor h < 1024)%nat ->
  samples !! i = Some x ->
  (length samples - i <= 1024)%nat ->
  Naive.cells (ring_after h samples) !! ring_pos h i = Some (Naive.quantize x).
Proof.
  intros Hlen Hcur. revert i x.
  induction samples as [|p samples IH] using rev_ind; intros i x Hi Hwin.
  - discriminate.
  - destruct (ring_after_shape h samples Hlen Hcur) as [Hl Hc].
    rewrite ring_after_snoc. unfold Naive.feed.
    cbn [fst Naive.cells Naive.cursor]. rewrite Hc.
    rewrite length_app in Hwin. cbn [length] in Hwin.
    destruct (decide (i = length samples)) as [->|Hne].
    + rewrite lookup_app_r, Nat.sub_diag in Hi by lia.
      injection Hi as <-.
      unfold ring_pos.
      replace ((Naive.cursor h + 1 + length samples) mod 1024)%nat
        with (((Naive.cursor h + length samples) mod 1024 + 1) mod 1024)%nat
        by mod_lia.
      apply list_lookup_insert_eq. rewrite Hl. mod_lia.
    + assert (Hlt : (i < length samples)%nat).
      { apply lookup_lt_Some in Hi. rewrite length_app in Hi. cbn in Hi. lia. }
      rewrite lookup_app_l in Hi by exact Hlt.
      rewrite list_lookup_insert_ne; [apply IH; [exact Hi|lia]|].
      unfold ring_pos. mod_lia.
Qed.

(** A cell that no sample was written to is as it was. *)
Lemma ring_after_untouched h samples j :
  length (Naive.cells h) = 1024%nat ->
  (Naive.cursor h < 1024)%nat ->
  (forall i, (i < length samples)%nat -> ring_pos h i <> j) ->
  Naive.cells (ring_after h samples) !! j = Naive.cells h !! j.
Proof.
  intros Hlen Hcur.
  induction samples as [|p samples IH] using rev_ind; intros Hfree.
  - reflexivity.
  - destruct (ring_after_shape h samples Hlen Hcur) as [Hl Hc].
    rewrite ring_after_snoc. unfold Naive.feed.
    cbn [fst Naive.cells Naive.cursor]. rewrite Hc.
    rewrite length_app in Hfree. cbn [length] in Hfree.
    rewrite list_lookup_insert_ne.
    + apply IH. intros i Hi. apply Hfree. lia.
    + specialize (Hfree (length samples) ltac:(lia)). unfold ring_pos in Hfree.
      intros E. apply Hfree. rewrite <- E. mod_lia.
Qed.

(** Once 1024 samples are in, every cell holds one of the last 1024. *)
Lemma ring_pos_onto h (n j : nat) :
  (1024 <= n)%nat -> (j < 1024)%nat ->
  exists i, (n - 1024 <= i < n)%nat /\ ring_pos h i = j.
Proof.
  intros Hn Hj.
  exists (n - 1024 + (j + 1024 - (Naive.cursor h + 1 + (n - 1024)) mod 1024) mod 1024)%nat.
  unfold ring_pos. split; mod_lia.
Qed.

Lemma run_last h samples :
  samples <> [] ->
  last (Naive.run h samples)
  = Some (5625 * Naive.minimum (Naive.cells (ring_after h samples))).
Proof.
  destruct samples as [|p samples _] using rev_ind; [congruence|]. intros _.
  rewrite run_snoc, last_snoc, ring_after_snoc. reflexivity.
Qed.

Lemma recent_minimum h samples :
  length (Naive.cells h) = 1024%nat ->
  (Naive.cursor h < 1024)%nat ->
  (1024 <= length samples)%nat ->
  Naive.minimum (Naive.cells (ring_after h samples))
  = Naive.minimum (Naive.quantize <$> drop (length samples - 1024) samples).
Proof.
  intros Hlen Hcur Hn.
  destruct (ring_after_shape h samples Hlen Hcur) as [Hl _].
  set (recent := Naive.quantize <$> drop (length samples - 1024) samples).
  assert (Hne : recent <> []).
  { intros E. apply (f_equal length) in E. unfold recent in E.
    rewrite length_fmap, length_drop in E. cbn in E. lia. }
  apply minimum_unique.
  - pose proof (minimum_in recent Hne) as Hin.
    apply list_elem_of_In, list_elem_of_fmap in Hin as (x & Hx & Hin).
    apply list_elem_of_lookup in Hin as (k & Hk).
    rewrite lookup_drop in Hk.
    apply list_elem_of_In, list_elem_of_lookup.
    exists (ring_pos h (length samples - 1024 + k)). rewrite Hx.
    apply ring_after_recent; try assumption.
    apply lookup_lt_Some in Hk. lia.
  - intros y Hy. apply list_elem_of_In, list_elem_of_lookup in Hy as (j & Hj).
    assert (Hjlt : (j < 1024)%nat) by (apply lookup_lt_Some in Hj; lia).
    destruct (ring_pos_onto h (length samples) j Hn Hjlt) as (i & Hi & Hpos).
    destruct (lookup_lt_is_Some_2 samples i ltac:(lia)) as [x Hx].
    rewrite <- Hpos, (ring_after_recent h samples i x) in Hj by (assumption || lia).
    injection Hj as <-.
    apply minimum_le, list_elem_of_In, list_elem_of_fmap.
    exists x. split; [reflexivity|].
    apply list_elem_of_lookup. exists (i - (length samples - 1024))%nat.
    rewrite lookup_drop. rewrite <- Hx. f_equal. lia.
Qed.

Lemma ring_after_range h samples :
  (forall y, In y (Naive.cells h) -> 0 <= y) ->
  Forall (fun pts => 0 <= pts <= INT_MAX) samples ->
  forall y, In y (Naive.cells (ring_after h samples)) -> 0 <= y.
Proof.
  intros Hh Hall. induction samples as [|p samples IH] using rev_ind.
  - exact Hh.
  - apply Forall_app in Hall as [Hs Hp]. apply Forall_inv in Hp.
    rewrite ring_after_snoc. unfold Naive.feed. cbn [fst Naive.cells].
    intros y Hy. destruct (in_insert _ _ _ _ Hy) as [->|Hy'].
    + apply quantize_range. lia.
    + now apply IH.
Qed.

Lemma early_minimum samples :
  Forall (fun pts => 0 <= pts <= INT_MAX) samples ->
  (length samples < 1024)%nat ->
  Naive.minimum (Naive.cells (ring_after Naive.start samples)) = 0.
Proof.
  intros Hall Hn.
  assert (Hlen : length (Naive.cells Naive.start) = 1024%nat) by reflexivity.
  assert (Hcur : (Naive.cursor Naive.start < 1024)%nat) by (cbn; lia).
  apply minimum_unique.
  - apply list_elem_of_In, list_elem_of_lookup. exists 0%nat.
    rewrite ring_after_untouched; [reflexivity|assumption..|].
    intros i Hi. unfold ring_pos. cbn [Naive.cursor Naive.start]. mod_lia.
  - apply ring_after_range; [|exact Hall].
    intros y Hy. apply list_elem_of_In, elem_of_replicate in Hy. lia.
Qed.

Lemma recent_levels_quantize samples :
  Forall (fun pts => 0 <= pts <= INT_MAX) samples ->
  recent_levels samples
  = Naive.quantize <$> drop (length samples - 1024) samples.
Proof.
  intros Hall. unfold recent_levels.
  apply Forall_fmap_ext_1.
  eapply Forall_impl; [apply Forall_drop, Hall|].
  intros x Hx. cbv beta in Hx. apply fill_level_quantize.
  unfold INT_MAX in *. lia.
Qed.

(** X1.  The recent minimum looks 1024 samples back and no further.
    After [nbc_stats_reset], once 1024 or more samples went through
    [nbc_stats_add], the value it returns is the smallest level among
    the last 1024 samples, in pts; older samples no longer count.
    Before that it returns 0: cells of the history that were never
    written still hold the 0 of the reset. *)
Theorem nbc_stats_add_window (s0 : nbc_stats) (samples : list Z) :
  Forall (fun pts => 0 <= pts <= INT_MAX) samples ->
  samples <> [] ->
  exists results,
    nbc_stats_run (nbc_stats_reset s0) samples = Some results
    /\ last results
       = Some (if (length samples <? 1024)%nat then 0
               else 5625 * Naive.minimum (recent_levels samples)).
Proof.
  intros Hall Hne. exists (Naive.run Naive.start samples). split.
  - apply nbc_stats_run_repr; [apply stats_repr_reset|exact Hall].
  - rewrite run_last by exact Hne. f_equal.
    destruct (Nat.ltb_spec (length samples) 1024) as [Hlt|Hge].
    + rewrite early_minimum by assumption. reflexivity.
    + rewrite recent_minimum by (reflexivity || (cbn; lia) || exact Hge).
      now rewrite recent_levels_quantize.
Qed.

End WindowFacts.

Lemma nbc_stats_add_window_witness :
  exists results,
    nbc_stats_run
      (nbc_stats_reset {| stats_min := 0; stats_hpos := 0;
                          stats_hist := []; stats_num := [] |})
      (replicate 1024 180000 ++ [90000]) = Some results
    /\ last results = Some 90000.
Proof.
  destruct (nbc_stats_add_window
              {| stats_min := 0; stats_hpos := 0; stats_hist := []; stats_num := [] |}
              (replicate 1024 180000 ++ [90000]))
    as (results & Hrun & Hlast).
  - apply Forall_app. split.
    + apply Forall_replicate. unfold CInt.INT_MAX. lia.
    + repeat constructor; unfold CInt.INT_MAX; lia.
  - intros E. apply (f_equal length) in E. rewrite length_app in E.
    cbn [length] in E. lia.
  - exists results. split; [exact Hrun|]. rewrite Hlast.
    vm_compute. reflexivity.
Defined.

(** ** The fill time as the span of the queued timestamps *)

Section SpanFacts.

Import CInt CIntFacts.

Lemma pts_diff_check_congruent d d' :
  pts_diff_check d = Some d' -> int32 d' = int32 d.
Proof.
  unfold pts_diff_check. change (Z.shiftl 1 33) with (2 ^ 33).
  repeat match goal with
         | |- context [if ?c then _ else _] => destruct c
         end; intros E; try discriminate; injection E as <-;
    try reflexivity; unfold int32, int64; mod_lia.
Qed.

Lemma accepted_fill fill p q d :
  pts_diff_check (int64 (q - p)) = Some d ->
  int32 (fill + int32 d) = int32 (fill + q - p)
  /\ int32 (fill - int32 d) = int32 (fill - q + p).
Proof.
  intros E. apply pts_diff_check_congruent in E.
  revert E. unfold int32, int64. intros E. split; mod_lia.
Qed.
Lemma pts_span_cons a p t :
  pts_span (a :: p :: t) = pts_span (p :: t) + (p - a).
Proof.
  unfold pts_span. rewrite (last_cons a).
  destruct (last (p :: t)) as [y|] eqn:E; cbn [default]; [lia|].
  rewrite last_cons in E. destruct (last t); discriminate.
Qed.

Lemma steady_cons_inv a p t :
  steady (a :: p :: t) ->
  a <> 0 /\ is_Some (pts_diff_check (int64 (p - a))) /\ steady (p :: t).
Proof. cbn. tauto. Qed.

Lemma pts_chain_seen p l : p <> 0 -> pts_chain p l = p :: l.
Proof.
  intros H. unfold pts_chain. now destruct (Z.eqb_spec p 0).
Qed.

Lemma steady_head p l : steady (p :: l) -> p <> 0.
Proof. cbn. tauto. Qed.

(** The fill time follows the two spans from any state of the fifo. *)
Lemma fifo_run_fill evs : forall info,
  INT_MIN <= fill_pts info <= INT_MAX ->
  steady (pts_chain (last_in_pts info) (put_pts_of evs)) ->
  steady (pts_chain (last_out_pts info) (get_pts_of evs)) ->
  fill_pts (fifo_run evs info)
  = int32 (fill_pts info
           + pts_span (pts_chain (last_in_pts info) (put_pts_of evs))
           - pts_span (pts_chain (last_out_pts info) (get_pts_of evs))).
Proof.
  induction evs as [|e evs IH]; intros info Hfill Hin Hout.
  - cbn [fifo_run foldl put_pts_of get_pts_of mbind list_bind].
    assert (Hz : forall x, pts_span (pts_chain x []) = 0).
    { intros x. unfold pts_chain, pts_span. destruct (x =? 0); cbn; lia. }
    rewrite !Hz. rewrite int32_small by lia. lia.
  - change (fifo_run (e :: evs) info) with (fifo_run evs (fifo_step info e)).
    destruct e as [p|p].
    + change (put_pts_of (Put_pts p :: evs)) with (p :: put_pts_of evs) in *.
      change (get_pts_of (Put_pts p :: evs)) with (get_pts_of evs) in *.
      cbn [fifo_step]. unfold nbc_put_cb_fill.
      assert (Hp : p <> 0).
      { unfold pts_chain in Hin. destruct (last_in_pts info =? 0).
        - now apply steady_head in Hin.
        - apply steady_cons_inv in Hin as (_ & _ & Hin).
          now apply steady_head in Hin. }
      destruct (Z.eqb_spec p 0) as [?|_]; [contradiction|].
      destruct (Z.eqb_spec (last_in_pts info) 0) as [Hz|Hnz].
      * rewrite IH; cbn [fill_pts last_in_pts last_out_pts set_in_pts];
          rewrite ?(pts_chain_seen p) by exact Hp; try assumption.
        -- rewrite Hz. reflexivity.
        -- unfold pts_chain in Hin. now rewrite Hz in Hin.
      * rewrite (pts_chain_seen (last_in_pts info)) in Hin |- * by exact Hnz.
        apply steady_cons_inv in Hin as (_ & [d Hd] & Hin).
        rewrite Hd.
        destruct (accepted_fill (fill_pts info) _ _ _ Hd) as [Hadd _].
        rewrite IH; cbn [fill_pts last_in_pts last_out_pts set_in_pts];
          rewrite ?(pts_chain_seen p) by exact Hp;
          try assumption; try apply int32_range.
        rewrite pts_span_cons, Hadd. unfold int32. mod_lia.
    + change (get_pts_of (Get_pts p :: evs)) with (p :: get_pts_of evs) in *.
      change (put_pts_of (Get_pts p :: evs)) with (put_pts_of evs) in *.
      cbn [fifo_step]. unfold nbc_get_cb_fill.
      assert (Hp : p <> 0).
      { unfold pts_chain in Hout. destruct (last_out_pts info =? 0).
        - now apply steady_head in Hout.
        - apply steady_cons_inv in Hout as (_ & _ & Hout).
          now apply steady_head in Hout. }
      destruct (Z.eqb_spec p 0) as [?|_]; [contradiction|].
      destruct (Z.eqb_spec (last_out_pts info) 0) as [Hz|Hnz].
      * rewrite IH; cbn [fill_pts last_in_pts last_out_pts set_out_pts];
          rewrite ?(pts_chain_seen p) by exact Hp; try assumption.
        -- rewrite Hz. reflexivity.
        -- unfold pts_chain in Hout. now rewrite Hz in Hout.
      * rewrite (pts_chain_seen (last_out_pts info)) in Hout |- * by exact Hnz.
        apply steady_cons_inv in Hout as (_ & [d Hd] & Hout).
        rewrite Hd.
        destruct (accepted_fill (fill_pts info) _ _ _ Hd) as [_ Hsub].
        rewrite IH; cbn [fill_pts last_in_pts last_out_pts set_out_pts];
          rewrite ?(pts_chain_seen p) by exact Hp;
          try assumption; try apply int32_range.
        rewrite pts_span_cons, Hsub. unfold int32. mod_lia.
Qed.

(** X2.  The fill time of a fifo is the span of the timestamps put
    minus the span of the timestamps got.  From a fifo whose callbacks
    have seen no timestamp yet, after any interleaving of puts and gets
    whose timestamps follow each other without a rejected jump (wraps
    of the 33 bit counter included), [fill_pts] is its start value plus
    (last put - first put) minus (last got - first got), as an [int]:
    what went in and has not come out. *)
Theorem fill_pts_is_queued_span
    (evs : list fifo_event) (info : xine_nbc_fifo_info_t) :
  last_in_pts info = 0 ->
  last_out_pts info = 0 ->
  INT_MIN <= fill_pts info <= INT_MAX ->
  steady (put_pts_of evs) ->
  steady (get_pts_of evs) ->
  fill_pts (fifo_run evs info)
  = int32 (fill_pts info + pts_span (put_pts_of evs) - pts_span (get_pts_of evs)).
Proof.
  intros Hin Hout Hfill Hputs Hgets.
  rewrite fifo_run_fill; rewrite ?Hin, ?Hout; try assumption; reflexivity.
Qed.

End SpanFacts.

Lemma fill_pts_is_queued_span_witness :
  fill_pts
    (fifo_run [Put_pts 8589930000; Put_pts 8589933000; Get_pts 8589930000;
               Put_pts 1408; Get_pts 8589933000]
       sample_fresh_info)
  = 3000.
Proof.
  rewrite fill_pts_is_queued_span.
  - reflexivity.
  - reflexivity.
  - reflexivity.
  - cbn. unfold CInt.INT_MIN, CInt.INT_MAX. lia.
  - cbn. repeat split; try discriminate; vm_compute; eauto.
  - cbn. repeat split; try discriminate; vm_compute; eauto.
Defined.

(** ** The callbacks on the fifos *)

Section CallbackFacts.

Import CInt CIntFacts.

Variable XINE_FINE_SPEED_NORMAL : Z.

Lemma nbc_stats_add_total s h pts :
  stats_repr s h ->
  INT_MIN <= pts <= INT_MAX ->
  exists s' r h', nbc_stats_add s pts = Some (s', r) /\ stats_repr s' h'.
Proof.
  intros Hrepr Hpts. destruct (Z.ltb_spec pts 0) as [Hneg|Hnn].
  - exists s, (level_pts (stats_min s)), h. split; [|exact Hrepr].
    unfold nbc_stats_add. now destruct (Z.ltb_spec pts 0); [|lia].
  - destruct (nbc_stats_add_step s h pts Hrepr ltac:(unfold INT_MAX in *; lia))
      as (s' & E & Hr).
    eauto.
Qed.

Lemma nbc_stats_flat_repr s h pts :
  stats_repr s h ->
  INT_MIN <= pts <= INT_MAX ->
  exists h', stats_repr (nbc_stats_flat s pts) h'.
Proof.
  intros Hrepr Hpts.
  set (p := if pts <? 0 then 0 else pts).
  assert (Hp : 0 <= p <= INT_MAX)
    by (unfold p, INT_MAX in *; destruct (Z.ltb_spec pts 0); lia).
  assert (Hlevel : 0 <= fill_level p <= 255).
  { rewrite fill_level_quantize by (unfold INT_MAX in *; lia).
    apply quantize_range. lia. }
  exists {| Naive.cells := replicate 1024 (fill_level p);
            Naive.cursor := Naive.cursor h |}.
  apply stats_repr_flat; try reflexivity; try exact Hlevel.
  - apply (repr_cursor _ _ Hrepr).
  - apply (repr_hpos _ _ Hrepr).
Qed.

Lemma dvbspeed_cases (this : xine_nbc_t) :
  0 <= dvbspeed this <= 7 ->
  dvbspeed this = 0 \/ dvbspeed this = 1 \/ dvbspeed this = 2
  \/ dvbspeed this = 3 \/ dvbspeed this = 4 \/ dvbspeed this = 5
  \/ dvbspeed this = 6 \/ dvbspeed this = 7.
Proof. lia. Qed.

Lemma live_ok_enter_normal ty used this :
  (exists h, stats_repr (stats this) h) -> live_ok (enter_normal ty used this).
Proof.
  intros Hr. split.
  - rewrite dvbspeed_enter_normal. destruct ty; cbn; lia.
  - now rewrite stats_enter_normal.
Qed.

Lemma dvbspeed_put_ok ty fine this :
  live_ok this ->
  exists this' speed calls,
    dvbspeed_put XINE_FINE_SPEED_NORMAL ty fine this = Some (this', speed, calls)
    /\ live_ok this' /\ high_water_mark this' = high_water_mark this.
Proof.
  intros [Hd [h Hr]]. unfold dvbspeed_put.
  destruct (dvbspeed_gate ty this);
    [exists this, (-1), []; split; [reflexivity|split; [split; eauto|reflexivity]]|].
  set (fill := int32 (fill_pts (fifo_info this ty) + out_pts (fifo_info this ty))).
  assert (Hfill : INT_MIN <= fill <= INT_MAX) by apply int32_range.
  destruct (nbc_stats_add_total _ _ fill Hr Hfill) as (s' & r & h' & Hadd & Hr').
  destruct (nbc_stats_flat_repr _ _ fill Hr Hfill) as (hf & Hflat).
  destruct (dvbspeed_cases this Hd) as [E|[E|[E|[E|[E|[E|[E|E]]]]]]];
    rewrite E; cbn [Z.eqb Pos.eqb orb]; rewrite ?Hadd;
    repeat match goal with
           | |- context [if ?c then _ else _] => destruct c
           end;
    do 3 eexists; (split; [reflexivity|]);
    (split; [|unfold enter_normal; split_ifs; reflexivity]);
    try (apply live_ok_enter_normal; cbn [stats set_stats set_dvbs_center]; eauto; fail);
    (split; [cbn [dvbspeed set_dvbspeed set_stats]; rewrite ?E;
             rewrite ?int32_small by (unfold INT_MIN, INT_MAX; lia); lia
            |cbn [stats set_dvbspeed set_stats]; eauto]).
Qed.

Lemma dvbspeed_get_ok ty this :
  live_ok this ->
  exists this' speed calls,
    dvbspeed_get XINE_FINE_SPEED_NORMAL ty this = Some (this', speed, calls)
    /\ live_ok this' /\ high_water_mark this' = high_water_mark this.
Proof.
  intros [Hd [h Hr]]. unfold dvbspeed_get.
  destruct (dvbspeed_gate ty this);
    [exists this, (-1), [Call_delay_clean];
     split; [reflexivity|split; [split; eauto|reflexivity]]|].
  set (fill := int32 (fill_pts (fifo_info this ty) + out_pts (fifo_info this ty))).
  assert (Hfill : INT_MIN <= fill <= INT_MAX) by apply int32_range.
  destruct (nbc_stats_add_total _ _ fill Hr Hfill) as (s' & r & h' & Hadd & Hr').
  destruct (dvbspeed_cases this Hd) as [E|[E|[E|[E|[E|[E|[E|E]]]]]]];
    rewrite E; cbn [Z.eqb Pos.eqb orb]; rewrite ?Hadd;
    repeat match goal with
           | |- context [if ?c then _ else _] => destruct c
           end;
    do 3 eexists; (split; [reflexivity|]); (split; [|reflexivity]);
    (split; [cbn [dvbspeed set_dvbspeed set_stats]; rewrite ?E;
             rewrite ?int32_small by (unfold INT_MIN, INT_MAX; lia); lia
            |cbn [stats set_dvbspeed set_stats]; eauto using stats_repr_reset]).
Qed.

Lemma live_ok_same c c' : same_live c c' -> live_ok c -> live_ok c'.
Proof. intros (Hd & Hs & _) [H1 H2]. unfold live_ok. now rewrite Hd, Hs. Qed.

Lemma same_live_mark c c' : same_live c c' -> high_water_mark c' = high_water_mark c.
Proof. now intros (_ & _ & Hm). Qed.

Lemma compute_core env ty fifo pts action st :
  core (nbc_compute_fifo_length env ty fifo pts action st)
  = set_info ty
      (set_fifo_counts (fb_fifo_data_size fifo)
         (Z.quot (int32 (100 * fb_fifo_size fifo))
            (if int32 (fb_buffer_pool_num_free fifo + fb_fifo_size fifo - 1) =? 0
             then 1
             else int32 (fb_buffer_pool_num_free fifo + fb_fifo_size fifo - 1)))
         (fb_buffer_pool_num_free fifo) (fifo_info (core st) ty))
      (core st).
Proof.
  unfold nbc_compute_fifo_length. cbv zeta.
  split_ifs; reflexivity.
Qed.

Lemma same_live_set_info ty info c : same_live c (set_info ty info c).
Proof. repeat split; reflexivity. Qed.

Lemma same_live_trans a b c : same_live a b -> same_live b c -> same_live a c.
Proof. intros (H1 & H2 & H3) (H4 & H5 & H6). repeat split; congruence. Qed.

Lemma same_live_refl c : same_live c c.
Proof. repeat split; reflexivity. Qed.

Lemma same_live_compute env ty fifo pts action st :
  same_live (core st) (core (nbc_compute_fifo_length env ty fifo pts action st)).
Proof. rewrite compute_core. apply same_live_set_info. Qed.

Lemma same_live_put_buffering env st p still :
  same_live (core st)
    (core (fst (put_buffering_with XINE_FINE_SPEED_NORMAL env st p still))).
Proof.
  unfold put_buffering_with. split_ifs; repeat split; reflexivity.
Qed.

Lemma buffering_progress_total st :
  high_water_mark (core st) <> 0 -> is_Some (buffering_progress st).
Proof.
  intros Hm. unfold buffering_progress, progress_by_mark.
  destruct (Z.eqb_spec (high_water_mark (core st)) 0); [contradiction|].
  split_ifs; eauto.
Qed.

Lemma keeps_live_same c c' : same_live c c' -> live_ok c -> keeps_live c c'.
Proof.
  intros Hs Hok. split; [now apply (live_ok_same c)|now apply same_live_mark].
Qed.

Lemma keeps_live_dvbspeed_init env this :
  live_ok this -> keeps_live this (fst (dvbspeed_init env this)).
Proof.
  intros [Hd Hr]. unfold dvbspeed_init.
  destruct (use_dvbs env); [|now repeat split].
  split; [split; [cbn; lia|exact Hr]|reflexivity].
Qed.

Lemma keeps_live_put_control env ty buf kind st :
  live_ok (core st) ->
  keeps_live (core st)
    (core (fst (fst (put_control XINE_FINE_SPEED_NORMAL env ty buf kind st)))).
Proof.
  intros Hok.
  assert (Hsame : keeps_live (core st) (core st)) by now split.
  assert (Hend : keeps_live (core st)
                   (core (fst (fst (put_control_end XINE_FINE_SPEED_NORMAL st))))).
  { unfold put_control_end, dvbspeed_close.
    destruct Hok as [Hd Hr].
    split_ifs; (split; [split; [cbn; lia|exact Hr]|reflexivity]). }
  destruct kind; cbn [put_control]; try exact Hend; try exact Hsame.
  - unfold put_control_start.
    destruct (enabled (core st) =? 0); [|exact Hsame].
    match goal with
    | |- context [dvbspeed_init env ?t] =>
        pose proof (keeps_live_dvbspeed_init env t) as Hinit;
        destruct (dvbspeed_init env t) as [this' eff]
    end.
    cbn [fst core] in *. destruct Hinit as [[Hd Hr] Hm]; [exact Hok|].
    split; [split; [exact Hd|exact Hr]|exact Hm].
  - destruct (buf_end_flags buf); [exact Hend|exact Hsame].
Qed.

Lemma nbc_put_cb_ok env ty fifo buf st :
  live_ok (core st) ->
  (high_water_mark (core st) <> 0 ->
   is_Some (nbc_put_cb XINE_FINE_SPEED_NORMAL env ty fifo buf st))
  /\ forall st' effects,
       nbc_put_cb XINE_FINE_SPEED_NORMAL env ty fifo buf st = Some (st', effects) ->
       keeps_live (core st) (core st').
Proof.
  intros Hok.
  assert (Hsame : keeps_live (core st) (core st)) by now split.
  unfold nbc_put_cb. destruct (buf_type buf) as [kind|major|].
  - pose proof (keeps_live_put_control env ty buf kind st Hok) as Hc.
    destruct (put_control XINE_FINE_SPEED_NORMAL env ty buf kind st)
      as [[st1 eff] speed].
    split; [eauto|]. intros st' effects E. injection E as <- _. exact Hc.
  - destruct (negb (bool_decide (major = ty))).
    { split; [eauto|]. intros st' effects E. now injection E as <- _. }
    cbv zeta.
    match goal with
    | |- context [dvbspeed_put _ _ _ ?t] =>
        set (this := t);
        assert (Hthis : same_live (core st) this)
          by (unfold this; split_ifs; repeat split; reflexivity)
    end.
    pose proof (live_ok_same _ _ Hthis Hok) as Hlive.
    pose proof (same_live_mark _ _ Hthis) as Hmark.
    destruct (negb (dvbspeed this =? 0)).
    + destruct (dvbspeed_put_ok ty (env_fine_speed env) this Hlive)
        as (this' & speed & calls & E & Hok' & Hm').
      rewrite E. split; [eauto|]. intros st' effects E'. injection E' as <- _.
      split; [exact Hok'|cbn [core set_core]; congruence].
    + destruct (negb (enabled this =? 0)).
      2:{ split; [eauto|]. intros st' effects E. injection E as <- _.
          now apply keeps_live_same. }
      match goal with
      | |- context [nbc_compute_fifo_length ?e ?t ?f ?p ?a ?s] =>
          pose proof (same_live_compute e t f p a s) as Hcomp;
          set (st1 := nbc_compute_fifo_length e t f p a s) in *
      end.
      cbn [core set_core] in Hcomp.
      pose proof (same_live_trans _ _ _ Hthis Hcomp) as Hst1.
      destruct (negb (buffering (core st1) =? 0)).
      2:{ split; [eauto|]. intros st' effects E. injection E as <- _.
          now apply keeps_live_same. }
      unfold put_buffering. split.
      * intros Hm.
        destruct (buffering_progress_total st1) as [[p still] ->]; [|eauto].
        rewrite (same_live_mark _ _ Hst1). exact Hm.
      * intros st' effects E.
        destruct (buffering_progress st1) as [[p still]|]; [|discriminate].
        injection E as E.
        apply keeps_live_same; [|exact Hok].
        eapply same_live_trans; [exact Hst1|].
        change st' with (fst (st', effects)). rewrite <- E.
        apply same_live_put_buffering.
  - split; [eauto|]. intros st' effects E. now injection E as <- _.
Qed.

Lemma nbc_get_cb_ok env ty fifo buf st :
  live_ok (core st) ->
  exists st' effects,
    nbc_get_cb XINE_FINE_SPEED_NORMAL env ty fifo buf st = Some (st', effects)
    /\ keeps_live (core st) (core st').
Proof.
  intros Hok. unfold nbc_get_cb. destruct (buf_type buf) as [kind|major|].
  - do 2 eexists. split; [reflexivity|].
    apply keeps_live_same; [|exact Hok]. destruct kind; repeat split; reflexivity.
  - destruct (negb (bool_decide (major = ty)));
      [do 2 eexists; split; [reflexivity|now split]|].
    cbv zeta.
    match goal with
    | |- context [dvbspeed_get _ _ ?t] =>
        set (this := t);
        assert (Hthis : same_live (core st) this)
          by (unfold this; repeat split; reflexivity)
    end.
    pose proof (live_ok_same _ _ Hthis Hok) as Hlive.
    pose proof (same_live_mark _ _ Hthis) as Hmark.
    destruct (negb (dvbspeed this =? 0)).
    + destruct (dvbspeed_get_ok ty this Hlive)
        as (this' & speed & calls & E & Hok' & Hm').
      rewrite E. do 2 eexists. split; [reflexivity|].
      split; [exact Hok'|cbn [core set_core]; congruence].
    + destruct (negb (enabled this =? 0)).
      2:{ do 2 eexists. split; [reflexivity|]. now apply keeps_live_same. }
      match goal with
      | |- context [nbc_compute_fifo_length ?e ?t ?f ?p ?a ?s] =>
          pose proof (same_live_compute e t f p a s) as Hcomp;
          set (st1 := nbc_compute_fifo_length e t f p a s) in *
      end.
      cbn [core set_core] in Hcomp.
      pose proof (same_live_trans _ _ _ Hthis Hcomp) as Hst1.
      split_ifs; do 2 eexists; (split; [reflexivity|]);
        (apply keeps_live_same; [|exact Hok]); try exact Hst1;
        (eapply same_live_trans; [exact Hst1|]); repeat split; reflexivity.
  - do 2 eexists. split; [reflexivity|]. now split.
Qed.

Lemma nbc_alloc_cb_ok fifo st :
  live_ok (core st) ->
  keeps_live (core st) (core (fst (nbc_alloc_cb XINE_FINE_SPEED_NORMAL fifo st))).
Proof.
  intros [Hd Hr]. unfold nbc_alloc_cb.
  split_ifs; (split; [split; [cbn; lia|exact Hr]|reflexivity]).
Qed.

Lemma xine_nbc_event_ok st :
  live_ok (core st) ->
  keeps_live (core st) (core (fst (xine_nbc_event_audio_dry st))).
Proof.
  intros [Hd Hr]. unfold xine_nbc_event_audio_dry.
  split_ifs; try (split; [split; [cbn; lia|exact Hr]|reflexivity]).
  split; [|reflexivity]. split; [cbn; lia|]. cbn. eauto using stats_repr_reset.
Qed.

Lemma xine_nbc_init_ok vd ad vc ac st :
  xine_nbc_init vd ad vc ac = Some st -> live_ok (core st).
Proof.
  unfold xine_nbc_init.
  destruct (xine_nbc_init_high_water_mark vd ad vc ac); [|discriminate].
  intros E. injection E as <-. split; [cbn; lia|].
  cbn [core stats]. eauto using stats_repr_reset.
Qed.

(** X3.  In every state the callbacks can bring the controller of
    [xine_nbc_init] to, the live state [dvbspeed] is one of 0..7, the
    fill history is consistent (the bucket counts are those of the 1024
    cells, the stored minimum is their minimum) and the high water mark
    is the one [xine_nbc_init] worked out.  From there every get
    callback returns, and every put callback if the mark is not 0: the
    unbounded scan of [nbc_stats_add] always ends inside its 256
    buckets, and the only division by the mark is the progress of a
    put. *)
Theorem nbc_callbacks_keep_history
    (vd ad : option Z) (vc ac : Z) (st0 st : nbc_state) :
  xine_nbc_init vd ad vc ac = Some st0 ->
  nbc_reachable XINE_FINE_SPEED_NORMAL st0 st ->
  live_ok (core st)
  /\ Some (high_water_mark (core st)) = xine_nbc_init_high_water_mark vd ad vc ac
  /\ forall env ty fifo buf,
       is_Some (nbc_get_cb XINE_FINE_SPEED_NORMAL env ty fifo buf st)
       /\ (high_water_mark (core st) <> 0 ->
           is_Some (nbc_put_cb XINE_FINE_SPEED_NORMAL env ty fifo buf st)).
Proof.
  intros Hinit Hreach.
  assert (Hok : keeps_live (core st0) (core st)).
  { induction Hreach as [|env ty fifo buf st st' eff _ IH E
                        |env ty fifo buf st st' eff _ IH E
                        |fifo st _ IH|st _ IH].
    - split; [eapply xine_nbc_init_ok, Hinit|reflexivity].
    - destruct IH as [IH Hm].
      destruct (proj2 (nbc_put_cb_ok env ty fifo buf st IH) _ _ E) as [H1 H2].
      split; [exact H1|congruence].
    - destruct IH as [IH Hm].
      destruct (nbc_get_cb_ok env ty fifo buf st IH) as (s & e & E' & H1 & H2).
      rewrite E in E'. injection E' as -> ->. split; [exact H1|congruence].
    - destruct IH as [IH Hm].
      destruct (nbc_alloc_cb_ok fifo st IH) as [H1 H2].
      split; [exact H1|congruence].
    - destruct IH as [IH Hm].
      destruct (xine_nbc_event_ok st IH) as [H1 H2].
      split; [exact H1|congruence]. }
  destruct Hok as [Hok Hm].
  split; [exact Hok|]. split.
  - rewrite Hm. unfold xine_nbc_init in Hinit.
    destruct (xine_nbc_init_high_water_mark vd ad vc ac); [|discriminate].
    now injection Hinit as <-.
  - intros env ty fifo buf. split.
    + destruct (nbc_get_cb_ok env ty fifo buf st Hok) as (s & e & E & _).
      rewrite E. eauto.
    + apply (nbc_put_cb_ok env ty fifo buf st Hok).
Qed.

Lemma keeps_speed_app e1 e2 :
  keeps_speed e1 -> keeps_speed e2 -> keeps_speed (e1 ++ e2).
Proof.
  intros H1 H2 v Hin. apply in_app_or in Hin as [Hin|Hin];
    [exact (H1 v Hin)|exact (H2 v Hin)].
Qed.

Lemma keeps_speed_stats type (verbose : bool) :
  keeps_speed ([Report_stats type] ++ (if verbose then [Display_stats] else [])).
Proof.
  intros v Hin. destruct verbose; cbn in Hin; intuition discriminate.
Qed.

Hypothesis normal_positive : 0 < XINE_FINE_SPEED_NORMAL.

Lemma apply_speed_normal :
  apply_speed XINE_FINE_SPEED_NORMAL
  = [Set_fine_speed XINE_FINE_SPEED_NORMAL].
Proof.
  unfold apply_speed, nbc_set_speed.
  destruct (Z.geb_spec XINE_FINE_SPEED_NORMAL 0); [|lia].
  destruct (Z.eqb_spec XINE_FINE_SPEED_NORMAL 0); [lia|reflexivity].
Qed.

Lemma buffering_progress_spec st :
  high_water_mark (core st) <> 0 ->
  exists p still,
    buffering_progress st = Some (p, still)
    /\ (still = false <->
        (stream_has st BUF_VIDEO_BASE \/ stream_has st BUF_AUDIO_BASE)
        /\ (stream_has st BUF_VIDEO_BASE -> above_mark st BUF_VIDEO_BASE)
        /\ (stream_has st BUF_AUDIO_BASE -> above_mark st BUF_AUDIO_BASE)).
Proof.
  intros Hm.
  unfold buffering_progress, progress_by_mark, stream_has, above_mark.
  cbn [rate_of].
  destruct (Z.eqb_spec (high_water_mark (core st)) 0) as [?|_]; [contradiction|].
  destruct (Z.eqb_spec (has_video st) 0) as [Hv|Hv];
    destruct (Z.eqb_spec (has_audio st) 0) as [Ha|Ha]; cbn [negb];
    try destruct (Z.gtb_spec (fifo_length (video_rate st))
                    (high_water_mark (core st)));
    try destruct (Z.gtb_spec (fifo_length (audio_rate st))
                    (high_water_mark (core st)));
    cbn [andb]; do 2 eexists; (split; [reflexivity|]);
    (split; [intros E; try discriminate E|intros (Hany & Hvid & Haud)]);
    try reflexivity; try (repeat split; intros; try tauto; lia);
    exfalso; try (specialize (Hvid Hv)); try (specialize (Haud Ha));
    try lia; destruct Hany; contradiction.
Qed.

(** X4.  On a seekable stream (live control off, a mark that is not 0)
    a put of a buffer of the fifo's type, while the controller buffers,
    ends the buffering
    exactly when the stream has video or audio and every fifo the
    stream has holds more than the high water mark.  It then sets the
    progress to 100 and asks for normal speed.  Otherwise the buffering
    goes on, the progress does not go down, and no speed is asked for;
    in particular a stream that has neither video nor audio yet never
    starts to play. *)
Theorem put_ends_buffering_above_mark
    (env : nbc_env) (ty : fifo_type) (fifo : fifo_buffer_t)
    (buf : buf_element_t) (st : nbc_state) :
  buf_type buf = Buf_data ty ->
  dvbspeed (core st) = 0 ->
  enabled (core st) <> 0 ->
  buffering (core st) <> 0 ->
  high_water_mark (core st) <> 0 ->
  exists st' effects,
    nbc_put_cb XINE_FINE_SPEED_NORMAL env ty fifo buf st = Some (st', effects)
    /\ (buffering (core st') = 0 <->
        (stream_has st' BUF_VIDEO_BASE \/ stream_has st' BUF_AUDIO_BASE)
        /\ (stream_has st' BUF_VIDEO_BASE -> above_mark st' BUF_VIDEO_BASE)
        /\ (stream_has st' BUF_AUDIO_BASE -> above_mark st' BUF_AUDIO_BASE))
    /\ (buffering (core st') = 0 ->
        progress (core st') = 100
        /\ sets_speed XINE_FINE_SPEED_NORMAL effects
        /\ In (Report_progress 100) effects)
    /\ (buffering (core st') <> 0 ->
        buffering (core st') = buffering (core st)
        /\ progress (core st) <= progress (core st')
        /\ keeps_speed effects).
Proof.
  intros Hbuf Hlive Hen Hbuffering Hmark.
  unfold nbc_put_cb. rewrite Hbuf, bool_decide_eq_true_2 by reflexivity.
  cbn [negb]. cbv zeta.
  match goal with
  | |- context [nbc_compute_fifo_length ?e ?t ?f ?p ?a ?s] =>
      pose proof (compute_core e t f p a s) as Hcore;
      set (sc := nbc_compute_fifo_length e t f p a s) in *;
      match type of Hcore with
      | _ = set_info _ _ (core (set_core ?t0 _)) => set (this := t0) in *
      end
  end.
  assert (Hd : dvbspeed this = 0)
    by (unfold this; split_ifs; exact Hlive).
  assert (He : enabled this = enabled (core st))
    by (unfold this; split_ifs; reflexivity).
  assert (Hb : buffering (core sc) = buffering (core st))
    by (rewrite Hcore; unfold this; split_ifs; reflexivity).
  assert (Hp : progress (core sc) = progress (core st))
    by (rewrite Hcore; unfold this; split_ifs; reflexivity).
  rewrite Hd, He. cbn [Z.eqb negb].
  destruct (Z.eqb_spec (enabled (core st)) 0) as [?|_]; [contradiction|].
  cbn [negb]. rewrite Hb.
  destruct (Z.eqb_spec (buffering (core st)) 0) as [?|_]; [contradiction|].
  cbn [negb].
  assert (Hm : high_water_mark (core sc) <> 0)
    by (rewrite Hcore; unfold this; split_ifs; exact Hmark).
  unfold put_buffering.
  destruct (buffering_progress_spec sc Hm) as (p & still & -> & Hspec).
  unfold put_buffering_with.
  destruct still; cbn [negb].
  - (* the buffering goes on *)
    assert (Hnot : ~ ((stream_has sc BUF_VIDEO_BASE \/ stream_has sc BUF_AUDIO_BASE)
                      /\ (stream_has sc BUF_VIDEO_BASE -> above_mark sc BUF_VIDEO_BASE)
                      /\ (stream_has sc BUF_AUDIO_BASE -> above_mark sc BUF_AUDIO_BASE)))
      by (intros H; apply Hspec in H; discriminate).
    match goal with
    | |- context [if ?c >? progress (core sc) then _ else _] =>
        destruct (Z.gtb_spec c (progress (core sc))) as [Hgt|Hle]
    end; do 2 eexists; (split; [reflexivity|]);
      cbn [core set_core set_buffering buffering progress];
      rewrite ?Hb; (split; [split; [intros; contradiction|intros H; now apply Hnot in H]|]);
      (split; [intros; contradiction|]); intros _;
      (split; [reflexivity|]); (split; [lia|]).
    + apply (keeps_speed_app [_]); [|apply keeps_speed_stats].
      intros v Hin. cbn in Hin. unfold report_progress in Hin.
      intuition discriminate.
    + apply keeps_speed_stats.
  - (* every fifo is above the mark *)
    do 2 eexists. split; [reflexivity|].
    cbn [core set_core set_buffering buffering progress].
    split; [split; [intros _; now apply Hspec|reflexivity]|].
    split; [|intros H; now contradiction H].
    intros _. split; [reflexivity|].
    rewrite apply_speed_normal. unfold sets_speed, report_progress.
    split; [rewrite !in_app_iff; right; right; now left|now left].
Qed.

Lemma sets_speed_pause : sets_speed 0 (apply_speed 0).
Proof. now left. Qed.

(** X5.  On a seekable stream a get of a buffer of the fifo's type
    starts the buffering exactly when a fifo the stream has is down to
    length 0 while both fifos have more than [FULL_FIFO_MARK] buffers
    free; it then sets the progress to 0 and pauses.  A get that does
    not start the buffering asks for no speed.  While the controller
    buffers, every get pauses again. *)
Theorem get_starts_buffering_on_empty
    (env : nbc_env) (ty : fifo_type) (fifo : fifo_buffer_t)
    (buf : buf_element_t) (st : nbc_state) :
  buf_type buf = Buf_data ty ->
  dvbspeed (core st) = 0 ->
  enabled (core st) <> 0 ->
  exists st' effects,
    nbc_get_cb XINE_FINE_SPEED_NORMAL env ty fifo buf st = Some (st', effects)
    /\ (buffering (core st) <> 0 ->
        buffering (core st') = buffering (core st) /\ sets_speed 0 effects)
    /\ (buffering (core st) = 0 ->
        (buffering (core st') <> 0 <->
         (exists ty', stream_has st' ty' /\ fifo_length (rate_of st' ty') = 0)
         /\ fifo_free (video (core st')) > FULL_FIFO_MARK
         /\ fifo_free (audio (core st')) > FULL_FIFO_MARK)
        /\ (buffering (core st') <> 0 ->
            progress (core st') = 0 /\ sets_speed 0 effects
            /\ In (Report_progress 0) effects)
        /\ (buffering (core st') = 0 -> keeps_speed effects)).
Proof.
  intros Hbuf Hlive Hen.
  unfold nbc_get_cb. rewrite Hbuf, bool_decide_eq_true_2 by reflexivity.
  cbn [negb]. cbv zeta.
  match goal with
  | |- context [nbc_compute_fifo_length ?e ?t ?f ?p ?a ?s] =>
      pose proof (compute_core e t f p a s) as Hcore;
      set (sc := nbc_compute_fifo_length e t f p a s) in *
  end.
  assert (Hb : buffering (core sc) = buffering (core st))
    by (rewrite Hcore; reflexivity).
  cbn [dvbspeed set_info enabled]. rewrite Hlive. cbn [Z.eqb negb].
  destruct (Z.eqb_spec (enabled (core st)) 0) as [?|_]; [contradiction|].
  cbn [negb]. rewrite Hb.
  destruct (Z.eqb_spec (buffering (core st)) 0) as [Hz|Hnz].
  - (* not buffering *)
    match goal with
    | |- context [if ?c then _ else _] =>
        assert (Hc : c = true <->
                     (exists ty', stream_has sc ty' /\ fifo_length (rate_of sc ty') = 0)
                     /\ fifo_free (video (core sc)) > FULL_FIFO_MARK
                     /\ fifo_free (audio (core sc)) > FULL_FIFO_MARK);
        [|destruct c]
    end.
    { rewrite !andb_true_iff, orb_true_iff, !andb_true_iff, !negb_true_iff,
        !Z.eqb_eq, !Z.eqb_neq, !Z.gtb_gt.
      split.
      - intros [[[H0 Hh]|[H0 Hh]] [Hv Ha]]; (split; [|lia]).
        + now exists BUF_VIDEO_BASE.
        + now exists BUF_AUDIO_BASE.
      - intros [([|] & Hh & H0) Hfree]; (split; [|lia]); [left|right]; now split. }
    + do 2 eexists. split; [reflexivity|].
      cbn [core set_core set_buffering buffering progress video audio].
      split; [intros; contradiction|]. intros _.
      split; [split; [intros _; now apply Hc|discriminate]|].
      split; [|intros; discriminate]. intros _.
      split; [reflexivity|]. unfold sets_speed, report_progress.
      split; [rewrite !in_app_iff; right; right; now left|now left].
    + do 2 eexists. split; [reflexivity|].
      split; [intros; contradiction|]. intros _.
      split; [split; [intros H; rewrite Hb in H; contradiction
                     |intros H; apply Hc in H; discriminate]|].
      split; [intros H; rewrite Hb in H; contradiction|].
      intros _. apply keeps_speed_stats.
  - do 2 eexists. split; [reflexivity|].
    split; [intros _; split; [exact Hb|apply sets_speed_pause]|].
    intros; contradiction.
Qed.

Hypothesis normal_fits : 1005 * XINE_FINE_SPEED_NORMAL <= INT_MAX.

Lemma faster_positive :
  0 < Z.quot (int32 (1005 * XINE_FINE_SPEED_NORMAL)) 1000.
Proof.
  rewrite int32_small by (unfold INT_MIN, INT_MAX in *; lia).
  apply Z.quot_str_pos. lia.
Qed.

Lemma set_speed_positive v : 0 < v -> nbc_set_speed v = [Set_fine_speed v].
Proof.
  intros H. unfold nbc_set_speed. now destruct (Z.eqb_spec v 0); [lia|].
Qed.

(** X6.  [nbc_alloc_cb] never leaves an enabled controller paused on a
    full buffer pool.  With at most [FULL_FIFO_MARK] buffers free: in
    live mode the controller ends in a state that plays faster (3 from
    the video states 1 and 2, 6 from 4, 5 and the prebuffer state 7),
    asking for 100.5% unless it was there already; on a seekable stream
    the buffering ends with progress 100 and normal speed.  No pause is
    asked for.  With more buffers free nothing happens. *)
Theorem alloc_cb_restarts_playback (fifo : fifo_buffer_t) (st : nbc_state) :
  0 <= dvbspeed (core st) <= 7 ->
  enabled (core st) <> 0 ->
  let st' := fst (nbc_alloc_cb XINE_FINE_SPEED_NORMAL fifo st) in
  let effects := snd (nbc_alloc_cb XINE_FINE_SPEED_NORMAL fifo st) in
  (fb_buffer_pool_num_free fifo <= FULL_FIFO_MARK ->
   (dvbspeed (core st) <> 0 ->
    dvbspeed (core st')
    = (if (dvbspeed (core st) <=? 3) then 3 else 6)
    /\ (dvbspeed (core st') <> dvbspeed (core st) ->
        effects
        = [Set_fine_speed (Z.quot (int32 (1005 * XINE_FINE_SPEED_NORMAL)) 1000)]))
   /\ (dvbspeed (core st) = 0 ->
       dvbspeed (core st') = 0 /\ buffering (core st') = 0
       /\ (buffering (core st) <> 0 ->
           progress (core st') = 100
           /\ effects = [Set_fine_speed XINE_FINE_SPEED_NORMAL; Report_progress 100]))
   /\ ~ sets_speed 0 effects)
  /\ (fb_buffer_pool_num_free fifo > FULL_FIFO_MARK -> st' = st /\ effects = []).
Proof.
  intros Hd Hen st' effects. subst st' effects. unfold nbc_alloc_cb.
  pose proof faster_positive as Hfast.
  destruct (Z.leb_spec (fb_buffer_pool_num_free fifo) FULL_FIFO_MARK) as [Hfull|Hfree].
  2:{ split; [intros; lia|]. now split. }
  split; [intros _|intros; lia].
  destruct (Z.eqb_spec (enabled (core st)) 0) as [?|_]; [contradiction|].
  cbn [negb].
  destruct (dvbspeed_cases (core st) Hd) as [E|[E|[E|[E|[E|[E|[E|E]]]]]]];
    rewrite E; eval_speed_bits; cbn [Z.eqb negb Pos.eqb fst snd Z.leb Z.compare
                                     Pos.compare Pos.compare_cont];
    try (destruct (Z.eqb_spec (buffering (core st)) 0) as [Hb|Hb]; cbn [negb fst snd]);
    cbn [core set_core dvbspeed set_dvbspeed set_buffering buffering progress fst snd];
    rewrite ?E, ?(set_speed_positive _ Hfast), ?(set_speed_positive _ normal_positive);
    unfold sets_speed, report_progress;
    repeat match goal with
           | |- _ /\ _ => split
           | |- _ -> _ => intro
           | |- ~ _ => intro
           end;
    try reflexivity; try assumption; try congruence;
    cbn in *; intuition (try discriminate; try congruence);
    repeat match goal with
           | H : Set_fine_speed _ = Set_fine_speed 0 |- _ => injection H as H
           end; lia.
Qed.

(** X7.  The end of the stream never leaves the engine paused.  A put
    of [BUF_CONTROL_END], [BUF_CONTROL_QUIT], or of a [BUF_CONTROL_NOP]
    with an end flag, switches the live control off (state 0, the delay
    agent stopped) and disables the controller.  It asks for normal
    speed if the controller was buffering, or was live in one of the
    states 2, 3, 5, 6, 7 (slower, faster, prebuffering), and never for a
    pause. *)
Theorem stream_end_leaves_playing
    (env : nbc_env) (ty : fifo_type) (fifo : fifo_buffer_t)
    (buf : buf_element_t) (st : nbc_state) :
  ends_stream buf ->
  0 <= dvbspeed (core st) <= 7 ->
  exists st' effects,
    nbc_put_cb XINE_FINE_SPEED_NORMAL env ty fifo buf st = Some (st', effects)
    /\ dvbspeed (core st') = 0
    /\ enabled (core st') = 0
    /\ (enabled (core st) <> 0 -> buffering (core st') = 0)
    /\ In Delay_stop effects
    /\ ~ sets_speed 0 effects
    /\ (enabled (core st) <> 0 -> buffering (core st) <> 0 ->
        sets_speed XINE_FINE_SPEED_NORMAL effects
        /\ In (Report_progress 100) effects)
    /\ (dvbspeed (core st) = 2 \/ dvbspeed (core st) = 3
        \/ dvbspeed (core st) = 5 \/ dvbspeed (core st) = 6
        \/ dvbspeed (core st) = 7 ->
        sets_speed XINE_FINE_SPEED_NORMAL effects).
Proof.
  intros Hend Hd. unfold nbc_put_cb.
  assert (Hctl : exists kind, buf_type buf = Buf_control kind
                 /\ put_control XINE_FINE_SPEED_NORMAL env ty buf kind st
                    = put_control_end XINE_FINE_SPEED_NORMAL st).
  { destruct Hend as [E|[E|[E F]]]; eexists; (split; [exact E|]);
      cbn [put_control]; rewrite ?F; reflexivity. }
  destruct Hctl as (kind & -> & ->).
  unfold put_control_end, dvbspeed_close.
  pose proof apply_speed_normal as Hn.
  pose proof (set_speed_positive _ normal_positive) as Hs.
  destruct (Z.eqb_spec (enabled (core st)) 0) as [He|He];
    destruct (Z.eqb_spec (buffering (core st)) 0) as [Hb|Hb];
    destruct (dvbspeed_cases (core st) Hd) as [E|[E|[E|[E|[E|[E|[E|E]]]]]]];
    rewrite ?E; eval_speed_bits;
    cbn [enabled buffering set_dvbspeed set_enabled negb];
    rewrite ?He, ?Hb; cbn [Z.eqb negb];
    try (destruct (Z.eqb_spec (enabled (core st)) 0) as [?|_]; [contradiction|]);
    try (destruct (Z.eqb_spec (buffering (core st)) 0) as [?|_]; [contradiction|]);
    cbn [negb]; do 2 eexists; (split; [reflexivity|]);
    cbn [core set_core control_counts set_info set_fifo_counts dvbspeed enabled
         buffering set_dvbspeed set_enabled set_buffering];
    rewrite ?Hn, ?Hs; unfold sets_speed, report_progress, apply_speed;
    rewrite ?E; finish_cases.
Qed.

Lemma dvbspeed_init_spec env this :
  keeps_speed (snd (dvbspeed_init env this))
  /\ enabled (fst (dvbspeed_init env this)) = enabled this
  /\ buffering (fst (dvbspeed_init env this)) = buffering this
  /\ pos_pts (fst (dvbspeed_init env this)) = pos_pts this
  /\ (use_dvbs env = true ->
      dvbspeed (fst (dvbspeed_init env this)) = 7
      /\ dvbs_center (fst (dvbspeed_init env this)) = 2 * 90000
      /\ dvbs_width (fst (dvbspeed_init env this)) = 90000
      /\ fill_pts (video (fst (dvbspeed_init env this))) = 0
      /\ fill_pts (audio (fst (dvbspeed_init env this))) = 0)
  /\ (use_dvbs env = false -> fst (dvbspeed_init env this) = this).
Proof.
  unfold dvbspeed_init. destruct (use_dvbs env); cbn [fst snd].
  - split.
    + intros v Hin. rewrite !in_app_iff in Hin.
      destruct (env_slow_fast_audio env) as [x|]; try destruct (x =? 0);
        destruct (env_video_num_buffers env) as [y|]; try destruct (y <? 800);
        cbn in Hin; intuition discriminate.
    + repeat split; try reflexivity; discriminate.
  - split; [intros v []|]. repeat split; try reflexivity; discriminate.
Qed.

(** X8.  [BUF_CONTROL_START] starts the buffering once.  On a
    disabled controller it enables it, starts the buffering at progress
    0 and forgets the position; a live source (an input with
    [INPUT_CAP_LIVE], or a DVB mrl) enters the prebuffer state 7 with
    the centre at 2 s, the width at 1 s and both fill times cleared, and
    is not paused here; any other stream whose live control is off is
    paused.  On a controller
    that is enabled already the buffer changes nothing but the fifo
    counts. *)
Theorem stream_start_buffers
    (env : nbc_env) (ty : fifo_type) (fifo : fifo_buffer_t)
    (buf : buf_element_t) (st : nbc_state) :
  buf_type buf = Buf_control BUF_CONTROL_START ->
  exists st' effects,
    nbc_put_cb XINE_FINE_SPEED_NORMAL env ty fifo buf st = Some (st', effects)
    /\ (enabled (core st) <> 0 ->
        effects = []
        /\ st' = set_core (control_counts ty fifo (core st)) st)
    /\ (enabled (core st) = 0 ->
        enabled (core st') = 1 /\ buffering (core st') = 1
        /\ progress (core st') = 0 /\ pos_pts (core st') = 0
        /\ In (Report_progress 0) effects
        /\ (use_dvbs env = true ->
            dvbspeed (core st') = 7
            /\ dvbs_center (core st') = 2 * 90000
            /\ dvbs_width (core st') = 90000
            /\ fill_pts (video (core st')) = 0
            /\ fill_pts (audio (core st')) = 0
            /\ keeps_speed effects)
        /\ (use_dvbs env = false ->
            dvbspeed (core st') = dvbspeed (core st)
            /\ (dvbspeed (core st) = 0 -> sets_speed 0 effects))).
Proof.
  intros Hbuf. unfold nbc_put_cb. rewrite Hbuf.
  cbn [put_control]. unfold put_control_start.
  destruct (Z.eqb_spec (enabled (core st)) 0) as [He|He].
  - match goal with
    | |- context [dvbspeed_init env ?t] =>
        pose proof (dvbspeed_init_spec env t) as Hinit;
        set (this := t) in *;
        destruct (dvbspeed_init env this) as [this' eff]
    end.
    cbn [fst snd] in Hinit.
    destruct Hinit as (Hkeep & Hen & Hbu & Hpos & Hlive & Hnot).
    do 2 eexists. split; [reflexivity|].
    split; [intros; contradiction|]. intros _.
    assert (Hcore : forall X Y Z W,
               core (set_core (control_counts ty fifo
                                 (core {| core := set_buffering (buffering this') 0 this';
                                          video_rate := X; audio_rate := Y;
                                          has_audio := Z; has_video := W |}))
                       {| core := set_buffering (buffering this') 0 this';
                          video_rate := X; audio_rate := Y;
                          has_audio := Z; has_video := W |})
               = control_counts ty fifo (set_buffering (buffering this') 0 this'))
      by reflexivity.
    rewrite Hcore.
    split; [destruct ty; cbn; rewrite Hen; reflexivity|].
    split; [destruct ty; cbn; rewrite Hbu; reflexivity|].
    split; [destruct ty; reflexivity|].
    split; [destruct ty; cbn; rewrite Hpos; reflexivity|].
    split; [unfold report_progress; rewrite !in_app_iff; cbn; tauto|].
    split.
    + intros Hdvb. destruct (Hlive Hdvb) as (H7 & Hc & Hw & Hv & Ha).
      split; [destruct ty; cbn; exact H7|].
      split; [destruct ty; cbn; exact Hc|].
      split; [destruct ty; cbn; exact Hw|].
      split; [destruct ty; cbn; exact Hv|].
      split; [destruct ty; cbn; exact Ha|].
      rewrite H7. cbn [Z.eqb]. unfold apply_speed. cbn [Z.geb Z.compare].
      rewrite app_nil_r. apply keeps_speed_app; [exact Hkeep|].
      intros v Hin. cbn in Hin. unfold report_progress in Hin.
      intuition discriminate.
    + intros Hdvb. specialize (Hnot Hdvb). subst this'.
      split; [destruct ty; reflexivity|].
      intros Hz. unfold this. cbn [dvbspeed set_buffering set_enabled set_pos_pts set_info].
      rewrite Hz. cbn [Z.eqb]. unfold sets_speed.
      rewrite !in_app_iff. right. now left.
  - do 2 eexists. split; [reflexivity|].
    split; [intros _; split; reflexivity|intros; contradiction].
Qed.

(** X9.  Discontinuities are counted in and out.  A put of
    [BUF_CONTROL_NEWPTS] followed by a get of it leaves the count
    [in_disc] of the fifo as it was, and neither touches the count of
    the other fifo.  While the count of a fifo is not 0,
    [nbc_compute_fifo_length] takes no timestamp of that fifo: its
    [first_pts] and [last_pts] stay. *)
Theorem discontinuity_is_bracketed
    (env : nbc_env) (ty : fifo_type) (fifo fifo' : fifo_buffer_t)
    (buf : buf_element_t) (pts : Z) (action : fifo_action) (st : nbc_state) :
  buf_type buf = Buf_control BUF_CONTROL_NEWPTS ->
  INT_MIN <= in_disc (rate_of st ty) < INT_MAX ->
  (exists st1 e1 st2 e2,
     nbc_put_cb XINE_FINE_SPEED_NORMAL env ty fifo buf st = Some (st1, e1)
     /\ nbc_get_cb XINE_FINE_SPEED_NORMAL env ty fifo' buf st1 = Some (st2, e2)
     /\ in_disc (rate_of st1 ty) = in_disc (rate_of st ty) + 1
     /\ (forall ty', in_disc (rate_of st2 ty') = in_disc (rate_of st ty'))
     /\ e1 = [] /\ e2 = [])
  /\ (in_disc (rate_of st ty) <> 0 ->
      let st' := nbc_compute_fifo_length env ty fifo pts action st in
      first_pts (rate_of st' ty) = first_pts (rate_of st ty)
      /\ last_pts (rate_of st' ty) = last_pts (rate_of st ty)).
Proof.
  intros Hbuf Hrange. split.
  - unfold nbc_put_cb, nbc_get_cb. rewrite Hbuf. cbn [put_control].
    do 4 eexists. split; [reflexivity|]. split; [reflexivity|].
    assert (Hup : int32 (in_disc (rate_of st ty) + 1) = in_disc (rate_of st ty) + 1)
      by (apply int32_small; unfold INT_MIN, INT_MAX in *; lia).
    assert (Hdown : int32 (in_disc (rate_of st ty) + 1 - 1) = in_disc (rate_of st ty))
      by (rewrite int32_small; unfold INT_MIN, INT_MAX in *; lia).
    split; [destruct ty; cbn; exact Hup|].
    split; [|split; reflexivity].
    intros ty'. destruct ty, ty'; cbn in *; rewrite ?Hup; try reflexivity;
      exact Hdown.
  - intros Hdisc st'. subst st'. unfold nbc_compute_fifo_length. cbv zeta.
    assert (Hin : in_disc (rate_of
                    {| core := core st;
                       video_rate := set_stream_br (env_video_bitrate env) (video_rate st);
                       audio_rate := set_stream_br (env_audio_bitrate env) (audio_rate st);
                       has_audio := env_has_audio env;
                       has_video := env_has_video env |} ty)
                  = in_disc (rate_of st ty)) by (destruct ty; reflexivity).
    rewrite Hin.
    destruct (Z.eqb_spec (in_disc (rate_of st ty)) 0) as [?|_]; [contradiction|].
    rewrite andb_false_r.
    split_ifs; destruct ty; split; reflexivity.
Qed.

End CallbackFacts.

Lemma nbc_callbacks_keep_history_witness :
  exists st0 st1 e1 st2 e2,
    xine_nbc_init (Some 500) (Some 230) 500 230 = Some st0
    /\ nbc_put_cb 1000000 sample_env BUF_VIDEO_BASE (sample_fifo 1 499)
         sample_start st0 = Some (st1, e1)
    /\ nbc_put_cb 1000000 sample_env BUF_VIDEO_BASE (sample_fifo 10 490)
         (sample_buf BUF_VIDEO_BASE 90000) st1 = Some (st2, e2)
    /\ enabled (core st0) = 0 /\ enabled (core st2) = 1
    /\ last_in_pts (video (core st2)) = 90000
    /\ live_ok (core st2)
    /\ high_water_mark (core st2) = 5000
    /\ is_Some (nbc_get_cb 1000000 sample_env BUF_VIDEO_BASE (sample_fifo 9 491)
                  (sample_buf BUF_VIDEO_BASE 90000) st2)
    /\ is_Some (nbc_put_cb 1000000 sample_env BUF_AUDIO_BASE (sample_fifo 3 227)
                  (sample_buf BUF_AUDIO_BASE 93000) st2).
Proof.
  assert (Hmark : xine_nbc_init_high_water_mark (Some 500) (Some 230) 500 230
                  = Some 5000) by (vm_compute; reflexivity).
  destruct (xine_nbc_init (Some 500) (Some 230) 500 230) as [st0|] eqn:Hinit;
    [|unfold xine_nbc_init in Hinit; rewrite Hmark in Hinit; discriminate].
  assert (Hen0 : enabled (core st0) = 0).
  { unfold xine_nbc_init in Hinit. rewrite Hmark in Hinit. now injection Hinit as <-. }
  pose proof (nbc_callbacks_keep_history 1000000 (Some 500) (Some 230) 500 230 st0)
    as Hkeep.
  assert (H0 : nbc_reachable 1000000 st0 st0) by constructor.
  destruct (Hkeep st0 Hinit H0) as (_ & Hm0 & Hc0).
  rewrite Hmark in Hm0. injection Hm0 as Hm0.
  destruct (proj2 (Hc0 sample_env BUF_VIDEO_BASE (sample_fifo 1 499) sample_start))
    as [[st1 e1] E1]; [rewrite Hm0; discriminate|].
  assert (H1 : nbc_reachable 1000000 st0 st1) by (eapply nbc_reach_put; eassumption).
  destruct (Hkeep st1 Hinit H1) as (_ & Hm1 & Hc1).
  rewrite Hmark in Hm1. injection Hm1 as Hm1.
  destruct (proj2 (Hc1 sample_env BUF_VIDEO_BASE (sample_fifo 10 490)
                     (sample_buf BUF_VIDEO_BASE 90000)))
    as [[st2 e2] E2]; [rewrite Hm1; discriminate|].
  assert (H2 : nbc_reachable 1000000 st0 st2) by (eapply nbc_reach_put; eassumption).
  destruct (Hkeep st2 Hinit H2) as (Hlive2 & Hm2 & Hc2).
  rewrite Hmark in Hm2. injection Hm2 as Hm2.
  exists st0, st1, e1, st2, e2.
  split; [reflexivity|]. split; [exact E1|]. split; [exact E2|].
  split; [exact Hen0|].
  assert (Hst2 : enabled (core st2) = 1 /\ last_in_pts (video (core st2)) = 90000).
  { clear - Hinit Hmark E1 E2.
    unfold xine_nbc_init in Hinit. rewrite Hmark in Hinit. injection Hinit as <-.
    vm_compute in E1. injection E1 as <- <-.
    vm_compute in E2. injection E2 as <- <-.
    split; reflexivity. }
  split; [apply Hst2|]. split; [apply Hst2|].
  split; [exact Hlive2|]. split; [exact Hm2|].
  split; [apply Hc2|].
  apply Hc2. rewrite Hm2. discriminate.
Defined.

Lemma put_ends_buffering_above_mark_witness :
  exists st' effects,
    nbc_put_cb 1000000 sample_env BUF_VIDEO_BASE (sample_fifo 10 490)
      (sample_buf BUF_VIDEO_BASE 90000) (sample_state 1 1 0) = Some (st', effects)
    /\ (buffering (core st') <> 0 -> keeps_speed effects).
Proof.
  destruct (put_ends_buffering_above_mark 1000000 ltac:(lia) sample_env
              BUF_VIDEO_BASE (sample_fifo 10 490) (sample_buf BUF_VIDEO_BASE 90000)
              (sample_state 1 1 0))
    as (st' & effects & E & _ & _ & H).
  - reflexivity.
  - reflexivity.
  - discriminate.
  - discriminate.
  - discriminate.
  - exists st', effects. split; [exact E|]. intros Hb. now apply H.
Defined.

Lemma get_starts_buffering_on_empty_witness :
  exists st' effects,
    nbc_get_cb 1000000 sample_env BUF_VIDEO_BASE (sample_fifo 10 490)
      (sample_buf BUF_VIDEO_BASE 90000) (sample_state 1 1 0) = Some (st', effects)
    /\ sets_speed 0 effects.
Proof.
  destruct (get_starts_buffering_on_empty 1000000 sample_env
              BUF_VIDEO_BASE (sample_fifo 10 490) (sample_buf BUF_VIDEO_BASE 90000)
              (sample_state 1 1 0))
    as (st' & effects & E & H & _).
  - reflexivity.
  - reflexivity.
  - discriminate.
  - exists st', effects. split; [exact E|]. apply H. discriminate.
Defined.

Lemma alloc_cb_restarts_playback_witness :
  dvbspeed (core (fst (nbc_alloc_cb 1000000 (sample_fifo 495 5) (sample_state 1 1 0)))) = 0
  /\ buffering (core (fst (nbc_alloc_cb 1000000 (sample_fifo 495 5) (sample_state 1 1 0)))) = 0
  /\ snd (nbc_alloc_cb 1000000 (sample_fifo 495 5) (sample_state 1 1 0))
     = [Set_fine_speed 1000000; Report_progress 100].
Proof.
  destruct (alloc_cb_restarts_playback 1000000 ltac:(lia)
              ltac:(unfold CInt.INT_MAX; lia) (sample_fifo 495 5) (sample_state 1 1 0))
    as [H _].
  - cbn. lia.
  - discriminate.
  - destruct H as (_ & (Hd & Hb & Hp) & _).
    + cbn. unfold FULL_FIFO_MARK. lia.
    + reflexivity.
    + split; [exact Hd|]. split; [exact Hb|]. apply Hp. discriminate.
Defined.

Lemma stream_end_leaves_playing_witness :
  exists st' effects,
    nbc_put_cb 1000000 sample_env BUF_VIDEO_BASE (sample_fifo 10 490)
      (sample_control BUF_CONTROL_END) (sample_state 0 1 7) = Some (st', effects)
    /\ dvbspeed (core st') = 0 /\ enabled (core st') = 0
    /\ ~ sets_speed 0 effects.
Proof.
  destruct (stream_end_leaves_playing 1000000 ltac:(lia) sample_env
              BUF_VIDEO_BASE (sample_fifo 10 490) (sample_control BUF_CONTROL_END)
              (sample_state 0 1 7))
    as (st' & effects & E & Hd & He & _ & _ & Hs & _).
  - left. reflexivity.
  - cbn. lia.
  - exists st', effects. repeat split; assumption.
Defined.

Lemma stream_start_buffers_witness :
  exists st' effects,
    nbc_put_cb 1000000 sample_env BUF_VIDEO_BASE (sample_fifo 0 500)
      sample_start (sample_state 0 0 0) = Some (st', effects)
    /\ enabled (core st') = 1 /\ buffering (core st') = 1
    /\ sets_speed 0 effects.
Proof.
  destruct (stream_start_buffers 1000000 sample_env BUF_VIDEO_BASE
              (sample_fifo 0 500) sample_start (sample_state 0 0 0))
    as (st' & effects & E & _ & H); [reflexivity|].
  destruct H as (He & Hb & _ & _ & _ & _ & Hs); [reflexivity|].
  exists st', effects. repeat split; try assumption.
  apply Hs; reflexivity.
Defined.

Lemma discontinuity_is_bracketed_witness :
  exists st1 e1 st2 e2,
    nbc_put_cb 1000000 sample_env BUF_AUDIO_BASE (sample_fifo 10 490)
      (sample_control BUF_CONTROL_NEWPTS) (sample_state 0 1 0) = Some (st1, e1)
    /\ nbc_get_cb 1000000 sample_env BUF_AUDIO_BASE (sample_fifo 9 491)
         (sample_control BUF_CONTROL_NEWPTS) st1 = Some (st2, e2)
    /\ in_disc (audio_rate st1) = 1 /\ in_disc (audio_rate st2) = 0.
Proof.
  destruct (discontinuity_is_bracketed 1000000 sample_env BUF_AUDIO_BASE
              (sample_fifo 10 490) (sample_fifo 9 491)
              (sample_control BUF_CONTROL_NEWPTS) 0 FIFO_PUT (sample_state 0 1 0))
    as [(st1 & e1 & st2 & e2 & E1 & E2 & H1 & H2 & _) _].
  - reflexivity.
  - cbn. unfold CInt.INT_MIN, CInt.INT_MAX. lia.
  - exists st1, e1, st2, e2. split; [exact E1|]. split; [exact E2|].
    split; [exact H1|exact (H2 BUF_AUDIO_BASE)].
Defined.

(** ** Registering plugins *)

Section RegisterFacts.

Variable PLUGINS_PER_TYPE : nat.
Variable DECODER_MAX : nat.
Variable PLUGIN_MAX : Z.
Variable plugin_iface_versions : plugin_type -> Z.
Variable register_num : string -> Z.
Variable config_version : Z.

Lemma string_compare_refl (a : string) : String.compare a a = Eq.
Proof.
  induction a as [|ch a IH]; [reflexivity|]. simpl.
  unfold Ascii.compare. now rewrite N.compare_refl.
Qed.

Lemma string_compare_lt_trans (a b c : string) :
  String.compare a b = Lt -> String.compare b c = Lt -> String.compare a c = Lt.
Proof.
  revert b c. induction a as [|x a IH]; intros [|y b] [|z c]; simpl;
    try discriminate; try reflexivity.
  unfold Ascii.compare.
  destruct (N.compare_spec (N_of_ascii x) (N_of_ascii y)) as [Exy|Hxy|Hxy];
    destruct (N.compare_spec (N_of_ascii y) (N_of_ascii z)) as [Eyz|Hyz|Hyz];
    try discriminate; intros H1 H2.
  - rewrite Exy, Eyz, N.compare_refl. now apply (IH b c).
  - rewrite Exy. now apply N.compare_lt_iff in Hyz as ->.
  - rewrite <- Eyz. now apply N.compare_lt_iff in Hxy as ->.
  - assert (H : (N_of_ascii x < N_of_ascii z)%N) by lia.
    now apply N.compare_lt_iff in H as ->.
Qed.

Lemma strcmp_le_trans (a b c : string) :
  strcmp a b <= 0 -> strcmp b c <= 0 -> strcmp a c <= 0.
Proof.
  unfold strcmp.
  destruct (String.compare a b) eqn:Eab; try lia;
    destruct (String.compare b c) eqn:Ebc; try lia; intros _ _.
  - apply String.compare_eq_iff in Eab, Ebc. subst.
    rewrite string_compare_refl. lia.
  - apply String.compare_eq_iff in Eab. subst. rewrite Ebc. lia.
  - apply String.compare_eq_iff in Ebc. subst. rewrite Eab. lia.
  - rewrite (string_compare_lt_trans a b c Eab Ebc). lia.
Qed.

Lemma strcmp_total (a b : string) : strcmp a b < 0 \/ strcmp b a <= 0.
Proof.
  unfold strcmp. rewrite (String.compare_antisym a b).
  destruct (String.compare b a); simpl; lia.
Qed.

Lemma post_before_trans nd a b c :
  post_before nd a b -> post_before nd b c -> post_before nd a c.
Proof.
  unfold post_before. intros [H1|[H1 S1]] [H2|[H2 S2]];
    try (left; lia).
  right. split; [lia|]. eapply strcmp_le_trans; eassumption.
Qed.

(** What the comparator of a list says of the priorities. *)
Lemma list_comparator_negative ty nd x e :
  list_comparator ty nd x e < 0 -> node_priority (nd x) >= node_priority (nd e).
Proof.
  destruct ty; cbn [list_comparator];
    try (intros H; apply comparator_negative in H; lia).
  unfold _post_plugin_node_comparator.
  destruct (Z.eqb_spec (node_priority (nd x)) (node_priority (nd e))); cbn [negb];
    [lia|].
  destruct (Z.ltb_spec (node_priority (nd x)) (node_priority (nd e))); lia.
Qed.

Lemma list_comparator_nonnegative ty nd x e :
  ~ list_comparator ty nd x e < 0 -> node_priority (nd e) >= node_priority (nd x).
Proof.
  destruct ty; cbn [list_comparator];
    try (intros H;
         destruct (Z.gt_dec (node_priority (nd x)) (node_priority (nd e))) as [Hgt|];
         [apply comparator_negative in Hgt; contradiction|lia]).
  unfold _post_plugin_node_comparator.
  destruct (Z.eqb_spec (node_priority (nd x)) (node_priority (nd e))); cbn [negb];
    [lia|].
  destruct (Z.ltb_spec (node_priority (nd x)) (node_priority (nd e))); lia.
Qed.

Lemma sarray_add_falling_list ty nd l x :
  falling nd l -> falling nd (xine_sarray_add (list_comparator ty nd) l x).
Proof.
  unfold falling. induction l as [|e t IH]; intros Hs; simpl.
  - repeat constructor.
  - apply StronglySorted_cons in Hs as [Hall Hs].
    destruct (Z.ltb_spec (list_comparator ty nd x e) 0) as [Hlt|Hge].
    + apply list_comparator_negative in Hlt.
      apply StronglySorted_cons. split.
      * constructor; [lia|].
        rewrite Forall_forall in *. intros y Hy. specialize (Hall y Hy). lia.
      * apply StronglySorted_cons. now split.
    + assert (Hle : node_priority (nd e) >= node_priority (nd x))
        by (apply (list_comparator_nonnegative ty); lia).
      apply StronglySorted_cons. split; [|now apply IH].
      rewrite (sarray_add_perm _ t x). constructor; assumption.
Qed.

Lemma post_comparator_negative nd x e :
  _post_plugin_node_comparator nd x e < 0 -> post_before nd x e.
Proof.
  unfold _post_plugin_node_comparator, post_before.
  destruct (Z.eqb_spec (node_priority (nd x)) (node_priority (nd e))); cbn [negb].
  - intros H. right. split; [assumption|lia].
  - destruct (Z.ltb_spec (node_priority (nd x)) (node_priority (nd e))); lia.
Qed.

Lemma post_comparator_nonnegative nd x e :
  ~ _post_plugin_node_comparator nd x e < 0 -> post_before nd e x.
Proof.
  unfold _post_plugin_node_comparator, post_before.
  destruct (Z.eqb_spec (node_priority (nd x)) (node_priority (nd e))); cbn [negb].
  - intros H. right. split; [lia|].
    destruct (strcmp_total (node_id (nd x)) (node_id (nd e))); [contradiction|assumption].
  - destruct (Z.ltb_spec (node_priority (nd x)) (node_priority (nd e))); lia.
Qed.

Lemma sarray_add_post_sorted nd l x :
  StronglySorted (post_before nd) l ->
  StronglySorted (post_before nd)
    (xine_sarray_add (_post_plugin_node_comparator nd) l x).
Proof.
  induction l as [|e t IH]; intros Hs; simpl.
  - repeat constructor.
  - apply StronglySorted_cons in Hs as [Hall Hs].
    destruct (Z.ltb_spec (_post_plugin_node_comparator nd x e) 0) as [Hlt|Hge].
    + apply post_comparator_negative in Hlt.
      apply StronglySorted_cons. split.
      * constructor; [exact Hlt|].
        rewrite Forall_forall in *. intros y Hy.
        eapply post_before_trans; [exact Hlt|]. now apply Hall.
      * apply StronglySorted_cons. now split.
    + assert (Hle : post_before nd e x)
        by (apply post_comparator_nonnegative; lia).
      apply StronglySorted_cons. split; [|now apply IH].
      rewrite (sarray_add_perm _ t x). constructor; assumption.
Qed.

Lemma post_sorted_ext nd nd' l :
  (forall a, a ∈ l -> nd' a = nd a) ->
  StronglySorted (post_before nd) l -> StronglySorted (post_before nd') l.
Proof.
  induction l as [|x l IH]; intros Hext Hs; [constructor|].
  apply StronglySorted_cons in Hs as [Hall Hs].
  apply StronglySorted_cons. split.
  - rewrite Forall_forall in *. intros y Hy. unfold post_before.
    rewrite (Hext x), (Hext y) by (apply elem_of_cons; auto). now apply Hall.
  - apply IH; [|exact Hs]. intros a Ha. apply Hext. apply elem_of_cons. auto.
Qed.

Lemma sarray_add_sublist cmp l x : sublist l (xine_sarray_add cmp l x).
Proof.
  induction l as [|e t IH]; simpl; [apply sublist_nil_l|].
  destruct (cmp x e <? 0); [now apply sublist_cons|now apply sublist_skip].
Qed.

Lemma sarray_add_length cmp l x :
  length (xine_sarray_add cmp l x) = S (length l).
Proof. now rewrite sarray_add_perm. Qed.

Lemma insert_node_fill_type ty cached ainfo up cv n :
  node_type (insert_node_fill ty cached ainfo up cv n) = node_type n.
Proof. destruct ty; reflexivity. Qed.

(** The outcomes of [_insert_node] for an entry that is not cached. *)
Lemma insert_node_new c info up cv :
  let r := _insert_node DECODER_MAX PLUGIN_MAX plugin_iface_versions c None info
             up cv in
  (r = (c, None, 1) \/ r = (c, None, 2))
  \/ exists ty c',
       r = (c', Some (nodes_end c), 0)
       /\ info_type info = Some ty
       /\ plugin_count c < PLUGIN_MAX
       /\ (is_decoder ty = true -> decoder_count c < Z.of_nat DECODER_MAX)
       /\ node_type (nodes c' (nodes_end c)) = ty
       /\ (forall b, b <> nodes_end c -> nodes c' b = nodes c b)
       /\ nodes_end c' = S (nodes_end c)
       /\ plugin_lists c' ty
          = xine_sarray_add (list_comparator ty (nodes c')) (plugin_lists c ty)
              (nodes_end c)
       /\ (forall ty', ty' <> ty -> plugin_lists c' ty' = plugin_lists c ty')
       /\ audio_decoder_map c' = audio_decoder_map c
       /\ video_decoder_map c' = video_decoder_map c
       /\ spu_decoder_map c' = spu_decoder_map c
       /\ plugin_count c' = plugin_count c + 1
       /\ decoder_count c'
          = if is_decoder ty then decoder_count c + 1 else decoder_count c.
Proof.
  intros r. subst r. unfold _insert_node.
  destruct (info_type info) as [ty|]; [|now left; left].
  unfold insert_node_sanity.
  destruct (info_id info) as [id|]; [|now left; left].
  destruct (negb (info_API info =? plugin_iface_versions ty)); [now left; left|].
  rewrite bool_decide_eq_false_2 by (intros [? ?]; discriminate).
  cbn [negb andb].
  destruct (info_init info); cbn [negb]; [|now left; left].
  assert (Hfin : forall room (ainfo : option all_info_t),
    0 < room -> room <= PLUGIN_MAX - plugin_count c ->
    (is_decoder ty = true -> room <= Z.of_nat DECODER_MAX - decoder_count c) ->
    exists c',
      (let '(c0, entry) :=
         (set_nodes_end (S (nodes_end c))
            (update_node (nodes_end c) (fun _ => fresh_node ty id) c), nodes_end c) in
       let c1 := update_node entry
                   (insert_node_fill ty (bool_decide (is_Some (@None nat))) ainfo up cv)
                   c0 in
       let c2 := if is_decoder ty
                 then set_counts (plugin_count c1) (decoder_count c1 + 1) c1 else c1 in
       let c3 := set_plugin_list ty
                   (xine_sarray_add (list_comparator ty (nodes c2))
                      (plugin_lists c2 ty) entry) c2 in
       (set_counts (plugin_count c3 + 1) (decoder_count c3) c3, Some entry, 0))
      = (c', Some (nodes_end c), 0)
      /\ Some ty = Some ty
      /\ plugin_count c < PLUGIN_MAX
      /\ (is_decoder ty = true -> decoder_count c < Z.of_nat DECODER_MAX)
      /\ node_type (nodes c' (nodes_end c)) = ty
      /\ (forall b, b <> nodes_end c -> nodes c' b = nodes c b)
      /\ nodes_end c' = S (nodes_end c)
      /\ plugin_lists c' ty
         = xine_sarray_add (list_comparator ty (nodes c')) (plugin_lists c ty)
             (nodes_end c)
      /\ (forall ty', ty' <> ty -> plugin_lists c' ty' = plugin_lists c ty')
      /\ audio_decoder_map c' = audio_decoder_map c
      /\ video_decoder_map c' = video_decoder_map c
      /\ spu_decoder_map c' = spu_decoder_map c
      /\ plugin_count c' = plugin_count c + 1
      /\ decoder_count c'
         = if is_decoder ty then decoder_count c + 1 else decoder_count c).
  { intros room ainfo Hpos Hroom Hdroom. eexists. split; [reflexivity|].
    split; [reflexivity|]. split; [lia|].
    split; [intros Hd; specialize (Hdroom Hd); lia|].
    destruct (is_decoder ty) eqn:Hdec; cbn;
      rewrite ?Nat.eqb_refl, ?insert_node_fill_type;
      (split; [reflexivity|]);
      (split; [intros b Hb; apply Nat.eqb_neq in Hb; now rewrite Hb|]);
      (split; [reflexivity|]);
      (split; [now rewrite decide_True by reflexivity|]);
      (split; [intros ty' Hne; now rewrite decide_False by exact Hne|]);
      repeat split; reflexivity. }
  destruct (info_special info) as [ainfo|].
  - destruct (is_decoder ty) eqn:Hdec.
    + destruct (ai_supported_types ainfo) as [types|]; [|now left; left].
      match goal with
      | |- context [if ?room <=? 0 then _ else _] =>
          destruct (Z.leb_spec room 0) as [Hfull|Hroom]
      end; [now left; right|].
      right. exists ty.
      destruct (Hfin _ (Some ainfo) Hroom) as (c' & E & Hrest);
        [destruct (Z.gtb_spec (PLUGIN_MAX - plugin_count c)
                     (Z.of_nat DECODER_MAX - decoder_count c)); lia
        |intros _; destruct (Z.gtb_spec (PLUGIN_MAX - plugin_count c)
                               (Z.of_nat DECODER_MAX - decoder_count c)); lia|].
      rewrite ?Hdec. exists c'. split; [exact E|exact Hrest].
    + destruct (Z.leb_spec (PLUGIN_MAX - plugin_count c) 0) as [Hfull|Hroom];
        [now left; right|].
      right. exists ty.
      destruct (Hfin _ (Some ainfo) Hroom) as (c' & E & Hrest);
        [lia|discriminate|].
      rewrite ?Hdec. exists c'. split; [exact E|exact Hrest].
  - destruct (needs_special_info ty) eqn:Hneed; [now left; left|].
    assert (Hdec : is_decoder ty = false) by (destruct ty; try discriminate; reflexivity).
    destruct (Z.leb_spec (PLUGIN_MAX - plugin_count c) 0) as [Hfull|Hroom];
      [now left; right|].
    right. exists ty. rewrite Hdec in Hfin |- *.
    destruct (Hfin _ None Hroom) as (c' & E & Hrest);
      [lia|discriminate|].
    exists c'. split; [exact E|exact Hrest].
Qed.

Lemma catalog_extends_refl c : catalog_extends c c.
Proof. split; try reflexivity. Qed.

Lemma catalog_extends_trans c1 c2 c3 :
  catalog_extends c1 c2 -> catalog_extends c2 c3 -> catalog_extends c1 c3.
Proof.
  intros [L1 N1 E1 A1 V1 S1] [L2 N2 E2 A2 V2 S2]. split.
  - intros ty. etransitivity; [apply L1|apply L2].
  - intros a Ha. rewrite N2 by lia. now apply N1.
  - lia.
  - congruence.
  - congruence.
  - congruence.
Qed.

Lemma listed_insert c c' ty :
  length (plugin_lists c' ty) = S (length (plugin_lists c ty)) ->
  (forall ty', ty' <> ty -> plugin_lists c' ty' = plugin_lists c ty') ->
  listed c' = S (listed c)
  /\ decoders_listed c'
     = if is_decoder ty then S (decoders_listed c) else decoders_listed c.
Proof.
  intros Hlen Hother. unfold listed, decoders_listed, plugin_types.
  destruct ty; cbn; rewrite Hlen, !Hother by discriminate; split; lia.
Qed.

(** One call of [_insert_node] for an entry that is not cached keeps a
    catalog in order and within its limits. *)
Lemma insert_node_ok c info up cv :
  catalog_ok c ->
  let c' := fst (fst (_insert_node DECODER_MAX PLUGIN_MAX plugin_iface_versions
                        c None info up cv)) in
  catalog_ok c' /\ catalog_extends c c'
  /\ (plugin_count c <= PLUGIN_MAX -> plugin_count c' <= PLUGIN_MAX)
  /\ (decoder_count c <= Z.of_nat DECODER_MAX ->
      decoder_count c' <= Z.of_nat DECODER_MAX).
Proof.
  intros Hok c'. subst c'.
  destruct (insert_node_new c info up cv) as [[->| ->]|Hnew];
    try (cbn [fst]; split; [exact Hok|]; split; [apply catalog_extends_refl|];
         split; intros H; exact H).
  destruct Hnew as (ty & c' & -> & Hty & Hroom & Hdroom & Hnty & Hnodes & Hend
                    & Hlist & Hother & Ha & Hv & Hs & Hpc & Hdc).
  cbn [fst].
  destruct Hok as [Hcount Hdcount Hfall Hpost Hnodup Htyped Halloc].
  assert (Hfresh : forall ty', nodes_end c ∉ plugin_lists c ty').
  { intros ty' Hin. apply Halloc in Hin. lia. }
  assert (Hsame : forall ty' a, a ∈ plugin_lists c ty' -> nodes c' a = nodes c a).
  { intros ty' a Hin. apply Hnodes. intros ->. now apply (Hfresh ty'). }
  assert (Hlen : length (plugin_lists c' ty) = S (length (plugin_lists c ty)))
    by (rewrite Hlist; apply sarray_add_length).
  destruct (listed_insert c c' ty Hlen Hother) as [Hl Hd].
  split; [split|].
  - rewrite Hpc, Hcount, Hl. lia.
  - rewrite Hdc, Hdcount, Hd. destruct (is_decoder ty); lia.
  - intros ty'. destruct (decide (ty' = ty)) as [->|Hne].
    + rewrite Hlist. apply sarray_add_falling_list.
      eapply falling_ext; [|apply Hfall]. intros a Ha'.
      now rewrite (Hsame ty a Ha').
    + rewrite (Hother ty' Hne). eapply falling_ext; [|apply Hfall].
      intros a Ha'. now rewrite (Hsame ty' a Ha').
  - destruct (decide (PLUGIN_POST = ty)) as [<-|Hne].
    + rewrite Hlist. apply sarray_add_post_sorted.
      eapply post_sorted_ext; [|exact Hpost]. intros a Ha'.
      apply (Hsame PLUGIN_POST a Ha').
    + rewrite (Hother PLUGIN_POST Hne).
      eapply post_sorted_ext; [|exact Hpost]. intros a Ha'.
      apply (Hsame PLUGIN_POST a Ha').
  - intros ty'. destruct (decide (ty' = ty)) as [->|Hne].
    + rewrite Hlist, sarray_add_perm. apply NoDup_cons. split; [apply Hfresh|apply Hnodup].
    + rewrite (Hother ty' Hne). apply Hnodup.
  - intros ty' a. destruct (decide (ty' = ty)) as [->|Hne].
    + rewrite Hlist, sarray_add_perm. intros [->|Hin]%elem_of_cons; [exact Hnty|].
      rewrite (Hsame ty a Hin). now apply Htyped.
    + rewrite (Hother ty' Hne). intros Hin.
      rewrite (Hsame ty' a Hin). now apply Htyped.
  - intros ty' a. rewrite Hend. destruct (decide (ty' = ty)) as [->|Hne].
    + rewrite Hlist, sarray_add_perm. intros [->|Hin]%elem_of_cons; [lia|].
      apply Halloc in Hin. lia.
    + rewrite (Hother ty' Hne). intros Hin. apply Halloc in Hin. lia.
  - split; [split|].
    + intros ty'. destruct (decide (ty' = ty)) as [->|Hne].
      * rewrite Hlist. apply sarray_add_sublist.
      * now rewrite (Hother ty' Hne).
    + intros a Ha'. apply Hnodes. lia.
    + lia.
    + exact Ha.
    + exact Hv.
    + exact Hs.
    + split.
      * intros _. rewrite Hpc. lia.
      * intros Hle. rewrite Hdc. destruct (is_decoder ty); [|exact Hle].
        specialize (Hdroom eq_refl). lia.
Qed.

Lemma register_plugins_ok infos c :
  catalog_ok c ->
  let c' := xine_register_plugins DECODER_MAX PLUGIN_MAX plugin_iface_versions
              register_num config_version infos c in
  catalog_ok c' /\ catalog_extends c c'
  /\ (plugin_count c <= PLUGIN_MAX -> plugin_count c' <= PLUGIN_MAX)
  /\ (decoder_count c <= Z.of_nat DECODER_MAX ->
      decoder_count c' <= Z.of_nat DECODER_MAX).
Proof.
  unfold xine_register_plugins. revert c.
  induction infos as [|info rest IH]; intros c Hok; cbn [_register_plugins_internal fst].
  - split; [exact Hok|]. split; [apply catalog_extends_refl|]. split; intros H; exact H.
  - pose proof (insert_node_ok c info
                  (register_num (decoder_priority_key (default EmptyString (info_id info))))
                  config_version Hok) as Hstep.
    destruct (_insert_node _ _ _ c None info _ _) as [[c1 r] status].
    cbn [fst] in Hstep. destruct Hstep as (Hok1 & Hext1 & Hp1 & Hd1).
    specialize (IH c1 Hok1).
    destruct (_register_plugins_internal _ _ _ _ _ rest c1) as [c2 statuses].
    cbn [fst] in *. destruct IH as (Hok2 & Hext2 & Hp2 & Hd2).
    split; [exact Hok2|]. split; [eapply catalog_extends_trans; eassumption|].
    split; intros H; auto.
Qed.

Lemma new_catalog_ok : catalog_ok (_new_catalog PLUGINS_PER_TYPE DECODER_MAX).
Proof.
  split; try reflexivity.
  - intros ty. apply SSorted_nil.
  - apply SSorted_nil.
  - intros ty. apply NoDup_nil_2.
  - intros ty a Hin. now apply elem_of_nil in Hin.
  - intros ty a Hin. now apply elem_of_nil in Hin.
Qed.

(** X10.  [xine_register_plugins] keeps the catalog in order and within
    its limits.  Whatever the plugin infos are, afterwards the counters
    still count the nodes in the lists, no more than [PLUGIN_MAX]
    plugins and [DECODER_MAX] decoders are registered, every list has
    falling priorities, holds nodes of its own type and none twice, and
    the post plugins are sorted by priority and then by name; the nodes
    that were registered before keep their place in the order, and the
    decoder maps are not touched. *)
Theorem xine_register_plugins_keeps_order
    (infos : list plugin_info_t) (c : plugin_catalog_t) :
  catalog_ok c ->
  plugin_count c <= PLUGIN_MAX ->
  decoder_count c <= Z.of_nat DECODER_MAX ->
  let c' := xine_register_plugins DECODER_MAX PLUGIN_MAX plugin_iface_versions
              register_num config_version infos c in
  catalog_ok c' /\ catalog_extends c c'
  /\ Z.of_nat (listed c') <= PLUGIN_MAX
  /\ (decoders_listed c' <= DECODER_MAX)%nat.
Proof.
  intros Hok Hp Hd c'.
  destruct (register_plugins_ok infos c Hok) as (Hok' & Hext & Hp' & Hd').
  fold c' in Hok', Hext, Hp', Hd'.
  split; [exact Hok'|]. split; [exact Hext|].
  rewrite <- (cok_plugin_count _ Hok').
  split; [auto|].
  specialize (Hd' Hd). rewrite (cok_decoder_count _ Hok') in Hd'. lia.
Qed.

(** X11.  The scan of statically linked plugins ends in decoder maps in
    priority order.  Registering any plugin infos into the catalog of
    [_new_catalog] gives the catalog that [map_decoders] expects (the
    decoder lists in falling priority, the maps still zeroed); after
    [map_decoders], every row of the three maps holds the first
    [PLUGINS_PER_TYPE] decoders of its list that support the stream
    type, in the order of the list, and [NULL] behind them; so the
    priorities fall from slot to slot in every row.  The catalog stays
    within its limits. *)
Theorem scan_of_static_plugins_maps_by_priority (infos : list plugin_info_t) :
  0 <= PLUGIN_MAX ->
  let scan := xine_register_plugins DECODER_MAX PLUGIN_MAX plugin_iface_versions
                register_num config_version infos
                (_new_catalog PLUGINS_PER_TYPE DECODER_MAX) in
  let c := map_decoders PLUGINS_PER_TYPE DECODER_MAX scan in
  scanned PLUGINS_PER_TYPE DECODER_MAX scan
  /\ priority_ordered DECODER_MAX c
  /\ (forall ty st, is_decoder ty = true -> (st < DECODER_MAX)%nat ->
        let cands := take PLUGINS_PER_TYPE
                       (candidates (nodes c) (plugin_lists c ty) st) in
        row_of (decoder_map ty c) st
        = (Some <$> cands) ++ replicate (PLUGINS_PER_TYPE - length cands) None)
  /\ (forall ty, plugin_lists c ty = plugin_lists scan ty)
  /\ plugin_count c <= PLUGIN_MAX
  /\ decoder_count c <= Z.of_nat DECODER_MAX.
Proof.
  intros Hmax scan c.
  destruct (register_plugins_ok infos (_new_catalog PLUGINS_PER_TYPE DECODER_MAX)
              new_catalog_ok) as (Hok & Hext & Hp & Hd).
  fold scan in Hok, Hext, Hp, Hd.
  assert (Hscan : scanned PLUGINS_PER_TYPE DECODER_MAX scan).
  { split.
    - intros ty _. apply (cok_falling _ Hok).
    - intros ty _. apply (cok_nodup _ Hok).
    - intros ty a _. apply (cok_typed _ Hok).
    - intros ty Hty. destruct ty; try discriminate Hty; cbn [decoder_map].
      + apply (ext_audio _ _ Hext).
      + apply (ext_video _ _ Hext).
      + apply (ext_spu _ _ Hext). }
  split; [exact Hscan|].
  assert (Hmap : forall ty, is_decoder ty = true ->
                   map_ok PLUGINS_PER_TYPE DECODER_MAX c ty)
    by (intros ty Hty; now apply map_decoders_ok).
  split; [now apply (map_ok_ordered PLUGINS_PER_TYPE)|].
  split.
  { intros ty st Hty Hst. cbv zeta. unfold c.
    rewrite (decoder_map_map_decoders PLUGINS_PER_TYPE DECODER_MAX scan ty Hty).
    rewrite (scan_maps _ _ _ Hscan ty Hty).
    change (nodes (map_decoders PLUGINS_PER_TYPE DECODER_MAX scan)) with (nodes scan).
    change (plugin_lists (map_decoders PLUGINS_PER_TYPE DECODER_MAX scan))
      with (plugin_lists scan).
    apply rebuilt_row_closed; try exact Hst;
      rewrite row_of_zeroed by exact Hst.
    - apply length_replicate.
    - rewrite live_zeroed. cbn. now rewrite Nat.sub_0_r.
    - rewrite live_zeroed. simpl. lia. }
  split; [reflexivity|].
  split; [apply Hp; cbn; lia|apply Hd; cbn; lia].
Qed.

End RegisterFacts.

Lemma xine_register_plugins_keeps_order_witness :
  Z.of_nat (listed (xine_register_plugins 2 2 sample_iface_versions sample_register_num 1
                      sample_infos (_new_catalog 3 2))) <= 2
  /\ (decoders_listed (xine_register_plugins 2 2 sample_iface_versions sample_register_num 1
                         sample_infos (_new_catalog 3 2)) <= 2)%nat.
Proof.
  destruct (xine_register_plugins_keeps_order 2 2 sample_iface_versions
              sample_register_num 1 sample_infos (_new_catalog 3 2))
    as (_ & _ & Hp & Hd).
  - apply new_catalog_ok.
  - cbn. lia.
  - cbn. lia.
  - split; [exact Hp|exact Hd].
Defined.

Lemma scan_of_static_plugins_maps_by_priority_witness :
  let c := map_decoders 3 4
             (xine_register_plugins 4 8 sample_iface_versions sample_register_num 1
                sample_decoder_infos (_new_catalog 3 4)) in
  plugin_lists c PLUGIN_VIDEO_DECODER = [1; 2; 0]%nat
  /\ map (fun a => node_priority (nodes c a)) [1; 2; 0]%nat = [7; 5; 3]
  /\ row_of (video_decoder_map c) 1 = [Some 1; Some 2; Some 0]%nat
  /\ row_of (video_decoder_map c) 0 = [None; None; None]
  /\ priority_ordered 4 c.
Proof.
  intros c.
  destruct (scan_of_static_plugins_maps_by_priority 3 4 8 sample_iface_versions
              sample_register_num 1 sample_decoder_infos ltac:(lia))
    as (_ & Hord & Hrows & _).
  split; [reflexivity|]. split; [reflexivity|].
  split; [|split; [|exact Hord]].
  - etransitivity;
      [exact (Hrows PLUGIN_VIDEO_DECODER 1%nat eq_refl ltac:(lia))|reflexivity].
  - etransitivity;
      [exact (Hrows PLUGIN_VIDEO_DECODER 0%nat eq_refl ltac:(lia))|reflexivity].
Defined.

(** ** Decoders in use *)

Section LookupFacts.

Variable PLUGINS_PER_TYPE : nat.
Variable DECODER_MAX : nat.

Import CInt CIntFacts.

Lemma dispatch_idempotent try cands keep taken :
  dispatch try cands = Some (keep, taken) ->
  dispatch try keep = Some (keep, taken).
Proof.
  revert keep taken. induction cands as [|a rest IH]; intros keep taken;
    cbn [dispatch].
  - now intros [= <- <-].
  - destruct (try a) eqn:Ea.
    + apply IH.
    + destruct (dispatch try rest) as [[k t]|] eqn:Er; [|discriminate].
      intros [= <- <-]. cbn [dispatch]. now rewrite Ea, (IH _ _ eq_refl).
    + intros [= <- <-]. cbn [dispatch]. now rewrite Ea.
    + discriminate.
Qed.

Lemma dispatch_taken_kept try cands keep a :
  dispatch try cands = Some (keep, Some a) -> a ∈ keep.
Proof.
  revert keep. induction cands as [|b rest IH]; intros keep; cbn [dispatch];
    [discriminate|].
  destruct (try b).
  - apply IH.
  - destruct (dispatch try rest) as [[k t]|]; [|discriminate].
    intros [= <- ->]. apply elem_of_cons. right. now apply IH.
  - intros [= <- ->]. apply elem_of_cons. now left.
  - discriminate.
Qed.

(** The pointer after a candidate, by how the candidate fares. *)
Lemma pointer_after_cases retry load open c a d :
  match attempt_of retry load open c a with
  | ATTEMPT_FAILED =>
      pointer_after load open c a d = d
      \/ pointer_after load open c a d = DECODER_NULL
  | ATTEMPT_UNAVAILABLE => pointer_after load open c a d = DECODER_ONE
  | ATTEMPT_OPENED => pointer_after load open c a d = DECODER_INSTANCE a
  | ATTEMPT_LOST => True
  end.
Proof.
  unfold attempt_of, pointer_after.
  destruct (if node_plugin_class (nodes c a) then LOAD_CLASS else load a); auto.
  destruct (open a); auto. destruct retry; auto.
Qed.

(** A walk that takes no candidate does not return an instance. *)
Lemma untaken_not_instance retry load open c cands :
  forall keep d0,
    dispatch (attempt_of retry load open c) cands = Some (keep, None) ->
    (forall x, d0 <> DECODER_INSTANCE x) ->
    forall x, foldl (fun d a => pointer_after load open c a d) d0 cands
              <> DECODER_INSTANCE x.
Proof.
  induction cands as [|a rest IH]; intros keep d0; cbn [dispatch foldl].
  - intros _ H. exact H.
  - pose proof (pointer_after_cases retry load open c a d0) as Hc.
    destruct (attempt_of retry load open c a).
    + intros Hd Hd0. apply (IH keep _ Hd).
      destruct Hc as [-> | ->]; [exact Hd0|discriminate].
    + destruct (dispatch _ rest) as [[k t]|] eqn:E; [|discriminate].
      intros [= <- ->] Hd0. rewrite Hc. apply (IH k _ eq_refl). discriminate.
    + discriminate.
    + discriminate.
Qed.

(** After candidates that all fail the pointer is [NULL]. *)
Lemma untaken_all_failed retry load open c cands :
  Forall (fun a => attempt_of retry load open c a = ATTEMPT_FAILED) cands ->
  foldl (fun d a => pointer_after load open c a d) DECODER_NULL cands = DECODER_NULL.
Proof.
  induction 1 as [|a rest Ha _ IH]; [reflexivity|]. cbn [foldl].
  pose proof (pointer_after_cases retry load open c a DECODER_NULL) as Hc.
  rewrite Ha in Hc. destruct Hc as [-> | ->]; exact IH.
Qed.

Lemma class_update_ref node (f : fat_node_t -> Z) c b :
  node_plugin_class (nodes (update_node node (fun n => set_node_ref (f n) n) c) b)
  = node_plugin_class (nodes c b).
Proof.
  cbn. destruct (Nat.eqb_spec b node) as [->|]; reflexivity.
Qed.

(** What a load would give for a node is not changed by a lookup that
    comes back: a class is marked loaded only where it was loaded or
    loads. *)
Lemma decoder_walk_loadable (load : nat -> load_result) (open : nat -> open_result)
    ty st :
  forall fuel i c d c' d',
    decoder_walk PLUGINS_PER_TYPE load open ty fuel i st c d = Some (c', d') ->
    forall b, (if node_plugin_class (nodes c' b) then LOAD_CLASS else load b)
              = (if node_plugin_class (nodes c b) then LOAD_CLASS else load b).
Proof.
  induction fuel as [|fuel IH]; intros i c d c' d'; [discriminate|].
  cbn [decoder_walk].
  destruct (PLUGINS_PER_TYPE <=? i)%nat; [now intros [= <- <-]|].
  destruct (row_of (decoder_map ty c) st !! i) as [[node|]|];
    try (now intros [= <- <-]).
  destruct (if node_plugin_class (nodes c node) then LOAD_CLASS else load node)
    eqn:Hload.
  - intros E b. now rewrite (IH _ _ _ _ _ E b).
  - assert (Hmark : forall b,
      (if node_plugin_class
            (nodes (update_node node (set_node_plugin_class true) c) b)
       then LOAD_CLASS else load b)
      = (if node_plugin_class (nodes c b) then LOAD_CLASS else load b)).
    { intros b. cbn. destruct (Nat.eqb_spec b node) as [->|]; [|reflexivity].
      cbn. now rewrite Hload. }
    destruct (open node); [|destruct ty|];
      first [ discriminate
            | intros [= <- <-] b; rewrite class_update_ref; apply Hmark
            | intros E b; rewrite (IH _ _ _ _ _ E b); apply Hmark ].
  - discriminate.
Qed.

Lemma attempt_of_loadable retry load open c c' :
  (forall b, (if node_plugin_class (nodes c' b) then LOAD_CLASS else load b)
             = (if node_plugin_class (nodes c b) then LOAD_CLASS else load b)) ->
  forall a, attempt_of retry load open c' a = attempt_of retry load open c a.
Proof.
  intros H a. unfold attempt_of. now rewrite H.
Qed.

Lemma getter_of_loadable load open ty st c c' d :
  getter_of PLUGINS_PER_TYPE load open ty st c = Some (c', d) ->
  forall b, (if node_plugin_class (nodes c' b) then LOAD_CLASS else load b)
            = (if node_plugin_class (nodes c b) then LOAD_CLASS else load b).
Proof.
  destruct ty; cbn [getter_of];
    unfold _x_get_video_decoder, _x_get_audio_decoder, _x_get_spu_decoder;
    apply decoder_walk_loadable.
Qed.

Lemma dispatch_ext try try' cands :
  (forall a, try a = try' a) -> dispatch try cands = dispatch try' cands.
Proof.
  intros H. induction cands as [|a rest IH]; [reflexivity|].
  cbn [dispatch]. now rewrite H, IH.
Qed.

Lemma live_nil_app (x y : list (option nat)) :
  live x = [] -> live y = [] -> live (x ++ y) = [].
Proof. destruct x as [|[a|] x]; simpl; auto; discriminate. Qed.

Lemma live_replicate_none k : live (replicate k (@None nat)) = [].
Proof. now destruct k. Qed.

Lemma live_row_after row keep : live (row_after row keep) = keep.
Proof.
  unfold row_after. rewrite live_fmap_app.
  rewrite live_nil_app; [apply app_nil_r| |apply live_replicate_none].
  apply row_split.
Qed.

Lemma row_after_same row : row_after row (live row) = row.
Proof.
  unfold row_after. rewrite Nat.sub_diag. cbn [replicate]. rewrite app_nil_r.
  symmetry. apply row_split.
Qed.

(** A lookup that comes back in a reachable catalog, by what
    [dispatch] says of the candidates of its row. *)
Lemma getter_of_reachable load open ty st c c1 d1 :
  reachable PLUGINS_PER_TYPE DECODER_MAX c ->
  is_decoder ty = true ->
  (st < DECODER_MAX)%nat ->
  getter_of PLUGINS_PER_TYPE load open ty st c = Some (c1, d1) ->
  let row := row_of (decoder_map ty c) st in
  exists keep taken,
    dispatch (attempt_of (knows_unavailable ty) load open c) (live row)
    = Some (keep, taken)
    /\ row_of (decoder_map ty c1) st = row_after row keep
    /\ live (row_of (decoder_map ty c1) st) = keep
    /\ lookup_frame ty st c c1
    /\ returned_for (pointer_after load open c) (live row) taken DECODER_NULL d1
    /\ (forall b, node_ref (nodes c1 b)
                  = if bool_decide (taken = Some b)
                    then int32 (node_ref (nodes c b) + 1)
                    else node_ref (nodes c b)).
Proof.
  intros Hreach Hdec Hst Hget row.
  pose proof (reachable_ok _ _ c Hreach ty Hdec) as Hok.
  destruct (getter_of_returns PLUGINS_PER_TYPE load open ty st c c1 d1 Hdec)
    as (keep & taken & Hdisp & Hrow & Hframe & Hret & Href).
  - rewrite (ok_map_length _ _ _ _ Hok). exact Hst.
  - now apply (ok_row_length _ _ _ _ Hok).
  - exact Hget.
  - exists keep, taken. split; [exact Hdisp|]. split; [exact Hrow|].
    split; [|split; [exact Hframe|split; [exact Hret|exact Href]]].
    rewrite Hrow. apply live_row_after.
Qed.

(** X12.  A decoder lookup can be repeated.  In a catalog the engine
    can be in, a lookup that came back and is followed by the same
    lookup (the same plugins loading and opening as before) comes back
    again: the second one finds the three decoder maps as the first one
    left them and leaves them so, takes the same decoder, and hands out
    an instance exactly when the first one did.  Each instance handed
    out counts one more reference on its node and on no other. *)
Theorem decoder_lookup_is_repeatable
    (load : nat -> load_result) (open : nat -> open_result)
    (ty : plugin_type) (stream_type : nat) (c c1 : plugin_catalog_t)
    (d1 : decoder_ptr) :
  reachable PLUGINS_PER_TYPE DECODER_MAX c ->
  is_decoder ty = true ->
  (stream_type < DECODER_MAX)%nat ->
  getter_of PLUGINS_PER_TYPE load open ty stream_type c = Some (c1, d1) ->
  exists c2 d2,
    getter_of PLUGINS_PER_TYPE load open ty stream_type c1 = Some (c2, d2)
    /\ (forall ty' st, is_decoder ty' = true ->
          row_of (decoder_map ty' c2) st = row_of (decoder_map ty' c1) st)
    /\ (forall ty', plugin_lists c2 ty' = plugin_lists c1 ty')
    /\ (forall a, d2 = DECODER_INSTANCE a <-> d1 = DECODER_INSTANCE a)
    /\ (forall a b, d1 = DECODER_INSTANCE a ->
          node_ref (nodes c1 b)
          = (if bool_decide (a = b) then int32 (node_ref (nodes c b) + 1)
             else node_ref (nodes c b))
          /\ node_ref (nodes c2 b)
             = (if bool_decide (a = b) then int32 (node_ref (nodes c1 b) + 1)
                else node_ref (nodes c1 b))).
Proof.
  intros Hreach Hdec Hst Hget.
  destruct (getter_of_reachable load open ty stream_type c c1 d1 Hreach Hdec Hst Hget)
    as (keep & taken & Hdisp & Hrow1 & Hlive1 & Hframe1 & Hret1 & Href1).
  assert (Hreach1 : reachable PLUGINS_PER_TYPE DECODER_MAX c1)
    by (eapply reach_lookup; eassumption).
  pose proof (reachable_ok _ _ c1 Hreach1 ty Hdec) as Hok1.
  assert (Hsame : dispatch (attempt_of (knows_unavailable ty) load open c1)
                    (live (row_of (decoder_map ty c1) stream_type))
                  = Some (keep, taken)).
  { rewrite Hlive1.
    rewrite (dispatch_ext _ (attempt_of (knows_unavailable ty) load open c))
      by (apply attempt_of_loadable; eapply getter_of_loadable; exact Hget).
    eapply dispatch_idempotent. exact Hdisp. }
  unshelve epose proof
    (getter_of_spec PLUGINS_PER_TYPE load open ty stream_type c1 Hdec _ _) as Hspec2.
  { rewrite (ok_map_length _ _ _ _ Hok1). exact Hst. }
  { now apply (ok_row_length _ _ _ _ Hok1). }
  cbv zeta in Hspec2. rewrite Hsame in Hspec2.
  destruct Hspec2 as (c2 & d2 & Hget2 & Hrow2 & Hframe2 & Hret2 & Href2).
  exists c2, d2. split; [exact Hget2|].
  split; [|split; [|split]].
  - intros ty' st Hdec'. destruct (decide (ty' = ty)) as [->|Hne].
    + destruct (decide (st = stream_type)) as [->|Hst'].
      * rewrite Hrow2, <- Hlive1. apply row_after_same.
      * now apply (frame_rows _ _ _ _ Hframe2).
    + now rewrite (frame_maps _ _ _ _ Hframe2 ty' Hdec' Hne).
  - apply (frame_lists _ _ _ _ Hframe2).
  - intros a. destruct taken as [t|]; cbn [returned_for] in *.
    + rewrite Hret1, Hret2. reflexivity.
    + split; intros E; exfalso.
      * rewrite Hret2 in E. revert E.
        eapply untaken_not_instance; [exact Hsame|discriminate].
      * rewrite Hret1 in E. revert E.
        eapply untaken_not_instance; [exact Hdisp|discriminate].
  - intros a b Hd1.
    assert (Ht : taken = Some a).
    { destruct taken as [t|]; cbn [returned_for] in Hret1.
      - congruence.
      - exfalso. rewrite Hd1 in Hret1. symmetry in Hret1. revert Hret1.
        eapply untaken_not_instance; [exact Hdisp|discriminate]. }
    split; [rewrite Href1|rewrite Href2]; rewrite Ht;
      (case_bool_decide as H1; case_bool_decide as H2; try reflexivity;
       congruence).
Qed.

Lemma dispatch_nil_iff try cands keep taken :
  dispatch try cands = Some (keep, taken) ->
  (keep = [] <-> Forall (fun a => try a = ATTEMPT_FAILED) cands).
Proof.
  revert keep taken. induction cands as [|a rest IH]; intros keep taken;
    cbn [dispatch].
  - intros [= <- <-]. split; [constructor|reflexivity].
  - destruct (try a) eqn:Ea.
    + intros H. rewrite (IH _ _ H). split; [now constructor|now inversion 1].
    + destruct (dispatch try rest) as [[k t]|]; [|discriminate].
      intros [= <- <-]. split; [discriminate|]. inversion 1; congruence.
    + intros [= <- <-]. split; [discriminate|]. inversion 1; congruence.
    + discriminate.
Qed.

Lemma available_live ty st c :
  _x_decoder_available ty st c = 0 <-> live (row_of (decoder_map ty c) st) = [].
Proof.
  unfold _x_decoder_available.
  destruct (row_of (decoder_map ty c) st) as [|[a|] r]; cbn; split;
    try reflexivity; discriminate.
Qed.

Lemma available_cases ty st c :
  _x_decoder_available ty st c = 0 \/ _x_decoder_available ty st c = 1.
Proof.
  unfold _x_decoder_available.
  destruct (row_of (decoder_map ty c) st !! 0%nat) as [[a|]|]; auto.
Qed.

(** A lookup in an empty row returns [NULL] at once. *)
Lemma getter_of_empty load open ty st c :
  _x_decoder_available ty st c = 0 ->
  getter_of PLUGINS_PER_TYPE load open ty st c = Some (c, DECODER_NULL).
Proof.
  unfold _x_decoder_available. intros H.
  destruct ty; cbn [getter_of];
    unfold _x_get_video_decoder, _x_get_audio_decoder, _x_get_spu_decoder;
    cbn [decoder_walk];
    (destruct (PLUGINS_PER_TYPE <=? 0)%nat; [reflexivity|]);
    cbn [decoder_map] in *;
    match goal with
    | |- context [row_of ?m st !! 0%nat] =>
        destruct (row_of m st !! 0%nat) as [[a|]|]; [discriminate|reflexivity..]
    end.
Qed.

(** X13.  A stream type is left without a decoder exactly when every
    candidate of its row fails (its class does not load, or
    [open_plugin] returns [NULL]).  The lookup, if it comes back, then
    returns [NULL] and [_x_decoder_available] answers 0 from then on:
    every later lookup for the stream type returns [NULL] at once,
    without loading or opening a plugin and without changing the
    catalog. *)
Theorem failed_lookup_leaves_no_decoder
    (load : nat -> load_result) (open : nat -> open_result)
    (ty : plugin_type) (stream_type : nat) (c c1 : plugin_catalog_t)
    (d1 : decoder_ptr) :
  reachable PLUGINS_PER_TYPE DECODER_MAX c ->
  is_decoder ty = true ->
  (stream_type < DECODER_MAX)%nat ->
  getter_of PLUGINS_PER_TYPE load open ty stream_type c = Some (c1, d1) ->
  (_x_decoder_available ty stream_type c1 = 0 <->
   Forall (fun a => attempt_of (knows_unavailable ty) load open c a = ATTEMPT_FAILED)
     (live (row_of (decoder_map ty c) stream_type)))
  /\ (_x_decoder_available ty stream_type c1 = 0 ->
      d1 = DECODER_NULL
      /\ forall load' open',
           getter_of PLUGINS_PER_TYPE load' open' ty stream_type c1
           = Some (c1, DECODER_NULL))
  /\ (_x_decoder_available ty stream_type c1 <> 0 ->
      _x_decoder_available ty stream_type c1 = 1
      /\ _x_decoder_available ty stream_type c = 1).
Proof.
  intros Hreach Hdec Hst Hget.
  destruct (getter_of_reachable load open ty stream_type c c1 d1 Hreach Hdec Hst Hget)
    as (keep & taken & Hdisp & Hrow1 & Hlive1 & Hframe1 & Hret1 & Href1).
  pose proof (reachable_ok _ _ c Hreach ty Hdec) as Hok.
  assert (Hiff : _x_decoder_available ty stream_type c1 = 0 <->
                 Forall (fun a => attempt_of (knows_unavailable ty) load open c a
                                  = ATTEMPT_FAILED)
                   (live (row_of (decoder_map ty c) stream_type))).
  { rewrite available_live, Hlive1. eapply dispatch_nil_iff. exact Hdisp. }
  split; [exact Hiff|]. split.
  - intros Hnone. split; [|intros load' open'; now apply getter_of_empty].
    apply Hiff in Hnone.
    destruct taken as [t|]; cbn [returned_for] in Hret1.
    + exfalso. pose proof (dispatch_taken_kept _ _ _ _ Hdisp) as Hin.
      apply (dispatch_nil_iff _ _ _ _ Hdisp) in Hnone. rewrite Hnone in Hin.
      now apply elem_of_nil in Hin.
    + rewrite Hret1. eapply untaken_all_failed. exact Hnone.
  - intros Hsome.
    destruct (available_cases ty stream_type c1) as [H0|H1]; [contradiction|].
    split; [exact H1|].
    destruct (available_cases ty stream_type c) as [H0|H1']; [|exact H1'].
    exfalso. apply Hsome. apply Hiff.
    apply available_live in H0. rewrite H0. constructor.
Qed.

Lemma unload_unref_plugin_spec x c :
  let c' := _unload_unref_plugin x c in
  (forall a, node_plugin_class (nodes c' a)
             = node_plugin_class (nodes c a)
               && negb ((node_ref (nodes c a) =? 0) && Nat.eqb a x))
  /\ (forall a, node_ref (nodes c' a) = node_ref (nodes c a))
  /\ (forall a, node_priority (nodes c' a) = node_priority (nodes c a))
  /\ plugin_lists c' = plugin_lists c
  /\ audio_decoder_map c' = audio_decoder_map c
  /\ video_decoder_map c' = video_decoder_map c
  /\ spu_decoder_map c' = spu_decoder_map c.
Proof.
  unfold _unload_unref_plugin. cbv zeta.
  destruct (Z.eqb_spec (node_ref (nodes c x)) 0) as [Hz|Hnz].
  - split; [|split; [|split; [|repeat split]]]; intros a; cbn;
      destruct (Nat.eqb_spec a x) as [->|Hne]; cbn;
      rewrite ?andb_false_r, ?andb_true_r; try reflexivity.
    rewrite Hz. cbn. now rewrite andb_false_r.
  - split; [|repeat split]. intros a.
    destruct (Nat.eqb_spec a x) as [->|Hne];
      rewrite ?andb_false_r, ?andb_true_r; try reflexivity.
    destruct (Z.eqb_spec (node_ref (nodes c x)) 0); [contradiction|].
    cbn. now rewrite andb_true_r.
Qed.

Lemma bool_decide_elem_cons (a x : nat) (l : list nat) :
  bool_decide (a ∈ x :: l) = Nat.eqb a x || bool_decide (a ∈ l).
Proof.
  destruct (Nat.eqb_spec a x) as [->|Hne]; cbn.
  - apply bool_decide_eq_true_2, elem_of_cons. now left.
  - apply bool_decide_ext. rewrite elem_of_cons. tauto.
Qed.

Lemma gc_list_spec l c :
  let c' := _unload_unref_plugins l c in
  (forall a, node_plugin_class (nodes c' a)
             = node_plugin_class (nodes c a)
               && negb ((node_ref (nodes c a) =? 0) && bool_decide (a ∈ l)))
  /\ (forall a, node_ref (nodes c' a) = node_ref (nodes c a))
  /\ (forall a, node_priority (nodes c' a) = node_priority (nodes c a))
  /\ plugin_lists c' = plugin_lists c
  /\ audio_decoder_map c' = audio_decoder_map c
  /\ video_decoder_map c' = video_decoder_map c
  /\ spu_decoder_map c' = spu_decoder_map c.
Proof.
  unfold _unload_unref_plugins. revert c.
  induction l as [|x l IH]; intros c; cbn [foldl].
  - repeat split; try reflexivity. intros a.
    rewrite bool_decide_eq_false_2 by apply not_elem_of_nil.
    now rewrite andb_false_r, andb_true_r.
  - destruct (IH (_unload_unref_plugin x c)) as (Hc & Hr & Hp & Hl & Ha & Hv & Hs).
    destruct (unload_unref_plugin_spec x c) as (Hc1 & Hr1 & Hp1 & Hl1 & Ha1 & Hv1 & Hs1).
    cbv zeta in *.
    split; [|split; [|split; [|repeat split; congruence]]]; intros a.
    + rewrite Hc, Hc1, Hr1, bool_decide_elem_cons.
      destruct (node_plugin_class (nodes c a)), (node_ref (nodes c a) =? 0),
        (Nat.eqb a x), (bool_decide (a ∈ l)); reflexivity.
    + now rewrite Hr, Hr1.
    + now rewrite Hp, Hp1.
Qed.

Lemma gc_types_spec tys c :
  let c' := foldl (fun c ty => _unload_unref_plugins (plugin_lists c ty) c) c tys in
  (forall a, node_plugin_class (nodes c' a)
             = node_plugin_class (nodes c a)
               && negb ((node_ref (nodes c a) =? 0)
                        && existsb (fun ty => bool_decide (a ∈ plugin_lists c ty)) tys))
  /\ (forall a, node_ref (nodes c' a) = node_ref (nodes c a))
  /\ (forall a, node_priority (nodes c' a) = node_priority (nodes c a))
  /\ plugin_lists c' = plugin_lists c
  /\ audio_decoder_map c' = audio_decoder_map c
  /\ video_decoder_map c' = video_decoder_map c
  /\ spu_decoder_map c' = spu_decoder_map c.
Proof.
  revert c. induction tys as [|ty tys IH]; intros c; cbn [foldl existsb].
  - repeat split; try reflexivity. intros a.
    now rewrite andb_false_r, andb_true_r.
  - destruct (IH (_unload_unref_plugins (plugin_lists c ty) c))
      as (Hc & Hr & Hp & Hl & Ha & Hv & Hs).
    destruct (gc_list_spec (plugin_lists c ty) c)
      as (Hc1 & Hr1 & Hp1 & Hl1 & Ha1 & Hv1 & Hs1).
    cbv zeta in *.
    split; [|split; [|split; [|repeat split; congruence]]]; intros a.
    + rewrite Hc, Hc1, Hr1, Hl1.
      destruct (node_plugin_class (nodes c a)), (node_ref (nodes c a) =? 0),
        (bool_decide (a ∈ plugin_lists c ty)),
        (existsb (fun ty0 => bool_decide (a ∈ plugin_lists c ty0)) tys); reflexivity.
    + now rewrite Hr, Hr1.
    + now rewrite Hp, Hp1.
Qed.

(** The garbage collector on one node: its class is disposed of when
    the node has no reference and is in one of the lists. *)
Lemma garbage_collector_spec c :
  let c' := xine_plugins_garbage_collector c in
  (forall a, node_ref (nodes c a) <> 0 ->
             node_plugin_class (nodes c' a) = node_plugin_class (nodes c a))
  /\ (forall a ty, node_ref (nodes c a) = 0 -> ty <> PLUGIN_XINE_MODULE ->
                   a ∈ plugin_lists c ty -> node_plugin_class (nodes c' a) = false)
  /\ (forall a, node_ref (nodes c' a) = node_ref (nodes c a))
  /\ (forall a, node_priority (nodes c' a) = node_priority (nodes c a))
  /\ plugin_lists c' = plugin_lists c
  /\ audio_decoder_map c' = audio_decoder_map c
  /\ video_decoder_map c' = video_decoder_map c
  /\ spu_decoder_map c' = spu_decoder_map c.
Proof.
  unfold xine_plugins_garbage_collector.
  match goal with
  | |- context [foldl _ c ?tys] =>
      destruct (gc_types_spec tys c) as (Hc & Hrest)
  end.
  cbv zeta in *. split; [|split; [|exact Hrest]].
  - intros a Hne. rewrite Hc.
    destruct (Z.eqb_spec (node_ref (nodes c a)) 0); [contradiction|].
    cbn. now rewrite andb_true_r.
  - intros a ty Hz Hty Hin. rewrite Hc, Hz. cbn [Z.eqb andb].
    assert (Hex : existsb (fun ty0 => bool_decide (a ∈ plugin_lists c ty0))
                    [PLUGIN_INPUT; PLUGIN_DEMUX; PLUGIN_AUDIO_DECODER;
                     PLUGIN_VIDEO_DECODER; PLUGIN_SPU_DECODER; PLUGIN_AUDIO_OUT;
                     PLUGIN_VIDEO_OUT; PLUGIN_POST] = true).
    { apply existsb_exists. exists ty. split; [|now apply bool_decide_eq_true_2].
      destruct ty; try contradiction; cbn; tauto. }
    rewrite Hex. cbn. apply andb_false_r.
Qed.

(** The node of an instance that a walk hands out has its class
    loaded. *)
Lemma decoder_walk_instance_loaded (load : nat -> load_result)
    (open : nat -> open_result) ty st :
  forall fuel i c d c' a,
    (forall x, d <> DECODER_INSTANCE x) ->
    decoder_walk PLUGINS_PER_TYPE load open ty fuel i st c d
    = Some (c', DECODER_INSTANCE a) ->
    node_plugin_class (nodes c' a) = true.
Proof.
  induction fuel as [|fuel IH]; intros i c d c' a Hd; [discriminate|].
  cbn [decoder_walk].
  destruct (PLUGINS_PER_TYPE <=? i)%nat;
    [intros [= _ E]; now apply Hd in E|].
  destruct (row_of (decoder_map ty c) st !! i) as [[node|]|];
    try (intros [= _ E]; now apply Hd in E).
  destruct (if node_plugin_class (nodes c node) then LOAD_CLASS else load node).
  - now apply IH.
  - destruct (open node); [|destruct ty|];
      first [ now apply IH
            | discriminate
            | intros [= <- <-]; rewrite class_update_ref; cbn;
              now rewrite Nat.eqb_refl ].
  - discriminate.
Qed.

(** X14.  A decoder instance pins its plugin class.  In a catalog the
    engine can be in, a lookup that hands out an instance of a node
    whose reference count is in [0 .. INT_MAX - 1] counts one reference;
    while it is not freed, [xine_plugins_garbage_collector] leaves the
    class of the node loaded.  [_x_free_..._decoder] finds the count
    above 0, as [dec_node_ref] asserts, and puts it back to what it was
    before the lookup; if that was 0, the next run of the garbage
    collector disposes of the class.  Neither the release nor the
    garbage collector changes the lists, the maps or another count. *)
Theorem decoder_instance_pins_class
    (load : nat -> load_result) (open : nat -> open_result)
    (ty : plugin_type) (stream_type : nat) (c c1 : plugin_catalog_t) (a : nat) :
  reachable PLUGINS_PER_TYPE DECODER_MAX c ->
  is_decoder ty = true ->
  (stream_type < DECODER_MAX)%nat ->
  getter_of PLUGINS_PER_TYPE load open ty stream_type c
  = Some (c1, DECODER_INSTANCE a) ->
  0 <= node_ref (nodes c a) < INT_MAX ->
  let held := xine_plugins_garbage_collector c1 in
  let freed := fst (_x_free_decoder (Some a) held) in
  node_ref (nodes c1 a) = node_ref (nodes c a) + 1
  /\ node_plugin_class (nodes c1 a) = true
  /\ node_plugin_class (nodes held a) = true
  /\ snd (_x_free_decoder (Some a) held) = true
  /\ (forall b, node_ref (nodes freed b) = node_ref (nodes c b))
  /\ (node_ref (nodes c a) = 0 ->
      node_plugin_class (nodes (xine_plugins_garbage_collector freed) a) = false)
  /\ (forall ty', plugin_lists (xine_plugins_garbage_collector freed) ty'
                  = plugin_lists c ty')
  /\ (forall ty' st, is_decoder ty' = true ->
        row_of (decoder_map ty' (xine_plugins_garbage_collector freed)) st
        = row_of (decoder_map ty' c1) st).
Proof.
  intros Hreach Hdec Hst Hget Href held freed.
  destruct (getter_of_reachable load open ty stream_type c c1 _ Hreach Hdec Hst Hget)
    as (keep & taken & Hdisp & Hrow1 & Hlive1 & Hframe1 & Hret1 & Href1).
  pose proof (reachable_ok _ _ c Hreach ty Hdec) as Hok.
  assert (Ht : taken = Some a).
  { destruct taken as [t|]; cbn [returned_for] in Hret1.
    - congruence.
    - exfalso. symmetry in Hret1. revert Hret1.
      eapply untaken_not_instance; [exact Hdisp|discriminate]. }
  subst taken.
  assert (Hin : a ∈ plugin_lists c ty).
  { pose proof (dispatch_taken_kept _ _ _ _ Hdisp) as Hk.
    pose proof (dispatch_keep_sublist _ _ _ _ Hdisp) as Hsub.
    pose proof (ok_row_sub _ _ _ _ Hok stream_type Hst) as Hcand.
    eapply candidates_elem.
    eapply sublist_subseteq; [exact Hcand|].
    eapply sublist_subseteq; [exact Hsub|exact Hk]. }
  assert (Hr1 : node_ref (nodes c1 a) = node_ref (nodes c a) + 1).
  { rewrite Href1, bool_decide_eq_true_2 by reflexivity.
    apply int32_small. unfold INT_MIN, INT_MAX in *. lia. }
  assert (Hclass1 : node_plugin_class (nodes c1 a) = true).
  { destruct ty; try discriminate Hdec; cbn [getter_of] in Hget;
      unfold _x_get_video_decoder, _x_get_audio_decoder, _x_get_spu_decoder in Hget;
      (eapply decoder_walk_instance_loaded; [|exact Hget]); discriminate. }
  destruct (garbage_collector_spec c1)
    as (Hkeep & Hdrop & Hgr & Hgp & Hgl & Hga & Hgv & Hgs).
  fold held in Hkeep, Hdrop, Hgr, Hgp, Hgl, Hga, Hgv, Hgs.
  assert (Hfr : forall b, node_ref (nodes freed b) = node_ref (nodes c b)).
  { intros b. unfold freed. cbn [_x_free_decoder fst dec_node_ref].
    cbn. destruct (Nat.eqb_spec b a) as [->|Hne].
    - cbn. rewrite Hgr, Hr1. rewrite int32_small by (unfold INT_MIN, INT_MAX in *; lia).
      lia.
    - rewrite Hgr, Href1. rewrite bool_decide_eq_false_2 by congruence.
      reflexivity. }
  destruct (garbage_collector_spec freed)
    as (Hkeep2 & Hdrop2 & Hgr2 & Hgp2 & Hgl2 & Hga2 & Hgv2 & Hgs2).
  assert (Hlists : plugin_lists freed = plugin_lists c1).
  { unfold freed. cbn. exact Hgl. }
  split; [exact Hr1|]. split; [exact Hclass1|].
  split; [rewrite Hkeep; [exact Hclass1|lia]|].
  split; [cbn [_x_free_decoder snd]; rewrite Hgr, Hr1; apply Z.gtb_gt; lia|].
  split; [exact Hfr|].
  split.
  - intros Hz. apply (Hdrop2 a ty).
    + now rewrite Hfr.
    + destruct ty; try discriminate Hdec; discriminate.
    + rewrite Hlists, (frame_lists _ _ _ _ Hframe1). exact Hin.
  - split.
    + intros ty'. rewrite Hgl2, Hlists. apply (frame_lists _ _ _ _ Hframe1).
    + intros ty' st' Hdec'.
      assert (Hm : decoder_map ty' (xine_plugins_garbage_collector freed)
                   = decoder_map ty' c1).
      { destruct ty'; try discriminate Hdec'; cbn [decoder_map];
          first [rewrite Hga2|rewrite Hgv2|rewrite Hgs2]; unfold freed; cbn;
          assumption. }
      now rewrite Hm.
Qed.

End LookupFacts.

Lemma decoder_lookup_is_repeatable_witness :
  exists c1 d1 c2 d2,
    getter_of 3 sample_load sample_open PLUGIN_VIDEO_DECODER 1 sample_mapped
    = Some (c1, d1)
    /\ getter_of 3 sample_load sample_open PLUGIN_VIDEO_DECODER 1 c1 = Some (c2, d2)
    /\ (d2 = DECODER_INSTANCE 2 <-> d1 = DECODER_INSTANCE 2)
    /\ plugin_lists c2 PLUGIN_VIDEO_DECODER = plugin_lists c1 PLUGIN_VIDEO_DECODER.
Proof.
  assert (Hreach : reachable 3 2 sample_mapped)
    by apply reach_map_decoders, sample_scan_scanned.
  destruct (getter_of 3 sample_load sample_open PLUGIN_VIDEO_DECODER 1 sample_mapped)
    as [[c1 d1]|] eqn:E; [|vm_compute in E; discriminate].
  destruct (decoder_lookup_is_repeatable 3 2 sample_load sample_open
              PLUGIN_VIDEO_DECODER 1 sample_mapped c1 d1 Hreach eq_refl
              ltac:(lia) E)
    as (c2 & d2 & E2 & _ & Hl & Hd & _).
  exists c1, d1, c2, d2. split; [reflexivity|]. split; [exact E2|].
  split; [apply Hd|apply Hl].
Defined.

Lemma failed_lookup_leaves_no_decoder_witness :
  exists c1 d1,
    getter_of 3 sample_load sample_open_null PLUGIN_VIDEO_DECODER 1 sample_mapped
    = Some (c1, d1)
    /\ _x_decoder_available PLUGIN_VIDEO_DECODER 1 c1 = 0
    /\ d1 = DECODER_NULL
    /\ getter_of 3 sample_load sample_open PLUGIN_VIDEO_DECODER 1 c1
       = Some (c1, DECODER_NULL).
Proof.
  assert (Hreach : reachable 3 2 sample_mapped)
    by apply reach_map_decoders, sample_scan_scanned.
  destruct (getter_of 3 sample_load sample_open_null PLUGIN_VIDEO_DECODER 1
              sample_mapped) as [[c1 d1]|] eqn:E; [|vm_compute in E; discriminate].
  destruct (failed_lookup_leaves_no_decoder 3 2 sample_load sample_open_null
              PLUGIN_VIDEO_DECODER 1 sample_mapped c1 d1 Hreach eq_refl
              ltac:(lia) E)
    as (Hiff & Hnone & _).
  assert (Hfail : _x_decoder_available PLUGIN_VIDEO_DECODER 1 c1 = 0).
  { apply Hiff.
    assert (Hlive : live (row_of (decoder_map PLUGIN_VIDEO_DECODER sample_mapped) 1)
                    = [0; 1; 2]%nat) by (vm_compute; reflexivity).
    rewrite Hlive. repeat constructor. }
  destruct (Hnone Hfail) as [Hd Hlater].
  exists c1, d1. split; [reflexivity|]. split; [exact Hfail|].
  split; [exact Hd|apply Hlater].
Defined.

Lemma decoder_instance_pins_class_witness :
  exists c1,
    getter_of 3 sample_load sample_open PLUGIN_VIDEO_DECODER 1 sample_mapped
    = Some (c1, DECODER_INSTANCE 2)
    /\ node_ref (nodes c1 2%nat) = 1
    /\ node_plugin_class (nodes (xine_plugins_garbage_collector c1) 2%nat) = true
    /\ snd (_x_free_decoder (Some 2%nat) (xine_plugins_garbage_collector c1)) = true.
Proof.
  assert (Hreach : reachable 3 2 sample_mapped)
    by apply reach_map_decoders, sample_scan_scanned.
  destruct (getter_of 3 sample_load sample_open PLUGIN_VIDEO_DECODER 1 sample_mapped)
    as [[c1 d1]|] eqn:E; [|vm_compute in E; discriminate].
  assert (Hd : d1 = DECODER_INSTANCE 2).
  { pose proof (f_equal (option_map snd) E) as Ed. vm_compute in Ed.
    now injection Ed as <-. }
  subst d1.
  destruct (decoder_instance_pins_class 3 2 sample_load sample_open
              PLUGIN_VIDEO_DECODER 1 sample_mapped c1 2%nat Hreach eq_refl
              ltac:(lia) E)
    as (Hr & _ & Hheld & Hassert & _).
  - cbn. unfold CInt.INT_MAX. lia.
  - exists c1. split; [reflexivity|]. split; [exact Hr|].
    split; [exact Hheld|exact Hassert].
Defined.

(** ** The plugin cache *)

Section CacheNodeFacts.

Variable xine_str2int32 : string -> Z * string.
Variable xine_str2uint32 : string -> Z * string.
Variable xine_str2uint64 : string -> Z * string.

Lemma read_supported_types_ok fuel val :
  (length (read_supported_types xine_str2uint32 fuel val) <= fuel)%nat
  /\ Forall (fun t => t <> 0) (read_supported_types xine_str2uint32 fuel val).
Proof.
  revert val. induction fuel as [|fuel IH]; intros val; cbn [read_supported_types].
  - split; [reflexivity|constructor].
  - destruct (xine_str2uint32 val) as [v rest].
    destruct (Z.eqb_spec v 0) as [->|Hv]; [split; [cbn; lia|constructor]|].
    destruct (IH rest) as [Hl Hf]. split; [cbn; lia|now constructor].
Qed.

Lemma string_eqb_false (a b : string) : String.eqb a b = false <-> a <> b.
Proof. apply String.eqb_neq. Qed.

Lemma load_key_ok index line st :
  load_state_ok st ->
  ls_skip st = false \/ index = _K_filename ->
  load_state_ok (load_key xine_str2int32 xine_str2uint32 xine_str2uint64 index line st).
Proof.
  intros [Hs Ht Hn Hk Hp] Hskip.
  destruct index; unfold load_key;
    try (split;
         cbn [ls_skip ls_node ls_plugins cn_file cn_info cn_supported_types
              cn_config_keys cf_filename set_node with_file with_info with_ainfo];
         assumption).
  - (* flush *)
    destruct Hskip as [Hskip|?]; [|discriminate].
    destruct (ci_id (cn_info (ls_node st))) as [[|ch id]|] eqn:Eid;
      try (split; assumption).
    split; cbn [ls_skip ls_node ls_plugins cn_file cn_supported_types
                cn_config_keys length];
      try assumption; try lia; try constructor.
    apply Forall_app. split; [exact Hp|]. constructor; [|constructor].
    split; try assumption.
    + eauto.
    + apply string_eqb_false. now rewrite <- Hs.
  - (* filename *)
    split; cbn [ls_skip ls_node ls_plugins cn_file cn_supported_types
                cn_config_keys cf_filename with_file];
      try assumption. reflexivity.
  - (* supported_types *)
    split; cbn [ls_skip ls_node ls_plugins cn_file cn_supported_types
                cn_config_keys cf_filename set_node];
      try assumption; apply read_supported_types_ok.
  - (* config_key *)
    destruct (Nat.ltb_spec (length (cn_config_keys (ls_node st))) 255);
      split; cbn [ls_skip ls_node ls_plugins cn_file cn_supported_types
                  cn_config_keys cf_filename set_node];
      try assumption.
    rewrite length_app. cbn [length]. lia.
Qed.

Lemma load_line_ok from_file line st :
  load_state_ok st ->
  load_state_ok (fst (load_line xine_str2int32 xine_str2uint32 xine_str2uint64
                        from_file line st)).
Proof.
  intros Hok. unfold load_line.
  destruct (from_file && _); [exact Hok|].
  destruct (parse_line (ls_version_ok st) line) as [[index value]|]; [|exact Hok].
  destruct (ls_skip st) eqn:Hskip; cbn [andb].
  - destruct index; cbn [negb]; try exact Hok.
    destruct (negb (ls_version_ok st)); [exact Hok|].
    cbn [fst]. apply load_key_ok; [exact Hok|now right].
  - destruct (negb (ls_version_ok st)).
    + destruct index; try exact Hok.
      destruct (version_accepted _); [|exact Hok].
      destruct Hok as [? ? ? ? ?].
      split; cbn [fst ls_skip ls_node ls_plugins]; try assumption.
      congruence.
    + cbn [fst]. apply load_key_ok; [exact Hok|now left].
Qed.

Lemma load_lines_ok lines st :
  load_state_ok st ->
  load_state_ok (load_lines xine_str2int32 xine_str2uint32 xine_str2uint64 lines st).
Proof.
  revert st. induction lines as [|line rest IH]; intros st Hok; cbn [load_lines].
  - now apply load_line_ok.
  - pose proof (load_line_ok true line st Hok) as Hstep.
    destruct (load_line _ _ _ true line st) as [st' stop]. cbn [fst] in Hstep.
    destruct stop; [exact Hstep|now apply IH].
Qed.

Lemma load_lines_comment l1 comment l2 st :
  load_lines xine_str2int32 xine_str2uint32 xine_str2uint64
    (l1 ++ String "#" comment :: l2) st
  = load_lines xine_str2int32 xine_str2uint32 xine_str2uint64 (l1 ++ l2) st.
Proof.
  revert st. induction l1 as [|line rest IH]; intros st; cbn [app load_lines].
  - reflexivity.
  - destruct (load_line _ _ _ true line st) as [st' stop].
    destruct stop; [reflexivity|apply IH].
Qed.

(** X15.  Whatever the cache file holds, every node that
    [load_plugin_list] hands on has an id that is not empty and a file
    other than [libxine/builtins] (the entries of the built-in plugins
    are skipped, entries without id are dropped), at most 255 supported
    types, none of them 0, and at most 255 configuration entries.  A
    comment line anywhere in the file changes nothing. *)
Theorem load_plugin_list_nodes_ok (lines : list string) :
  Forall cache_node_ok
    (load_plugin_list xine_str2int32 xine_str2uint32 xine_str2uint64 lines)
  /\ forall l1 comment l2,
       lines = l1 ++ String "#" comment :: l2 ->
       load_plugin_list xine_str2int32 xine_str2uint32 xine_str2uint64 lines
       = load_plugin_list xine_str2int32 xine_str2uint32 xine_str2uint64 (l1 ++ l2).
Proof.
  split.
  - unfold load_plugin_list. apply lso_plugins, load_lines_ok.
    split; cbn; try lia; constructor.
  - intros l1 comment l2 ->. unfold load_plugin_list.
    now rewrite load_lines_comment.
Qed.

End CacheNodeFacts.

Lemma load_plugin_list_nodes_ok_witness :
  Forall cache_node_ok
    (load_plugin_list sample_str2num sample_str2num sample_str2num sample_cache_mixed)
  /\ length (load_plugin_list sample_str2num sample_str2num sample_str2num
               sample_cache_mixed) = 1%nat.
Proof.
  split.
  - apply (load_plugin_list_nodes_ok sample_str2num sample_str2num sample_str2num
             sample_cache_mixed).
  - vm_compute. reflexivity.
Defined.

(** ** The cache file, written and read *)

Section RoundTripFacts.

Variable xine_str2int32 : string -> Z * string.
Variable xine_str2uint32 : string -> Z * string.
Variable xine_str2uint64 : string -> Z * string.
Variable xine_uint2str : Z -> string.
Variable xine_uint32_2str : Z -> string.
Variable xine_int32_2str : Z -> string.
Variable SAVE_PLUGIN_ROOM : nat.
Variable plugin_type_of : Z -> option plugin_type.
Variable files : nat -> cache_file_t.

Local Abbreviation load_line' :=
  (load_line xine_str2int32 xine_str2uint32 xine_str2uint64).
Local Abbreviation load_key' :=
  (load_key xine_str2int32 xine_str2uint32 xine_str2uint64).
Local Abbreviation load_lines' :=
  (load_lines xine_str2int32 xine_str2uint32 xine_str2uint64).
Local Abbreviation run := (run_lines xine_str2int32 xine_str2uint32 xine_str2uint64).

Lemma key_2_index_not_filename k :
  match _key_2_index k with _K_filename => true | _ => false end = false.
Proof.
  unfold _key_2_index.
  repeat match goal with
         | |- context [if ?c then _ else _] => destruct c
         end; reflexivity.
Qed.

Lemma load_key_version i v st :
  ls_version_ok (load_key' i v st) = ls_version_ok st.
Proof.
  destruct i; unfold load_key; try reflexivity.
  - destruct (ci_id (cn_info (ls_node st))) as [[|? ?]|]; reflexivity.
  - destruct (length (cn_config_keys (ls_node st)) <? 255)%nat; reflexivity.
Qed.

Lemma load_line_version from line st :
  ls_version_ok st = true ->
  ls_version_ok (fst (load_line' from line st)) = true
  /\ snd (load_line' from line st) = false.
Proof.
  intros Hv. unfold load_line.
  destruct (from && _); [now split|].
  destruct (parse_line (ls_version_ok st) line) as [[i v]|]; [|now split].
  destruct (ls_skip st && _); [now split|].
  rewrite Hv. cbn [negb fst snd]. now rewrite load_key_version.
Qed.

Lemma run_version lines st :
  ls_version_ok st = true -> ls_version_ok (run lines st) = true.
Proof.
  revert st. induction lines as [|line rest IH]; intros st Hv; [exact Hv|].
  cbn [run_lines foldl]. apply IH. now apply load_line_version.
Qed.

Lemma run_app l1 l2 st : run (l1 ++ l2) st = run l2 (run l1 st).
Proof. unfold run_lines. apply foldl_app. Qed.

Lemma load_lines_run lines rest st :
  ls_version_ok st = true ->
  load_lines' (lines ++ rest) st = load_lines' rest (run lines st).
Proof.
  revert st. induction lines as [|line more IH]; intros st Hv; [reflexivity|].
  cbn [app load_lines run_lines foldl].
  destruct (load_line_version true line st Hv) as [Hv' Hstop].
  destruct (load_line' true line st) as [st' stop]. cbn [fst snd] in *.
  subst stop. now apply IH.
Qed.

Lemma strip_last_app name :
  strip_last "]" (name ++ "]") = Some name.
Proof.
  induction name as [|ch name IH]; [reflexivity|].
  cbn [String.append strip_last]. rewrite IH.
  destruct name; reflexivity.
Qed.

(** A file name line, read past the version line. *)
Lemma load_line_file name st :
  ls_version_ok st = true ->
  load_line' true ("[" ++ name ++ "]") st = (load_key' _K_filename name st, false).
Proof.
  intros Hv. unfold load_line, parse_line. rewrite Hv.
  cbn [String.append andb negb].
  rewrite strip_last_app. cbn [negb andb].
  now rewrite andb_false_r.
Qed.

(** A plain line, read past the version line. *)
Lemma load_line_plain line st :
  ls_version_ok st = true ->
  plain_line line = true ->
  load_line' true line st
  = (if ls_skip st then st
     else load_key' (_key_2_index (fst (split_key_value line)))
            (snd (split_key_value line)) st,
     false).
Proof.
  intros Hv Hplain. unfold load_line, parse_line. rewrite Hv.
  assert (Hc : match line with String "#" _ => true | _ => false end = false).
  { destruct line as [|ch rest]; [reflexivity|].
    destruct ch as [[] [] [] [] [] [] [] []]; try reflexivity; discriminate Hplain. }
  rewrite Hc. cbn [andb].
  assert (Hb : match line with
               | String "[" rest =>
                   match strip_last "]" rest with
                   | Some name => Some (_K_filename, name)
                   | None => None
                   end
               | _ => let '(k, v) := split_key_value line in Some (_key_2_index k, v)
               end
               = Some (_key_2_index (fst (split_key_value line)),
                       snd (split_key_value line))).
  { destruct line as [|ch rest]; [reflexivity|].
    destruct ch as [[] [] [] [] [] [] [] []];
      try (now destruct (split_key_value (String _ rest)));
      discriminate Hplain. }
  rewrite Hb. rewrite key_2_index_not_filename. cbn [negb].
  rewrite andb_true_r. destruct (ls_skip st); reflexivity.
Qed.

Lemma run_plain line st :
  ls_version_ok st = true ->
  ls_skip st = false ->
  plain_line line = true ->
  run [line] st
  = load_key' (_key_2_index (fst (split_key_value line)))
      (snd (split_key_value line)) st.
Proof.
  intros Hv Hs Hp. cbn [run_lines foldl].
  rewrite load_line_plain by assumption. now rewrite Hs.
Qed.

(** In the block of the built-in plugins plain lines are passed over. *)
Lemma run_skipped lines st :
  ls_version_ok st = true ->
  ls_skip st = true ->
  Forall (fun line => plain_line line = true) lines ->
  run lines st = st.
Proof.
  intros Hv Hs. induction 1 as [|line rest Hp _ IH]; [reflexivity|].
  cbn [run_lines foldl]. rewrite load_line_plain by assumption.
  rewrite Hs. exact IH.
Qed.

(** The lines that follow the file lines of a node are plain. *)
Lemma special_lines_plain n :
  Forall (fun line => plain_line line = true)
    (save_special_lines xine_uint32_2str xine_int32_2str plugin_type_of n).
Proof.
  unfold save_special_lines.
  destruct (plugin_type_of (sv_type n)) as [[]|]; repeat constructor.
  all: destruct (sv_supported_types n); reflexivity.
Qed.

Lemma config_lines_plain (texts : list string) :
  Forall (fun line => plain_line line = true)
    ((fun text => "config_key=" ++ text)%string <$> texts).
Proof. apply Forall_fmap, Forall_forall. intros text _. reflexivity. Qed.

(** The lines of the three numbers in front of the id. *)
Lemma run_type v fn fs fm ty api id vers ainfo types keys plugins :
  run ["type=" ++ v]%string (reading fn fs fm ty api id vers ainfo types keys plugins)
  = reading fn fs fm (fst (xine_str2int32 v)) api id vers ainfo types keys plugins.
Proof. now rewrite run_plain. Qed.

Lemma run_api v fn fs fm ty api id vers ainfo types keys plugins :
  run ["api=" ++ v]%string (reading fn fs fm ty api id vers ainfo types keys plugins)
  = reading fn fs fm ty (fst (xine_str2int32 v)) id vers ainfo types keys plugins.
Proof. now rewrite run_plain. Qed.

Lemma run_vers v fn fs fm ty api id vers ainfo types keys plugins :
  run ["version=" ++ v]%string
    (reading fn fs fm ty api id vers ainfo types keys plugins)
  = reading fn fs fm ty api id (fst (xine_str2uint32 v)) ainfo types keys plugins.
Proof. now rewrite run_plain. Qed.

Lemma run_id v fn fs fm ty api id vers ainfo types keys plugins :
  run ["id=" ++ v]%string (reading fn fs fm ty api id vers ainfo types keys plugins)
  = reading fn fs fm ty api (Some v) vers ainfo types keys plugins.
Proof. now rewrite run_plain. Qed.

(** The lines of a file, from any state past the version line. *)
Lemma run_file name size mtime st :
  ls_version_ok st = true ->
  name <> "libxine/builtins"%string ->
  run ["[" ++ name ++ "]"; "size=" ++ size; "mtime=" ++ mtime]%string st
  = reading name (fst (xine_str2uint64 size)) (fst (xine_str2uint64 mtime))
      (ci_type (cn_info (ls_node st))) (ci_API (cn_info (ls_node st)))
      (ci_id (cn_info (ls_node st))) (ci_version (cn_info (ls_node st)))
      (cn_ainfo (ls_node st)) (cn_supported_types (ls_node st))
      (cn_config_keys (ls_node st)) (ls_plugins st).
Proof.
  intros Hv Hname. apply String.eqb_neq in Hname.
  change (run ["[" ++ name ++ "]"; "size=" ++ size; "mtime=" ++ mtime]%string st)
    with (run ["size=" ++ size; "mtime=" ++ mtime]%string
            (fst (load_line' true ("[" ++ name ++ "]") st))).
  rewrite load_line_file by exact Hv. cbn [fst].
  destruct st as [vok skip [[fn fs fm] [ty api id vers] ainfo types keys] plugins].
  cbn in Hv. subst vok.
  unfold load_key. cbn [ls_node cn_file cn_info with_file cf_filesize cf_filemtime
                        ls_version_ok ls_plugins cn_ainfo cn_supported_types
                        cn_config_keys ci_type ci_API ci_id ci_version].
  rewrite Hname.
  change (run ["size=" ++ size; "mtime=" ++ mtime]%string ?s)
    with (run ["mtime=" ++ mtime]%string (run ["size=" ++ size]%string s)).
  rewrite !run_plain by reflexivity. reflexivity.
Qed.

Lemma run_builtins st :
  ls_version_ok st = true ->
  let st' := run ["[libxine/builtins]"%string] st in
  ls_version_ok st' = true /\ ls_skip st' = true
  /\ cn_info (ls_node st') = cn_info (ls_node st)
  /\ cn_ainfo (ls_node st') = cn_ainfo (ls_node st)
  /\ cn_supported_types (ls_node st') = cn_supported_types (ls_node st)
  /\ cn_config_keys (ls_node st') = cn_config_keys (ls_node st)
  /\ ls_plugins st' = ls_plugins st.
Proof.
  intros Hv st'. subst st'. cbn [run_lines foldl].
  change "[libxine/builtins]"%string with ("[" ++ "libxine/builtins" ++ "]")%string.
  rewrite (load_line_file "libxine/builtins" st Hv). cbn [fst].
  unfold load_key. cbn. repeat split. exact Hv.
Qed.

(** The configuration lines. *)
Lemma run_config_one text fn fs fm ty api id vers ainfo types keys plugins :
  (length keys < 255)%nat ->
  run ["config_key=" ++ text]%string
    (reading fn fs fm ty api id vers ainfo types keys plugins)
  = reading fn fs fm ty api id vers ainfo types (keys ++ [text]) plugins.
Proof.
  intros Hlen. rewrite run_plain by reflexivity.
  change (_key_2_index (fst (split_key_value ("config_key=" ++ text)%string)))
    with _K_config_key.
  change (snd (split_key_value ("config_key=" ++ text)%string)) with text.
  unfold load_key, reading. cbn [ls_node cn_config_keys].
  destruct (Nat.ltb_spec (length keys) 255) as [_|Hge]; [reflexivity|lia].
Qed.

Lemma run_config texts fn fs fm ty api id vers ainfo types keys plugins :
  (length keys + length texts <= 255)%nat ->
  run ((fun text => "config_key=" ++ text)%string <$> texts)
    (reading fn fs fm ty api id vers ainfo types keys plugins)
  = reading fn fs fm ty api id vers ainfo types (keys ++ texts) plugins.
Proof.
  revert keys. induction texts as [|text rest IH]; intros keys Hlen.
  - now rewrite app_nil_r.
  - cbn [fmap list_fmap].
    change (run (?l :: ?r) ?s) with (run r (run [l] s)).
    rewrite run_config_one by (cbn in Hlen; lia).
    rewrite IH by (rewrite length_app; cbn in *; lia).
    now rewrite <- app_assoc.
Qed.

(** The empty line behind the lines of a node. *)
Lemma run_flush ch id' fn fs fm ty api vers ainfo types keys plugins :
  run [EmptyString]
    (reading fn fs fm ty api (Some (String ch id')) vers ainfo types keys plugins)
  = reading fn fs fm ty api None vers cache_ainfo_zero [] []
      (plugins
       ++ [ {| cn_file := {| cf_filename := fn; cf_filesize := fs;
                             cf_filemtime := fm |};
               cn_info := {| ci_type := ty; ci_API := api;
                             ci_id := Some (String ch id'); ci_version := vers |};
               cn_ainfo := ainfo; cn_supported_types := types;
               cn_config_keys := keys |} ]).
Proof. now rewrite run_plain. Qed.

(** The lines of the special info. *)
Lemma run_special n fn fs fm ty api id vers keys plugins :
  special_reads_back xine_str2int32 xine_str2uint32 xine_uint32_2str xine_int32_2str
    plugin_type_of n ->
  run (save_special_lines xine_uint32_2str xine_int32_2str plugin_type_of n)
    (reading fn fs fm ty api id vers cache_ainfo_zero [] keys plugins)
  = reading fn fs fm ty api id vers (saved_ainfo plugin_type_of n)
      (match plugin_type_of (sv_type n) with
       | Some (PLUGIN_AUDIO_DECODER | PLUGIN_VIDEO_DECODER | PLUGIN_SPU_DECODER) =>
           sv_supported_types n
       | _ => []
       end)
      keys plugins.
Proof.
  unfold special_reads_back, save_special_lines, saved_ainfo.
  destruct (plugin_type_of (sv_type n)) as [[]|]; cbv zeta; intros H;
    try match type of H with _ /\ _ => destruct H as [H1 H2] end;
    try (destruct (sv_supported_types n) as [|t0 types] eqn:Et;
         [change (join_types (xine_uint32_2str <$> [])) with EmptyString in H1|]);
    repeat match goal with
           | |- context [run_lines ?a ?b ?c (?l :: ?r) ?s] =>
               change (run_lines a b c (l :: r) s)
                 with (run_lines a b c r (run_lines a b c [l] s));
               rewrite run_plain by reflexivity
           end;
    cbn -[read_supported_types join_types fmap];
    unfold reading, cache_ainfo_zero;
    rewrite ?H, ?H1, ?H2; reflexivity.
Qed.

Local Abbreviation save_node' :=
  (save_node xine_uint2str xine_uint32_2str xine_int32_2str SAVE_PLUGIN_ROOM
     plugin_type_of files).
Local Abbreviation save_nodes' :=
  (save_nodes xine_uint2str xine_uint32_2str xine_int32_2str SAVE_PLUGIN_ROOM
     plugin_type_of files).
Local Abbreviation reads_back' :=
  (reads_back xine_str2int32 xine_str2uint32 xine_str2uint64 xine_uint2str
     xine_uint32_2str xine_int32_2str plugin_type_of files).

(** What [save_node] writes, by the four tests it makes. *)
Lemma save_node_shape sv n lines sv' :
  save_node' sv n = Some (lines, sv') ->
  exists (fc tc ac vc : bool) file_lines,
    lines = file_lines
            ++ (if tc then ["type=" ++ xine_uint32_2str (sv_type n)]%string else [])
            ++ (if ac then ["api=" ++ xine_uint32_2str (sv_API n)]%string else [])
            ++ (if vc then ["version=" ++ xine_uint32_2str (sv_version n)]%string
                else [])
            ++ ["id=" ++ sv_id n]%string
            ++ save_special_lines xine_uint32_2str xine_int32_2str plugin_type_of n
            ++ ((fun text => "config_key=" ++ text)%string <$> sv_config n)
            ++ [EmptyString]
    /\ (if fc
        then save_file_lines xine_uint2str SAVE_PLUGIN_ROOM files (sv_file n)
             = Some file_lines
        else file_lines = [] /\ last_file sv = Some (sv_file n))
    /\ (tc = false -> sv_type n = if fc then SAVE_NONE else last_type sv)
    /\ (ac = false -> sv_API n = if fc || tc then SAVE_NONE else last_api sv)
    /\ (vc = false -> sv_version n = if fc || tc then SAVE_NONE else last_vers sv)
    /\ sv' = {| last_file := Some (sv_file n); last_type := sv_type n;
                last_api := sv_API n; last_vers := sv_version n |}.
Proof.
  unfold save_node. intros Hsave.
  destruct (decide (last_file sv = Some (sv_file n))) as [Hf|Hf].
  - rewrite bool_decide_eq_true_2 in Hsave by exact Hf. cbn [negb] in Hsave.
    destruct (Z.eqb_spec (sv_type n) (last_type sv)) as [Ht|Ht]; cbn [negb] in Hsave.
    + destruct (Z.eqb_spec (sv_API n) (last_api sv)) as [Ha|Ha]; cbn [negb] in Hsave;
        cbn [last_vers last_api last_type last_file] in Hsave;
        destruct (Z.eqb_spec (sv_version n) (last_vers sv)) as [Hv|Hv];
        cbn [negb] in Hsave;
        (destruct (_ <? SAVE_PLUGIN_ROOM)%nat; [|discriminate]);
        injection Hsave as <- <-;
        [exists false, false, false, false, []
        |exists false, false, false, true, []
        |exists false, false, true, false, []
        |exists false, false, true, true, []];
        (split; [reflexivity|]); (split; [now split|]);
        cbn [orb last_file last_type last_api last_vers];
        repeat split; try discriminate; try (intros _; assumption);
        destruct sv; cbn in *; congruence.
    + cbn [last_vers last_api last_type last_file] in Hsave.
      destruct (Z.eqb_spec (sv_API n) SAVE_NONE) as [Ha|Ha]; cbn [negb] in Hsave;
        cbn [last_vers last_api last_type last_file] in Hsave;
        destruct (Z.eqb_spec (sv_version n) SAVE_NONE) as [Hv|Hv];
        cbn [negb] in Hsave;
        (destruct (_ <? SAVE_PLUGIN_ROOM)%nat; [|discriminate]);
        injection Hsave as <- <-;
        [exists false, true, false, false, []
        |exists false, true, false, true, []
        |exists false, true, true, false, []
        |exists false, true, true, true, []];
        (split; [reflexivity|]); (split; [now split|]);
        cbn [orb last_file last_type last_api last_vers];
        repeat split; try discriminate; try (intros _; assumption);
        cbn in *; congruence.
  - rewrite bool_decide_eq_false_2 in Hsave by exact Hf. cbn [negb] in Hsave.
    destruct (save_file_lines _ _ _ (sv_file n)) as [file_lines|] eqn:Efile;
      [|discriminate].
    cbn [last_vers last_api last_type last_file] in Hsave.
    destruct (Z.eqb_spec (sv_type n) SAVE_NONE) as [Ht|Ht]; cbn [negb] in Hsave;
      cbn [last_vers last_api last_type last_file] in Hsave;
      destruct (Z.eqb_spec (sv_API n) SAVE_NONE) as [Ha|Ha]; cbn [negb] in Hsave;
      cbn [last_vers last_api last_type last_file] in Hsave;
      destruct (Z.eqb_spec (sv_version n) SAVE_NONE) as [Hv|Hv];
      cbn [negb] in Hsave;
      (destruct (_ <? SAVE_PLUGIN_ROOM)%nat; [|discriminate]);
      injection Hsave as <- <-;
      [exists true, false, false, false, file_lines
      |exists true, false, false, true, file_lines
      |exists true, false, true, false, file_lines
      |exists true, false, true, true, file_lines
      |exists true, true, false, false, file_lines
      |exists true, true, false, true, file_lines
      |exists true, true, true, false, file_lines
      |exists true, true, true, true, file_lines];
      (split; [now rewrite <- ?app_assoc|]); (split; [reflexivity|]);
      cbn [orb last_file last_type last_api last_vers];
      repeat split; try discriminate; try (intros _; assumption);
      cbn in *; congruence.
Qed.

Lemma node_lines_plain n (tc ac vc : bool) :
  Forall (fun line => plain_line line = true)
    ((if tc then ["type=" ++ xine_uint32_2str (sv_type n)]%string else [])
     ++ (if ac then ["api=" ++ xine_uint32_2str (sv_API n)]%string else [])
     ++ (if vc then ["version=" ++ xine_uint32_2str (sv_version n)]%string else [])
     ++ ["id=" ++ sv_id n]%string
     ++ save_special_lines xine_uint32_2str xine_int32_2str plugin_type_of n
     ++ ((fun text => "config_key=" ++ text)%string <$> sv_config n)
     ++ [EmptyString]).
Proof.
  repeat (apply Forall_app; split).
  - destruct tc; repeat constructor.
  - destruct ac; repeat constructor.
  - destruct vc; repeat constructor.
  - repeat constructor.
  - apply special_lines_plain.
  - apply config_lines_plain.
  - repeat constructor.
Qed.

Lemma reading_eta st :
  ls_version_ok st = true ->
  ls_skip st = false ->
  st = reading (cf_filename (cn_file (ls_node st))) (cf_filesize (cn_file (ls_node st)))
         (cf_filemtime (cn_file (ls_node st)))
         (ci_type (cn_info (ls_node st))) (ci_API (cn_info (ls_node st)))
         (ci_id (cn_info (ls_node st))) (ci_version (cn_info (ls_node st)))
         (cn_ainfo (ls_node st)) (cn_supported_types (ls_node st))
         (cn_config_keys (ls_node st)) (ls_plugins st).
Proof.
  destruct st as [vok skip [[fn fs fm] [ty api id vers] ainfo types keys] plugins].
  cbn. now intros -> ->.
Qed.

Lemma run_type_if (c : bool) v fn fs fm ty api id vers ainfo types keys plugins :
  (c = false -> ty = fst (xine_str2int32 v)) ->
  run (if c then ["type=" ++ v]%string else [])
    (reading fn fs fm ty api id vers ainfo types keys plugins)
  = reading fn fs fm (fst (xine_str2int32 v)) api id vers ainfo types keys plugins.
Proof. destruct c; intros H; [apply run_type|now rewrite (H eq_refl)]. Qed.

Lemma run_api_if (c : bool) v fn fs fm ty api id vers ainfo types keys plugins :
  (c = false -> api = fst (xine_str2int32 v)) ->
  run (if c then ["api=" ++ v]%string else [])
    (reading fn fs fm ty api id vers ainfo types keys plugins)
  = reading fn fs fm ty (fst (xine_str2int32 v)) id vers ainfo types keys plugins.
Proof. destruct c; intros H; [apply run_api|now rewrite (H eq_refl)]. Qed.

Lemma run_vers_if (c : bool) v fn fs fm ty api id vers ainfo types keys plugins :
  (c = false -> vers = fst (xine_str2uint32 v)) ->
  run (if c then ["version=" ++ v]%string else [])
    (reading fn fs fm ty api id vers ainfo types keys plugins)
  = reading fn fs fm ty api id (fst (xine_str2uint32 v)) ainfo types keys plugins.
Proof. destruct c; intros H; [apply run_vers|now rewrite (H eq_refl)]. Qed.

Lemma in_step_restart sv st : in_step files sv st -> in_step files save_state_init st.
Proof. intros []. now constructor. Qed.

(** The lines of a node of a plugin file are read back as one node;
    the loader is then in step with the writer again. *)
Lemma run_node_file sv n a lines sv' st :
  save_node' sv n = Some (lines, sv') ->
  sv_file n = Some a ->
  in_step files sv st ->
  reads_back' n a ->
  in_step files sv' (run lines st)
  /\ ls_plugins (run lines st)
     = ls_plugins st ++ [saved_cache_node plugin_type_of files n a].
Proof.
  intros Hsave Hfile Hstep Hrb.
  destruct (save_node_shape _ _ _ _ Hsave)
    as (fc & tc & ac & vc & fl & -> & Hfc & Htc & Hac & Hvc & ->).
  destruct Hstep as [Hv Hid Hai Hty Hk Hf].
  destruct Hrb as [Hrid Hrname Hrcfg Hrt Hra Hrv Hrsize Hrmtime Hrtype Hrapi Hrvers
                   Hrspecial].
  assert (Hfile_lines :
    exists ty0 api0 vers0,
      run fl st
      = reading (cf_filename (files a)) (cf_filesize (files a))
          (cf_filemtime (files a)) ty0 api0 None vers0 cache_ainfo_zero [] []
          (ls_plugins st)
      /\ (tc = false -> ty0 = sv_type n)
      /\ (ac = false -> api0 = sv_API n)
      /\ (vc = false -> vers0 = sv_version n)).
  { destruct fc.
    - rewrite Hfile in Hfc. unfold save_file_lines in Hfc.
      destruct (_ <? _)%nat; [|discriminate].
      assert (Hfl : fl = [ "[" ++ cf_filename (files a) ++ "]";
                           "size=" ++ xine_uint2str (cf_filesize (files a));
                           "mtime=" ++ xine_uint2str (cf_filemtime (files a)) ]%string)
        by congruence.
      rewrite Hfl, run_file by assumption.
      rewrite Hid, Hai, Hty, Hk, Hrsize, Hrmtime.
      eexists _, _, _. split; [reflexivity|].
      cbn [orb] in Hac, Hvc.
      repeat split; intros E; exfalso; auto.
    - destruct Hfc as [-> Hlast]. rewrite Hlast, Hfile in Hf.
      destruct Hf as (Hskip & Hcf & Ht & Ha & Hvers).
      exists (ci_type (cn_info (ls_node st))), (ci_API (cn_info (ls_node st))),
        (ci_version (cn_info (ls_node st))).
      split.
      { change (run [] st) with st.
        etransitivity; [exact (reading_eta st Hv Hskip)|].
        now rewrite Hid, Hai, Hty, Hk, Hcf. }
      cbn [orb] in Hac, Hvc.
      split; [|split].
      + intros E. specialize (Htc E). destruct Ht as [Ht|Ht]; congruence.
      + intros E. specialize (Hac E).
        destruct tc; [exfalso; auto|]. destruct Ha as [Ha|Ha]; congruence.
      + intros E. specialize (Hvc E).
        destruct tc; [exfalso; auto|]. destruct Hvers as [Hvers|Hvers]; congruence. }
  destruct Hfile_lines as (ty0 & api0 & vers0 & Hrun & Hty0 & Hapi0 & Hvers0).
  rewrite !run_app, Hrun.
  rewrite run_type_if by (intros E; rewrite Hrtype; auto).
  rewrite run_api_if by (intros E; rewrite Hrapi; auto).
  rewrite run_vers_if by (intros E; rewrite Hrvers; auto).
  rewrite Hrtype, Hrapi, Hrvers.
  rewrite run_id, run_special by exact Hrspecial.
  rewrite run_config by exact Hrcfg.
  destruct (sv_id n) as [|ch id'] eqn:Eid; [contradiction|].
  rewrite run_flush. cbn [app].
  split.
  - constructor; try reflexivity.
    cbn. rewrite Hfile. repeat split; try (right; reflexivity).
    now destruct (files a).
  - cbn [reading ls_plugins]. f_equal. unfold saved_cache_node.
    rewrite Eid. now destruct (files a).
Qed.

(** The lines of a built-in plugin are passed over. *)
Lemma run_node_builtin sv n lines sv' st :
  save_node' sv n = Some (lines, sv') ->
  sv_file n = None ->
  in_step files sv st ->
  in_step files sv' (run lines st) /\ ls_plugins (run lines st) = ls_plugins st.
Proof.
  intros Hsave Hfile Hstep.
  destruct (save_node_shape _ _ _ _ Hsave)
    as (fc & tc & ac & vc & fl & -> & Hfc & _ & _ & _ & ->).
  destruct Hstep as [Hv Hid Hai Hty Hk Hf].
  rewrite run_app. destruct fc.
  - rewrite Hfile in Hfc. injection Hfc as <-.
    destruct (run_builtins st Hv) as (Hv' & Hskip & Hinfo & Hainfo & Htypes & Hkeys & Hpl).
    rewrite run_skipped by (try assumption; apply node_lines_plain).
    split; [|exact Hpl].
    constructor; cbn [last_file]; rewrite ?Hfile; try congruence.
  - destruct Hfc as [-> Hlast]. rewrite Hlast, Hfile in Hf.
    change (run [] st) with st.
    rewrite run_skipped by (try assumption; apply node_lines_plain).
    split; [|reflexivity].
    constructor; cbn [last_file]; rewrite ?Hfile; assumption.
Qed.

Local Abbreviation saved_cache_nodes' := (saved_cache_nodes plugin_type_of files).

Lemma run_nodes l :
  forall sv st lines,
    save_nodes' sv l = Some lines ->
    in_step files sv st ->
    (forall n a, n ∈ l -> sv_file n = Some a -> reads_back' n a) ->
    (exists sv', in_step files sv' (run lines st))
    /\ ls_plugins (run lines st) = ls_plugins st ++ saved_cache_nodes' l.
Proof.
  induction l as [|n rest IH]; intros sv st lines Hsave Hstep Hrb.
  - injection Hsave as <-. split; [now exists sv|]. cbn. now rewrite app_nil_r.
  - cbn [save_nodes] in Hsave.
    destruct (save_node' sv n) as [[first sv1]|] eqn:Enode; [|discriminate].
    destruct (save_nodes' sv1 rest) as [more|] eqn:Erest; [|discriminate].
    injection Hsave as <-.
    assert (Hnode : in_step files sv1 (run first st)
                    /\ ls_plugins (run first st)
                       = ls_plugins st ++ saved_cache_nodes' [n]).
    { unfold saved_cache_nodes. cbn [mbind list_bind app].
      destruct (sv_file n) as [a|] eqn:Efile.
      - rewrite app_nil_r.
        apply (run_node_file sv n a first sv1 st Enode Efile Hstep).
        apply Hrb; [left|exact Efile].
      - cbn [app]. rewrite app_nil_r.
        apply (run_node_builtin sv n first sv1 st Enode Efile Hstep). }
    destruct Hnode as [Hstep1 Hpl1].
    destruct (IH sv1 (run first st) more Erest Hstep1) as [Hex Hpl].
    { intros n' a Hin. apply Hrb. now right. }
    rewrite run_app. split; [exact Hex|].
    rewrite Hpl, Hpl1, <- app_assoc. f_equal.
    unfold saved_cache_nodes. cbn [mbind list_bind]. now rewrite app_nil_r.
Qed.

Lemma run_lists lists :
  forall sv st lines,
    save_lists xine_uint2str xine_uint32_2str xine_int32_2str SAVE_PLUGIN_ROOM
      plugin_type_of files lists = Some lines ->
    in_step files sv st ->
    (forall n a, n ∈ concat lists -> sv_file n = Some a -> reads_back' n a) ->
    (exists sv', in_step files sv' (run lines st))
    /\ ls_plugins (run lines st) = ls_plugins st ++ saved_cache_nodes' (concat lists).
Proof.
  induction lists as [|l rest IH]; intros sv st lines Hsave Hstep Hrb.
  - injection Hsave as <-. split; [now exists sv|]. cbn. now rewrite app_nil_r.
  - cbn [save_lists] in Hsave. unfold save_plugin_list in Hsave.
    destruct (save_nodes' save_state_init l) as [first|] eqn:El; [|discriminate].
    destruct (save_lists _ _ _ _ _ _ rest) as [more|] eqn:Erest; [|discriminate].
    injection Hsave as <-.
    destruct (run_nodes l save_state_init st first El (in_step_restart sv st Hstep))
      as [[sv1 Hstep1] Hpl1].
    { intros n a Hin. apply Hrb. cbn [concat]. apply elem_of_app. now left. }
    destruct (IH sv1 (run first st) more eq_refl Hstep1) as [Hv Hpl].
    { intros n a Hin. apply Hrb. cbn [concat]. apply elem_of_app. now right. }
    rewrite run_app. split; [exact Hv|].
    rewrite Hpl, Hpl1, <- app_assoc. f_equal.
    unfold saved_cache_nodes. cbn [concat]. now rewrite bind_app.
Qed.

(** The dummy line that ends the file finds nothing to flush. *)
Lemma load_lines_end sv st :
  in_step files sv st -> load_lines' [] st = st.
Proof.
  intros [Hv Hid _ _ _ _]. cbn [load_lines]. unfold load_line, parse_line.
  rewrite Hv. cbn [andb negb split_key_value fst snd].
  change (_key_2_index EmptyString) with _K_flush.
  destruct (ls_skip st); cbn [andb negb fst]; [reflexivity|].
  unfold load_key. now rewrite Hid.
Qed.

(** The head of the file: the comment, and the version line between
    two empty lines. *)
Lemma load_lines_head body :
  fst (xine_str2uint32 "5") = CACHE_CATALOG_VERSION ->
  load_lines'
    ([ "# this file is automatically created by xine, do not edit.";
       ""; "cache_catalog_version=5"; "" ]%string ++ body) load_state_init
  = load_lines' body
      {| ls_version_ok := true; ls_skip := false; ls_node := cache_node_init;
         ls_plugins := [] |}.
Proof.
  intros H5.
  cbn [app load_lines].
  change (load_line' true
            "# this file is automatically created by xine, do not edit."
            load_state_init)
    with (load_state_init, false).
  cbn [load_lines].
  change (load_line' true "" load_state_init) with (load_state_init, false).
  cbn [load_lines].
  change (load_line' true "cache_catalog_version=5" load_state_init)
    with (if version_accepted (fst (xine_str2uint32 "5"))
          then ({| ls_version_ok := true; ls_skip := false;
                   ls_node := cache_node_init; ls_plugins := [] |}, false)
          else (load_state_init, true)).
  rewrite H5. reflexivity.
Qed.

(** X16. A cache file written by [save_catalog] is read back by
    [load_plugin_list] node by node: the nodes of plugin files come
    back in the order written, each with its file name, size and time,
    its type, API, id and version, the special info of its plugin type
    and its configuration texts; the nodes of built-in plugins are
    written but not read back.  This holds when the names fit the
    buffer, the version text reads as the catalog version, every text
    of a node is a single line, and a node with a file has an id, no
    more than 255 configuration texts and numbers other than [~0u]
    that the parsers read back as the printers write them. *)
Theorem saved_catalog_reads_back (lists : list (list save_node_t))
    (text : list string) :
  save_catalog xine_uint2str xine_uint32_2str xine_int32_2str SAVE_PLUGIN_ROOM
    plugin_type_of files lists = Some text ->
  fst (xine_str2uint32 "5") = CACHE_CATALOG_VERSION ->
  Forall (fun n => single_lines files n = true) (concat lists) ->
  Forall (fun n => forall a, sv_file n = Some a -> reads_back' n a) (concat lists) ->
  load_plugin_list xine_str2int32 xine_str2uint32 xine_str2uint64 text
  = saved_cache_nodes plugin_type_of files (concat lists).
Proof.
  intros Hsave H5 _ Hrb. unfold save_catalog in Hsave.
  destruct (save_lists _ _ _ _ _ _ lists) as [body|] eqn:Ebody; [|discriminate].
  assert (Htext : text
                  = [ "# this file is automatically created by xine, do not edit.";
                      ""; "cache_catalog_version=5"; "" ]%string ++ body)
    by congruence.
  unfold load_plugin_list. rewrite Htext, load_lines_head by exact H5.
  set (st0 := {| ls_version_ok := true; ls_skip := false;
                 ls_node := cache_node_init; ls_plugins := [] |}).
  assert (Hstep : in_step files save_state_init st0) by now constructor.
  destruct (run_lists lists save_state_init st0 body Ebody Hstep) as [[sv' Hend] Hpl].
  { intros n a Hin. rewrite Forall_forall in Hrb. now apply Hrb. }
  rewrite <- (app_nil_r body), load_lines_run by reflexivity.
  rewrite (load_lines_end sv' _ Hend), Hpl. reflexivity.
Qed.

End RoundTripFacts.

Lemma saved_catalog_reads_back_witness :
  exists text,
    save_catalog sample_num2str sample_num2str sample_num2str 3921
      sample_plugin_type_of sample_files sample_saved = Some text
    /\ load_plugin_list sample_str2num sample_str2num sample_str2num text
       = saved_cache_nodes sample_plugin_type_of sample_files (concat sample_saved).
Proof.
  destruct (save_catalog sample_num2str sample_num2str sample_num2str 3921
              sample_plugin_type_of sample_files sample_saved) as [text|] eqn:E;
    [|vm_compute in E; discriminate].
  exists text. split; [reflexivity|].
  apply (saved_catalog_reads_back sample_str2num sample_str2num sample_str2num
           sample_num2str sample_num2str sample_num2str 3921
           sample_plugin_type_of sample_files sample_saved text E).
  - reflexivity.
  - repeat constructor.
  - cbn [concat sample_saved app].
    repeat match goal with
           | |- Forall _ (_ :: _) => constructor
           | |- Forall _ [] => constructor
           end;
      intros a Ea; try discriminate Ea;
      (constructor;
       [ intros H; vm_compute in H; discriminate H
       | intros H; vm_compute in H; discriminate H
       | vm_compute; lia
       | intros H; vm_compute in H; discriminate H
       | intros H; vm_compute in H; discriminate H
       | intros H; vm_compute in H; discriminate H
       | vm_compute; reflexivity
       | vm_compute; reflexivity
       | vm_compute; reflexivity
       | vm_compute; reflexivity
       | vm_compute; reflexivity
       | vm_compute; split; reflexivity ]).
Defined.

(** ** Finding a mime type *)

Lemma tab_tolower_class c :
  Z.land (tab_mime (tab_tolower c)) 15 = Z.land (tab_mime c) 15.
Proof. destruct c as [[] [] [] [] [] [] [] []]; reflexivity. Qed.

Lemma tab_tolower_not_A c : tab_tolower c <> "A"%char.
Proof. destruct c as [[] [] [] [] [] [] [] []]; discriminate. Qed.

Lemma blank_not_end c :
  Z.land (tab_mime c) 2 <> 0 -> Z.land (tab_mime c) (Z.lor 1 8) = 0.
Proof.
  destruct c as [[] [] [] [] [] [] [] []]; intros H; try reflexivity;
    now contradiction H.
Qed.

Lemma end_is_delimiter c :
  Z.land (tab_mime c) (Z.lor 1 8) <> 0 -> Z.land (tab_mime c) 15 <> 0.
Proof.
  destruct c as [[] [] [] [] [] [] [] []]; intros H; try discriminate;
    now contradiction H.
Qed.

Lemma end_cases c :
  Z.land (tab_mime c) (Z.lor 1 8) <> 0 -> c = Ascii.zero \/ c = ";"%char.
Proof.
  destruct c as [[] [] [] [] [] [] [] []]; intros H;
    try (now contradiction H); auto.
Qed.

Lemma copy_lowercase_pattern room n : Forall pattern_byte (copy_lowercase room n).
Proof.
  revert n. induction room as [|room IH]; intros [|c rest]; cbn [copy_lowercase];
    try constructor.
  change (Z.lor 1 (Z.lor 2 (Z.lor 4 8))) with 15.
  destruct (Z.eqb_spec (Z.land (tab_mime c) 15) 0) as [Hc|Hc]; constructor.
  - split; [now rewrite tab_tolower_class|apply tab_tolower_not_A].
  - apply IH.
Qed.

Lemma skip_blanks_pos h pos :
  skip_blanks h pos = (fst (skip_blanks h 0), (pos + snd (skip_blanks h 0))%nat).
Proof.
  revert pos. induction h as [|c rest IH]; intros pos; cbn [skip_blanks].
  - cbn. f_equal. lia.
  - destruct (Z.land (tab_mime c) 2 =? 0); cbn [fst snd]; [f_equal; lia|].
    rewrite (IH (S pos)), (IH 1%nat). cbn [fst snd]. f_equal. lia.
Qed.

(** Blanks are passed on the way to the end of an entry. *)
Lemma skip_entry_blanks h pos :
  skip_entry (fst (skip_blanks h pos)) (snd (skip_blanks h pos)) = skip_entry h pos.
Proof.
  revert pos. induction h as [|c rest IH]; intros pos; cbn [skip_blanks]; [reflexivity|].
  destruct (Z.eqb_spec (Z.land (tab_mime c) 2) 0) as [Hc|Hc]; [reflexivity|].
  rewrite IH. cbn [skip_entry]. now rewrite (blank_not_end c Hc).
Qed.

Lemma skip_entry_length h pos :
  (String.length (fst (skip_entry h pos)) <= String.length h)%nat.
Proof.
  revert pos. induction h as [|c rest IH]; intros pos; cbn [skip_entry]; [reflexivity|].
  destruct (Z.land (tab_mime c) (Z.lor 1 8) =? 0); cbn [fst String.length]; [|lia].
  specialize (IH (S pos)). lia.
Qed.

Lemma skip_blanks_length h pos :
  (String.length (fst (skip_blanks h pos)) <= String.length h)%nat.
Proof.
  revert pos. induction h as [|c rest IH]; intros pos; cbn [skip_blanks]; [reflexivity|].
  destruct (Z.land (tab_mime c) 2 =? 0); cbn [fst String.length]; [lia|].
  specialize (IH (S pos)). lia.
Qed.

(** The walk along a pattern of [_mime_set] stays inside [buf] and the
    haystack, and inside the entry. *)
Lemma match_pattern_spec p :
  Forall pattern_byte p ->
  forall h pos,
    exists n h' pos',
      match_pattern (p ++ ["A"%char]) h pos = Some (n, h', pos')
      /\ skip_entry h' pos' = skip_entry h pos
      /\ ((strip_pattern p h = Some h' /\ n = ["A"%char])
          \/ (strip_pattern p h = None /\ exists c n', n = c :: n' /\ c <> "A"%char)).
Proof.
  induction 1 as [|c p [Hclass HA] _ IH]; intros h pos.
  - exists ["A"%char], h, pos. cbn [app match_pattern strip_pattern].
    split; [|split; [reflexivity|now left]].
    destruct h as [|ch rest]; [reflexivity|].
    destruct (Ascii.eqb_spec "A"%char (tab_tolower ch)) as [E|_]; [|reflexivity].
    symmetry in E. now apply tab_tolower_not_A in E.
  - cbn [app match_pattern strip_pattern]. destruct h as [|ch rest].
    + destruct (Ascii.eqb_spec c (tab_tolower Ascii.zero)) as [E|_].
      * subst c. discriminate Hclass.
      * exists (c :: p ++ ["A"%char]), EmptyString, pos.
        split; [reflexivity|]. split; [reflexivity|]. right. split; [reflexivity|].
        now exists c, (p ++ ["A"%char]).
    + destruct (Ascii.eqb_spec c (tab_tolower ch)) as [E|_].
      * destruct (IH rest (S pos)) as (n & h' & pos' & Hm & Hskip & Hcases).
        exists n, h', pos'. split; [exact Hm|]. split; [|exact Hcases].
        rewrite Hskip. cbn [skip_entry].
        destruct (Z.eqb_spec (Z.land (tab_mime ch) (Z.lor 1 8)) 0) as [_|Hend];
          [reflexivity|].
        apply end_is_delimiter in Hend.
        rewrite <- tab_tolower_class, <- E in Hend. contradiction.
      * exists (c :: p ++ ["A"%char]), (String ch rest), pos.
        split; [reflexivity|]. split; [reflexivity|]. right. split; [reflexivity|].
        now exists c, (p ++ ["A"%char]).
Qed.

(** Outside the head of an entry the first entry is looked for behind
    the next semicolon. *)
Lemma first_entry_skip p h pos :
  first_entry p false h pos
  = match fst (skip_entry h pos) with
    | String c rest =>
        if Ascii.eqb c Ascii.zero then None
        else first_entry p true rest (S (snd (skip_entry h pos)))
    | EmptyString => None
    end.
Proof.
  revert pos. induction h as [|c rest IH]; intros pos; [reflexivity|].
  cbn [first_entry skip_entry andb].
  destruct (Z.eqb_spec (Z.land (tab_mime c) (Z.lor 1 8)) 0) as [Hc|Hc]; cbn [fst snd].
  - destruct (Ascii.eqb_spec c Ascii.zero) as [->|_]; [discriminate Hc|].
    destruct (Ascii.eqb_spec c ";"%char) as [->|_]; [discriminate Hc|].
    apply IH.
  - destruct (Ascii.eqb_spec c Ascii.zero) as [_|Hz]; [reflexivity|].
    destruct (end_cases c Hc) as [->| ->]; [contradiction|reflexivity].
Qed.

Lemma first_entry_no_match p h pos :
  entry_matches p h = false -> first_entry p true h pos = first_entry p false h pos.
Proof. intros H. destruct h; cbn [first_entry andb]; now rewrite H. Qed.

Lemma skip_blanks_range h : forall pos,
  (pos <= snd (skip_blanks h pos) <= pos + String.length h)%nat.
Proof.
  induction h as [|c rest IH]; intros pos; cbn [skip_blanks String.length].
  - cbn. lia.
  - destruct (Z.land (tab_mime c) 2 =? 0); cbn [snd]; [lia|].
    specialize (IH (S pos)). lia.
Qed.

Lemma first_entry_range p h : forall start pos o,
  first_entry p start h pos = Some o -> (pos <= o <= pos + String.length h)%nat.
Proof.
  induction h as [|c rest IH]; intros start pos o.
  - cbn [first_entry]. destruct (start && _); [|discriminate].
    intros Hf. assert (Ho : o = snd (skip_blanks EmptyString pos)) by congruence.
    subst o. apply skip_blanks_range.
  - cbn [first_entry].
    destruct (start && entry_matches p (String c rest)).
    + intros Hf. assert (Ho : o = snd (skip_blanks (String c rest) pos)) by congruence.
      subst o. apply skip_blanks_range.
    + destruct (Ascii.eqb c Ascii.zero); [discriminate|].
      intros Hf. apply IH in Hf. cbn [String.length]. lia.
Qed.

(** The loop finds the first entry that names a pattern of
    [_mime_set], with fuel to spare. *)
Lemma mime_find_loop_spec p :
  Forall pattern_byte p ->
  forall fuel h pos,
    (String.length h < fuel)%nat ->
    _mime_find_loop fuel (p ++ ["A"%char]) h pos
    = Some (match first_entry p true h pos with
            | Some o => CInt.int32 (Z.of_nat o)
            | None => -1
            end).
Proof.
  intros Hp. induction fuel as [|fuel IH]; intros h pos Hfuel; [lia|].
  cbn [_mime_find_loop].
  pose proof (skip_entry_blanks h pos) as Hblanks.
  pose proof (skip_blanks_pos h pos) as Hpos.
  destruct (skip_blanks h pos) as [h1 o] eqn:E1. cbn [fst snd] in Hblanks.
  injection Hpos as Hh1 Ho.
  destruct (match_pattern_spec p Hp h1 o) as (n & h' & pos' & -> & Hskip & Hcases).
  change (Z.lor 1 (Z.lor 2 (Z.lor 4 8))) with 15.
  destruct Hcases as [[Hstrip ->]|[Hstrip (c & n' & -> & HA)]].
  - cbn [Ascii.eqb Bool.eqb andb].
    destruct (negb (Z.land (tab_mime (byte_at h')) 15 =? 0)) eqn:Hdelim.
    + assert (Hm : entry_matches p h = true).
      { unfold entry_matches. now rewrite <- Hh1, Hstrip. }
      destruct h; cbn [first_entry andb]; rewrite Hm, E1; reflexivity.
    + assert (Hm : entry_matches p h = false).
      { unfold entry_matches. now rewrite <- Hh1, Hstrip. }
      rewrite (first_entry_no_match p h pos Hm), first_entry_skip.
      rewrite Hskip, Hblanks.
      pose proof (skip_entry_length h pos) as Hlen.
      destruct (skip_entry h pos) as [h2 pos2]. cbn [fst snd] in *.
      destruct h2 as [|c2 rest2]; [reflexivity|].
      destruct (Ascii.eqb c2 Ascii.zero); [reflexivity|].
      apply IH. cbn [String.length] in Hlen. lia.
  - assert (Hm : entry_matches p h = false).
    { unfold entry_matches. now rewrite <- Hh1, Hstrip. }
    destruct (Ascii.eqb_spec c "A"%char) as [->|_]; [contradiction|].
    cbn [andb].
    rewrite (first_entry_no_match p h pos Hm), first_entry_skip.
    rewrite Hskip, Hblanks.
    pose proof (skip_entry_length h pos) as Hlen.
    destruct (skip_entry h pos) as [h2 pos2]. cbn [fst snd] in *.
    destruct h2 as [|c2 rest2]; [reflexivity|].
    destruct (Ascii.eqb c2 Ascii.zero); [reflexivity|].
    apply IH. cbn [String.length] in Hlen. lia.
Qed.

(** X17.  [_mime_find] finds the first entry of a mime type list that
    names the needle of [_mime_set].  For a buffer of at least one byte
    and a haystack of no more than [INT_MAX] bytes it returns the
    offset of the first entry (at the head of the haystack, or behind a
    semicolon) that has, behind its leading blanks, the needle's first
    word in any case of letters, followed by a blank, a colon, a
    semicolon or the end; it returns -1 when there is none.  It reads
    no byte of the buffer that [_mime_set] did not write and no byte
    behind the end of the haystack.  A [NULL] needle or haystack is
    never found. *)
Theorem mime_find_first_entry (room : nat) (needle haystack : string) :
  Z.of_nat (String.length haystack) <= CInt.INT_MAX ->
  let pattern := copy_lowercase room (fst (skip_blanks needle 0)) in
  (_mime_set (S room) (Some needle) ≫= fun buf => _mime_find buf (Some haystack))
  = Some (match first_entry pattern true haystack 0 with
          | Some o => Z.of_nat o
          | None => -1
          end)
  /\ (_mime_set (S room) (Some needle) ≫= fun buf => _mime_find buf None) = Some (-1)
  /\ (_mime_set (S room) None ≫= fun buf => _mime_find buf (Some haystack))
     = Some (-1).
Proof.
  intros Hlen pattern. cbn [_mime_set mbind option_bind]. fold pattern.
  pose proof (copy_lowercase_pattern room (fst (skip_blanks needle 0))) as Hp.
  fold pattern in Hp.
  assert (Hhead : exists b0 rest, pattern ++ ["A"%char] = b0 :: rest /\ b0 <> Ascii.zero).
  { destruct Hp as [|c p [Hc _] _].
    - now exists "A"%char, [].
    - exists c, (p ++ ["A"%char]). split; [reflexivity|].
      intros ->. discriminate Hc. }
  destruct Hhead as (b0 & rest & Ebuf & Hb0).
  split; [|split; [|reflexivity]].
  - unfold _mime_find. rewrite Ebuf.
    destruct (Ascii.eqb_spec b0 Ascii.zero) as [E|_]; [contradiction|].
    rewrite <- Ebuf, (mime_find_loop_spec pattern Hp) by lia.
    destruct (first_entry pattern true haystack 0) as [o|] eqn:Ho; [|reflexivity].
    apply first_entry_range in Ho.
    rewrite CIntFacts.int32_small; [reflexivity|].
    unfold CInt.INT_MIN, CInt.INT_MAX in *. lia.
  - unfold _mime_find. rewrite Ebuf.
    now destruct (Ascii.eqb_spec b0 Ascii.zero) as [E|_].
Qed.

Lemma mime_find_first_entry_witness :
  Z.of_nat (String.length "audio/mpeg: mp3: MPEG audio; Video/MP4: mp4: MP4 video;")
  <= CInt.INT_MAX
  /\ (_mime_set 256 (Some " video/mp4; codecs=avc1"%string) ≫=
       fun buf =>
         _mime_find buf
           (Some "audio/mpeg: mp3: MPEG audio; Video/MP4: mp4: MP4 video;"%string))
     = Some 29.
Proof.
  assert (Hlen : Z.of_nat (String.length
                   "audio/mpeg: mp3: MPEG audio; Video/MP4: mp4: MP4 video;")
                 <= CInt.INT_MAX) by (vm_compute; discriminate).
  split; [exact Hlen|].
  destruct (mime_find_first_entry 255 " video/mp4; codecs=avc1"
              "audio/mpeg: mp3: MPEG audio; Video/MP4: mp4: MP4 video;" Hlen)
    as (Hfind & _).
  rewrite Hfind. vm_compute. reflexivity.
Defined.

(** ** The wakeup agent *)

Lemma nbc_delay_until_ns base pts :
  0 <= tv_nsec base < 1000000000 ->
  0 <= pts ->
  0 <= tv_nsec (nbc_delay_until base pts) < 1000000000
  /\ timespec_ns (nbc_delay_until base pts) = timespec_ns base + pts / 9 * 100000.
Proof.
  intros Hbase Hpts. unfold nbc_delay_until, timespec_ns.
  assert (Hq : pts / 9 = pts / 90000 * 10000 + pts mod 90000 / 9).
  { rewrite (Z.div_mod pts 90000) at 1 by lia.
    replace (90000 * (pts / 90000) + pts mod 90000)
      with (pts mod 90000 + pts / 90000 * 10000 * 9) by lia.
    rewrite Z.div_add by lia. lia. }
  assert (Hm : 0 <= pts mod 90000 / 9 <= 9999).
  { pose proof (Z.mod_pos_bound pts 90000 ltac:(lia)) as Hmod.
    split; [apply Z.div_pos; lia|].
    apply Z.lt_succ_r. apply Z.div_lt_upper_bound; lia. }
  destruct (Z.geb_spec (tv_nsec base + pts mod 90000 / 9 * 100000) 1000000000);
    cbn [tv_sec tv_nsec]; lia.
Qed.

Lemma nbc_delay_due_ns until ts :
  0 <= tv_nsec until < 1000000000 ->
  0 <= tv_nsec ts < 1000000000 ->
  nbc_delay_due until ts = true <-> timespec_ns until <= timespec_ns ts.
Proof.
  intros Hu Ht. unfold nbc_delay_due, timespec_ns.
  rewrite orb_true_iff, andb_true_iff, Z.gtb_lt, Z.eqb_eq, Z.geb_le. lia.
Qed.

(** X18.  [nbc_delay_set] never leaves the stream waiting without a
    wakeup.  With the base time and the time read in [0 .. 999999999]
    nanoseconds, [until] is again a time in that range, later than the
    base by [pts / 9] tenths of a millisecond (the delay of [pts] in
    1/90000 s, rounded down to 100 us).  If that time has come, the
    agent is not touched and playback is unpaused at once.  If not,
    either the agent runs afterwards and nothing is unpaused (a running
    agent is signalled, otherwise a thread is created), or the thread
    could not be created: then the agent is off and playback is
    unpaused. *)
Theorem nbc_delay_set_wakes (ts : timespec) (created : bool) (d : nbc_delay) (pts : Z) :
  0 <= tv_nsec (delay_base d) < 1000000000 ->
  0 <= tv_nsec ts < 1000000000 ->
  0 <= pts < 2 ^ 32 ->
  let d' := fst (nbc_delay_set ts created d pts) in
  let effects := snd (nbc_delay_set ts created d pts) in
  delay_base d' = delay_base d
  /\ 0 <= tv_nsec (delay_until d') < 1000000000
  /\ timespec_ns (delay_until d') = timespec_ns (delay_base d) + pts / 9 * 100000
  /\ (timespec_ns (delay_until d') <= timespec_ns ts ->
      delay_state d' = delay_state d /\ effects = [Agent_unpause])
  /\ (timespec_ns ts < timespec_ns (delay_until d') ->
      (delay_state d' = NBC_DELAY_RUN /\ ~ In Agent_unpause effects
       /\ (delay_state d = NBC_DELAY_RUN \/ created = true))
      \/ (delay_state d' = NBC_DELAY_OFF /\ last effects = Some Agent_unpause
          /\ delay_state d <> NBC_DELAY_RUN /\ created = false)).
Proof.
  intros Hbase Hts Hpts d' effects.
  destruct (nbc_delay_until_ns (delay_base d) pts Hbase ltac:(lia)) as [Hrange Hns].
  pose proof (nbc_delay_due_ns (nbc_delay_until (delay_base d) pts) ts Hrange Hts)
    as Hdue.
  assert (Huntil : delay_until d' = nbc_delay_until (delay_base d) pts
                   /\ delay_base d' = delay_base d).
  { subst d'. unfold nbc_delay_set.
    destruct (nbc_delay_due _ ts); [now split|].
    cbn [delay_state]. destruct (delay_state d), created; now split. }
  destruct Huntil as [Huntil Hb]. rewrite Huntil.
  split; [exact Hb|]. split; [exact Hrange|]. split; [exact Hns|].
  subst d' effects. unfold nbc_delay_set.
  destruct (nbc_delay_due _ ts) eqn:E.
  - split; [intros _; now split|].
    intros Hlt. pose proof (proj1 Hdue eq_refl) as Hle. lia.
  - split.
    + intros Hle. apply Hdue in Hle. discriminate Hle.
    + intros _. cbn [delay_state].
      destruct (delay_state d), created; cbn [fst snd app delay_state];
        first [ left; split; [reflexivity|];
                split; [cbn; intuition discriminate|]; auto
              | right; split; [reflexivity|];
                split; [reflexivity|]; split; [discriminate|reflexivity] ].
Qed.

Lemma nbc_delay_set_wakes_witness :
  let d := {| delay_base := {| tv_sec := 1700000000; tv_nsec := 999950000 |};
              delay_until := {| tv_sec := 0; tv_nsec := 0 |};
              delay_state := NBC_DELAY_OFF |} in
  let ts := {| tv_sec := 1700000001; tv_nsec := 500000000 |} in
  nbc_delay_set ts true d 180000
  = ({| delay_base := delay_base d;
        delay_until := {| tv_sec := 1700000002; tv_nsec := 999950000 |};
        delay_state := NBC_DELAY_RUN |},
     [Agent_cond_init; Agent_create])
  /\ timespec_ns (delay_until (fst (nbc_delay_set ts true d 180000)))
     = timespec_ns (delay_base d) + 180000 / 9 * 100000.
Proof.
  intros d ts. split; [reflexivity|].
  apply (nbc_delay_set_wakes ts true d 180000); cbn; lia.
Defined.

(** ** The output drivers *)

Section DriverFacts.

Variable strcasecmp : string -> string -> Z.
Variable load : nat -> load_result.
Variable open : nat -> bool.

Local Abbreviation frame := (driver_frame load).
Local Abbreviation works := (driver_works load open).

Lemma node_eta (n : fat_node_t) :
  n = set_node_plugin_class (node_plugin_class n) (set_node_ref (node_ref n) n).
Proof. now destruct n. Qed.

Lemma driver_frame_refl c : frame c c None.
Proof.
  split; auto.
  - intros a. apply node_eta.
  - intros a [=].
Qed.

Lemma driver_frame_trans c1 c2 c3 d :
  frame c1 c2 None -> frame c2 c3 d -> frame c1 c3 d.
Proof.
  intros [Hl1 Hm1 Hn1 Hr1 Hc1 Hld1 _] [Hl2 Hm2 Hn2 Hr2 Hc2 Hld2 Ht2].
  split.
  - intros ty. now rewrite Hl2.
  - intros ty. now rewrite Hm2.
  - intros a. rewrite (Hn2 a) at 1. rewrite (Hn1 a) at 1.
    now destruct (nodes c1 a).
  - intros a. rewrite Hr2, Hr1. reflexivity.
  - auto.
  - intros a H. destruct (Hld2 a H) as [H2|H2]; auto.
  - exact Ht2.
Qed.

Lemma driver_works_frame c c' a : frame c c' None -> works c' a <-> works c a.
Proof.
  intros [_ _ _ _ Hc Hld _]. unfold driver_works.
  split; intros [[H|H] Ho]; split; auto.
Qed.

Lemma frame_update_class a c :
  load a = LOAD_CLASS -> frame c (update_node a (set_node_plugin_class true) c) None.
Proof.
  intros Hload. split.
  - reflexivity.
  - intros ty. apply decoder_map_update_node.
  - intros b. cbn. destruct (Nat.eqb_spec b a) as [->|]; [|apply node_eta].
    now destruct (nodes c a).
  - intros b. cbn. destruct (Nat.eqb_spec b a) as [->|]; reflexivity.
  - intros b. cbn. destruct (Nat.eqb_spec b a) as [->|]; auto.
  - intros b. cbn. destruct (Nat.eqb_spec b a) as [->|]; auto.
  - intros b [=].
Qed.

Lemma frame_inc_ref a c :
  node_plugin_class (nodes c a) = true -> frame c (inc_node_ref a c) (Some a).
Proof.
  intros Hclass. unfold inc_node_ref. split.
  - reflexivity.
  - intros ty. apply decoder_map_update_node.
  - intros b. cbn. destruct (Nat.eqb_spec b a) as [->|]; [|apply node_eta].
    now destruct (nodes c a).
  - intros b. cbn. destruct (Nat.eqb_spec b a) as [->|Hne].
    + now rewrite bool_decide_eq_true_2.
    + rewrite bool_decide_eq_false_2; [reflexivity|congruence].
  - intros b. cbn. destruct (Nat.eqb_spec b a) as [->|]; auto.
  - intros b. cbn. destruct (Nat.eqb_spec b a) as [->|]; auto.
  - intros b [= ->]. cbn. now rewrite Nat.eqb_refl.
Qed.

(** [_load_video_driver] and [_load_audio_driver] return a driver
    exactly for a node that works. *)
Lemma load_driver_spec a c :
  match _load_driver load open a c with
  | Some (c', true) => works c a /\ frame c c' (Some a)
  | Some (c', false) => ~ works c a /\ frame c c' None
  | None => node_plugin_class (nodes c a) = false /\ load a = LOAD_NO_CLASS
  end.
Proof.
  unfold _load_driver, driver_works.
  destruct (node_plugin_class (nodes c a)) eqn:Hclass.
  - destruct (open a) eqn:Hopen.
    + split; [auto|]. now apply frame_inc_ref.
    + split; [|apply driver_frame_refl]. intros [_ H]. discriminate H.
  - destruct (load a) eqn:Hload.
    + split; [|apply driver_frame_refl].
      intros [[H|H] _]; discriminate H.
    + destruct (open a) eqn:Hopen.
      * split; [auto|].
        eapply driver_frame_trans; [exact (frame_update_class a c Hload)|].
        apply frame_inc_ref. cbn. now rewrite Nat.eqb_refl.
      * split; [|now apply frame_update_class]. intros [_ H]. discriminate H.
    + now split.
Qed.

(** Auto-probing takes the first node of the list that is eligible and
    works. *)
Lemma pick_driver_auto eligible c0 l : forall c,
  (forall a, a ∈ l -> load a <> LOAD_NO_CLASS) ->
  frame c0 c None ->
  exists c' d,
    pick_driver load open true eligible l c = Some (c', d)
    /\ frame c0 c' d
    /\ match d with
       | Some a =>
           eligible a = true /\ works c0 a
           /\ exists l1 l2, l = l1 ++ a :: l2
                            /\ forall b, b ∈ l1 -> ~ (eligible b = true /\ works c0 b)
       | None => forall b, b ∈ l -> ~ (eligible b = true /\ works c0 b)
       end.
Proof.
  induction l as [|a rest IH]; intros c Hload Hframe.
  - exists c, None. split; [reflexivity|]. split; [exact Hframe|].
    intros b Hb. now apply elem_of_nil in Hb.
  - assert (Hrest : forall b, b ∈ rest -> load b <> LOAD_NO_CLASS)
      by (intros b Hb; apply Hload; now right).
    cbn [pick_driver]. destruct (eligible a) eqn:Hel.
    + pose proof (load_driver_spec a c) as Hspec.
      destruct (_load_driver load open a c) as [[c1 [|]]|].
      * destruct Hspec as [Hw Hf1].
        exists c1, (Some a). split; [reflexivity|].
        split; [eapply driver_frame_trans; eassumption|].
        split; [exact Hel|]. split; [now apply (driver_works_frame c0 c)|].
        exists [], rest. split; [reflexivity|].
        intros b Hb. now apply elem_of_nil in Hb.
      * destruct Hspec as [Hw Hf1].
        assert (Hframe1 : frame c0 c1 None)
          by (eapply driver_frame_trans; eassumption).
        destruct (IH c1 Hrest Hframe1) as (c' & d & Hpick & Hf & Hd).
        exists c', d. split; [exact Hpick|]. split; [exact Hf|].
        assert (Hna : ~ (eligible a = true /\ works c0 a)).
        { intros [_ H]. apply Hw. now apply (driver_works_frame c0 c). }
        destruct d as [t|].
        -- destruct Hd as (Het & Hwt & l1 & l2 & -> & Hl1).
           split; [exact Het|]. split; [exact Hwt|].
           exists (a :: l1), l2. split; [reflexivity|].
           intros b Hb. apply elem_of_cons in Hb as [->|Hb]; auto.
        -- intros b Hb. apply elem_of_cons in Hb as [->|Hb]; auto.
      * destruct Hspec as [_ Hno]. exfalso. apply (Hload a); [now left|exact Hno].
    + destruct (IH c Hrest Hframe) as (c' & d & Hpick & Hf & Hd).
      exists c', d. split; [exact Hpick|]. split; [exact Hf|].
      assert (Hna : ~ (eligible a = true /\ works c0 a)).
      { intros [H _]. congruence. }
      destruct d as [t|].
      * destruct Hd as (Het & Hwt & l1 & l2 & -> & Hl1).
        split; [exact Het|]. split; [exact Hwt|].
        exists (a :: l1), l2. split; [reflexivity|].
        intros b Hb. apply elem_of_cons in Hb as [->|Hb]; auto.
      * intros b Hb. apply elem_of_cons in Hb as [->|Hb]; auto.
Qed.

(** A driver asked for by name: only the first eligible node of the
    list is tried. *)
Lemma pick_driver_none eligible c l :
  (forall b, b ∈ l -> eligible b = false) ->
  pick_driver load open false eligible l c = Some (c, None).
Proof.
  induction l as [|a rest IH]; intros Hnone; [reflexivity|].
  cbn [pick_driver]. rewrite (Hnone a) by (apply elem_of_cons; now left).
  apply IH. intros b Hb. apply Hnone. apply elem_of_cons. now right.
Qed.

Lemma pick_driver_first eligible c l1 a l2 :
  (forall b, b ∈ l1 -> eligible b = false) ->
  eligible a = true ->
  pick_driver load open false eligible (l1 ++ a :: l2) c
  = match _load_driver load open a c with
    | Some (c1, true) => Some (c1, Some a)
    | Some (c1, false) => Some (c1, None)
    | None => None
    end.
Proof.
  induction l1 as [|x l1 IH]; intros Hl1 Ha; cbn [app pick_driver].
  - now rewrite Ha.
  - rewrite (Hl1 x) by (apply elem_of_cons; now left).
    apply IH; [|exact Ha]. intros b Hb. apply Hl1. apply elem_of_cons. now right.
Qed.

Lemma pick_driver_named eligible (wanted : nat -> Prop) c l :
  (forall a, eligible a = true <-> wanted a) ->
  named_driver_outcome load open c wanted l
    (pick_driver load open false eligible l c).
Proof.
  intros Hw.
  assert (Hnot : forall b, ~ wanted b -> eligible b = false).
  { intros b Hb. destruct (eligible b) eqn:E; [|reflexivity].
    exfalso. now apply Hb, Hw. }
  split.
  - intros Hnone. apply pick_driver_none. intros b Hb. now apply Hnot, Hnone.
  - intros l1 a l2 -> Hl1 Ha.
    rewrite pick_driver_first;
      [|intros b Hb; now apply Hnot, Hl1|now apply Hw].
    split.
    + intros [Hclass Hload]. unfold _load_driver. now rewrite Hclass, Hload.
    + intros Hnl. pose proof (load_driver_spec a c) as Hspec.
      destruct (_load_driver load open a c) as [[c1 [|]]|].
      * destruct Hspec as [Hworks Hf]. exists c1, (Some a).
        split; [reflexivity|]. split; [exact Hf|]. left. now split.
      * destruct Hspec as [Hworks Hf]. exists c1, None.
        split; [reflexivity|]. split; [exact Hf|]. right. now split.
      * contradiction.
Qed.

Lemma frame_fields c c' d a :
  frame c c' d ->
  node_id (nodes c' a) = node_id (nodes c a)
  /\ node_priority (nodes c' a) = node_priority (nodes c a)
  /\ ainfo_priority (nodes c' a) = ainfo_priority (nodes c a)
  /\ ainfo_visual_type (nodes c' a) = ainfo_visual_type (nodes c a).
Proof. intros [_ _ Hn _ _ _ _]. rewrite (Hn a). now destruct (nodes c a). Qed.

(** The loops of the two functions are walks of [pick_driver]. *)
Lemma audio_driver_walk_auto c0 l : forall c,
  frame c0 c None ->
  audio_driver_walk strcasecmp load open None l c
  = pick_driver load open true (fun a => ainfo_priority (nodes c0 a) >=? 0) l c.
Proof.
  induction l as [|a rest IH]; intros c Hframe; [reflexivity|].
  cbn [audio_driver_walk pick_driver].
  destruct (frame_fields c0 c None a Hframe) as (_ & _ & -> & _).
  destruct (ainfo_priority (nodes c0 a) >=? 0); [|now apply IH].
  pose proof (load_driver_spec a c) as Hspec.
  destruct (_load_driver load open a c) as [[c1 [|]]|]; try reflexivity.
  apply IH. eapply driver_frame_trans; [exact Hframe|apply Hspec].
Qed.

Lemma audio_driver_walk_named c id l :
  audio_driver_walk strcasecmp load open (Some id) l c
  = pick_driver load open false
      (fun a => strcasecmp (node_id (nodes c a)) id =? 0) l c.
Proof.
  induction l as [|a rest IH]; [reflexivity|].
  cbn [audio_driver_walk pick_driver].
  destruct (strcasecmp (node_id (nodes c a)) id =? 0); [|exact IH].
  now destruct (_load_driver load open a c) as [[c1 [|]]|].
Qed.

Lemma video_driver_walk_auto c0 visual_type l : forall c,
  frame c0 c None ->
  video_driver_walk strcasecmp load open None visual_type l c
  = pick_driver load open true
      (fun a => ainfo_visual_type (nodes c0 a) =? visual_type) l c.
Proof.
  induction l as [|a rest IH]; intros c Hframe; [reflexivity|].
  cbn [video_driver_walk pick_driver].
  destruct (frame_fields c0 c None a Hframe) as (_ & _ & _ & ->).
  destruct (ainfo_visual_type (nodes c0 a) =? visual_type); [|now apply IH].
  pose proof (load_driver_spec a c) as Hspec.
  destruct (_load_driver load open a c) as [[c1 [|]]|]; try reflexivity.
  apply IH. eapply driver_frame_trans; [exact Hframe|apply Hspec].
Qed.

Lemma video_driver_walk_named c id visual_type l :
  video_driver_walk strcasecmp load open (Some id) visual_type l c
  = pick_driver load open false
      (fun a => (ainfo_visual_type (nodes c a) =? visual_type)
                && (strcasecmp (node_id (nodes c a)) id =? 0)) l c.
Proof.
  induction l as [|a rest IH]; [reflexivity|].
  cbn [video_driver_walk pick_driver].
  destruct (ainfo_visual_type (nodes c a) =? visual_type); [|exact IH].
  cbn [andb].
  destruct (strcasecmp (node_id (nodes c a)) id =? 0); [|exact IH].
  now destruct (_load_driver load open a c) as [[c1 [|]]|].
Qed.

Lemma falling_behind nd l1 a l2 b :
  falling nd (l1 ++ a :: l2) -> b ∈ l2 -> node_priority (nd b) <= node_priority (nd a).
Proof.
  unfold falling. intros Hs Hb.
  induction l1 as [|x l1 IH]; cbn [app] in Hs.
  - apply StronglySorted_cons in Hs as [Hall _].
    rewrite Forall_forall in Hall. specialize (Hall b Hb). lia.
  - apply StronglySorted_cons in Hs as [_ Hs]. auto.
Qed.

Lemma first_working_of c (wanted : nat -> Prop) l d :
  falling (nodes c) l ->
  match d with
  | Some a =>
      wanted a /\ works c a
      /\ exists l1 l2, l = l1 ++ a :: l2
                       /\ forall b, b ∈ l1 -> ~ (wanted b /\ works c b)
  | None => forall b, b ∈ l -> ~ (wanted b /\ works c b)
  end ->
  first_working load open c wanted l d.
Proof.
  intros Hfall. destruct d as [a|]; cbn [first_working]; [|auto].
  intros (Hwa & Hworks & l1 & l2 & -> & Hl1).
  split; [exact Hwa|]. split; [exact Hworks|].
  split; [now exists l1, l2|].
  intros b Hb Hwb Hworksb.
  apply elem_of_app in Hb as [Hb|Hb]; [exfalso; now apply (Hl1 b)|].
  apply elem_of_cons in Hb as [->|Hb]; [lia|].
  now apply (falling_behind (nodes c) l1 a l2 b).
Qed.

(** X19.  Auto-probing opens the best driver that works.  In a catalog
    whose lists are in falling priority, with no statically linked
    plugin whose [init] returns [NULL], [xine_open_audio_driver] and
    [_x_load_video_output_plugin] with no id, or with the id
    [auto] in any case of letters, take the first node in the order
    of the list that works (its class is loaded or loads, and
    [open_plugin] returns a driver) among the audio drivers of
    priority 0 or more, or the video drivers of the visual type: no
    working driver of a higher priority is passed over, an audio driver
    of negative priority is never probed, and [NULL] is returned only
    when none of them works.  The reference of the driver's node is
    counted once; the lists, the decoder maps and the other counts
    stay, and no class is disposed of. *)
Theorem auto_probe_opens_best_driver (c : plugin_catalog_t) (id : option string)
    (visual_type : Z) :
  catalog_ok c ->
  (forall a, load a <> LOAD_NO_CLASS) ->
  match id with
  | Some s => strcasecmp s "auto" = 0
  | None => True
  end ->
  (exists c' d,
     xine_open_audio_driver strcasecmp load open id c = Some (c', d)
     /\ driver_frame load c c' d
     /\ first_working load open c (fun a => ainfo_priority (nodes c a) >= 0)
          (plugin_lists c PLUGIN_AUDIO_OUT) d)
  /\ (exists c' d,
        _x_load_video_output_plugin strcasecmp load open id visual_type c
        = Some (c', d)
        /\ driver_frame load c c' d
        /\ first_working load open c
             (fun a => ainfo_visual_type (nodes c a) = visual_type)
             (plugin_lists c PLUGIN_VIDEO_OUT) d).
Proof.
  intros Hok Hload Hid.
  assert (Hauto : match id with
                  | Some s => if strcasecmp s "auto" =? 0 then None else Some s
                  | None => None
                  end = None).
  { destruct id as [s|]; [|reflexivity]. now rewrite Hid. }
  split.
  - unfold xine_open_audio_driver. rewrite Hauto.
    rewrite (audio_driver_walk_auto c _ c (driver_frame_refl c)).
    destruct (pick_driver_auto (fun a => ainfo_priority (nodes c a) >=? 0) c
                (plugin_lists c PLUGIN_AUDIO_OUT) c)
      as (c' & d & Hpick & Hf & Hd); [auto|apply driver_frame_refl|].
    exists c', d. split; [exact Hpick|]. split; [exact Hf|].
    apply first_working_of; [apply (cok_falling c Hok)|].
    destruct d as [a|].
    + destruct Hd as (Ha & Hw & l1 & l2 & Hl & Hl1).
      split; [apply Z.geb_le in Ha; lia|]. split; [exact Hw|].
      exists l1, l2. split; [exact Hl|].
      intros b Hb [Hp Hwb]. apply (Hl1 b Hb). split; [|exact Hwb].
      apply Z.geb_le. lia.
    + intros b Hb [Hp Hwb]. apply (Hd b Hb). split; [|exact Hwb].
      apply Z.geb_le. lia.
  - unfold _x_load_video_output_plugin. rewrite Hauto.
    rewrite (video_driver_walk_auto c visual_type _ c (driver_frame_refl c)).
    destruct (pick_driver_auto (fun a => ainfo_visual_type (nodes c a) =? visual_type)
                c (plugin_lists c PLUGIN_VIDEO_OUT) c)
      as (c' & d & Hpick & Hf & Hd); [auto|apply driver_frame_refl|].
    exists c', d. split; [exact Hpick|]. split; [exact Hf|].
    apply first_working_of; [apply (cok_falling c Hok)|].
    destruct d as [a|].
    + destruct Hd as (Ha & Hw & l1 & l2 & Hl & Hl1).
      split; [now apply Z.eqb_eq in Ha|]. split; [exact Hw|].
      exists l1, l2. split; [exact Hl|].
      intros b Hb [Hp Hwb]. apply (Hl1 b Hb). split; [|exact Hwb].
      now apply Z.eqb_eq.
    + intros b Hb [Hp Hwb]. apply (Hd b Hb). split; [|exact Hwb].
      now apply Z.eqb_eq.
Qed.

(** X20.  A driver asked for by name is tried once.  With an id other
    than [auto], [xine_open_audio_driver] and
    [_x_load_video_output_plugin] try only the first node of the list
    whose id is the one asked for in the sense of [strcasecmp] (for
    video: among the nodes of the visual type): the driver of that node
    is returned if it works, and [NULL] if it does not or if there is
    no such node; a negative priority does not keep an audio driver
    from being opened by name.  The catalog changes as for
    auto-probing.  The one case without result is that node being a
    statically linked plugin without class whose [init] returns
    [NULL]: [_load_plugin_class] reports success, and [open_plugin] is
    called through the [NULL] class. *)
Theorem named_driver_is_tried_once (c : plugin_catalog_t) (id : string)
    (visual_type : Z) :
  strcasecmp id "auto" <> 0 ->
  named_driver_outcome load open c
    (fun a => strcasecmp (node_id (nodes c a)) id = 0)
    (plugin_lists c PLUGIN_AUDIO_OUT)
    (xine_open_audio_driver strcasecmp load open (Some id) c)
  /\ named_driver_outcome load open c
       (fun a => ainfo_visual_type (nodes c a) = visual_type
                 /\ strcasecmp (node_id (nodes c a)) id = 0)
       (plugin_lists c PLUGIN_VIDEO_OUT)
       (_x_load_video_output_plugin strcasecmp load open (Some id) visual_type c).
Proof.
  intros Hid. apply Z.eqb_neq in Hid.
  split.
  - unfold xine_open_audio_driver. rewrite Hid, audio_driver_walk_named.
    apply pick_driver_named. intros a. apply Z.eqb_eq.
  - unfold _x_load_video_output_plugin. rewrite Hid, video_driver_walk_named.
    apply pick_driver_named. intros a.
    rewrite andb_true_iff, !Z.eqb_eq. reflexivity.
Qed.

End DriverFacts.

Lemma sample_driver_catalog_ok : catalog_ok sample_driver_catalog.
Proof.
  split.
  - reflexivity.
  - reflexivity.
  - intros []; cbn; unfold falling; repeat constructor; cbn; lia.
  - constructor.
  - intros []; cbn; repeat constructor; intros H;
      repeat (apply elem_of_cons in H as [H|H]); try discriminate H;
      now apply elem_of_nil in H.
  - intros [] a Ha; cbn in Ha; repeat (apply elem_of_cons in Ha as [->|Ha]);
      try reflexivity; now apply elem_of_nil in Ha.
  - intros [] a Ha; cbn in Ha; repeat (apply elem_of_cons in Ha as [->|Ha]);
      try (cbn; lia); now apply elem_of_nil in Ha.
Qed.

Lemma auto_probe_opens_best_driver_witness :
  exists c',
    xine_open_audio_driver sample_strcasecmp sample_driver_load sample_driver_open
      (Some "auto"%string) sample_driver_catalog = Some (c', Some 1%nat)
    /\ first_working sample_driver_load sample_driver_open sample_driver_catalog
         (fun a => ainfo_priority (nodes sample_driver_catalog a) >= 0)
         (plugin_lists sample_driver_catalog PLUGIN_AUDIO_OUT) (Some 1%nat).
Proof.
  destruct (auto_probe_opens_best_driver sample_strcasecmp sample_driver_load
              sample_driver_open sample_driver_catalog (Some "auto"%string) 1
              sample_driver_catalog_ok)
    as [(c' & d & Hopen & _ & Hbest) _].
  - intros a. discriminate.
  - reflexivity.
  - assert (Hd : d = Some 1%nat).
    { assert (E : option_map snd
                    (xine_open_audio_driver sample_strcasecmp sample_driver_load
                       sample_driver_open (Some "auto"%string) sample_driver_catalog)
                  = Some (Some 1%nat)) by reflexivity.
      rewrite Hopen in E. cbn in E. congruence. }
    subst d. now exists c'.
Defined.

Lemma named_driver_is_tried_once_witness :
  (exists c',
     xine_open_audio_driver sample_strcasecmp sample_driver_load sample_driver_open
       (Some "pulseaudio"%string) sample_driver_catalog = Some (c', None)
     /\ driver_frame sample_driver_load sample_driver_catalog c' None)
  /\ (exists c',
        xine_open_audio_driver sample_strcasecmp sample_driver_load sample_driver_open
          (Some "alsa"%string) sample_driver_catalog = Some (c', Some 1%nat)
        /\ node_ref (nodes c' 1%nat) = 1)
  /\ xine_open_audio_driver sample_strcasecmp sample_driver_no_class sample_driver_open
       (Some "alsa"%string) sample_driver_catalog = None.
Proof.
  split; [|split].
  - destruct (named_driver_is_tried_once sample_strcasecmp sample_driver_load
                sample_driver_open sample_driver_catalog "pulseaudio" 1)
      as [[_ Hfirst] _]; [discriminate|].
    destruct (Hfirst [] 0%nat [1%nat]) as [_ Hres].
    + reflexivity.
    + intros b Hb. now apply elem_of_nil in Hb.
    + reflexivity.
    + destruct Hres as (c' & d & Hopen & Hf & [[_ [_ Hw]]|[-> _]]).
      * intros [_ H]. discriminate H.
      * discriminate Hw.
      * now exists c'.
  - destruct (named_driver_is_tried_once sample_strcasecmp sample_driver_load
                sample_driver_open sample_driver_catalog "alsa" 1)
      as [[_ Hfirst] _]; [discriminate|].
    destruct (Hfirst [0%nat] 1%nat []) as [_ Hres].
    + reflexivity.
    + intros b Hb. apply elem_of_cons in Hb as [->|Hb];
        [discriminate|now apply elem_of_nil in Hb].
    + reflexivity.
    + destruct Hres as (c' & d & Hopen & Hf & [[-> _]|[_ Hnw]]).
      * intros [_ H]. discriminate H.
      * exists c'. split; [exact Hopen|].
        rewrite (df_ref _ _ _ _ Hf 1%nat). reflexivity.
      * exfalso. apply Hnw. split; [now right|reflexivity].
  - destruct (named_driver_is_tried_once sample_strcasecmp sample_driver_no_class
                sample_driver_open sample_driver_catalog "alsa" 1)
      as [[_ Hfirst] _]; [discriminate|].
    destruct (Hfirst [0%nat] 1%nat []) as [Hlost _].
    + reflexivity.
    + intros b Hb. apply elem_of_cons in Hb as [->|Hb];
        [discriminate|now apply elem_of_nil in Hb].
    + reflexivity.
    + apply Hlost. split; reflexivity.
Defined.

(** ** Preloading *)

Section PreloadFacts.

Variable must_preload : nat -> bool.
Variable probe_class : nat -> bool.
Variable lib_unavailable : nat -> bool.
Variable load : nat -> load_result.

Local Abbreviation tried := (preload_tried must_preload probe_class lib_unavailable).
Local Abbreviation keeps := (preload_keeps must_preload probe_class lib_unavailable load).
Local Abbreviation class_after :=
  (preload_class must_preload probe_class lib_unavailable load).
Local Abbreviation walk :=
  (preload_walk must_preload probe_class lib_unavailable load).
Local Abbreviation pre :=
  (preloaded must_preload probe_class lib_unavailable load).

Lemma node_class_eta (n : fat_node_t) :
  n = set_node_plugin_class (node_plugin_class n) n.
Proof. now destruct n. Qed.

Lemma node_info_trans (n1 n2 n3 : fat_node_t) :
  n2 = set_node_plugin_class (node_plugin_class n2) n1 ->
  n3 = set_node_plugin_class (node_plugin_class n3) n2 ->
  n3 = set_node_plugin_class (node_plugin_class n3) n1.
Proof. intros H1 H2. rewrite H2, H1. now destruct n1. Qed.

Lemma delete_at_length (done : list nat) a rest :
  delete (length done) (done ++ a :: rest) = done ++ rest.
Proof.
  induction done as [|x done IH]; [reflexivity|].
  cbn [length app]. change (x :: delete (length done) (done ++ a :: rest) = x :: done ++ rest).
  now rewrite IH.
Qed.

Lemma filter_keeps_ext c c' (l : list nat) :
  (forall a, a ∈ l -> nodes c' a = nodes c a) ->
  filter (fun a => keeps c' a = true) l = filter (fun a => keeps c a = true) l.
Proof.
  induction l as [|x l IH]; intros Hext; [reflexivity|].
  rewrite !filter_cons.
  assert (Hx : keeps c' x = keeps c x).
  { unfold preload_keeps, preload_tried. rewrite (Hext x); [reflexivity|now left]. }
  rewrite Hx, IH; [reflexivity|].
  intros a Ha. apply Hext. now right.
Qed.

Lemma class_after_ext c c' a :
  nodes c' a = nodes c a -> class_after c' a = class_after c a.
Proof. intros H. unfold preload_class, preload_tried. now rewrite H. Qed.

(** One node: it stays or goes, and its class is as [preload_class]
    tells. *)
Lemma preload_node_spec a i l c :
  exists c1,
    preload_node must_preload probe_class lib_unavailable load a i l c
    = (if keeps c a then l else delete (Z.to_nat i) l, c1,
       if keeps c a then i else i - 1)
    /\ (forall b, nodes c1 b
                  = if Nat.eqb b a then set_node_plugin_class (class_after c a) (nodes c a)
                    else nodes c b)
    /\ (forall ty, plugin_lists c1 ty = plugin_lists c ty)
    /\ (forall ty, decoder_map ty c1 = decoder_map ty c).
Proof.
  assert (Hsame : forall b,
             nodes c b
             = if Nat.eqb b a
               then set_node_plugin_class (node_plugin_class (nodes c a)) (nodes c a)
               else nodes c b).
  { intros b. destruct (Nat.eqb_spec b a) as [->|]; [|reflexivity].
    now destruct (nodes c a). }
  unfold preload_node, preload_keeps, preload_class, preload_tried.
  destruct (must_preload a || probe_class a) eqn:Hneed; cbn [negb andb].
  2: { exists c. repeat split; auto. }
  destruct (node_plugin_class (nodes c a)) eqn:Hclass; cbn [negb andb].
  { exists c. repeat split; auto. }
  destruct (lib_unavailable a) eqn:Hlib; cbn [negb andb].
  { exists c. repeat split; auto. }
  destruct (load a) eqn:Hload; cbn [negb andb].
  - exists c. rewrite ?andb_false_r. repeat split; auto.
  - destruct (must_preload a) eqn:Hmust; cbn [andb].
    + exists (update_node a (set_node_plugin_class true) c).
      split; [reflexivity|]. split; [reflexivity|].
      split; [reflexivity|]. intros ty. apply decoder_map_update_node.
    + exists (update_node a (set_node_plugin_class false)
                (update_node a (set_node_plugin_class true) c)).
      split; [reflexivity|]. split.
      * intros b. cbn. destruct (Nat.eqb_spec b a) as [->|Hne].
        -- rewrite Nat.eqb_refl. reflexivity.
        -- destruct (Nat.eqb_spec b a); [contradiction|reflexivity].
      * split; [reflexivity|]. intros ty. now rewrite !decoder_map_update_node.
  - destruct (must_preload a) eqn:Hmust; cbn [andb].
    + exists c. rewrite ?andb_false_r. repeat split; auto.
    + exists (update_node a (set_node_plugin_class false) c).
      split; [reflexivity|]. split; [reflexivity|].
      split; [reflexivity|]. intros ty. apply decoder_map_update_node.
Qed.

(** The loop visits every node once, in order, with fuel to spare. *)
Lemma preload_walk_spec todo : forall done c fuel,
  (length todo < fuel)%nat ->
  NoDup todo ->
  exists c',
    walk fuel (Z.of_nat (length done)) (done ++ todo) c
    = Some (done ++ filter (fun a => keeps c a = true) todo, c')
    /\ pre c c' (fun a => a ∈ todo)
    /\ (forall ty, plugin_lists c' ty = plugin_lists c ty).
Proof.
  induction todo as [|a rest IH]; intros done c fuel Hfuel Hnodup.
  - destruct fuel as [|fuel]; [cbn in Hfuel; lia|]. cbn [preload_walk].
    rewrite app_nil_r.
    destruct (Z.ltb_spec (Z.of_nat (length done)) (Z.of_nat (length done))); [lia|].
    exists c. split; [now rewrite filter_nil, app_nil_r|].
    split; [|reflexivity].
    split; [intros a; apply node_class_eta| |reflexivity|reflexivity].
    intros a Ha. now apply elem_of_nil in Ha.
  - destruct fuel as [|fuel]; [cbn in Hfuel; lia|]. cbn [preload_walk].
    apply NoDup_cons in Hnodup as [Hnotin Hnodup].
    destruct (Z.ltb_spec (Z.of_nat (length done))
                (Z.of_nat (length (done ++ a :: rest)))) as [_|Hge];
      [|rewrite length_app in Hge; cbn in Hge; lia].
    rewrite Nat2Z.id.
    rewrite (list_lookup_middle done rest a (length done) eq_refl).
    destruct (preload_node_spec a (Z.of_nat (length done)) (done ++ a :: rest) c)
      as (c1 & -> & Hn1 & Hl1 & Hm1).
    rewrite Nat2Z.id, delete_at_length.
    assert (Hrest1 : forall b, b ∈ rest -> nodes c1 b = nodes c b).
    { intros b Hb. rewrite Hn1. destruct (Nat.eqb_spec b a) as [->|]; [contradiction|].
      reflexivity. }
    assert (Hpre : forall c', pre c1 c' (fun x => x ∈ rest) ->
                              pre c c' (fun x => x ∈ a :: rest)).
    { intros c' [Hi Hv Ho Hm]. split.
      - intros b. apply (node_info_trans (nodes c b) (nodes c1 b)); [|apply Hi].
        rewrite Hn1. destruct (Nat.eqb_spec b a) as [->|]; [|apply node_class_eta].
        now destruct (nodes c a).
      - intros b Hb. apply elem_of_cons in Hb as [->|Hb].
        + rewrite (Ho a Hnotin), Hn1, Nat.eqb_refl. reflexivity.
        + rewrite (Hv b Hb), (Hrest1 b Hb), (class_after_ext c c1 b (Hrest1 b Hb)).
          reflexivity.
      - intros b Hb. rewrite Ho, Hn1.
        + destruct (Nat.eqb_spec b a) as [->|]; [|reflexivity].
          exfalso. apply Hb. now left.
        + intros Hin. apply Hb. now right.
      - intros ty. now rewrite Hm, Hm1. }
    rewrite filter_cons.
    destruct (keeps c a) eqn:Hkeep.
    + destruct (IH (done ++ [a]) c1 fuel) as (c' & Hwalk & Hpre' & Hl');
        [cbn in Hfuel; lia|exact Hnodup|].
      rewrite length_app in Hwalk. cbn [length] in Hwalk.
      rewrite Nat2Z.inj_add in Hwalk. rewrite <- app_assoc in Hwalk.
      cbn [app] in Hwalk. change (Z.of_nat 1) with 1 in Hwalk.
      rewrite Hwalk. exists c'.
      rewrite decide_True by reflexivity.
      rewrite (filter_keeps_ext c c1 rest Hrest1), <- app_assoc.
      split; [reflexivity|]. split; [now apply Hpre|].
      intros ty. now rewrite Hl', Hl1.
    + destruct (IH done c1 fuel) as (c' & Hwalk & Hpre' & Hl');
        [cbn in Hfuel; lia|exact Hnodup|].
      replace (Z.of_nat (length done) - 1 + 1) with (Z.of_nat (length done)) by lia.
      rewrite Hwalk. exists c'.
      rewrite decide_False by discriminate.
      rewrite (filter_keeps_ext c c1 rest Hrest1).
      split; [reflexivity|]. split; [now apply Hpre|].
      intros ty. now rewrite Hl', Hl1.
Qed.

(** One list of the catalog. *)
Lemma load_required_list ty c :
  NoDup (plugin_lists c ty) ->
  exists c',
    _load_required_plugins must_preload probe_class lib_unavailable load ty c = Some c'
    /\ plugin_lists c' ty = filter (fun a => keeps c a = true) (plugin_lists c ty)
    /\ (forall ty', ty' <> ty -> plugin_lists c' ty' = plugin_lists c ty')
    /\ pre c c' (fun a => a ∈ plugin_lists c ty).
Proof.
  intros Hnodup. unfold _load_required_plugins.
  destruct (preload_walk_spec (plugin_lists c ty) [] c (S (length (plugin_lists c ty)))
              ltac:(lia) Hnodup) as (c' & Hwalk & [Hi Hv Ho Hm] & Hl).
  cbn [app length] in Hwalk. change (Z.of_nat 0) with 0 in Hwalk. rewrite Hwalk.
  eexists. split; [reflexivity|].
  split; [cbn; now rewrite decide_True|].
  split; [intros ty' Hne; cbn; rewrite decide_False by exact Hne; apply Hl|].
  split; [exact Hi|exact Hv|exact Ho|].
  intros ty'. now rewrite decoder_map_set_plugin_list.
Qed.

(** The lists one after the other: the nodes of a list are of its
    type, so that the lists do not meet. *)
Lemma load_required_lists tys : forall c,
  NoDup tys ->
  (forall ty, ty ∈ tys -> NoDup (plugin_lists c ty)) ->
  (forall ty a, ty ∈ tys -> a ∈ plugin_lists c ty -> node_type (nodes c a) = ty) ->
  exists c',
    foldl (fun oc ty =>
             oc ≫= _load_required_plugins must_preload probe_class lib_unavailable
                      load ty) (Some c) tys = Some c'
    /\ (forall ty, ty ∈ tys ->
          plugin_lists c' ty = filter (fun a => keeps c a = true) (plugin_lists c ty))
    /\ (forall ty, ty ∉ tys -> plugin_lists c' ty = plugin_lists c ty)
    /\ pre c c' (fun a => exists ty, ty ∈ tys /\ a ∈ plugin_lists c ty).
Proof.
  induction tys as [|ty tys IH]; intros c Htys Hnodup Htyped.
  - exists c. split; [reflexivity|].
    split; [intros ty Hty; now apply elem_of_nil in Hty|].
    split; [reflexivity|].
    split; [intros a; apply node_class_eta| |reflexivity|reflexivity].
    intros a (ty & Hty & _). now apply elem_of_nil in Hty.
  - apply NoDup_cons in Htys as [Hnotin Htys].
    destruct (load_required_list ty c) as (c1 & Hstep & Hl1 & Hl1' & [Hi1 Hv1 Ho1 Hm1]);
      [apply Hnodup; now left|].
    cbn [foldl mbind option_bind]. rewrite Hstep.
    assert (Hsame : forall ty' a, ty' ∈ tys -> a ∈ plugin_lists c ty' ->
                                  nodes c1 a = nodes c a).
    { intros ty' a Hty' Ha. apply Ho1. intros Hin.
      assert (ty' = ty); [|subst; contradiction].
      rewrite <- (Htyped ty' a); [|now right|exact Ha].
      apply Htyped; [now left|exact Hin]. }
    assert (Hlists : forall ty', ty' ∈ tys -> plugin_lists c1 ty' = plugin_lists c ty').
    { intros ty' Hty'. apply Hl1'. intros ->. contradiction. }
    destruct (IH c1 Htys) as (c' & Hfold & Hl & Hl' & [Hi Hv Ho Hm]).
    { intros ty' Hty'. rewrite (Hlists ty' Hty'). apply Hnodup. now right. }
    { intros ty' a Hty' Ha. rewrite (Hlists ty' Hty') in Ha.
      rewrite (Hsame ty' a Hty' Ha). apply Htyped; [now right|exact Ha]. }
    exists c'. split; [exact Hfold|]. split; [|split].
    + intros ty' Hty'. apply elem_of_cons in Hty' as [->|Hty'].
      * now rewrite (Hl' ty Hnotin).
      * rewrite (Hl ty' Hty'), (Hlists ty' Hty').
        apply filter_keeps_ext. intros a Ha. now apply (Hsame ty').
    + intros ty' Hty'. rewrite Hl'.
      * apply Hl1'. intros ->. apply Hty'. now left.
      * intros Hin. apply Hty'. now right.
    + split.
      * intros a. apply (node_info_trans (nodes c a) (nodes c1 a)); [apply Hi1|apply Hi].
      * intros a (ty' & Hty' & Ha). apply elem_of_cons in Hty' as [->|Hty'].
        -- rewrite Ho, (Hv1 a Ha); [reflexivity|].
           intros (ty' & Hty' & Ha'). rewrite (Hlists ty' Hty') in Ha'.
           assert (ty' = ty); [|subst; contradiction].
           rewrite <- (Htyped ty' a); [|now right|exact Ha'].
           apply Htyped; [now left|exact Ha].
        -- rewrite Hv.
           ++ rewrite (Hsame ty' a Hty' Ha).
              now rewrite (class_after_ext c c1 a (Hsame ty' a Hty' Ha)).
           ++ exists ty'. split; [exact Hty'|]. now rewrite (Hlists ty' Hty').
      * intros a Ha. rewrite Ho, Ho1; [reflexivity| |].
        -- intros Hin. apply Ha. exists ty. split; [now left|exact Hin].
        -- intros (ty' & Hty' & Ha'). apply Ha. exists ty'. split; [now right|].
           now rewrite <- (Hlists ty' Hty').
      * intros ty'. now rewrite Hm, Hm1.
Qed.

Lemma preloaded_fields c c' visited a :
  pre c c' visited ->
  node_priority (nodes c' a) = node_priority (nodes c a)
  /\ node_type (nodes c' a) = node_type (nodes c a)
  /\ ainfo_supported_types (nodes c' a) = ainfo_supported_types (nodes c a).
Proof. intros [Hi _ _ _]. rewrite (Hi a). now destruct (nodes c a). Qed.

(** X21.  [load_required_plugins] takes out of the catalog the plugins
    whose preload fails, and nothing else.  In a catalog whose lists
    hold nodes of their own type, none twice, every node of the eight
    plugin lists is visited once: a class is loaded for a node that
    asks for it (a plugin that must be preloaded, or a node to probe)
    and has no class yet, unless its library is not open; the node is
    removed from its list exactly when that fails.  The nodes that stay
    keep their order, a class loaded stays only for a plugin that must
    be preloaded, the modules list and the decoder maps are not
    touched.  So the catalog is still as [map_decoders] expects it, and
    the decoder maps made of it are in priority order. *)
Theorem load_required_plugins_removes_failures (c : plugin_catalog_t) :
  (forall ty, NoDup (plugin_lists c ty)) ->
  (forall ty a, a ∈ plugin_lists c ty -> node_type (nodes c a) = ty) ->
  exists c',
    load_required_plugins must_preload probe_class lib_unavailable load c = Some c'
    /\ (forall ty, ty <> PLUGIN_XINE_MODULE ->
          plugin_lists c' ty
          = filter (fun a => preload_keeps must_preload probe_class lib_unavailable
                               load c a = true) (plugin_lists c ty))
    /\ plugin_lists c' PLUGIN_XINE_MODULE = plugin_lists c PLUGIN_XINE_MODULE
    /\ preloaded must_preload probe_class lib_unavailable load c c'
         (fun a => exists ty, ty <> PLUGIN_XINE_MODULE /\ a ∈ plugin_lists c ty)
    /\ forall PLUGINS_PER_TYPE DECODER_MAX,
         scanned PLUGINS_PER_TYPE DECODER_MAX c ->
         scanned PLUGINS_PER_TYPE DECODER_MAX c'
         /\ priority_ordered DECODER_MAX (map_decoders PLUGINS_PER_TYPE DECODER_MAX c').
Proof.
  intros Hnodup Htyped. unfold load_required_plugins.
  set (tys := [PLUGIN_INPUT; PLUGIN_DEMUX; PLUGIN_AUDIO_DECODER; PLUGIN_VIDEO_DECODER;
               PLUGIN_SPU_DECODER; PLUGIN_AUDIO_OUT; PLUGIN_VIDEO_OUT; PLUGIN_POST]).
  assert (Htys : forall ty, ty ∈ tys <-> ty <> PLUGIN_XINE_MODULE).
  { intros ty. unfold tys. rewrite !elem_of_cons, elem_of_nil.
    destruct ty; split; intros H; try discriminate; try tauto; intuition discriminate. }
  assert (Hnd : NoDup tys).
  { unfold tys. repeat (apply NoDup_cons; split;
      [rewrite ?elem_of_cons, elem_of_nil; intuition discriminate|]).
    apply NoDup_nil_2. }
  destruct (load_required_lists tys c Hnd) as (c' & Hfold & Hl & Hl' & Hpre); auto.
  exists c'. split; [exact Hfold|].
  assert (Hpre' : pre c c'
                    (fun a => exists ty, ty <> PLUGIN_XINE_MODULE /\ a ∈ plugin_lists c ty)).
  { destruct Hpre as [Hi Hv Ho Hm]. split; [exact Hi| | |exact Hm].
    - intros a (ty & Hty & Ha). apply Hv. exists ty. split; [now apply Htys|exact Ha].
    - intros a Ha. apply Ho. intros (ty & Hty & Hin). apply Ha.
      exists ty. split; [now apply Htys|exact Hin]. }
  split; [intros ty Hty; apply Hl; now apply Htys|].
  split; [apply Hl'; intros H; now apply Htys in H|].
  split; [exact Hpre'|].
  intros P D [Hfall Hnodup' Htyped' Hmaps].
  assert (Hscan : scanned P D c').
  { split.
    - intros ty Hty.
      assert (Hne : ty <> PLUGIN_XINE_MODULE) by (intros ->; discriminate).
      rewrite (Hl ty (proj2 (Htys ty) Hne)).
      apply (falling_ext (nodes c)).
      + intros a _. apply (preloaded_fields c c' _ a Hpre').
      + eapply falling_sublist; [apply sublist_filter|now apply Hfall].
    - intros ty Hty.
      assert (Hne : ty <> PLUGIN_XINE_MODULE) by (intros ->; discriminate).
      rewrite (Hl ty (proj2 (Htys ty) Hne)). apply NoDup_filter, Hnodup.
    - intros ty a Hty Ha.
      assert (Hne : ty <> PLUGIN_XINE_MODULE) by (intros ->; discriminate).
      rewrite (Hl ty (proj2 (Htys ty) Hne)) in Ha.
      apply list_elem_of_filter in Ha as [_ Ha].
      destruct (preloaded_fields c c' _ a Hpre') as (_ & -> & _).
      now apply Htyped.
    - intros ty Hty. rewrite (pre_maps _ _ _ _ _ _ _ Hpre'). now apply Hmaps. }
  split; [exact Hscan|].
  apply (map_ok_ordered P). intros ty Hty. now apply map_decoders_ok.
Qed.

End PreloadFacts.

Lemma load_required_plugins_removes_failures_witness :
  exists c',
    load_required_plugins (fun _ => false) sample_probe (fun _ => false)
      sample_probe_load (sample_scan PLUGIN_VIDEO_DECODER) = Some c'
    /\ plugin_lists c' PLUGIN_VIDEO_DECODER = [0; 2]%nat
    /\ priority_ordered 2 (map_decoders 3 2 c').
Proof.
  destruct (load_required_plugins_removes_failures (fun _ => false) sample_probe
              (fun _ => false) sample_probe_load (sample_scan PLUGIN_VIDEO_DECODER))
    as (c' & Hload & Hlists & _ & _ & Hscan).
  - intros ty. cbn. destruct (decide (ty = PLUGIN_VIDEO_DECODER)); [|constructor].
    repeat (apply NoDup_cons; split;
      [rewrite ?elem_of_cons, elem_of_nil; intuition discriminate|]).
    constructor.
  - intros ty a. cbn. destruct (decide (ty = PLUGIN_VIDEO_DECODER)) as [->|];
      [reflexivity|]. intros H. now apply elem_of_nil in H.
  - exists c'. split; [exact Hload|]. split.
    + rewrite Hlists by discriminate. reflexivity.
    + apply (Hscan 3%nat 2%nat sample_scan_scanned).
Defined.
